(* ===== verification/_CoqProject ===== *)
-Q . S2P
Prelude.v
GoStd.v
GoNet.v
GoSlice.v
GoUrl.v
Envoy.v
Resources.v
AppConfig.v
Config.v
Api.v
Certs.v
Utils.v
ConfigStore.v
Discovery.v
StoreFacts.v
ConfigMapsStore.v
System.v
Metrics.v
Callbacks.v
AccessLog.v
LogFiles.v
Web.v
Samples.v
ConfigTheorems.v
ConfigExamples.v
WebTheorems.v
ApiTheorems.v
ApiExamples.v
Gencerts.v
ControlPlane.v
WebServer.v
Cli.v
TrustTheorems.v
StoreTheorems.v
Listers.v
StoreExamples.v
WorldFacts.v
MapsTheorems.v
MapsExamples.v
SystemTheorems.v
SystemExamples.v
Lifetimes.v
Progress.v
Serving.v
Convergence.v
Contents.v
Updates.v
Handlers.v
Arrival.v
CliTheorems.v
CliExamples.v
Startup.v
Lifecycle.v
LifecycleTheorems.v
LifecycleExamples.v
