(* ===== verification/Prelude.v ===== *)
(** * Verification of envoy-control-plane

    envoy-control-plane is an xDS server for Envoy proxies.  It watches a
    Kubernetes cluster: every entry of a selected ConfigMap is the configuration
    of one Envoy node, and pods and services give the addresses of its clusters.
    For each node it publishes a snapshot - clusters, routes, listeners, secrets
    and endpoints under one version - in the cache of go-control-plane, which
    serves it to the proxy.  This library models the program in Rocq and proves
    what makes it correct; this file is its root and holds the notions all parts
    share.

    ** The parts and how they interact

    Informers (src/pkg/api/informers.go) call the handlers that
    src/internal/internal.go installs.  A new ConfigMap goes to
    src/pkg/configmapsstore, which parses its entries (src/pkg/config), decodes
    their resources (src/pkg/resources), builds one [ConfigStore] per node
    (src/pkg/configstore) and registers it in [StoreMap].  A store asks the
    listers of src/pkg/api for endpoints, compares them with what it published
    last and, when they changed, starts a goroutine that pushes a new snapshot
    (src/pkg/utils) to the cache.  A periodic job synchronises every store with
    the cache, another rotates the certificates (src/pkg/certs).  src/pkg/web
    answers administrators, src/pkg/controlplane holds the gRPC server of the
    proxies, its callbacks and its access log.  src/cmd/main starts all of it
    under leader election and ends it after a signal; src/cmd/gencerts writes the
    certificates to files; src/cmd/cli runs in the pods, waits for the control
    plane, asks it for the zone of its pod and drains the Envoy beside it.

    ** The files

    Foundations:
    - Prelude: results of Go calls ([res]: a value, an error, or the end of the
      process), loops, iteration over maps, proof automation.
    - GoStd, GoNet: the functions of the Go library the program computes with
      (strings, strconv, sort, path, net.ParseIP), executable, with integers at
      their width.  GoUrl: forms (net/url, net/http) and their round trips.
    - GoSlice: slices as headers over shared arrays, and [append] with its reuse
      of spare capacity.
    - Envoy: the protobuf messages and the interface of their codecs ([Codec]).
    Components, one file per package, one Module each, one definition per
    function or loop body of the source, under the source's names:
    - Resources (resources.go), Config (configType.go), AppConfig (config.go),
      Api (informers.go, client.go), Certs (certs.go), Utils (utils.go).
    - ConfigStore (configStore.go): the record [ConfigStore] is the struct;
      [New], [NewPod], [NewEndpoint], [DeletePod], [Push], [Stop], [Sync],
      [LoadNewSecrets] are its methods.  [saveLastEndpoints] is split where its
      mutex is: [saveCollect] before it, [saveCommit] inside it.
    - ConfigMapsStore (configMapsStore.go): the state the goroutines share
      ([World]) and the loading and deletion of ConfigMaps.
    - System (internal.go): the running process as a transition system of
      goroutines, fed by three informers and two periodic jobs.
    - Startup ([internal.Init] and the front of [main]) and Lifecycle
      (src/cmd/main/main.go with [internal.Start], [RunKubeInformers] and the
      [Start] functions): goroutines with program counters, signals, the lease,
      the exit handler and every way the process ends.
    - Metrics (src/pkg/metrics, and the observers of src/pkg/api/metrics.go and
      src/pkg/utils), Callbacks, AccessLog and ControlPlane (src/pkg/controlplane),
      Web and WebServer (web.go), Gencerts (src/cmd/gencerts), Cli (src/cmd/cli).
    Proofs: Discovery and StoreFacts (lemmas on endpoints, slices and saving),
    WorldFacts (the invariant of the shared state), and one file of theorems per
    component with a file of concrete inputs beside it (ConfigTheorems and
    ConfigExamples, WebTheorems, ApiTheorems and ApiExamples, StoreTheorems and
    StoreExamples, MapsTheorems and MapsExamples, SystemTheorems and
    SystemExamples, CliTheorems and CliExamples, LifecycleTheorems and
    LifecycleExamples).  LogFiles is about the files the callbacks append to,
    Listers about listings of one cluster in different orders.
    Eight files are about the running process as a whole: Lifetimes (its stores),
    Progress (the end of every handling), Serving (what the cache serves),
    Convergence (a round of synchronisation), Contents (what a save wrote stays
    there), Updates (events that overlap), Handlers (the handlers of
    internal.go as functions, which System refines) and Arrival (a ConfigMap that
    arrives).  TrustTheorems is about the certificates of the programs together.
    Samples instantiates every interface by concrete functions that satisfy its
    laws.

    ** What the theorems show

    - One store (StoreTheorems): [save_refines] states that saving implements
      an abstract specification of two lines ([spec_save]): publish the desired
      clusters exactly when their fingerprints changed as a multiset.  The
      desired clusters are the configured endpoints followed by the discovered
      ones ([discovery_correct], [New_publishes]).  Saving is idempotent and
      independent of the order in which Go iterates over maps, although that
      order decides the order of what is published.  [Push_correct] gives the
      effect of a push, [Sync_heals] that a lost snapshot is published again,
      and [save_keeps_configured] that appending to copies of the configured
      slices never changes them.
    - Configurations (ConfigTheorems): what [SaveResources] may change, the
      weights of annotations in routes and inside listeners, the removal of
      client-certificate requirements, decoding.
    - The process (MapsTheorems, SystemTheorems): what one ConfigMap entry and
      one deletion do; and for every run, by induction on its steps, the shared
      state stays well formed, a node is only ever served its own configuration
      ([cache_isolation]), a version identifies its publisher
      ([version_identifies]), and every running store is registered or about to
      be, so that at most one serves a node ([no_orphan_store] of Lifetimes).
    - The handlers (Handlers): the goroutine of an event that no other one
      interrupts has exactly the effect that the handler has as one function
      ([handlers_refine]), so the theorems on System are about the same code as
      those on [NewPod], [Sync], [NewConfigMap] and [DeleteConfigMap].
    - What the proxies get: between events the process always comes to rest
      ([handling_ends] of Progress); where it serves a store's last push and no
      push is on its way, it serves exactly what the store has recorded
      ([served_is_recorded] of Serving); and one undisturbed round of [syncAll]
      makes every store record, and the cache serve, what the cluster asks for,
      also after saves that overtook each other ([sync_round_converges] of
      Convergence, whose example repairs the run of [older_save_wins]).  The same holds
      after pods and endpoints changed, whatever events, tickers and rotations
      overlap with the handling and in whatever order the listers answer
      ([updates_reach_proxies] of Updates): saves that overtake each other do no
      harm once the cluster stays the same, nor to the contents of what is
      published, when no configured slice has spare capacity to share (Contents);
      what happens when one has is [overlapping_saves_mix] of StoreExamples.  A
      ConfigMap that arrives at a process at rest gets every one of its entries
      served, whatever the interleaving of its handler with the pushes it starts
      ([config_arrives] of Arrival).
    - The life of the process (LifecycleTheorems): informers, jobs and servers
      start only after what they need ([start_order]), nothing acts before the
      lease ([lease_gate]), and a cancelled process always ends, in a bounded
      number of steps and with exit code 0 or 1, or 2 by a panic
      ([shutdown_terminates]).
    - Trust (ApiTheorems, TrustTheorems): an issued certificate verifies until the
      end of its validity, to the second, and outlives the rotation; the secrets
      of a node hold the key of their certificate; the CA survives its files ([ca_roundtrip]); server,
      proxy and client trust each other through them ([mutual_tls],
      [client_trust] of CliTheorems).
    - The client (CliTheorems): waiting ends exactly when the control plane is
      ready, an Envoy is shut down only after it was drained, and the zone that
      is printed is the one [handlerZone] of Web finds for the names that were
      given ([zone_roundtrip], over GoUrl).
    - The rest (WebTheorems, Callbacks, LogFiles, AccessLog, Gencerts):
      credentials, the counting of the callbacks and the files they append to,
      both under every interleaving of the streams ([callbacks_correct],
      [log_files_correct]), the access log, the files of the command.
    - Behaviours the code does not mean to have are theorems too: [Sync] can end
      the process before a first push, a rejected save can rewrite what is
      published, a snapshot can outlive its ConfigMap, an older save can win, a
      replaced store can publish once more, saves of one store that overlap can mix
      their endpoints, metadata alone is never pushed, a
      broken entry freezes its node, an orderly shutdown can end with exit code 1,
      the identifier of a proxy can lead its log file out of the log path.

    ** Conventions

    - Integers: [uint32] and [uint64] are [N], [int64], [int] and durations are
      [Z], and every conversion of the source is written out with its modulus.
    - Errors: [errors.New] and [errors.Wrap] keep their texts.  A nil
      dereference, an index out of range, a failed assertion that is fatal and
      [log.Fatal] are [Crash].
    - Maps are [gmap]s, and each [range] takes its order from a [MapOrder], over
      which every theorem quantifies.
    - Slices that may share an array are headers over the memory of GoSlice; the
      capacity of a fresh array is the parameter [GoRuntime].
    - The clock, the randomness, the state of the cluster and the drawn versions
      are arguments.  In a run of the process each action has its own.
    - Code outside the repository is a parameter: protobuf, YAML and JSON
      ([Codec]), text/template and the YAML of a configuration ([ConfigParser]),
      crypto ([Crypto]), the snapshot cache ([XdsCache]).  The laws the proofs
      use are the classes [CodecLaws], [CryptoLaws], [CryptoCodecs],
      [CryptoTlsLaws] and [XdsCacheLaws]: decoding what was encoded, a created
      certificate that parses has what was asked for as X.509 encodes it, with
      times in whole seconds ([x509_encoded] of Certs), PEM and PKCS 8 read what
      they wrote, a snapshot that was set is found.
    - Atomicity: an action of System is a critical section or code on local
      state, an instruction of Lifecycle one statement, an action of Callbacks one
      critical section or one write(2).  The collection of a save runs without the
      mutex and is one action: it writes to arrays it has just made, which nobody
      else knows ([collect_private] of Contents), unless a configured slice has
      spare capacity; then saves of one store that overlap write to the same
      places, and the runs of System are those in which the loops of one save are
      not interleaved with those of another.  Only two theorems are about what the
      arrays hold: [updates_reach_proxies] assumes that there is no spare capacity,
      and in [sync_round_converges], with one state of the cluster, all saves of a
      store write the same elements.  What the listers answer is chosen for each
      action anew.  A source of events
      raises the next one when its last handler has returned, as client-go
      delivers them, so the mutex of [NewConfigMap] is always free.
    - Two levels: Lifecycle says when informers, jobs and servers run and leaves
      out what they do; System and Web say what they do once they run.
    - Metrics are a state of their own, which the callbacks carry; the other
      components leave out their counting, which no code reads back.

    ** Bounds

    [Push] draws a version until it differs from the current one.  The model
    takes two draws at most ([versionFuel]): when two consecutive draws differ,
    one of them differs from the current version, so two are enough
    ([nextVersion_ends]).  Without that hypothesis a push that has not ended is
    an action that stays in its goroutine.  [Cli.waitForAPI] takes the rounds of
    its loop as fuel; [waitForAPI_terminates] states which fuel is enough and
    that none is when the control plane never gets ready.  The steps of Lifecycle
    are bounded by [steps_left].  Every other loop of the source runs over a list
    and is structural.

    ** What is not modelled

    Log lines, which no code reads back (but the counters [Report] prints and the
    files the callbacks append to are modelled); the protocols of grpc and
    go-control-plane; what net/http does with time-outs; the delivery of events
    inside client-go; the registration of protobuf types in
    src/cmd/main/extensions.go.  How long sleeps and shutdowns take is not compared
    between goroutines: Lifecycle has every order of their ends.  The
    paths of Web are decoded paths without host patterns or methods. *)

From stdpp Require Export base gmap strings list sorting fin_maps pretty.
From stdpp Require Import options.
From Stdlib Require Export Ascii.
From Stdlib Require Import Lia.

#[global] Open Scope string_scope.
#[global] Open Scope list_scope.
#[global] Arguments String.append !_ _ /.

(** ** Go errors and results *)

(** A Go [error] value: [New] is [errors.New], [Wrapped] is [errors.Wrap]
    of github.com/pkg/errors, which keeps the cause and adds a message. *)
Inductive error :=
  | New (msg : string)
  | Wrapped (cause : error) (msg : string).

#[global] Instance error_eq_dec : EqDecision error.
Proof. solve_decision. Defined.

(** The outcome of a call: a value, a non-nil [error], or the end of the
    process (a run-time panic or [log.Fatal]). *)
Inductive res (A : Type) :=
  | Ok (a : A)
  | Err (e : error)
  | Crash (why : string).
Arguments Ok {A} a.
Arguments Err {A} e.
Arguments Crash {A} why.

#[global] Instance res_eq_dec `{EqDecision A} : EqDecision (res A).
Proof. solve_decision. Defined.

#[global] Instance res_ret : MRet res := @Ok.
#[global] Instance res_bind : MBind res := λ A B f r,
  match r with Ok a => f a | Err e => Err e | Crash w => Crash w end.
#[global] Instance res_fmap : FMap res := λ A B f r,
  match r with Ok a => Ok (f a) | Err e => Err e | Crash w => Crash w end.

(** [if err != nil { return errors.Wrap(err, msg) }]. *)
Definition wrap {A} (msg : string) (r : res A) : res A :=
  match r with Err e => Err (Wrapped e msg) | _ => r end.

(** [if err != nil { log.Fatal(err) }]. *)
Definition fatal {A} (r : res A) : res A :=
  match r with Err _ => Crash "log.Fatal" | _ => r end.

Definition is_ok {A} (r : res A) : bool :=
  match r with Ok _ => true | _ => false end.

(** ** Proof automation *)

(** Lemmas that close the routine side conditions (slices within the memory,
    orders of loops, empty ranges). *)
Create HintDb ecp discriminated.

(** ** Results: generic lemmas *)

Lemma wrap_Ok {A} m (r : res A) a : wrap m r = Ok a ↔ r = Ok a.
Proof. destruct r; naive_solver. Qed.

Lemma fatal_Ok {A} (r : res A) a : fatal r = Ok a → r = Ok a.
Proof. destruct r; naive_solver. Qed.

Lemma bind_Ok {A B} (f : A → res B) (r : res A) b :
  r ≫= f = Ok b ↔ ∃ a, r = Ok a ∧ f a = Ok b.
Proof. destruct r; naive_solver. Qed.

Lemma mapM_res_Ok {A B} (f : A → res B) l k :
  mapM f l = Ok k ↔ Forall2 (λ x y, f x = Ok y) l k.
Proof.
  revert k. induction l as [|x l IH]; intros k; simpl.
  - split; [intros [= <-]; constructor | by inversion 1].
  - rewrite bind_Ok. setoid_rewrite bind_Ok. split.
    + intros (y & ? & ys & ?%IH & [= <-]). by constructor.
    + inversion 1; subst. eexists; split; [done|].
      eexists; split; [by apply IH|done].
Qed.

(** One step of a block of Go statements that is known to succeed: [H] states
    that the block returns a value; the step's own value and equation are
    named, the messages of [errors.Wrap] are stripped and [H] becomes the
    statement about the rest of the block. *)
Tactic Notation "ok_step" hyp(H) "as" simple_intropattern(p) ident(Hx) :=
  apply bind_Ok in H; destruct H as (p & Hx & H);
  lazymatch type of Hx with
  | wrap _ _ = _ => apply wrap_Ok in Hx
  | _ => idtac
  end.
Tactic Notation "ok_step" hyp(H) "as" simple_intropattern(p) :=
  apply bind_Ok in H; destruct H as (p & _ & H).

(** Loops over a slice whose body can fail: what holds of every round holds of
    the whole loop. *)
Section mapM.
Context {A B : Type}.
Implicit Types (f : A → res B) (l : list A) (k : list B).

Lemma mapM_res_id (f : A → res A) l :
  (∀ x, x ∈ l → f x = Ok x) → mapM f l = Ok l.
Proof.
  induction l as [|x l IH]; intros H; simpl; [done|].
  rewrite H by (by left). simpl. rewrite IH; [done|]. intros y ?. apply H. by right.
Qed.

Lemma mapM_res_eq {C} f (h : A → C) (h' : B → C) l k :
  (∀ x y, f x = Ok y → h' y = h x) → mapM f l = Ok k → map h' k = map h l.
Proof.
  intros Hf E. apply mapM_res_Ok in E. induction E; simpl; [done|]. f_equal; auto.
Qed.

Lemma mapM_res_concat {C} f (R : relation C) (g : A → list C) (g' : B → list C) l k :
  (∀ x y, f x = Ok y → Forall2 R (g x) (g' y)) →
  mapM f l = Ok k → Forall2 R (concat (map g l)) (concat (map g' k)).
Proof.
  intros Hf E. apply mapM_res_Ok in E. induction E; simpl; [constructor|].
  apply Forall2_app; auto.
Qed.

Lemma mapM_res_Forall f (P : B → Prop) l k :
  (∀ x y, f x = Ok y → P y) → mapM f l = Ok k → Forall P k.
Proof. intros Hf E. apply mapM_res_Ok in E. induction E; constructor; eauto. Qed.

(** The loop succeeds exactly when every round does. *)
Lemma mapM_res_is_Ok f l :
  (∃ k, mapM f l = Ok k) ↔ ∀ x, x ∈ l → ∃ y, f x = Ok y.
Proof.
  induction l as [|x l IH]; simpl.
  - split; [by intros _ y ?%elem_of_nil|by eexists].
  - setoid_rewrite elem_of_cons. setoid_rewrite bind_Ok. setoid_rewrite bind_Ok. split.
    + intros (k & y & Hy & ys & Hys & _) z [->|Hz]; [by eexists|].
      apply IH in Hz as ?; [done|]. by eexists.
    + intros H. destruct (H x) as [y Hy]; [by left|].
      destruct (proj2 IH) as [ys Hys]; [by eauto|]. by repeat eexists.
Qed.

Lemma mapM_res_Err f l e : mapM f l = Err e → ∃ x, x ∈ l ∧ f x = Err e.
Proof.
  induction l as [|x l IH]; simpl; [done|]. destruct (f x) as [y|e'|w] eqn:E; simpl.
  - destruct (mapM f l); simpl; intros; simplify_eq. destruct IH as (z & ? & ?); [done|].
    exists z. by split; [right|].
  - intros [= ->]. exists x. by split; [left|].
  - done.
Qed.

Lemma mapM_res_no_crash f l :
  (∀ x w, f x ≠ Crash w) → ∀ w, mapM f l ≠ Crash w.
Proof.
  intros H. induction l as [|x l IH]; intros w; simpl; [done|].
  destruct (f x) eqn:E; simpl; [|done|by destruct (H x why)].
  destruct (mapM f l) eqn:E'; simpl; [done..|by destruct (IH why)].
Qed.
End mapM.

(** ** Lists *)

Lemma elem_of_concat_map {A B} (f : A → list B) (l : list A) (b : B) :
  b ∈ concat (map f l) ↔ ∃ a, a ∈ l ∧ b ∈ f a.
Proof.
  induction l as [|a l IH]; simpl.
  - split; [by intros ?%elem_of_nil|by intros (? & ?%elem_of_nil & _)].
  - rewrite elem_of_app, IH. setoid_rewrite elem_of_cons. naive_solver.
Qed.

(** A loop whose rounds each need a condition on the parts of an element needs
    it on the parts of the whole list. *)
Lemma mapM_res_is_Ok_parts {A B C} (f : A → res B) (g : A → list C) (P : C → Prop) l :
  (∀ x, (∃ y, f x = Ok y) ↔ ∀ c, c ∈ g x → P c) →
  (∃ k, mapM f l = Ok k) ↔ ∀ c, c ∈ concat (map g l) → P c.
Proof.
  intros H. rewrite mapM_res_is_Ok. setoid_rewrite H.
  setoid_rewrite elem_of_concat_map. naive_solver.
Qed.

(** A final step that cannot fail does not matter. *)
Lemma bind_ret_is_Ok {A B} (r : res A) (g : A → B) :
  (∃ b, (a ← r; Ok (g a)) = Ok b) ↔ ∃ a, r = Ok a.
Proof. destruct r; naive_solver. Qed.

(** Two strictly sorted lists with the same elements are the same list: what
    makes [reflect.DeepEqual] on sorted slices a multiset comparison. *)
Lemma merge_sort_eq_iff {A} (R : relation A) `{!RelDecision R, !Transitive R,
    !Total R, !AntiSymm (=) R} (l k : list A) :
  merge_sort R l = merge_sort R k ↔ l ≡ₚ k.
Proof.
  split.
  - intros E. by rewrite <-(merge_sort_Permutation R l), E, merge_sort_Permutation.
  - intros P. apply (Sorted_unique R); [by apply Sorted_merge_sort..|].
    by rewrite !merge_sort_Permutation.
Qed.

(** ** Interleavings

    What goroutines that run at the same time do, one action after the other:
    each keeps its own order, and nothing else is known. *)

Section interleaving.
Context {A : Type}.

Inductive merge : list A → list A → list A → Prop :=
  | merge_nil : merge [] [] []
  | merge_left x l k r : merge l k r → merge (x :: l) k (x :: r)
  | merge_right x l k r : merge l k r → merge l (x :: k) (x :: r).

Inductive interleaving : list (list A) → list A → Prop :=
  | interleaving_nil : interleaving [] []
  | interleaving_cons l ls k r : interleaving ls k → merge l k r → interleaving (l :: ls) r.

Lemma merge_Permutation l k r : merge l k r → r ≡ₚ l ++ k.
Proof.
  induction 1 as [|x l k r _ IH|x l k r _ IH]; [done|by rewrite IH|].
  rewrite IH. apply Permutation_middle.
Qed.

Lemma merge_nil_inv k r : merge [] k r → r = k.
Proof.
  remember ([] : list A) as e eqn:He. induction 1; simplify_eq/=; [done|]. by f_equal; auto.
Qed.

Lemma merge_app l k : merge l k (l ++ k).
Proof.
  induction l as [|x l IH]; simpl; [|by constructor].
  induction k; by constructor.
Qed.

(** The goroutines one after the other. *)
Lemma interleaving_concat ls : interleaving ls (concat ls).
Proof.
  induction ls as [|l ls IH]; simpl; [constructor|]. econstructor; [done|apply merge_app].
Qed.

Lemma interleaving_Permutation ls r : interleaving ls r → r ≡ₚ concat ls.
Proof.
  induction 1 as [|l ls k r _ IH Hm]; [done|]. simpl. by rewrite (merge_Permutation _ _ _ Hm), IH.
Qed.

(** Goroutines that do nothing. *)
Lemma interleaving_drop {B} (f : B → option (list A)) (bs : list B) r :
  interleaving (map (λ b, default [] (f b)) bs) r → interleaving (omap f bs) r.
Proof.
  revert r. induction bs as [|b bs IH]; intros r; simpl; [done|].
  inversion 1 as [|? ? k ? Hi Hm]; subst. apply IH in Hi.
  destruct (f b) as [l|]; simpl in *; [by econstructor|].
  by apply merge_nil_inv in Hm as ->.
Qed.
End interleaving.

Lemma merge_omap {A B} (f : A → option B) l k r :
  merge l k r → merge (omap f l) (omap f k) (omap f r).
Proof.
  induction 1 as [|x l k r _ IH|x l k r _ IH]; simpl; [constructor|..];
    destruct (f x); try done; by constructor.
Qed.

Lemma interleaving_omap {A B} (f : A → option B) ls r :
  interleaving ls r → interleaving (map (omap f) ls) (omap f r).
Proof.
  induction 1 as [|l ls k r _ IH Hm]; simpl; [constructor|].
  econstructor; [done|by apply merge_omap].
Qed.

(** ** Iteration over a Go map *)

(** Go leaves the order of [range] over a map unspecified: a [MapOrder] is one
    choice of order, and every theorem quantifies over it. *)
Class MapOrder := {
  range_order : ∀ {V : Type}, gmap string V → list (string * V);
  range_perm : ∀ {V : Type} (m : gmap string V), range_order m ≡ₚ map_to_list m }.

(** One concrete order: the map's own enumeration. *)
Definition map_order_std : MapOrder :=
  {| range_order := λ V m, map_to_list m; range_perm := λ V m, reflexivity _ |}.

Section range.
Context `{MapOrder} {V : Type}.
Implicit Types m : gmap string V.

Lemma elem_of_range m k v : (k, v) ∈ range_order m ↔ m !! k = Some v.
Proof. by rewrite range_perm, elem_of_map_to_list. Qed.

Lemma NoDup_range m : NoDup (range_order m).*1.
Proof. rewrite range_perm. apply NoDup_fst_map_to_list. Qed.

Lemma range_empty : range_order (∅ : gmap string V) = [].
Proof. apply Permutation_nil_r. by rewrite range_perm, map_to_list_empty. Qed.
End range.

(** ** Insertion at the end of a slice held in a map

    [m[k] = append(m[k], xs...)] for a map of slices that nothing else
    aliases: the slice can be taken as a value. *)
Definition mapAppend {A} (m : gmap string (list A)) (k : string) (xs : list A)
  : gmap string (list A) :=
  <[k := default [] (m !! k) ++ xs]> m.

(** What a lookup in a Go map of slices returns: nil for a missing key. *)
Definition lookupNil {A} (m : gmap string (list A)) (k : string) : list A :=
  default [] (m !! k).

Lemma lookupNil_mapAppend {A} (m : gmap string (list A)) k k' xs :
  lookupNil (mapAppend m k xs) k' = lookupNil m k' ++ (if decide (k = k') then xs else []).
Proof.
  unfold lookupNil, mapAppend. rewrite lookup_insert.
  case_decide; subst; simpl; [done|by rewrite app_nil_r].
Qed.

Lemma dom_mapAppend {A} (m : gmap string (list A)) k xs :
  dom (mapAppend m k xs) = {[k]} ∪ dom m.
Proof. apply dom_insert_L. Qed.
