(* ===== verification/GoStd.v ===== *)
(** * The parts of the Go standard library the program computes with

    [strings.HasPrefix]/[HasSuffix]/[Split], [strconv.ParseUint] in base 10
    and 64 bits, [fmt] verb [%d] on unsigned integers, [sort.Strings],
    [path.Base], [path.Clean] and [path.Join], as executable functions on
    byte strings, with the lemmas the components use.  Integers of the program
    ([uint32], [uint64], [int64]) are [N] or [Z] with their conversions written
    out. *)

From stdpp Require Import options.
From S2P Require Import Prelude.

(** ** strings *)
Module GoStrings.

Definition HasPrefix (s p : string) : bool := String.prefix p s.

Fixpoint drop (n : nat) (s : string) : string :=
  match n, s with
  | O, _ => s
  | S n', String _ s' => drop n' s'
  | S _, EmptyString => EmptyString
  end.

Definition HasSuffix (s p : string) : bool :=
  (String.length p <=? String.length s)%nat
  && String.eqb (drop (String.length s - String.length p) s) p.

(** [strings.Split(s, sep)] for a separator of one byte. *)
Fixpoint Split (s : string) (sep : ascii) : list string :=
  match s with
  | EmptyString => [""]
  | String c s' =>
      if decide (c = sep) then "" :: Split s' sep
      else match Split s' sep with
           | [] => [String c ""]
           | w :: ws => String c w :: ws
           end
  end.

(** [sort.Strings]: the slice sorted by byte-wise order.  The result of
    sorting by a total order is unique, so the algorithm does not matter. *)
Definition Strings (l : list string) : list string := merge_sort String.le l.

Lemma HasPrefix_iff s p : HasPrefix s p = true ↔ ∃ t, s = p +:+ t.
Proof.
  unfold HasPrefix. revert s. induction p as [|c p IH]; intros s; simpl.
  - split; [by exists s|by destruct s].
  - destruct s as [|d s]; simpl; [by split; [done|intros [t ?]]|].
    case_match; subst.
    + rewrite IH. split; intros [t E]; exists t; simplify_eq/=; congruence.
    + split; [done|intros [t ?]; by simplify_eq/=].
Qed.

Lemma drop_app p s : drop (String.length p) (p +:+ s) = s.
Proof. induction p; simpl; done. Qed.

Lemma drop_app_inv n s :
  (n ≤ String.length s)%nat → ∃ t, String.length t = n ∧ s = t +:+ drop n s.
Proof.
  revert s. induction n as [|n IH]; intros s Hn; [by exists ""|].
  destruct s as [|c s]; simpl in *; [lia|].
  destruct (IH s) as (t & Hl & Ht); [lia|].
  exists (String c t). simpl. by rewrite Hl, <-Ht.
Qed.

Lemma length_string_app s t :
  String.length (s +:+ t) = (String.length s + String.length t)%nat.
Proof. induction s; simpl; [done|lia]. Qed.

Lemma list_ascii_app s t :
  String.list_ascii_of_string (s +:+ t)
  = String.list_ascii_of_string s ++ String.list_ascii_of_string t.
Proof. induction s; simpl; congruence. Qed.

Lemma HasSuffix_iff s p : HasSuffix s p = true ↔ ∃ t, s = t +:+ p.
Proof.
  unfold HasSuffix. rewrite andb_true_iff, Nat.leb_le, String.eqb_eq. split.
  - intros [Hl E]. destruct (drop_app_inv (String.length s - String.length p) s)
      as (t & _ & Ht); [lia|]. exists t. by rewrite E in Ht.
  - intros [t ->]. rewrite length_string_app. split; [lia|].
    replace (String.length t + String.length p - String.length p)%nat
      with (String.length t) by lia. apply drop_app.
Qed.

(** [len(s) == 0]. *)
Lemma length_eqb_0 s : (String.length s =? 0)%nat = bool_decide (s = "").
Proof. by destruct s. Qed.

Lemma length_ltb_0 s : (0 <? String.length s)%nat = bool_decide (s ≠ "").
Proof. by destruct s. Qed.

Lemma HasSuffix_app s p : HasSuffix (s +:+ p) p = true.
Proof. apply HasSuffix_iff. by exists s. Qed.

Lemma HasPrefix_app s p : HasPrefix (p +:+ s) p = true.
Proof. apply HasPrefix_iff. by exists s. Qed.

(** [Split] returns at least one piece. *)
Lemma Split_cons s sep : ∃ w ws, Split s sep = w :: ws.
Proof. destruct s as [|c s]; simpl; [eauto|]. case_decide; [eauto|]. case_match; eauto. Qed.

(** [Split] has a second piece exactly when the separator occurs. *)
Lemma Split_second s sep :
  is_Some (Split s sep !! 1%nat) ↔ sep ∈ String.list_ascii_of_string s.
Proof.
  induction s as [|c s IH]; simpl.
  - split; [by intros [? ?]|by intros ?%elem_of_nil].
  - destruct (Split_cons s sep) as (w & ws & E). rewrite elem_of_cons.
    case_decide; subst.
    + rewrite E. simpl. split; [by left|by eexists].
    + rewrite E in *. simpl in *. naive_solver.
Qed.

(** A separator in the middle splits in two. *)
Lemma Split_app s t sep : Split (s +:+ String sep t) sep = Split s sep ++ Split t sep.
Proof.
  induction s as [|c s IH]; simpl; [by rewrite decide_True|].
  rewrite IH. case_decide; [done|]. by destruct (Split_cons s sep) as (w & ws & ->).
Qed.

(** Without a separator there is one piece. *)
Lemma Split_plain s sep : sep ∉ String.list_ascii_of_string s → Split s sep = [s].
Proof.
  induction s as [|c s IH]; simpl; [done|]. intros [Hc Hs]%not_elem_of_cons.
  rewrite decide_False by congruence. by rewrite IH.
Qed.

Lemma Strings_Permutation l : Strings l ≡ₚ l.
Proof. apply merge_sort_Permutation. Qed.

Lemma Strings_sorted l : Sorted String.le (Strings l).
Proof. apply Sorted_merge_sort. apply _. Qed.

Lemma Strings_eq_iff l k : Strings l = Strings k ↔ l ≡ₚ k.
Proof. apply merge_sort_eq_iff; apply _. Qed.

End GoStrings.

(** ** strconv *)
Module GoStrconv.

Definition maxUint64 : N := 18446744073709551615.

Definition ErrSyntax : error := New "invalid syntax".
Definition ErrRange : error := New "value out of range".

(** The decimal value of a byte, if it is a digit. *)
Definition digit (c : ascii) : option N :=
  let n := N_of_ascii c in
  if (48 <=? n)%N && (n <=? 57)%N then Some (n - 48)%N else None.

Fixpoint ParseUint_go (n : N) (s : string) : res N :=
  match s with
  | EmptyString => Ok n
  | String c s' =>
      match digit c with
      | None => Err ErrSyntax
      | Some d =>
          if (maxUint64 <? n * 10 + d)%N then Err ErrRange
          else ParseUint_go (n * 10 + d) s'
      end
  end.

(** [strconv.ParseUint(s, 10, 64)]. *)
Definition ParseUint (s : string) : res N :=
  match s with EmptyString => Err ErrSyntax | _ => ParseUint_go 0 s end.

(** [%d] on an unsigned integer. *)
Definition FormatUint (n : N) : string := pretty n.

(** Conversions [int64(i)] of a [uint64] and [uint32(v)] of an [int64]. *)
Definition int64_of_uint64 (n : N) : Z :=
  let z := Z.of_N n in
  if (z <? 2 ^ 63)%Z then z else (z - 2 ^ 64)%Z.

Definition uint32_of_int64 (z : Z) : N := Z.to_N (z mod 2 ^ 32).

Lemma ParseUint_go_bound s n m :
  (n ≤ maxUint64)%N → ParseUint_go n s = Ok m → (m ≤ maxUint64)%N.
Proof.
  revert n. induction s as [|c s IH]; intros n Hn; simpl; [by intros [= <-]|].
  destruct (digit c) as [d|]; [|done].
  destruct (N.ltb_spec maxUint64 (n * 10 + d)); [done|]. by apply IH.
Qed.

Lemma ParseUint_bound s n : ParseUint s = Ok n → (n ≤ maxUint64)%N.
Proof. destruct s; [done|]. apply ParseUint_go_bound. unfold maxUint64. lia. Qed.

Lemma ParseUint_no_crash s w : ParseUint s ≠ Crash w.
Proof.
  destruct s as [|c s]; [done|]. unfold ParseUint. generalize (String c s), 0%N.
  clear c s. intros s. induction s as [|c s IH]; intros n; simpl; [done|].
  destruct (digit c); [|done]. by case_match.
Qed.

Lemma digit_pretty x : (x < 10)%N → digit (pretty_N_char x) = Some x.
Proof.
  intros ?. assert (x = 0 ∨ x = 1 ∨ x = 2 ∨ x = 3 ∨ x = 4 ∨ x = 5 ∨ x = 6
    ∨ x = 7 ∨ x = 8 ∨ x = 9)%N by lia. naive_solver.
Qed.

Lemma ParseUint_go_pretty x s :
  (x ≤ maxUint64)%N → ParseUint_go 0 (pretty_N_go x s) = ParseUint_go x s.
Proof.
  revert s. induction (N.lt_wf_0 x) as [x _ IH]; intros s Hx.
  destruct (decide (x = 0)%N) as [->|Hne]; [by rewrite pretty_N_go_0|].
  rewrite pretty_N_go_step by lia.
  pose proof (N.div_lt x 10 ltac:(lia) ltac:(lia)).
  pose proof (N.mod_lt x 10 ltac:(lia)).
  rewrite IH by lia. simpl. rewrite digit_pretty by done.
  replace (x `div` 10 * 10 + x `mod` 10)%N with x
    by (rewrite (N.div_mod x 10) at 1; lia).
  by destruct (N.ltb_spec maxUint64 x); [lia|].
Qed.

(** Printing an unsigned 64-bit integer and parsing it gives it back. *)
Lemma ParseUint_FormatUint n : (n ≤ maxUint64)%N → ParseUint (FormatUint n) = Ok n.
Proof.
  intros Hn. unfold FormatUint, pretty, pretty_N.
  case_decide; [by subst|].
  pose proof (ParseUint_go_pretty n "" Hn) as E.
  destruct (pretty_N_go n "") eqn:Ep; [|by unfold ParseUint; rewrite E].
  exfalso. revert E. simpl. intros [= ?]. done.
Qed.

Lemma uint32_of_int64_of_uint64 n :
  uint32_of_int64 (int64_of_uint64 n) = (n `mod` 2 ^ 32)%N.
Proof.
  unfold uint32_of_int64, int64_of_uint64.
  assert (Z.of_N (n mod 2 ^ 32) = (Z.of_N n mod 2 ^ 32)%Z) as E
    by (by rewrite N2Z.inj_mod).
  case_match.
  - rewrite <-E. apply N2Z.id.
  - replace (Z.of_N n - 2 ^ 64)%Z with (Z.of_N n + (- 2 ^ 32) * 2 ^ 32)%Z by lia.
    rewrite Z.mod_add, <-E by lia. apply N2Z.id.
Qed.

End GoStrconv.

(** ** path *)
Module GoPath.

Fixpoint strip_slashes (rs : list ascii) : list ascii :=
  match rs with
  | [] => []
  | c :: rs' => if decide (c = "/"%char) then strip_slashes rs' else rs
  end.

Fixpoint until_slash (rs : list ascii) : list ascii :=
  match rs with
  | [] => []
  | c :: rs' => if decide (c = "/"%char) then [] else c :: until_slash rs'
  end.

(** [path.Base]: the last element of the path, trailing slashes removed. *)
Definition Base (p : string) : string :=
  match p with
  | EmptyString => "."
  | _ => match strip_slashes (reverse (String.list_ascii_of_string p)) with
         | [] => "/"
         | rs => String.string_of_list_ascii (reverse (until_slash rs))
         end
  end.

(** A name without a slash is its own base. *)
Lemma Base_plain p :
  p ≠ "" → "/"%char ∉ String.list_ascii_of_string p → Base p = p.
Proof.
  intros Hne Hs. unfold Base. destruct p as [|c p]; [done|].
  set (l := String.list_ascii_of_string (String c p)) in *.
  assert (∀ rs, "/"%char ∉ rs → until_slash rs = rs) as Hu.
  { induction rs as [|d rs IH]; simpl; [done|].
    intros [Hd ?]%not_elem_of_cons. rewrite decide_False by congruence. by rewrite IH. }
  assert ("/"%char ∉ reverse l) as Hr by (by rewrite elem_of_reverse).
  assert (strip_slashes (reverse l) = reverse l) as ->.
  { destruct (reverse l) as [|d rs]; [done|]. simpl.
    apply not_elem_of_cons in Hr as [Hd _]. by rewrite decide_False by congruence. }
  destruct (reverse l) as [|d rs] eqn:E.
  - by apply (f_equal reverse) in E; rewrite reverse_involutive in E.
  - rewrite Hu by done. rewrite <-E, reverse_involutive.
    apply String.string_of_list_ascii_of_string.
Qed.

(** [path.Clean]: empty and "." segments go, ".." removes the segment before
    it; at the start of a rooted path it goes, and of a relative one it stays. *)
Fixpoint clean_segments (rooted : bool) (segments acc : list string) : list string :=
  match segments with
  | [] => reverse acc
  | s :: segments' =>
      if decide (s = "" ∨ s = ".") then clean_segments rooted segments' acc
      else if decide (s = "..") then
        match acc with
        | [] => clean_segments rooted segments' (if rooted then [] else [".."])
        | a :: acc' => if decide (a = "..") then clean_segments rooted segments' (".." :: acc)
                       else clean_segments rooted segments' acc'
        end
      else clean_segments rooted segments' (s :: acc)
  end.

Definition Clean (p : string) : string :=
  let rooted := GoStrings.HasPrefix p "/" in
  match rooted, clean_segments rooted (GoStrings.Split p "/") [] with
  | true, segments => "/" +:+ String.concat "/" segments
  | false, [] => "."
  | false, segments => String.concat "/" segments
  end.

(** [path.Join]: the elements that are not empty, cleaned. *)
Definition Join (elem : list string) : string :=
  match filter (λ e, e ≠ "") elem with
  | [] => ""
  | elem' => Clean (String.concat "/" elem')
  end.

Lemma clean_segments_nonempty rooted segments acc :
  Forall (λ s, s ≠ "") acc → Forall (λ s, s ≠ "") (clean_segments rooted segments acc).
Proof.
  revert acc. induction segments as [|s segments IH]; intros acc Hacc; simpl;
    [by apply Forall_reverse|].
  destruct (decide (s = "" ∨ s = ".")) as [|Hs]; [by apply IH|].
  destruct (decide (s = "..")); [|apply IH; constructor; tauto].
  destruct acc as [|a acc]; [destruct rooted; apply IH; by repeat constructor|].
  inversion Hacc. destruct (decide (a = "..")); apply IH; by repeat constructor.
Qed.

Lemma Clean_nonempty p : Clean p ≠ "".
Proof.
  unfold Clean. destruct (GoStrings.HasPrefix p "/"); [done|].
  pose proof (clean_segments_nonempty false (GoStrings.Split p "/") [] (Forall_nil_2 _)) as H.
  destruct (clean_segments _ _ _) as [|s segments]; [done|]. inversion H.
  destruct s; [done|]. by destruct segments.
Qed.

(** A path with a non-empty element is not empty. *)
Lemma Join_nonempty elem e : e ∈ elem → e ≠ "" → Join elem ≠ "".
Proof.
  intros He Hne. unfold Join. assert (e ∈ filter (λ e, e ≠ "") elem) as Hin
    by by apply list_elem_of_filter.
  destruct (filter _ elem); [by apply elem_of_nil in Hin|]. apply Clean_nonempty.
Qed.

(** A file name: one segment that [path.Clean] keeps. *)
Definition file_name (s : string) : Prop :=
  s ≠ "" ∧ s ≠ "." ∧ s ≠ ".." ∧ "/"%char ∉ String.list_ascii_of_string s.

Lemma clean_segments_snoc rooted segments acc s :
  s ≠ "" → s ≠ "." → s ≠ ".." →
  clean_segments rooted (segments ++ [s]) acc = clean_segments rooted segments acc ++ [s].
Proof.
  intros H1 H2 H3. revert acc. induction segments as [|x segments IH]; intros acc; simpl.
  - rewrite !decide_False by naive_solver. by rewrite reverse_cons.
  - destruct (decide (x = "" ∨ x = ".")); [apply IH|].
    destruct (decide (x = "..")); [|apply IH].
    destruct acc as [|a acc]; [apply IH|]. destruct (decide (a = "..")); apply IH.
Qed.

Lemma string_app_assoc (s t u : string) : (s +:+ t) +:+ u = s +:+ (t +:+ u).
Proof. induction s; simpl; [done|]. by f_equal. Qed.

(** The last segment comes last, after what the others give. *)
Lemma concat_snoc l : ∃ dir, ∀ s, String.concat "/" (l ++ [s]) = dir +:+ s.
Proof.
  induction l as [|x l [dir IH]]; [by exists ""|]. exists (x +:+ "/" +:+ dir). intros s.
  assert (∀ y (k : list string), k ≠ [] →
    String.concat "/" (y :: k) = y +:+ "/" +:+ String.concat "/" k) as Hc by by intros y [].
  simpl app. rewrite Hc by by destruct l. by rewrite IH, !string_app_assoc.
Qed.

(** A file name joined to a directory: the directory decides what comes before. *)
Lemma Join_file_name d : ∃ dir, ∀ s, file_name s → Join [d; s] = dir +:+ s.
Proof.
  destruct (decide (d = "")) as [->|Hd].
  - exists "". intros s (H1 & H2 & H3 & H4). unfold Join. simpl.
    rewrite filter_cons_False by naive_solver. rewrite filter_cons_True by done.
    unfold Clean. cbn [String.concat]. rewrite GoStrings.Split_plain by done. simpl.
    rewrite !decide_False by naive_solver.
    destruct (GoStrings.HasPrefix s "/") eqn:Hp; [|done].
    apply GoStrings.HasPrefix_iff in Hp as [t ->]. destruct H4. by left.
  - set (rooted := GoStrings.HasPrefix d "/").
    destruct (concat_snoc (clean_segments rooted (GoStrings.Split d "/") [])) as [dir Hdir].
    exists ((if rooted then "/" else "") +:+ dir). intros s (H1 & H2 & H3 & H4). unfold Join.
    rewrite !filter_cons_True by done. rewrite filter_nil. cbn [String.concat].
    change (d +:+ "/" +:+ s) with (d +:+ String "/" s).
    assert (GoStrings.HasPrefix (d +:+ String "/" s) "/" = rooted) as Hr
      by (unfold rooted, GoStrings.HasPrefix; destruct d as [|c [|c' d]]; done).
    unfold Clean. rewrite Hr.
    rewrite (GoStrings.Split_app d s), (GoStrings.Split_plain s) by done.
    destruct rooted; rewrite clean_segments_snoc by done;
      [by rewrite Hdir, string_app_assoc|]. specialize (Hdir s). destruct (_ ++ [s]) eqn:E; [by apply app_eq_nil in E as [_ ?]|].
    exact Hdir.
Qed.

Example Clean_rooted : Clean "/a/./b/../../../c/" = "/c".
Proof. reflexivity. Qed.
Example Clean_relative : Clean "../a/../../b//" = "../../b".
Proof. reflexivity. Qed.
Example Join_certs : Join ["certs"; "server.crt"] = "certs/server.crt" ∧ Join [""; "x"] = "x".
Proof. split; reflexivity. Qed.

End GoPath.
