(* ===== verification/GoNet.v ===== *)
(** * net.ParseIP

    The program only tests [net.ParseIP(address) == nil]: [ParseIP_ok] is the
    negation of that test.  It follows the parser of the Go standard library
    ([netip.ParseAddr] with zones refused): dotted decimal IPv4 without leading
    zeros, and IPv6 with one optional [::] and an optional embedded IPv4
    tail. *)

From stdpp Require Import options.
From S2P Require Import Prelude.
From S2P Require Import GoStd.

Module GoNet.

(** The loop over the bytes of a dotted-decimal address: [val] is the current
    octet, [pos] the number of octets finished, [digLen] the digits read of
    the current one. *)
Fixpoint parseIPv4Fields (s : list ascii) (val : N) (pos digLen : nat) : bool :=
  match s with
  | [] => (3 <=? pos)%nat
  | c :: s' =>
      match GoStrconv.digit c with
      | Some d =>
          if (digLen =? 1)%nat && (val =? 0)%N then false
          else if (255 <? val * 10 + d)%N then false
          else parseIPv4Fields s' (val * 10 + d) pos (S digLen)
      | None =>
          if decide (c = "."%char) then
            if (digLen =? 0)%nat || (match s' with [] => true | _ => false end)
               || (pos =? 3)%nat
            then false
            else parseIPv4Fields s' 0 (S pos) 0
          else false
      end
  end.

Definition isHex (c : ascii) : bool :=
  let n := N_of_ascii c in
  (48 <=? n)%N && (n <=? 57)%N || (97 <=? n)%N && (n <=? 102)%N
  || (65 <=? n)%N && (n <=? 70)%N.

(** The longest run of hexadecimal digits: its length and what follows. *)
Fixpoint hexRun (s : list ascii) : nat * list ascii :=
  match s with
  | c :: s' => if isHex c then let '(n, r) := hexRun s' in (S n, r) else (0%nat, s)
  | [] => (0%nat, [])
  end.

(** After the loop: the whole string is used, and [::] stands for at least one
    group. *)
Definition v6_finish (s : list ascii) (i : nat) (ellipsis : bool) : bool :=
  match s with
  | [] => if (i <? 16)%nat then ellipsis else negb ellipsis
  | _ => false
  end.

(** The loop of the IPv6 parser, [i] the bytes of the address written so far.
    Every round adds two, so eight rounds from [i = 0] reach the loop's exit
    condition [i = 16]. *)
Fixpoint v6_loop (fuel : nat) (s : list ascii) (i : nat) (ellipsis : bool) : bool :=
  match fuel with
  | O => v6_finish s i ellipsis
  | S fuel' =>
      let '(off, rest) := hexRun s in
      if (4 <? off)%nat || (off =? 0)%nat then false
      else match rest with
      | [] => v6_finish [] (i + 2) ellipsis
      | c :: rest' =>
          if decide (c = "."%char) then
            if negb ellipsis && negb (i =? 12)%nat then false
            else if (16 <? i + 4)%nat then false
            else if parseIPv4Fields s 0 0 0 then v6_finish [] (i + 4) ellipsis
            else false
          else if decide (c = ":"%char) then
            match rest' with
            | [] => false
            | c2 :: rest2 =>
                if decide (c2 = ":"%char) then
                  if ellipsis then false
                  else match rest2 with
                       | [] => v6_finish [] (i + 2) true
                       | _ => v6_loop fuel' rest2 (i + 2) true
                       end
                else v6_loop fuel' rest' (i + 2) ellipsis
            end
          else false
      end
  end.

Definition parseIPv6 (s : list ascii) : bool :=
  if decide ("%"%char ∈ s) then false
  else match s with
       | ":"%char :: ":"%char :: [] => true
       | ":"%char :: ":"%char :: s' => v6_loop 8 s' 0 true
       | _ => v6_loop 8 s 0 false
       end.

(** The first of [.], [:] and [%] in the string selects the parser. *)
Fixpoint parseAddr (all s : list ascii) : bool :=
  match s with
  | [] => false
  | c :: s' =>
      if decide (c = "."%char) then parseIPv4Fields all 0 0 0
      else if decide (c = ":"%char) then parseIPv6 all
      else if decide (c = "%"%char) then false
      else parseAddr all s'
  end.

(** [net.ParseIP(s) != nil]. *)
Definition ParseIP_ok (s : string) : bool :=
  let l := String.list_ascii_of_string s in parseAddr l l.

(** ** Dotted decimal addresses *)

Definition dotted (a b c d : N) : string :=
  GoStrconv.FormatUint a +:+ "." +:+ GoStrconv.FormatUint b +:+ "."
  +:+ GoStrconv.FormatUint c +:+ "." +:+ GoStrconv.FormatUint d.

Definition octet (n : N) : list ascii :=
  String.list_ascii_of_string (GoStrconv.FormatUint n).

Lemma parse_octet n pos rest : (n < 256)%N →
  ∃ k, parseIPv4Fields (octet n ++ rest) 0 pos 0
       = parseIPv4Fields rest n pos (S k).
Proof.
  intros Hn. rewrite <-(N2Nat.id n) in *. assert (N.to_nat n < 256)%nat as H by lia.
  clear Hn. generalize dependent (N.to_nat n). clear n. intros n H.
  do 10 (destruct n as [|n]; [by exists 0%nat|]).
  do 90 (destruct n as [|n]; [by exists 1%nat|]).
  do 156 (destruct n as [|n]; [by exists 2%nat|]). lia.
Qed.

(** Facts on the 256 octets, checked by evaluation. *)
Lemma octet_check (P : list ascii → bool) :
  forallb (λ n, P (octet (N.of_nat n))) (seq 0 256) = true →
  ∀ n, (n < 256)%N → P (octet n) = true.
Proof.
  intros H n Hn. rewrite forallb_forall in H. rewrite <-(N2Nat.id n).
  apply H. apply in_seq. lia.
Qed.

Lemma octet_no_sep n c : (n < 256)%N → c ∈ octet n → is_Some (GoStrconv.digit c).
Proof.
  intros Hn Hc.
  assert (forallb (λ c, bool_decide (is_Some (GoStrconv.digit c))) (octet n) = true) as HF
    by (clear Hc; revert n Hn; by apply (octet_check
        (forallb (λ c, bool_decide (is_Some (GoStrconv.digit c)))))).
  rewrite forallb_forall in HF. apply list_elem_of_In in Hc.
  apply HF in Hc. by apply bool_decide_eq_true_1 in Hc.
Qed.

Lemma octet_app_not_nil n l :
  (n < 256)%N → match octet n ++ l with [] => true | _ => false end = false.
Proof.
  intros Hn.
  assert (negb (length (octet n) =? 0)%nat = true) as H
    by (revert n Hn; by apply (octet_check (λ o, negb (length o =? 0)%nat))).
  by destruct (octet n).
Qed.

Lemma parseAddr_digits all l rest :
  (∀ c, c ∈ l → is_Some (GoStrconv.digit c)) →
  parseAddr all (l ++ rest) = parseAddr all rest.
Proof.
  induction l as [|c l IH]; intros H; simpl; [done|].
  destruct (H c) as [d Hd]; [by left|].
  rewrite !decide_False by (intros ->; by vm_compute in Hd).
  apply IH. intros c' ?. apply H. by right.
Qed.

(** Every address written as four decimal octets is accepted. *)
Lemma ParseIP_ok_dotted a b c d :
  (a < 256)%N → (b < 256)%N → (c < 256)%N → (d < 256)%N →
  ParseIP_ok (dotted a b c d) = true.
Proof.
  intros Ha Hb Hc Hd. unfold ParseIP_ok, dotted. rewrite !GoStrings.list_ascii_app.
  fold (octet a) (octet b) (octet c) (octet d).
  rewrite parseAddr_digits by eauto using octet_no_sep. simpl.
  destruct (parse_octet a 0 ("."%char :: octet b ++ "."%char :: octet c ++ "."%char :: octet d))
    as [k ->]; [done|]. simpl.
  rewrite octet_app_not_nil by done. simpl.
  destruct (parse_octet b 1 ("."%char :: octet c ++ "."%char :: octet d)) as [j ->]; [done|].
  simpl. rewrite octet_app_not_nil by done. simpl.
  destruct (parse_octet c 2 ("."%char :: octet d)) as [i ->]; [done|]. simpl.
  rewrite <-(app_nil_r (octet d)), octet_app_not_nil by done. simpl.
  by destruct (parse_octet d 3 []) as [h ->].
Qed.

Example ParseIP_examples :
  (ParseIP_ok "127.0.0.1", ParseIP_ok "fe80::1", ParseIP_ok "::",
   ParseIP_ok "::ffff:10.0.0.1", ParseIP_ok "1:2:3:4:5:6:7:8")
  = (true, true, true, true, true).
Proof. reflexivity. Qed.

Example ParseIP_counterexamples :
  (ParseIP_ok "", ParseIP_ok "localhost", ParseIP_ok "1.2.3", ParseIP_ok "1.2.3.256",
   ParseIP_ok "01.2.3.4", ParseIP_ok "1::2::3", ParseIP_ok "fe80::1%eth0")
  = (false, false, false, false, false, false, false).
Proof. reflexivity. Qed.

End GoNet.
