(* ===== verification/GoSlice.v ===== *)
(** * Go slices over a shared memory

    A slice is a header (backing array, length, capacity) over arrays that
    several slices may share; [append] writes into the spare capacity of the
    backing array when there is room, and moves to a fresh array otherwise.
    The capacity the runtime picks for a fresh array is not specified by the
    language, so it is a parameter ([GoRuntime]).

    Slices of the program that may share an array (the endpoint lists of
    [ConfigStore]) use this model; a slice no other value aliases is modelled
    by the list of its elements. *)

From stdpp Require Import options.
From S2P Require Import Prelude.

(** The runtime's choice of capacity for a grown slice. *)
Class GoRuntime := {
  growcap : nat → nat → nat;
  growcap_enough : ∀ cap need, (need ≤ growcap cap need)%nat }.

(** What the runtime does for short slices: double the capacity, or take the
    needed length when it is more. *)
Definition runtime_doubling : GoRuntime :=
  {| growcap := λ cap need, Nat.max (2 * cap) need;
     growcap_enough := λ cap need, Nat.le_max_r (2 * cap) need |}.

Record Slice := mkSlice { s_arr : nat; s_len : nat; s_cap : nat }.

#[global] Instance Slice_eq_dec : EqDecision Slice.
Proof. solve_decision. Defined.

Definition nilSlice : Slice := mkSlice 0 0 0.

(** The arrays, by address: for each, the elements written so far. *)
Notation Mem A := (gmap nat (list A)).

Module GoSlice.
Section slices.
Context {A : Type} `{GoRuntime}.
Implicit Types (m : Mem A) (s t : Slice) (xs : list A).

(** The elements of a slice. *)
Definition read m s : list A := take (s_len s) (default [] (m !! s_arr s)).

(** [xs] written at index [n] of an array. *)
Definition write_at (n : nat) xs (c : list A) : list A :=
  take n c ++ xs ++ drop (n + length xs) c.

(** The built-in [append(s, xs...)]. *)
Definition append m s xs : Mem A * Slice :=
  let need := (s_len s + length xs)%nat in
  if (need <=? s_cap s)%nat
  then (alter (write_at (s_len s) xs) (s_arr s) m, mkSlice (s_arr s) need (s_cap s))
  else let l := fresh (dom m) in
       (<[l := read m s ++ xs]> m, mkSlice l need (growcap (s_cap s) need)).

(** Whether [append] has to move: the spare capacity is too short. *)
Definition full s : Prop := s_len s = s_cap s.

(** A slice whose array is present and holds its elements. *)
Definition slice_ok m s : Prop :=
  (s_len s ≤ s_cap s)%nat ∧
  (s_cap s = 0%nat ∨ ∃ c, m !! s_arr s = Some c ∧ (s_len s ≤ length c)%nat).

Lemma nilSlice_ok m : slice_ok m nilSlice.
Proof. split; simpl; [lia|by left]. Qed.

Lemma read_nil m : read m nilSlice = [].
Proof. done. Qed.

Lemma slice_ok_len m s : slice_ok m s → length (read m s) = s_len s.
Proof.
  intros [Hl [Hc|(c & Hc & Hlen)]]; unfold read.
  - assert (s_len s = 0%nat) as -> by lia. by rewrite take_0.
  - rewrite Hc. simpl. rewrite length_take. lia.
Qed.

Lemma length_write_at n xs c :
  (n ≤ length c)%nat →
  length (write_at n xs c) = Nat.max (length c) (n + length xs).
Proof.
  intros ?. unfold write_at. rewrite !length_app, length_take, length_drop. lia.
Qed.

Lemma take_write_at n k xs c :
  (k ≤ n)%nat → (n ≤ length c)%nat → take k (write_at n xs c) = take k c.
Proof.
  intros ??. unfold write_at.
  rewrite take_app_le by (rewrite length_take; lia). by rewrite take_take, Nat.min_l.
Qed.

Lemma take_write_at_all n xs c :
  (n ≤ length c)%nat → take (n + length xs) (write_at n xs c) = take n c ++ xs.
Proof.
  intros ?. unfold write_at. rewrite app_assoc.
  apply take_app_length'. rewrite length_app, length_take. lia.
Qed.

Lemma read_append m s xs m' s' :
  slice_ok m s → append m s xs = (m', s') → read m' s' = read m s ++ xs.
Proof.
  intros [Hl Hc] E. unfold append in E. case_match eqn:Hn; simplify_eq; unfold read; simpl.
  - apply Nat.leb_le in Hn. rewrite lookup_alter_eq.
    destruct Hc as [Hc|(c & -> & Hlen)]; simpl.
    + destruct xs; [|simpl in Hn; lia]. assert (s_len s = 0%nat) as -> by lia.
      simpl. by rewrite take_0.
    + by apply take_write_at_all.
  - rewrite lookup_insert_eq. simpl. fold (read m s).
    apply take_ge. rewrite length_app, (slice_ok_len m s) by done. done.
Qed.

Lemma append_ok m s xs m' s' :
  slice_ok m s → append m s xs = (m', s') → slice_ok m' s'.
Proof.
  intros Hok E. pose proof Hok as [Hl Hc]. unfold append in E.
  case_match eqn:Hn; simplify_eq; split; simpl.
  - by apply Nat.leb_le.
  - apply Nat.leb_le in Hn. destruct Hc as [|(c & Hc & Hlen)]; [by left|right].
    exists (write_at (s_len s) xs c). rewrite lookup_alter_eq, Hc. split; [done|].
    rewrite length_write_at by done. lia.
  - apply growcap_enough.
  - right. exists (read m s ++ xs). rewrite lookup_insert_eq. split; [done|].
    by rewrite length_app, (slice_ok_len m s).
Qed.

(** [append] on [s] can not reach the elements of [t]: one of them has no
    array, the arrays differ, or [t] ends before the first written index. *)
Definition apart s t : Prop :=
  s_cap s = 0%nat ∨ s_cap t = 0%nat ∨ s_arr t ≠ s_arr s ∨ (s_len t ≤ s_len s)%nat.

Lemma write_at_nil c : write_at 0 [] c = c.
Proof. done. Qed.

Lemma append_frame m s xs m' s' t :
  slice_ok m s → append m s xs = (m', s') → slice_ok m t → apart s t →
  slice_ok m' t ∧ read m' t = read m t.
Proof.
  intros [Hl Hc] E [Htl Htc] Hsep. unfold append in E.
  destruct Htc as [Htc|(ct & Hct & Htlen)].
  { split; [split; [done|by left]|]. unfold read.
    assert (s_len t = 0%nat) as -> by lia. by rewrite !take_0. }
  case_match eqn:Hn; simplify_eq.
  - apply Nat.leb_le in Hn. unfold read, slice_ok.
    destruct (decide (s_arr t = s_arr s)) as [He|Hne].
    + rewrite He in *. rewrite lookup_alter_eq, Hct. simpl.
      destruct (decide (s_cap s = 0%nat)) as [Hs0|Hs0].
      { assert (s_len s = 0%nat ∧ xs = []) as [-> ->]
          by (destruct xs; simpl in Hn; [split; [lia|done]|lia]).
        rewrite write_at_nil. eauto 10. }
      destruct Hc as [?|(c & Hc & Hlen)]; [done|]. simplify_eq.
      destruct (decide (s_len t = 0%nat)) as [->|].
      { rewrite !take_0. split; [split; [lia|right]|done].
        eexists; split; [done|lia]. }
      assert (s_len t ≤ s_len s)%nat by (destruct Hsep as [?|[?|[?|?]]]; [lia|lia|done|done]).
      rewrite take_write_at by done. split; [|done]. split; [done|right].
      eexists; split; [done|]. rewrite length_write_at by done. lia.
    + rewrite lookup_alter_ne by done. rewrite Hct. eauto 10.
  - assert (s_arr t ≠ fresh (dom m)) as Hf.
    { intros He. apply (is_fresh (dom m)). rewrite <-He. apply elem_of_dom. by exists ct. }
    unfold read, slice_ok. rewrite lookup_insert_ne, Hct by done. eauto 10.
Qed.

(** The result of [append] stays apart from what its argument was apart from. *)
Lemma append_apart m s xs m' s' t :
  append m s xs = (m', s') → slice_ok m t → apart s t → apart s' t.
Proof.
  unfold append, apart. intros E [_ Ht] Hap. case_match; simplify_eq; simpl.
  - destruct Hap as [?|[?|[?|?]]]; auto. right; right; right. lia.
  - destruct Ht as [?|(c & Hc & _)]; [auto|]. right; right; left. intros He.
    apply (is_fresh (dom m)). rewrite <-He. apply elem_of_dom. by exists c.
Qed.

(** [append] on a full slice never touches an array that exists. *)
Lemma append_full_frame m s xs m' s' :
  full s → append m s xs = (m', s') →
  ∀ t, slice_ok m t → slice_ok m' t ∧ read m' t = read m t.
Proof.
  unfold full. intros Hf E t [Htl Htc]. unfold append in E.
  destruct Htc as [Htc|(ct & Hct & Htlen)].
  { split; [split; [done|by left]|]. unfold read.
    assert (s_len t = 0%nat) as -> by lia. by rewrite !take_0. }
  case_match eqn:Hn; simplify_eq; unfold read, slice_ok.
  - apply Nat.leb_le in Hn. assert (xs = []) as -> by (destruct xs; simpl in *; [done|lia]).
    assert (∀ c, write_at (s_len s) [] c = c) as Hw
      by (intros c; unfold write_at; simpl; by rewrite Nat.add_0_r, take_drop).
    assert (alter (write_at (s_len s) []) (s_arr s) m !! s_arr t = Some ct) as ->.
    { destruct (decide (s_arr t = s_arr s)) as [He|]; [|by rewrite lookup_alter_ne].
      rewrite He in *. rewrite lookup_alter_eq, Hct. cbv [fmap option_fmap option_map].
      by rewrite Hw. }
    rewrite Hct. eauto 10.
  - assert (s_arr t ≠ fresh (dom m)) as Hfr.
    { intros He. apply (is_fresh (dom m)). rewrite <-He. apply elem_of_dom. by exists ct. }
    rewrite lookup_insert_ne, Hct by done. eauto 10.
Qed.

(** The array of an appended slice is the old one or a fresh one. *)
Lemma append_arr m s xs m' s' :
  append m s xs = (m', s') →
  s_arr s' = s_arr s ∧ s_cap s' = s_cap s ∨ s_arr s' ∉ dom m.
Proof.
  unfold append. intros E. case_match; simplify_eq; simpl; [by left|right].
  apply is_fresh.
Qed.

Lemma append_dom m s xs m' s' : append m s xs = (m', s') → dom m ⊆ dom m'.
Proof.
  unfold append. intros E. case_match; simplify_eq; [by rewrite dom_alter_L|set_solver].
Qed.

End slices.
End GoSlice.

#[export] Hint Resolve GoSlice.nilSlice_ok : ecp.
