(* ===== verification/GoUrl.v ===== *)
(** * Forms: the part of net/url and net/http a form travels through

    [url.QueryEscape] and [QueryUnescape], [Values.Encode], [ParseQuery] and
    what [Request.ParseForm] makes of a form post, as executable functions on
    byte strings; the round trips: a byte string survives escaping, and the
    values of a form survive encoding. *)

From stdpp Require Import options.
From S2P Require Import Prelude.
From S2P Require Import GoStd.
From Stdlib Require Import ZArith.

Module GoUrl.

(** ** Escaping *)

Definition in_range (lo hi : ascii) (c : ascii) : bool :=
  ((N_of_ascii lo <=? N_of_ascii c) && (N_of_ascii c <=? N_of_ascii hi))%N.

(** The bytes a query component keeps: letters, digits and four marks. *)
Definition unreserved (c : ascii) : bool :=
  in_range "a" "z" c || in_range "A" "Z" c || in_range "0" "9" c
  || existsb (Ascii.eqb c) ["-"; "_"; "."; "~"]%char.

Definition upperhex (n : N) : ascii :=
  if (n <? 10)%N then ascii_of_N (48 + n) else ascii_of_N (55 + n).

Definition unhex (c : ascii) : option N :=
  if in_range "0" "9" c then Some (N_of_ascii c - 48)%N
  else if in_range "a" "f" c then Some (N_of_ascii c - 87)%N
  else if in_range "A" "F" c then Some (N_of_ascii c - 55)%N
  else None.

Definition escape_byte (c : ascii) : string :=
  if unreserved c then String c ""
  else if Ascii.eqb c " " then "+"
  else String "%" (String (upperhex (N_of_ascii c / 16))
                     (String (upperhex (N_of_ascii c mod 16)) "")).

(** [url.QueryEscape]. *)
Fixpoint QueryEscape (s : string) : string :=
  match s with
  | EmptyString => ""
  | String c s' => escape_byte c +:+ QueryEscape s'
  end.

(** [url.EscapeError], without the piece it quotes. *)
Definition EscapeError : error := New "invalid URL escape".

(** [url.QueryUnescape]. *)
Fixpoint QueryUnescape (s : string) : res string :=
  match s with
  | EmptyString => Ok ""
  | String c s' =>
      if Ascii.eqb c "%" then
        match s' with
        | String a (String b s'') =>
            match unhex a, unhex b with
            | Some x, Some y =>
                rest ← QueryUnescape s''; Ok (String (ascii_of_N (16 * x + y)) rest)
            | _, _ => Err EscapeError
            end
        | _ => Err EscapeError
        end
      else rest ← QueryUnescape s'; Ok (String (if Ascii.eqb c "+" then " "%char else c) rest)
  end.

(** ** Values *)

Notation Values := (gmap string (list string)).

(** [Values.Get]: the first value of the key. *)
Definition Get (v : Values) (key : string) : string := default "" (v !! key ≫= head).

Definition pair_string (kv : string * string) : string :=
  QueryEscape kv.1 +:+ String "=" (QueryEscape kv.2).

(** The values of the keys, in the order of the keys. *)
Definition pairs (keys : list string) (v : Values) : list (string * string) :=
  k ← keys; x ← default [] (v !! k); [(k, x)].

(** [Values.Encode]. *)
Definition Encode (v : Values) : string :=
  String.concat "&" (map pair_string (pairs (GoStrings.Strings (elements (dom v))) v)).

(** [strings.Cut(s, sep)] for a separator of one byte. *)
Fixpoint Cut (s : string) (sep : ascii) : string * string :=
  match s with
  | EmptyString => ("", "")
  | String c s' =>
      if Ascii.eqb c sep then ("", s')
      else let '(before, after) := Cut s' sep in (String c before, after)
  end.

Definition Contains (s : string) (c : ascii) : bool :=
  existsb (Ascii.eqb c) (String.list_ascii_of_string s).

(** [m[key] = append(m[key], value)]. *)
Definition add (kv : string * string) (m : Values) : Values :=
  <[kv.1 := default [] (m !! kv.1) ++ [kv.2]]> m.

Definition semicolon : error := New "invalid semicolon separator in query".

(** One piece of a query; the first error is kept and the piece skipped. *)
Definition parse_piece (m : Values * option error) (piece : string) : Values * option error :=
  let failed e := (m.1, Some (default e m.2)) in
  if Contains piece ";" then failed semicolon
  else if String.eqb piece "" then m
  else let '(key, value) := Cut piece "=" in
       match QueryUnescape key, QueryUnescape value with
       | Ok key', Ok value' => (add (key', value') m.1, m.2)
       | Err e, _ | _, Err e => failed e
       | _, _ => m
       end.

(** [url.ParseQuery], from values already there. *)
Definition ParseQuery (query : string) : Values * option error :=
  fold_left parse_piece (GoStrings.Split query "&") (∅, None).

(** ** Form posts *)

(** 10 MB. *)
Definition maxFormSize : N := 10 * 1024 * 1024.
Definition FormContentType : string := "application/x-www-form-urlencoded".

(** What [ParseForm] makes of the body and the query of a POST request with
    the content type of a form: the values of the body come first. *)
Definition ParseForm (body rawQuery : string) : Values * option error :=
  let '(post, postErr) :=
    if (maxFormSize <? N.of_nat (String.length body))%N then (∅, Some (New "http: POST too large"))
    else ParseQuery body in
  let '(query, queryErr) := ParseQuery rawQuery in
  (union_with (λ a b, Some (a ++ b)) post query,
   match postErr with Some e => Some e | None => queryErr end).

(** ** Proofs *)

Lemma upperhex_unhex n : (n < 16)%N → unhex (upperhex n) = Some n.
Proof.
  intros Hn. destruct n as [|p]; [done|].
  do 4 (destruct p as [p|p|]; try reflexivity; try lia).
Qed.

Lemma escape_byte_unescape c s :
  QueryUnescape (escape_byte c +:+ s) = (rest ← QueryUnescape s; Ok (String c rest)).
Proof.
  assert (N_of_ascii c < 256)%N as Hc by apply N_ascii_bounded.
  unfold escape_byte. destruct (unreserved c) eqn:Hu.
  - simpl. destruct (Ascii.eqb_spec c "%") as [->|_]; [done|].
    by destruct (Ascii.eqb_spec c "+") as [->|_].
  - destruct (Ascii.eqb_spec c " ") as [->|_]; [done|]. simpl.
    rewrite !upperhex_unhex by (apply N.Div0.div_lt_upper_bound || apply N.mod_lt; lia).
    by rewrite <-N.div_mod, ascii_N_embedding by done.
Qed.

(** Every byte string survives escaping. *)
Lemma QueryUnescape_QueryEscape s : QueryUnescape (QueryEscape s) = Ok s.
Proof. induction s as [|c s IH]; [done|]. simpl. by rewrite escape_byte_unescape, IH. Qed.

Definition no_byte (c : ascii) (s : string) : Prop := c ∉ String.list_ascii_of_string s.

Lemma no_byte_app c s t : no_byte c (s +:+ t) ↔ no_byte c s ∧ no_byte c t.
Proof. unfold no_byte. rewrite GoStrings.list_ascii_app. set_solver. Qed.

(** The separators of a query do not occur in what is escaped. *)
Lemma no_byte_escape sep s :
  sep ∈ ["&"; "="; ";"]%char → no_byte sep (QueryEscape s).
Proof.
  intros Hsep. induction s as [|c s IH]; simpl; [by apply not_elem_of_nil|].
  apply no_byte_app. split; [|done].
  assert (∀ a, no_byte sep (escape_byte a)) as Hall; [|done].
  intros a. revert Hsep. destruct a as [[] [] [] [] [] [] [] []];
    intros H; apply (bool_decide_unpack _); unfold no_byte;
    repeat (apply elem_of_cons in H as [->|H]; [by vm_compute|]); by apply elem_of_nil in H.
Qed.

Lemma no_byte_cons c d s : no_byte c (String d s) ↔ c ≠ d ∧ no_byte c s.
Proof. unfold no_byte. simpl. set_solver. Qed.

Lemma Cut_app s t sep : no_byte sep s → Cut (s +:+ String sep t) sep = (s, t).
Proof.
  unfold no_byte. induction s as [|c s IH]; simpl; intros Hs.
  - by rewrite Ascii.eqb_refl.
  - apply not_elem_of_cons in Hs as [Hc Hs]. rewrite IH by done.
    by destruct (Ascii.eqb_spec c sep) as [->|_].
Qed.

(** Joining pieces and splitting them again gives the pieces. *)
Lemma Split_concat sep l :
  Forall (no_byte sep) l → l ≠ [] → GoStrings.Split (String.concat (String sep "") l) sep = l.
Proof.
  induction 1 as [|s l Hs Hl IH]; [done|]. intros _. destruct l as [|s' l].
  - by apply GoStrings.Split_plain.
  - change (String.concat (String sep "") (s :: s' :: l))
      with (s +:+ String sep (String.concat (String sep "") (s' :: l))).
    by rewrite GoStrings.Split_app, (GoStrings.Split_plain s), IH.
Qed.

Lemma no_byte_Contains c s : no_byte c s → Contains s c = false.
Proof.
  unfold no_byte, Contains. intros Hs. apply not_true_iff_false. intros E.
  apply existsb_exists in E as (x & Hx & E). apply Ascii.eqb_eq in E as <-.
  by apply list_elem_of_In in Hx.
Qed.

Lemma parse_pair m kv : parse_piece m (pair_string kv) = (add kv m.1, m.2).
Proof.
  destruct kv as [k x]. unfold parse_piece, pair_string. simpl fst. simpl snd.
  assert (no_byte ";" (QueryEscape k +:+ String "=" (QueryEscape x))) as Hno.
  { rewrite no_byte_app, no_byte_cons. split_and!; done || apply no_byte_escape; set_solver. }
  rewrite no_byte_Contains by done.
  destruct (String.eqb_spec (QueryEscape k +:+ String "=" (QueryEscape x)) "") as [E|_];
    [by destruct (QueryEscape k)|].
  rewrite (Cut_app (QueryEscape k) (QueryEscape x)) by (apply no_byte_escape; set_solver).
  by rewrite !QueryUnescape_QueryEscape.
Qed.

Lemma parse_pairs l m :
  fold_left parse_piece (map pair_string l) m = (fold_left (λ m kv, add kv m) l m.1, m.2).
Proof.
  revert m. induction l as [|kv l IH]; intros m; simpl; [by destruct m|].
  by rewrite parse_pair, IH.
Qed.

Lemma no_byte_pair kv : no_byte "&" (pair_string kv).
Proof.
  unfold pair_string. rewrite no_byte_app, no_byte_cons.
  split_and!; done || apply no_byte_escape; set_solver.
Qed.

(** Adding the values of one key after the other. *)
Lemma add_values k xs m :
  fold_left (λ m kv, add kv m) (map (pair k) xs) m
    = if xs is [] then m else <[k := default [] (m !! k) ++ xs]> m.
Proof.
  revert m. induction xs as [|x xs IH]; intros m; simpl; [done|]. rewrite IH.
  unfold add. simpl. destruct xs; [done|].
  rewrite lookup_insert_eq, insert_insert_eq. simpl. by rewrite <-app_assoc.
Qed.

Lemma pairs_cons k ks v :
  pairs (k :: ks) v = map (pair k) (default [] (v !! k)) ++ pairs ks v.
Proof. unfold pairs. simpl. done. Qed.

(** Adding the values of a map, key by key, gives the map. *)
Lemma add_pairs ks (v m : Values) :
  NoDup ks → (∀ k, k ∈ ks → m !! k = None) → (∀ k, v !! k ≠ Some []) →
  fold_left (λ m kv, add kv m) (pairs ks v) m = filter (λ kx, kx.1 ∈ ks) v ∪ m.
Proof.
  intros Hnd. revert m. induction Hnd as [|k ks Hk Hnd IH]; intros m Hm Hv.
  - unfold pairs. simpl. apply map_eq. intros i. symmetry.
    rewrite lookup_union_r; [done|]. apply map_lookup_filter_None. set_solver.
  - rewrite pairs_cons, fold_left_app, add_values. specialize (Hv k) as Hk'.
    rewrite (Hm k) by set_solver. simpl.
    assert (∀ i, i ≠ k → (filter (λ kx, kx.1 ∈ k :: ks) v : Values) !! i
                       = (filter (λ kx, kx.1 ∈ ks) v : Values) !! i) as Hi.
    { intros i Hik. rewrite !map_lookup_filter. destruct (v !! i) as [x|]; [|done]. simpl.
      destruct (decide (i ∈ ks)).
      - by rewrite !option_guard_True by set_solver.
      - by rewrite !option_guard_False by set_solver. }
    destruct (v !! k) as [[|x xs]|] eqn:Ek; [done| |]; simpl.
    + rewrite IH; [|intros i Hin; rewrite lookup_insert_ne by congruence; apply Hm; by right|done].
      apply map_eq; intros i; destruct (decide (i = k)) as [->|Hik].
      * rewrite lookup_union_r by (apply map_lookup_filter_None; by right; intros ? ? ?).
        rewrite lookup_insert_eq. symmetry. apply lookup_union_Some_l.
        apply map_lookup_filter_Some. split; [done|]. by left.
      * by rewrite !lookup_union, lookup_insert_ne, Hi by done.
    + rewrite IH; [|intros i Hin; apply Hm; by right|done].
      apply map_eq; intros i; destruct (decide (i = k)) as [->|Hik].
      * rewrite !lookup_union_r; [done|apply map_lookup_filter_None; by left..].
      * by rewrite !lookup_union, Hi by done.
Qed.

(** The values of a form survive encoding: every key keeps its values, in their
    order. *)
Lemma ParseQuery_Encode v : (∀ k, v !! k ≠ Some []) → ParseQuery (Encode v) = (v, None).
Proof.
  intros Hv. unfold ParseQuery, Encode.
  set (ks := GoStrings.Strings (elements (dom v))).
  assert (ks ≡ₚ elements (dom v)) as Hks by apply GoStrings.Strings_Permutation.
  assert (fold_left (λ m kv, add kv m) (pairs ks v) ∅ = v) as Hall.
  { rewrite add_pairs; [|rewrite Hks; apply NoDup_elements|done..].
    rewrite map_union_empty. apply map_filter_id. intros k x Hk. simpl.
    rewrite Hks. apply elem_of_elements, elem_of_dom. eauto. }
  destruct (pairs ks v) as [|kv l] eqn:E.
  - simpl in *. by rewrite Hall.
  - rewrite Split_concat; [|apply Forall_map, Forall_forall; intros; apply no_byte_pair|done].
    rewrite parse_pairs. cbn [fst snd]. by rewrite Hall.
Qed.


End GoUrl.
