(* ===== verification/Envoy.v ===== *)
(** * Envoy messages and their codecs

    The protobuf messages the program builds, reads or edits, as records of the
    fields it names in the source; [Fields] holds what is left of a message,
    which the code carries along untouched.  Marshalling belongs to protobuf,
    the YAML library and utils-go, so it is a parameter ([Codec]). *)

From stdpp Require Import options.
From S2P Require Import Prelude.
From S2P Require Import GoSlice.

(** The fields of a message the code never looks at. *)
Definition Fields := list (string * string).

(** [anypb.Any]. *)
Record Any := mkAny { Any_TypeUrl : string; Any_Value : string }.

#[global] Instance Any_eq_dec : EqDecision Any.
Proof. solve_decision. Defined.

(** ** Endpoints: config.endpoint.v3 *)

Record Locality := mkLocality { Locality_Zone : string }.

(** The kinds of [structpb.Value] endpoint metadata is made of. *)
Inductive StructValue := BoolValue (b : bool) | StringValue (s : string).

Inductive Protocol := TCP | UDP.

Record SocketAddress := mkSocketAddress {
  sa_Protocol : Protocol;
  sa_Address : string;
  sa_PortValue : N }.

Record HealthCheckConfig := mkHealthCheckConfig { hc_PortValue : N }.

(** [ep_Address] is [None] when the message has no address or one that is not
    a socket address: the getters of the code return "" and 0 in both cases. *)
Record Endpoint := mkEndpoint {
  ep_HealthCheckConfig : option HealthCheckConfig;
  ep_Address : option SocketAddress }.

(** [lb_Metadata] is the map [FilterMetadata] of the message's metadata. *)
Record LbEndpoint := mkLbEndpoint {
  lb_Metadata : gmap string (gmap string StructValue);
  lb_Endpoint : option Endpoint }.

Record LocalityLbEndpoints := mkLocalityLbEndpoints {
  lle_Locality : option Locality;
  lle_Priority : N;
  lle_LbEndpoints : list LbEndpoint }.

#[global] Instance Locality_eq_dec : EqDecision Locality.
Proof. solve_decision. Defined.
#[global] Instance StructValue_eq_dec : EqDecision StructValue.
Proof. solve_decision. Defined.
#[global] Instance Protocol_eq_dec : EqDecision Protocol.
Proof. solve_decision. Defined.
#[global] Instance SocketAddress_eq_dec : EqDecision SocketAddress.
Proof. solve_decision. Defined.
#[global] Instance HealthCheckConfig_eq_dec : EqDecision HealthCheckConfig.
Proof. solve_decision. Defined.
#[global] Instance Endpoint_eq_dec : EqDecision Endpoint.
Proof. solve_decision. Defined.
#[global] Instance LbEndpoint_eq_dec : EqDecision LbEndpoint.
Proof. solve_decision. Defined.
#[global] Instance LocalityLbEndpoints_eq_dec : EqDecision LocalityLbEndpoints.
Proof. solve_decision. Defined.

(** A cluster load assignment; its endpoint list is a value when it was just
    decoded, a [Slice] when [ConfigStore] publishes it. *)
Record ClusterLoadAssignment (E : Type) := mkCLA {
  cla_ClusterName : string;
  cla_Endpoints : E }.
Arguments mkCLA {E} _ _.
Arguments cla_ClusterName {E} _.
Arguments cla_Endpoints {E} _.

(** Nil-safe getters, as protobuf generates them. *)
Definition GetZone (l : option Locality) : string := from_option Locality_Zone "" l.

Definition GetSocketAddress (e : LbEndpoint) : option SocketAddress :=
  lb_Endpoint e ≫= ep_Address.

Definition GetAddress (e : LbEndpoint) : string :=
  from_option sa_Address "" (GetSocketAddress e).

Definition GetPortValue (e : LbEndpoint) : N :=
  from_option sa_PortValue 0%N (GetSocketAddress e).

Definition GetHealthCheckPort (e : LbEndpoint) : N :=
  from_option hc_PortValue 0%N (lb_Endpoint e ≫= ep_HealthCheckConfig).

(** ** Routes: config.route.v3 *)

(** [WeightedCluster.ClusterWeight]; the weight is a [UInt32Value] wrapper, so
    it can be absent. *)
Record WeightedClusterEntry := mkWeightedClusterEntry {
  wce_Name : string;
  wce_Weight : option N;
  wce_rest : Fields }.

Record WeightedCluster := mkWeightedCluster {
  wc_Clusters : list WeightedClusterEntry;
  wc_rest : Fields }.

(** [rt_WeightedClusters] is [vr.GetRoute().GetWeightedClusters()]. *)
Record Route := mkRoute {
  rt_WeightedClusters : option WeightedCluster;
  rt_rest : Fields }.

Record VirtualHost := mkVirtualHost { vh_Routes : list Route; vh_rest : Fields }.

Record RouteConfiguration := mkRouteConfiguration {
  rc_VirtualHosts : list VirtualHost;
  rc_rest : Fields }.

(** ** Listeners: config.listener.v3 *)

Record TransportSocket := mkTransportSocket {
  ts_Name : string;
  ts_TypedConfig : option Any;
  ts_rest : Fields }.

Record Filter := mkFilter {
  f_Name : string;
  f_TypedConfig : option Any;
  f_rest : Fields }.

Record FilterChain := mkFilterChain {
  fc_Filters : list Filter;
  fc_TransportSocket : option TransportSocket;
  fc_rest : Fields }.

Record Listener := mkListener { l_FilterChains : list FilterChain; l_rest : Fields }.

Record HttpConnectionManager := mkHCM {
  hcm_RouteConfig : option RouteConfiguration;
  hcm_rest : Fields }.

Record DownstreamTlsContext := mkDownstreamTlsContext {
  tls_RequireClientCertificate : option bool;
  tls_rest : Fields }.

(** ** Clusters and secrets *)

Record Cluster := mkCluster { c_Name : string; c_rest : Fields }.

Record CertificateValidationContext := mkValidationContext {
  cvc_TrustedCa : option string;
  cvc_rest : Fields }.

Inductive SecretType :=
  | Secret_TlsCertificate (certificateChain privateKey : string)
  | Secret_ValidationContext (v : CertificateValidationContext)
  | Secret_Other (f : Fields).

Record Secret := mkSecret { s_Name : string; s_Type : SecretType }.

#[global] Instance CertificateValidationContext_eq_dec :
  EqDecision CertificateValidationContext.
Proof. solve_decision. Defined.
#[global] Instance SecretType_eq_dec : EqDecision SecretType.
Proof. solve_decision. Defined.
#[global] Instance Secret_eq_dec : EqDecision Secret.
Proof. solve_decision. Defined.

(** ** [types.Resource] *)

Inductive Resource :=
  | RCluster (c : Cluster)
  | RRoute (r : RouteConfiguration)
  | REndpoint (e : ClusterLoadAssignment (list LocalityLbEndpoints))
  | RListener (l : Listener)
  | RSecret (s : Secret).

(** ** wellknown names *)

Definition wellknown_HTTPConnectionManager : string :=
  "envoy.filters.network.http_connection_manager".
Definition wellknown_TransportSocketTLS : string := "envoy.transport_sockets.tls".

(** ** Marshalling *)

(** A value of type [interface{}] as the YAML decoder builds it. *)
Inductive iface :=
  | IBool (b : bool)
  | INumber (text : string)
  | IString (s : string)
  | IList (l : list iface)
  | IMap (l : list (iface * iface)).

(** The marshalling functions the program calls: utils-go, encoding/json,
    protojson and anypb.  The typed configuration of a filter is an option
    because [UnmarshalTo] is called on a nil [Any] when it is missing. *)
Class Codec := {
  ConvertYAMLtoJSON : iface → iface;
  json_Marshal : iface → res string;
  json_Unmarshal_list : string → res (list iface);
  GetJSONfromYAML : iface → res string;
  protojson_Cluster : string → res Cluster;
  protojson_RouteConfiguration : string → res RouteConfiguration;
  protojson_ClusterLoadAssignment :
    string → res (ClusterLoadAssignment (list LocalityLbEndpoints));
  protojson_Listener : string → res Listener;
  protojson_Secret : string → res Secret;
  protojson_ValidationContext : string → res CertificateValidationContext;
  UnmarshalTo_HCM : option Any → res HttpConnectionManager;
  anypb_New_HCM : HttpConnectionManager → res Any;
  UnmarshalTo_TLS : option Any → res DownstreamTlsContext;
  anypb_New_TLS : DownstreamTlsContext → res Any }.

(** What [anypb.New] promises: the message can be read back. *)
Class CodecLaws `{Codec} : Prop := {
  anypb_roundtrip_HCM : ∀ m a,
    anypb_New_HCM m = Ok a → UnmarshalTo_HCM (Some a) = Ok m;
  anypb_roundtrip_TLS : ∀ m a,
    anypb_New_TLS m = Ok a → UnmarshalTo_TLS (Some a) = Ok m }.
