(* ===== verification/Resources.v ===== *)
(** * pkg/resources: YAML objects to typed Envoy resources *)

From stdpp Require Import options.
From S2P Require Import Prelude.
From S2P Require Import GoSlice.
From S2P Require Import Envoy.

Module Resources.

Definition errUnknownClass : error := New "unknown class".

(** The Go type of the [outType] argument, over which the function switches. *)
Inductive OutType :=
  | TCluster | TRouteConfiguration | TClusterLoadAssignment | TListener | TSecret
  | TOther.

Section resources.
Context `{Codec}.

(** One round of the loop after [resourcesJSON] is computed: the type switch. *)
Definition decodeResource (outType : OutType) (resourcesJSON : string) : res Resource :=
  match outType with
  | TCluster => wrap "cluster.Cluster" (RCluster <$> protojson_Cluster resourcesJSON)
  | TRouteConfiguration =>
      wrap "route.RouteConfiguration" (RRoute <$> protojson_RouteConfiguration resourcesJSON)
  | TClusterLoadAssignment =>
      wrap "endpoint.ClusterLoadAssignment"
        (REndpoint <$> protojson_ClusterLoadAssignment resourcesJSON)
  | TListener => wrap "listener.Listener" (RListener <$> protojson_Listener resourcesJSON)
  | TSecret => wrap "tls.Secret" (RSecret <$> protojson_Secret resourcesJSON)
  | TOther => Err errUnknownClass
  end.

Definition YamlToResources (yamlObj : list iface) (outType : OutType)
  : res (list Resource) :=
  match yamlObj with
  | [] => Ok []
  | _ =>
      jsonObj ← wrap "json.Marshal(yamlObjJSON)"
                  (json_Marshal (ConvertYAMLtoJSON (IList yamlObj)));
      resources ← wrap "json.Unmarshal(jsonObj, &resources)"
                    (json_Unmarshal_list jsonObj);
      mapM (λ v,
        resourcesJSON ← wrap "utils.GetJSONfromYAML(v)" (GetJSONfromYAML v);
        decodeResource outType resourcesJSON) resources
  end.

(** The dynamic type of a decoded resource. *)
Definition has_type (o : OutType) (r : Resource) : Prop :=
  match o, r with
  | TCluster, RCluster _ | TRouteConfiguration, RRoute _
  | TClusterLoadAssignment, REndpoint _ | TListener, RListener _
  | TSecret, RSecret _ => True
  | _, _ => False
  end.

Lemma decodeResource_type o j r : decodeResource o j = Ok r → has_type o r.
Proof.
  destruct o; simpl; rewrite ?wrap_Ok; try done.
  - by destruct (protojson_Cluster j); simpl; intros; simplify_eq.
  - by destruct (protojson_RouteConfiguration j); simpl; intros; simplify_eq.
  - by destruct (protojson_ClusterLoadAssignment j); simpl; intros; simplify_eq.
  - by destruct (protojson_Listener j); simpl; intros; simplify_eq.
  - by destruct (protojson_Secret j); simpl; intros; simplify_eq.
Qed.

(** Every resource a call returns has the requested dynamic type. *)
Lemma YamlToResources_type y o rs :
  YamlToResources y o = Ok rs → Forall (has_type o) rs.
Proof.
  unfold YamlToResources. destruct y as [|x y]; [by intros [= <-]|].
  intros E. ok_step E as j. ok_step E as l.
  apply mapM_res_Ok in E. induction E as [|v r l rs Hv _ IH]; constructor; [|done].
  rewrite bind_Ok in Hv. destruct Hv as (k & _ & Hk). by eapply decodeResource_type.
Qed.

End resources.
End Resources.
