(* ===== verification/AppConfig.v ===== *)
(** * pkg/config/config.go: the application's settings

    The [Type] record of settings (every field is a pointer the flag package
    initialises, so it is modelled by its value), the flag defaults, loading
    from a file, the start-up check and the text of the settings. *)

From stdpp Require Import options.
From S2P Require Import Prelude.
From S2P Require Import GoStd.
From Stdlib Require Import ZArith.

Module AppConfig.

Definition AppName : string := "envoy-control-plane".
Definition annotationRouteClusterWeight : string := AppName +:+ "/routes.cluster.weight.".
Definition AnnotationCanaryEnabled : string := AppName +:+ "/canary.enabled".
Definition CanarySuffix : string := "-canary".

(** Durations are [time.Duration]s: nanoseconds. *)
Definition Millisecond : Z := 1000000.
Definition Second : Z := 1000 * Millisecond.
Definition Hour : Z := 3600 * Second.

Definition sslRotationPeriodDefault : Z := 1 * Hour.
Definition endpointCheckPeriodDefault : Z := 60 * Second.
Definition configDrainPeriodDefault : Z := 5 * Second.
Definition defaultGracePeriod : Z := 5 * Second.

Record Type_ := mkType {
  GracePeriod : Z;
  LogLevel : string;
  LogPretty : bool;
  LogAccess : bool;
  LogPath : string;
  LogReportCaller : bool;
  ConfigFile : string;
  ConfigMapLabels : string;
  ConfigMapNames : string;
  KubeConfigFile : string;
  WatchNamespaced : bool;
  LeaderElection : bool;
  PodName : string;
  Namespace : string;
  GrpcAddress : string;
  WebHTTPAddress : string;
  WebHTTPSAddress : string;
  NodeZoneLabel : string;
  ConfigDrainPeriod : Z;
  EndpointCheckPeriod : Z;
  SentryDSN : string;
  SSLName : string;
  SSLCrt : string;
  SSLKey : string;
  SSLDoNotUseValidation : bool;
  SSLRotationPeriod : Z;
  WebAdminUser : string;
  WebAdminPassword : string }.

Definition errUseNamespace : error := New "use namespace name if using namespaced".

(** What [GetVersion] returns, unless the linker sets another version. *)
Definition gitVersion : string := "dev".

Section config.
(** [os.Getenv], which returns "" for an unset variable. *)
Variable Getenv : string → string.

Definition getEnvDefault (name defaultValue : string) : string :=
  let r := Getenv name in
  if (String.length defaultValue =? 0)%nat then r
  else if (String.length r =? 0)%nat then defaultValue
  else r.

(** The value of [config] when no flag is given, for what [GetVersion] returns. *)
Definition config (version : string) : Type_ := {|
  GracePeriod := defaultGracePeriod;
  LogLevel := "INFO";
  LogPretty := false;
  LogAccess := false;
  LogPath := "/tmp";
  LogReportCaller := true;
  ConfigFile := getEnvDefault "CONFIG" "config.yaml";
  ConfigMapLabels := "app=envoy-control-plane";
  ConfigMapNames := "";
  KubeConfigFile := "";
  WatchNamespaced := true;
  LeaderElection := true;
  PodName := Getenv "MY_POD_NAME";
  Namespace := getEnvDefault "MY_POD_NAMESPACE" "default";
  GrpcAddress := ":18080";
  WebHTTPSAddress := ":18081";
  WebHTTPAddress := ":18082";
  NodeZoneLabel := "topology.kubernetes.io/zone";
  ConfigDrainPeriod := configDrainPeriodDefault;
  EndpointCheckPeriod := endpointCheckPeriodDefault;
  SentryDSN := "";
  SSLName := "envoy_control_plane_default";
  SSLCrt := "";
  SSLKey := "";
  SSLRotationPeriod := sslRotationPeriodDefault;
  SSLDoNotUseValidation := false;
  WebAdminUser := "admin";
  WebAdminPassword := version |}.

(** The files the process can read, and whether [os.Stat] finds one. *)
Variable ReadFile : string → option string.
Variable Exists : string → bool.
(** [yaml.Unmarshal] into the settings: the fields the document sets. *)
Variable yaml_Unmarshal : string → Type_ → res Type_.

(** A missing configuration file is not an error. *)
Definition Load (config : Type_) : res Type_ :=
  match ReadFile (ConfigFile config) with
  | None => Ok config
  | Some configByte => yaml_Unmarshal configByte config
  end.

(** [String] has a text for every outcome.  The verb of the error is the one for
    booleans: [formatError] is what fmt makes of the error with it, which depends
    on the type the YAML library gives its errors. *)
Variable yaml_Marshal : Type_ → res string.
Variable formatError : error → string.

Definition String_ (config : Type_) : res string :=
  match yaml_Marshal config with
  | Ok out => Ok out
  | Err err => Ok ("ERROR: " +:+ formatError err)
  | Crash why => Crash why
  end.

Definition CheckConfig (config : Type_) : res unit :=
  if WatchNamespaced config && (String.length (Namespace config) =? 0)%nat
  then Err errUseNamespace
  else if (0 <? String.length (SSLCrt config))%nat && negb (Exists (SSLCrt config))
  then Err (Wrapped (New "file does not exist") "ssl certificate error")
  else if (0 <? String.length (SSLKey config))%nat && negb (Exists (SSLKey config))
  then Err (Wrapped (New "file does not exist") "ssl key error")
  else Ok ().

(** A checked configuration names a namespace when it watches one, and its
    certificate files exist. *)
Lemma CheckConfig_Ok c :
  CheckConfig c = Ok () ↔
  (WatchNamespaced c = true → Namespace c ≠ "") ∧
  (SSLCrt c ≠ "" → Exists (SSLCrt c) = true) ∧
  (SSLKey c ≠ "" → Exists (SSLKey c) = true).
Proof.
  clear Getenv ReadFile yaml_Unmarshal yaml_Marshal formatError. unfold CheckConfig.
  destruct (WatchNamespaced c), (Namespace c), (SSLCrt c) as [|x crt],
    (SSLKey c) as [|y key]; simpl;
    repeat match goal with |- context [Exists ?f] => destruct (Exists f) eqn:? end;
    simpl; naive_solver.
Qed.

End config.

(** The default settings pass the check in every environment. *)
Lemma CheckConfig_default Getenv Exists v :
  CheckConfig Exists (config Getenv v) = Ok ().
Proof.
  apply CheckConfig_Ok. simpl. split; [|by split]. intros _.
  unfold getEnvDefault. simpl. by destruct (Getenv "MY_POD_NAMESPACE").
Qed.

End AppConfig.
