(* ===== verification/Config.v ===== *)
(** * pkg/config/configType.go: one node's configuration

    Parsing a ConfigMap entry, decoding its resources, the cluster weights set
    by annotations and the removal of client-certificate requirements. *)

From stdpp Require Import options.
From S2P Require Import Prelude.
From S2P Require Import GoStd.
From S2P Require Import GoSlice.
From S2P Require Import Envoy.
From S2P Require Import Resources.
From S2P Require Import AppConfig.
From Stdlib Require Import ZArith.

Record KubernetesType := mkKubernetesType {
  k_ClusterName : string;
  k_Namespace : string;
  k_Port : N;
  k_HealthCheckPort : N;
  k_Priority : N;
  (** nil and an empty map are different selectors *)
  k_Selector : option (gmap string string);
  k_Service : string }.

#[global] Instance KubernetesType_eq_dec : EqDecision KubernetesType.
Proof. solve_decision. Defined.

Record ConfigType := mkConfigType {
  ID : string;
  Name : string;
  UseVersionLabel : bool;
  VersionLabelKey : string;
  VersionLabel : string;
  ConfigMapName : string;
  ConfigMapNamespace : string;
  ConfigMapAnnotations : gmap string string;
  Kubernetes : list KubernetesType;
  Endpoints : list iface;
  Routes : list iface;
  Clusters : list iface;
  Listeners : list iface;
  Secrets : list iface;
  Validation : option iface;
  clusters : list Resource;
  routes : list Resource;
  listeners : list Resource;
  secrets : list Resource }.

(** Template expansion and YAML decoding of one ConfigMap entry:
    [template.New(nodeID).Funcs(...).Parse(text)], [ExecuteTemplate] and
    [yaml.Unmarshal] onto a prepared value. *)
Class ConfigParser := {
  Template : Type;
  template_Parse : string → string → res Template;
  ExecuteTemplate : Template → string → res string;
  yaml_Unmarshal_ConfigType : string → ConfigType → res ConfigType }.

Module Config.

Import AppConfig.

Definition errUnknownClass : error := New "unknown class".

Record ClusterWeight := mkClusterWeight { Value : Z }.

(** ** Setters *)

Definition with_identity (id name vlabel cmName cmNamespace : string)
    (ann : gmap string string) (k8s : list KubernetesType) (c : ConfigType)
  : ConfigType := {|
  ID := id; Name := name; UseVersionLabel := UseVersionLabel c;
  VersionLabelKey := VersionLabelKey c; VersionLabel := vlabel;
  ConfigMapName := cmName; ConfigMapNamespace := cmNamespace;
  ConfigMapAnnotations := ann; Kubernetes := k8s; Endpoints := Endpoints c;
  Routes := Routes c; Clusters := Clusters c; Listeners := Listeners c;
  Secrets := Secrets c; Validation := Validation c; clusters := clusters c;
  routes := routes c; listeners := listeners c; secrets := secrets c |}.

Definition with_resources (cl ro li se : list Resource) (c : ConfigType)
  : ConfigType := {|
  ID := ID c; Name := Name c; UseVersionLabel := UseVersionLabel c;
  VersionLabelKey := VersionLabelKey c; VersionLabel := VersionLabel c;
  ConfigMapName := ConfigMapName c; ConfigMapNamespace := ConfigMapNamespace c;
  ConfigMapAnnotations := ConfigMapAnnotations c; Kubernetes := Kubernetes c;
  Endpoints := Endpoints c; Routes := Routes c; Clusters := Clusters c;
  Listeners := Listeners c; Secrets := Secrets c; Validation := Validation c;
  clusters := cl; routes := ro; listeners := li; secrets := se |}.

(** ** Getters *)

Definition GetClusters (c : ConfigType) : list Resource := clusters c.
Definition GetRoutes (c : ConfigType) : list Resource := routes c.
Definition GetListeners (c : ConfigType) : list Resource := listeners c.
Definition GetSecrets (c : ConfigType) : list Resource := secrets c.

(** ** Cluster weights *)

(** The loop over the annotations only looks for one with the prefix, so the
    order of the iteration does not matter. *)
Definition HasClusterWeights (c : ConfigType) : bool :=
  existsb (λ kv, GoStrings.HasPrefix kv.1 annotationRouteClusterWeight)
    (map_to_list (ConfigMapAnnotations c)).

Definition GetClusterWeight (c : ConfigType) (name : string)
  : res (option ClusterWeight) :=
  match ConfigMapAnnotations c !! (annotationRouteClusterWeight +:+ name) with
  | Some w =>
      i ← wrap "strconv.ParseUint" (GoStrconv.ParseUint w);
      Ok (Some (mkClusterWeight (GoStrconv.int64_of_uint64 i)))
  | None => Ok None
  end.

(** The body of the innermost loop: one entry of a weighted cluster. *)
Definition mutateWeightedClusterEntry (configType : ConfigType)
    (c : WeightedClusterEntry) : res WeightedClusterEntry :=
  weight ← GetClusterWeight configType (wce_Name c);
  match weight with
  | None => Ok c
  | Some weight =>
      let v := GoStrconv.uint32_of_int64 (Value weight) in
      if (default 0 (wce_Weight c) =? v)%N then Ok c
      else Ok (mkWeightedClusterEntry (wce_Name c) (Some v) (wce_rest c))
  end.

Definition mutateWeightedRoute (configType : ConfigType) (vr : Route) : res Route :=
  match rt_WeightedClusters vr with
  | None => Ok vr
  | Some wc =>
      cs ← mapM (mutateWeightedClusterEntry configType) (wc_Clusters wc);
      Ok (mkRoute (Some (mkWeightedCluster cs (wc_rest wc))) (rt_rest vr))
  end.

Definition mutateWeightedVirtualHost (configType : ConfigType) (v : VirtualHost)
  : res VirtualHost :=
  rs ← mapM (mutateWeightedRoute configType) (vh_Routes v);
  Ok (mkVirtualHost rs (vh_rest v)).

(** [r] is a pointer, nil for a connection manager without inline routes. *)
Definition mutateWeightedRouteConfiguration (configType : ConfigType)
    (r : option RouteConfiguration) : res (option RouteConfiguration) :=
  match r with
  | None => Ok None
  | Some r =>
      vs ← mapM (mutateWeightedVirtualHost configType) (rc_VirtualHosts r);
      Ok (Some (mkRouteConfiguration vs (rc_rest r)))
  end.

Definition mutateWeightedRoutes (configType : ConfigType) (routes : list Resource)
  : res (list Resource) :=
  mapM (λ item,
    match item with
    | RRoute r =>
        r' ← wrap "error mutateWeightedRouteConfiguration"
               (mutateWeightedRouteConfiguration configType (Some r));
        Ok (RRoute (default r r'))
    | _ => Err errUnknownClass
    end) routes.

Section codec.
Context `{Codec}.

(** One filter of a listener's filter chain. *)
Definition mutateWeightedFilter (configType : ConfigType) (f : Filter) : res Filter :=
  if String.eqb (f_Name f) wellknown_HTTPConnectionManager then
    m ← wrap "error unmarshal to HttpConnectionManager" (UnmarshalTo_HCM (f_TypedConfig f));
    rc ← wrap "error mutateWeightedRouteConfiguration"
           (mutateWeightedRouteConfiguration configType (hcm_RouteConfig m));
    pbst ← wrap "error anypb.New" (anypb_New_HCM (mkHCM rc (hcm_rest m)));
    Ok (mkFilter (f_Name f) (Some pbst) (f_rest f))
  else Ok f.

Definition mutateWeightedFilterChain (configType : ConfigType) (fc : FilterChain)
  : res FilterChain :=
  fs ← mapM (mutateWeightedFilter configType) (fc_Filters fc);
  Ok (mkFilterChain fs (fc_TransportSocket fc) (fc_rest fc)).

Definition mutateWeightedRoutesInListeners (configType : ConfigType)
    (listiners : list Resource) : res (list Resource) :=
  mapM (λ listiner,
    match listiner with
    | RListener l =>
        fcs ← mapM (mutateWeightedFilterChain configType) (l_FilterChains l);
        Ok (RListener (mkListener fcs (l_rest l)))
    | _ => Err errUnknownClass
    end) listiners.

(** ** Client certificates *)

Definition filterTransportSocket (s : TransportSocket) : res TransportSocket :=
  if String.eqb (ts_Name s) wellknown_TransportSocketTLS then
    r ← UnmarshalTo_TLS (ts_TypedConfig s);
    pbst ← anypb_New_TLS
      (mkDownstreamTlsContext ((λ _, false) <$> tls_RequireClientCertificate r)
         (tls_rest r));
    Ok (mkTransportSocket (ts_Name s) (Some pbst) (ts_rest s))
  else Ok s.

Definition filterFilterChain (fc : FilterChain) : res FilterChain :=
  match fc_TransportSocket fc with
  | None => Ok fc
  | Some s =>
      s' ← filterTransportSocket s;
      Ok (mkFilterChain (fc_Filters fc) (Some s') (fc_rest fc))
  end.

Definition filterCertificates (listiners : list Resource) : res (list Resource) :=
  mapM (λ listiner,
    match listiner with
    | RListener c =>
        fcs ← mapM filterFilterChain (l_FilterChains c);
        Ok (RListener (mkListener fcs (l_rest c)))
    | _ => Err errUnknownClass
    end) listiners.

(** ** Saving and parsing *)

(** The resources are stored in [c] before the weights are applied in place;
    every caller drops [c] when an error is returned. *)
Definition SaveResources (app : AppConfig.Type_) (c : ConfigType) : res ConfigType :=
  cl ← wrap "error parsing clusters"
         (Resources.YamlToResources (Clusters c) Resources.TCluster);
  ro ← wrap "error parsing routes"
         (Resources.YamlToResources (Routes c) Resources.TRouteConfiguration);
  li ← wrap "error parsing listeners"
         (Resources.YamlToResources (Listeners c) Resources.TListener);
  se ← wrap "error parsing secrets"
         (Resources.YamlToResources (Secrets c) Resources.TSecret);
  '(li1, ro1) ← (if HasClusterWeights c then
      li' ← wrap "errors in mutateWeightedRoutesInListeners"
              (mutateWeightedRoutesInListeners c li);
      ro' ← wrap "errors in mutateWeightedRoutes" (mutateWeightedRoutes c ro);
      Ok (li', ro')
    else Ok (li, ro));
  li2 ← (if SSLDoNotUseValidation app
         then wrap "errors in filterCertificates" (filterCertificates li1)
         else Ok li1);
  Ok (with_resources cl ro1 li2 se c).

Context `{ConfigParser}.

Definition emptyConfig : ConfigType :=
  mkConfigType "" "" false "version" "" "" "" ∅ [] [] [] [] [] [] None [] [] [] [].

(** [template.Must] panics on a template that does not parse. *)
Definition ParseConfigYaml (nodeID text : string) : res ConfigType :=
  match template_Parse nodeID text with
  | Err _ => Crash "template.Must"
  | Crash w => Crash w
  | Ok templates =>
      tpl ← wrap "templates.ExecuteTemplate"
              (ExecuteTemplate templates (GoPath.Base nodeID));
      wrap "yaml.Unmarshal" (yaml_Unmarshal_ConfigType tpl emptyConfig)
  end.

(** The [-validate] mode of the command: any failure ends the process. *)
Definition ValidateConfig (app : AppConfig.Type_) (ReadFile : string → option string)
    (path : string) : res unit :=
  match ReadFile path with
  | None => Crash "log.Fatal"
  | Some configBytes =>
      match yaml_Unmarshal_ConfigType configBytes
              (mkConfigType "" "" false "" "" "" "" ∅ [] [] [] [] [] [] None [] [] [] []) with
      | Ok c => match SaveResources app c with Ok _ => Ok () | _ => Crash "log.Fatal" end
      | _ => Crash "log.Fatal"
      end
  end.

End codec.

(** ** Weights: specification *)

(** The weighted-cluster entries of a route configuration, in order. *)
Definition route_entries (vr : Route) : list WeightedClusterEntry :=
  from_option wc_Clusters [] (rt_WeightedClusters vr).
Definition vhost_entries (v : VirtualHost) : list WeightedClusterEntry :=
  concat (map route_entries (vh_Routes v)).
Definition entries (r : RouteConfiguration) : list WeightedClusterEntry :=
  concat (map vhost_entries (rc_VirtualHosts r)).

(** A route configuration with every weight removed: what must not change. *)
Definition erase_entry (e : WeightedClusterEntry) : WeightedClusterEntry :=
  mkWeightedClusterEntry (wce_Name e) None (wce_rest e).
Definition erase_route (vr : Route) : Route :=
  mkRoute ((λ wc, mkWeightedCluster (map erase_entry (wc_Clusters wc)) (wc_rest wc))
    <$> rt_WeightedClusters vr) (rt_rest vr).
Definition erase_vhost (v : VirtualHost) : VirtualHost :=
  mkVirtualHost (map erase_route (vh_Routes v)) (vh_rest v).
Definition erase (r : RouteConfiguration) : RouteConfiguration :=
  mkRouteConfiguration (map erase_vhost (rc_VirtualHosts r)) (rc_rest r).

(** The annotation that sets the weight of a cluster. *)
Definition annotation (c : ConfigType) (name : string) : option string :=
  ConfigMapAnnotations c !! (annotationRouteClusterWeight +:+ name).

(** What an entry becomes: its weight is the annotated number modulo 2^32 when
    there is an annotation, and is left alone otherwise. *)
Definition entry_weighted (c : ConfigType) (e e' : WeightedClusterEntry) : Prop :=
  match annotation c (wce_Name e) with
  | None => e' = e
  | Some w => ∃ n, GoStrconv.ParseUint w = Ok n ∧
                   default 0%N (wce_Weight e') = (n `mod` 2 ^ 32)%N
  end.

Lemma mutate_entry_Ok c e e' :
  mutateWeightedClusterEntry c e = Ok e' →
  erase_entry e' = erase_entry e ∧ entry_weighted c e e'.
Proof.
  unfold mutateWeightedClusterEntry, GetClusterWeight, entry_weighted, annotation.
  destruct (ConfigMapAnnotations c !! _) as [w|]; simpl; [|by intros [= <-]].
  destruct (GoStrconv.ParseUint w) as [n|err|why]; simpl; [|done..].
  rewrite GoStrconv.uint32_of_int64_of_uint64.
  destruct (N.eqb_spec (default 0%N (wce_Weight e)) (n `mod` 2 ^ 32)) as [E|_];
    intros [= <-]; simpl; eauto.
Qed.

Lemma mutate_entry_again c e e' :
  mutateWeightedClusterEntry c e = Ok e' → mutateWeightedClusterEntry c e' = Ok e'.
Proof.
  intros E. pose proof E as [He Hw]%mutate_entry_Ok.
  assert (wce_Name e' = wce_Name e) as Hn by (by injection He).
  unfold mutateWeightedClusterEntry, GetClusterWeight, entry_weighted, annotation in *.
  rewrite Hn. destruct (ConfigMapAnnotations c !! _) as [w|]; simpl in *; [|by subst].
  destruct Hw as (n & -> & Hw). simpl.
  by rewrite GoStrconv.uint32_of_int64_of_uint64, Hw, N.eqb_refl.
Qed.

Lemma mutate_entry_is_Ok c e :
  (∃ e', mutateWeightedClusterEntry c e = Ok e') ↔
  ∀ w, annotation c (wce_Name e) = Some w → ∃ n, GoStrconv.ParseUint w = Ok n.
Proof.
  unfold mutateWeightedClusterEntry, GetClusterWeight, annotation.
  destruct (ConfigMapAnnotations c !! _) as [w|]; simpl; [|naive_solver].
  destruct (GoStrconv.ParseUint w) as [n|err|why] eqn:En; simpl.
  - split; [intros _ w' [= <-]; eauto|intros _; case_match; eauto].
  - split; [by intros [? ?]|]. intros H. destruct (H w) as [? ?]; [done|congruence].
  - split; [by intros [? ?]|]. intros H. destruct (H w) as [? ?]; [done|congruence].
Qed.

#[local] Ltac bind_ok H :=
  let E := fresh "E" in
  rewrite bind_Ok in H; destruct H as (? & E & H); simplify_eq.

Lemma mutate_route_Ok c vr vr' :
  mutateWeightedRoute c vr = Ok vr' →
  erase_route vr' = erase_route vr ∧
  Forall2 (entry_weighted c) (route_entries vr) (route_entries vr').
Proof.
  unfold mutateWeightedRoute, erase_route, route_entries.
  destruct (rt_WeightedClusters vr) as [wc|] eqn:Hwc; simpl; intros H.
  - bind_ok H. simpl. split.
    + do 3 f_equal. eapply mapM_res_eq; [|exact E]. by intros ?? []%mutate_entry_Ok.
    + apply mapM_res_Ok in E. eapply Forall2_impl; [exact E|].
      by intros ?? []%mutate_entry_Ok.
  - simplify_eq. rewrite Hwc. by split.
Qed.

Lemma mutate_vhost_Ok c v v' :
  mutateWeightedVirtualHost c v = Ok v' →
  erase_vhost v' = erase_vhost v ∧
  Forall2 (entry_weighted c) (vhost_entries v) (vhost_entries v').
Proof.
  unfold mutateWeightedVirtualHost, erase_vhost, vhost_entries. intros H. bind_ok H.
  simpl. split.
  - f_equal. eapply mapM_res_eq; [|exact E]. by intros ?? []%mutate_route_Ok.
  - eapply mapM_res_concat; [|exact E]. by intros ?? []%mutate_route_Ok.
Qed.

Lemma mutate_rc_Ok c r r' :
  mutateWeightedRouteConfiguration c (Some r) = Ok (Some r') →
  erase r' = erase r ∧ Forall2 (entry_weighted c) (entries r) (entries r').
Proof.
  simpl. unfold erase, entries. intros H. bind_ok H. simpl. split.
  - f_equal. eapply mapM_res_eq; [|exact E]. by intros ?? []%mutate_vhost_Ok.
  - eapply mapM_res_concat; [|exact E]. by intros ?? []%mutate_vhost_Ok.
Qed.

(** The shape of the result: nil for nil, a message for a message. *)
Lemma mutate_rc_shape c o o' :
  mutateWeightedRouteConfiguration c o = Ok o' → is_Some o ↔ is_Some o'.
Proof.
  destruct o; simpl; intros H; [bind_ok H|simplify_eq]; split; intros [? ?]; eauto; done.
Qed.

(** Applying the weights to an updated loop body changes nothing. *)
Lemma mapM_res_again {A} (f : A → res A) l k :
  (∀ x y, f x = Ok y → f y = Ok y) → mapM f l = Ok k → mapM f k = Ok k.
Proof.
  intros Hf E. apply mapM_res_id. intros y Hy. apply mapM_res_Ok in E.
  apply list_elem_of_lookup in Hy as [i Hy].
  destruct (Forall2_lookup_r _ _ _ _ _ E Hy) as (x & _ & Hx). by eapply Hf.
Qed.

Lemma mutate_rc_again c o o' :
  mutateWeightedRouteConfiguration c o = Ok o' →
  mutateWeightedRouteConfiguration c o' = Ok o'.
Proof.
  destruct o as [r|]; simpl; intros H; [|by simplify_eq]. bind_ok H. simpl.
  erewrite mapM_res_again; [done| |exact E].
  clear. intros v v' H. unfold mutateWeightedVirtualHost in *. bind_ok H. simpl.
  erewrite mapM_res_again; [done| |exact E].
  clear. intros vr vr' H. unfold mutateWeightedRoute in *.
  destruct (rt_WeightedClusters vr) as [wc|] eqn:Hwc; [|simplify_eq; by rewrite Hwc].
  bind_ok H. simpl. erewrite mapM_res_again; [done|apply mutate_entry_again|exact E].
Qed.

(** The update succeeds exactly when every annotation it looks up is a number. *)
Lemma mutate_rc_is_Ok c r :
  (∃ o', mutateWeightedRouteConfiguration c (Some r) = Ok o') ↔
  ∀ e w, e ∈ entries r → annotation c (wce_Name e) = Some w →
         ∃ n, GoStrconv.ParseUint w = Ok n.
Proof.
  transitivity (∀ e, e ∈ entries r → ∃ e', mutateWeightedClusterEntry c e = Ok e').
  - simpl. rewrite bind_ret_is_Ok. apply mapM_res_is_Ok_parts. intros v.
    unfold mutateWeightedVirtualHost. rewrite bind_ret_is_Ok.
    apply mapM_res_is_Ok_parts. intros vr. unfold mutateWeightedRoute, route_entries.
    destruct (rt_WeightedClusters vr) as [wc|]; simpl.
    + rewrite bind_ret_is_Ok. apply mapM_res_is_Ok.
    + split; [by intros _ e ?%elem_of_nil|by eexists].
  - setoid_rewrite mutate_entry_is_Ok. naive_solver.
Qed.

(** The guard of [SaveResources]: without an annotation with the prefix, no
    entry has one. *)
Lemma HasClusterWeights_false c name :
  HasClusterWeights c = false → annotation c name = None.
Proof.
  unfold HasClusterWeights, annotation. intros H.
  destruct (ConfigMapAnnotations c !! _) as [w|] eqn:E; [|done]. exfalso.
  apply elem_of_map_to_list in E. rewrite <-not_true_iff_false, existsb_exists in H.
  apply H. eexists. split; [by apply list_elem_of_In|].
  apply (GoStrings.HasPrefix_app name annotationRouteClusterWeight).
Qed.

End Config.
