(* ===== verification/Api.v ===== *)
(** * pkg/api: the Kubernetes objects, the listers and the informer handlers

    The objects are records of the fields the program reads.  The listers of
    client-go answer from a cache that follows the API server; one state of
    that cache is a [KubeCache], a parameter of every operation that reads
    it. *)

From stdpp Require Import options.
From S2P Require Import Prelude.
From S2P Require Import GoStd.
From S2P Require Import AppConfig.
From Stdlib Require Import ZArith.

(** ** Objects of k8s.io/api/core/v1 *)

Record PodCondition := mkPodCondition { pc_Type : string; pc_Status : string }.

Record Pod := mkPod {
  pod_Name : string;
  pod_Namespace : string;
  (** nil labels and an empty label map are told apart by the code *)
  pod_Labels : option (gmap string string);
  pod_DeletionTimestamp : option Z;
  pod_NodeName : string;
  pod_PodIP : string;
  pod_Phase : string;
  pod_Conditions : list PodCondition }.

Record Node := mkNode { node_Name : string; node_Labels : gmap string string }.

Record ObjectReference := mkObjectReference {
  ref_Kind : string; ref_Namespace : string; ref_Name : string }.

Record EndpointAddress := mkEndpointAddress {
  addr_IP : string;
  addr_NodeName : option string;
  addr_TargetRef : option ObjectReference }.

Record EndpointSubset := mkEndpointSubset { sub_Addresses : list EndpointAddress }.

Record K8sEndpoints := mkK8sEndpoints {
  eps_Name : string;
  eps_Annotations : gmap string string;
  eps_Subsets : list EndpointSubset }.

(** [reflect.DeepEqual] tells a nil map from an empty one. *)
Record ConfigMap := mkConfigMap {
  cm_Name : string;
  cm_Namespace : string;
  cm_Labels : gmap string string;
  cm_Annotations : option (gmap string string);
  cm_Data : option (gmap string string) }.

#[global] Instance ObjectReference_eq_dec : EqDecision ObjectReference.
Proof. solve_decision. Defined.
#[global] Instance EndpointAddress_eq_dec : EqDecision EndpointAddress.
Proof. solve_decision. Defined.
#[global] Instance EndpointSubset_eq_dec : EqDecision EndpointSubset.
Proof. solve_decision. Defined.
#[global] Instance K8sEndpoints_eq_dec : EqDecision K8sEndpoints.
Proof. solve_decision. Defined.

Definition PodRunning : string := "Running".
Definition PodReady : string := "Ready".

(** The answers of the listers at one moment.  [podLister_List] takes the
    label set the selector is made from; [Get] of a missing pod is [None] or an
    error, as the library chooses. *)
Record KubeCache := mkKubeCache {
  podLister_List : gmap string string → res (list Pod);
  podLister_Get : string → string → res (option Pod);
  nodeLister_Get : string → res Node;
  endpointsLister_List : res (list K8sEndpoints);
  configLister_List : res (list ConfigMap) }.

Module Api.

Import AppConfig.

Definition unknown : string := "unknown".
Definition errAssertion : error := New "assertion error".

(** ** Queries *)

Definition GetPod (k : KubeCache) (namespace name : string) : res (option Pod) :=
  podLister_Get k namespace name.

Definition ListPods (k : KubeCache) (selectorSet : gmap string string) : res (list Pod) :=
  podLister_List k selectorSet.

Definition ListConfigMaps (k : KubeCache) : res (list ConfigMap) := configLister_List k.

Definition GetNode (k : KubeCache) (name : string) : res Node := nodeLister_Get k name.

(** Canary services are skipped unless annotated. *)
Definition canary_disabled (name : string) (e : K8sEndpoints) : bool :=
  GoStrings.HasSuffix name CanarySuffix
  && negb (bool_decide (eps_Annotations e !! AnnotationCanaryEnabled = Some "true")).

Fixpoint findEndpoint (name : string) (l : list K8sEndpoints) : option K8sEndpoints :=
  match l with
  | [] => None
  | endpoint :: l' =>
      if canary_disabled name endpoint then findEndpoint name l'
      else if String.eqb (eps_Name endpoint) name then Some endpoint
      else findEndpoint name l'
  end.

Definition GetEndpoint (k : KubeCache) (name : string) : res (option K8sEndpoints) :=
  endpoints ← endpointsLister_List k;
  Ok (findEndpoint name endpoints).

(** [getPod] and [getNode] are the requests to the API server. *)
Definition GetZoneByPodName (config : Type_) (getPod : string → string → res Pod)
    (getNode : string → res Node) (namespace pod : string) : string :=
  match getPod namespace pod with
  | Ok podInfo =>
      match getNode (pod_NodeName podInfo) with
      | Ok nodeInfo =>
          let zone := default "" (node_Labels nodeInfo !! NodeZoneLabel config) in
          if (String.length zone =? 0)%nat then unknown else zone
      | _ => unknown
      end
  | _ => unknown
  end.

(** ** Informer event handlers

    [interface{}] arguments: the object, or anything else, such as the
    [DeletedFinalStateUnknown] marker client-go delivers for a deletion it
    missed.  A failed assertion ends the process ([log.Fatal]). *)
Inductive Obj :=
  | OPod (p : Pod) | OConfigMap (cm : ConfigMap) | OEndpoints (e : K8sEndpoints)
  | OOther (typeName : string).

Section handlers.
(** The state the callbacks act on. *)
Context {W : Type}.

Record Callbacks := mkCallbacks {
  OnNewPod : option (Pod → W → res W);
  OnDeletePod : option (Pod → W → res W);
  OnNewConfig : option (ConfigMap → W → res W);
  OnDeleteConfig : option (ConfigMap → W → res W);
  OnNewEndpoints : option (K8sEndpoints → W → res W) }.

(** [if On... != nil { On...(x) }]. *)
Definition invoke {X} (cb : option (X → W → res W)) (x : X) (w : W) : res W :=
  match cb with Some f => f x w | None => Ok w end.

Variable cbs : Callbacks.

Definition podInformer_AddFunc (obj : Obj) (w : W) : res W :=
  match obj with
  | OPod pod => invoke (OnNewPod cbs) pod w
  | _ => Crash "obj.(*v1.Pod)"
  end.

Definition podInformer_UpdateFunc (_old newObj : Obj) (w : W) : res W :=
  match newObj with
  | OPod pod => invoke (OnNewPod cbs) pod w
  | _ => Crash "obj.(*v1.Pod)"
  end.

Definition podInformer_DeleteFunc (obj : Obj) (w : W) : res W :=
  match obj with
  | OPod pod => invoke (OnDeletePod cbs) pod w
  | _ => Crash "obj.(*v1.Pod)"
  end.

Definition configInformer_AddFunc (obj : Obj) (w : W) : res W :=
  match obj with
  | OConfigMap cm => invoke (OnNewConfig cbs) cm w
  | _ => Crash "obj.(*v1.ConfigMap)"
  end.

(** Updates that change neither the data nor the annotations are dropped. *)
Definition configInformer_UpdateFunc (old cur : Obj) (w : W) : res W :=
  match cur with
  | OConfigMap cm =>
      match old with
      | OConfigMap oldConfig =>
          if bool_decide (cm_Data cm = cm_Data oldConfig)
             && bool_decide (cm_Annotations cm = cm_Annotations oldConfig)
          then Ok w
          else invoke (OnNewConfig cbs) cm w
      | _ => Crash "old.(*v1.ConfigMap)"
      end
  | _ => Crash "cur.(*v1.ConfigMap)"
  end.

Definition configInformer_DeleteFunc (obj : Obj) (w : W) : res W :=
  match obj with
  | OConfigMap cm => invoke (OnDeleteConfig cbs) cm w
  | _ => Crash "obj.(*v1.ConfigMap)"
  end.

Definition endpointsInformer_AddFunc (obj : Obj) (w : W) : res W :=
  match obj with
  | OEndpoints endpoints => invoke (OnNewEndpoints cbs) endpoints w
  | _ => Crash "obj.(*v1.Endpoints)"
  end.

Definition endpointsInformer_UpdateFunc (_old cur : Obj) (w : W) : res W :=
  match cur with
  | OEndpoints endpoints => invoke (OnNewEndpoints cbs) endpoints w
  | _ => Crash "cur.(*v1.Endpoints)"
  end.

End handlers.
Arguments Callbacks : clear implicits.

(** ** The client *)

Section client.
(** The REST configuration and the client set are client-go's. *)
Context {RestConfig Clientset : Type}.

Record client := mkClient {
  cl_restconfig : RestConfig;
  cl_clientset : Clientset;
  (** the namespace the informer factory is restricted to *)
  cl_factoryNamespace : string }.

Variable BuildConfigFromFlags : string → res RestConfig.
Variable InClusterConfig : res RestConfig.
Variable NewForConfig : RestConfig → res Clientset.

Definition newClient (config : Type_) : res client :=
  restconfig ← (if (0 <? String.length (KubeConfigFile config))%nat
                then BuildConfigFromFlags (KubeConfigFile config)
                else InClusterConfig);
  match NewForConfig restconfig with
  | Ok clientset =>
      if WatchNamespaced config
      then Ok (mkClient restconfig clientset (Namespace config))
      else Ok (mkClient restconfig clientset (Namespace config))
  | _ => Crash "log.Fatal"
  end.

End client.
Arguments client : clear implicits.

(** ** Lemmas *)

Lemma findEndpoint_Some name l e :
  findEndpoint name l = Some e →
  e ∈ l ∧ eps_Name e = name ∧ canary_disabled name e = false.
Proof.
  induction l as [|x l IH]; simpl; [done|].
  destruct (canary_disabled name x) eqn:Ed; [|destruct (String.eqb_spec (eps_Name x) name)];
    rewrite elem_of_cons; naive_solver.
Qed.

Lemma findEndpoint_None name l :
  findEndpoint name l = None ↔
  ∀ e, e ∈ l → eps_Name e = name → canary_disabled name e = true.
Proof.
  induction l as [|x l IH]; simpl.
  - split; [by intros _ e ?%elem_of_nil|done].
  - destruct (canary_disabled name x) eqn:Ed;
      [|destruct (String.eqb_spec (eps_Name x) name) as [En|En]].
    + rewrite IH. split; intros H e; [intros [->|?]%elem_of_cons; auto|].
      intros ?. apply H. by right.
    + split; [done|]. intros H. rewrite (H x) in Ed; [done|by left|done].
    + rewrite IH. split; intros H e; [intros [->|?]%elem_of_cons; auto; done|].
      intros ?. apply H. by right.
Qed.

End Api.
