(* ===== verification/Certs.v ===== *)
(** * pkg/certs: the certificate authority

    Keys, signatures and their encodings are opaque ([Crypto]); the model keeps
    the certificate templates, the order of the steps and every error path. *)

From stdpp Require Import options.
From S2P Require Import Prelude.
From S2P Require Import GoStd.
From S2P Require Import AppConfig.
From Stdlib Require Import ZArith.

(** [pkix.Name] and the fields of [x509.Certificate] the program fills in.
    Times and durations are nanoseconds. *)
Record PkixName := mkPkixName {
  Country : list string;
  Organization : list string;
  OrganizationalUnit : list string;
  CommonName : string }.

Inductive KeyUsage := KeyUsageCertSign | KeyUsageCRLSign | KeyUsageDigitalSignature.
Inductive ExtKeyUsage := ExtKeyUsageServerAuth | ExtKeyUsageClientAuth.

Record CertTemplate := mkCertTemplate {
  SerialNumber : Z;
  Subject : PkixName;
  DNSNames : list string;
  NotBefore : Z;
  NotAfter : Z;
  t_KeyUsage : list KeyUsage;
  t_ExtKeyUsage : list ExtKeyUsage;
  BasicConstraintsValid : bool;
  IsCA : bool;
  MaxPathLen : Z;
  MaxPathLenZero : bool }.

(** What a certificate keeps of the template it was created from: ASN.1 times have
    no fractions of a second, and without [BasicConstraintsValid] the extension
    that would hold [IsCA] and [MaxPathLen] is not written; with it, a length of
    zero is left out, and read as -1, unless [MaxPathLenZero] is set. *)
Definition whole_seconds (t : Z) : Z := (t / AppConfig.Second * AppConfig.Second)%Z.

Definition x509_encoded (t : CertTemplate) : CertTemplate :=
  let basic := BasicConstraintsValid t in
  let maxPathLen :=
    if basic then if (MaxPathLen t =? 0)%Z && negb (MaxPathLenZero t) then (-1)%Z else MaxPathLen t
    else 0%Z in {|
  SerialNumber := SerialNumber t;
  Subject := Subject t;
  DNSNames := DNSNames t;
  NotBefore := whole_seconds (NotBefore t);
  NotAfter := whole_seconds (NotAfter t);
  t_KeyUsage := t_KeyUsage t;
  t_ExtKeyUsage := t_ExtKeyUsage t;
  BasicConstraintsValid := basic;
  IsCA := basic && IsCA t;
  MaxPathLen := maxPathLen;
  MaxPathLenZero := basic && (maxPathLen =? 0)%Z |}.

(** crypto/rsa, crypto/x509 and encoding/pem.  [GenerateKey] takes the
    randomness it consumes; a parsed certificate shows the fields of its template,
    the key it certifies and the key that signed it. *)
Class Crypto := {
  PrivateKey : Type;
  PublicKey : Type;
  Public : PrivateKey → PublicKey;
  Certificate : Type;
  cert_Template : Certificate → CertTemplate;
  cert_PublicKey : Certificate → PublicKey;
  (** the key the signature verifies against, and the issuer's name *)
  cert_SignedBy : Certificate → PublicKey;
  cert_Issuer : Certificate → PkixName;
  GenerateKey : nat → res PrivateKey;
  CreateCertificate : CertTemplate → CertTemplate → PublicKey → PrivateKey → res string;
  ParseCertificate : string → res Certificate;
  MarshalPKCS8PrivateKey : PrivateKey → res string;
  (** a key of another algorithm parses to [None]: the type assertion fails *)
  ParsePKCS8PrivateKey : string → res (option PrivateKey);
  pem_Encode : string → string → string;
  (** the bytes of the first block, if there is one *)
  pem_Decode : string → option string }.

(** What x509 promises about the certificates it creates, when they parse. *)
Class CryptoLaws `{Crypto} : Prop := {
  parse_created : ∀ template parent pub priv bytes c,
    CreateCertificate template parent pub priv = Ok bytes → ParseCertificate bytes = Ok c →
    cert_Template c = x509_encoded template ∧ cert_PublicKey c = pub ∧
    cert_SignedBy c = Public priv ∧ cert_Issuer c = Subject parent }.

(** PEM and PKCS 8 read what they wrote. *)
Class CryptoCodecs `{Crypto} : Prop := {
  pem_decode_encode : ∀ label bytes,
    label = "CERTIFICATE" ∨ label = "PRIVATE KEY" →
    pem_Decode (pem_Encode label bytes) = Some bytes;
  pkcs8_parse_marshal : ∀ key bytes,
    MarshalPKCS8PrivateKey key = Ok bytes → ParsePKCS8PrivateKey bytes = Ok (Some key) }.

(** crypto/tls: the pair a PEM certificate and its PEM key give, and the
    certificates of a PEM file. *)
Class CryptoTls `{Crypto} := {
  X509KeyPair : string → string → res (Certificate * PrivateKey);
  AppendCertsFromPEM : string → list Certificate }.

Class CryptoTlsLaws `{CryptoTls} : Prop := {
  x509_key_pair : ∀ b c kb k,
    ParseCertificate b = Ok c → MarshalPKCS8PrivateKey k = Ok kb →
    cert_PublicKey c = Public k →
    X509KeyPair (pem_Encode "CERTIFICATE" b) (pem_Encode "PRIVATE KEY" kb) = Ok (c, k);
  append_certs : ∀ b c,
    ParseCertificate b = Ok c → AppendCertsFromPEM (pem_Encode "CERTIFICATE" b) = [c] }.

Module Certs.

Import AppConfig.

Definition CertValidity : Z := 7 * 24 * Hour.
Definition CertValidityYear : Z := 365 * 24 * Hour.
Definition CertValidityMax : Z := 3000 * 24 * Hour.
Definition sslMaxPathLen : Z := 2.

Section certs.
Context `{Crypto}.

(** The package variables [caCert], [caCertBytes] and [caKey]. *)
Record CA := mkCA { caCert : Certificate; caCertBytes : string; caKey : PrivateKey }.

Definition genCert (template parent : CertTemplate) (publicKey : PublicKey)
    (privateKey : PrivateKey) : res (Certificate * string) :=
  certBytes ← wrap "Failed to create certificate"
                (CreateCertificate template parent publicKey privateKey);
  cert ← wrap "Failed to parse certificate" (ParseCertificate certBytes);
  Ok (cert, pem_Encode "CERTIFICATE" certBytes).

Definition exportPrivateKey (privkey : PrivateKey) : res string :=
  privkeyBytes ← MarshalPKCS8PrivateKey privkey;
  Ok (pem_Encode "PRIVATE KEY" privkeyBytes).

Definition rootTemplate (now : Z) : CertTemplate := {|
  SerialNumber := 1;
  Subject := mkPkixName ["US"] [AppName] ["CA"] AppName;
  DNSNames := [];
  NotBefore := now - 10 * Second;
  NotAfter := now + CertValidityMax;
  t_KeyUsage := [KeyUsageCertSign; KeyUsageCRLSign];
  t_ExtKeyUsage := [ExtKeyUsageServerAuth; ExtKeyUsageClientAuth];
  BasicConstraintsValid := true;
  IsCA := true;
  MaxPathLen := sslMaxPathLen;
  MaxPathLenZero := false |}.

(** [now] is the clock (taken once: the reads are a few instructions apart),
    [rnd] the randomness of the call. *)
Definition GenCARoot (now : Z) (rnd : nat) : res (Certificate * string * PrivateKey * string) :=
  priv ← wrap "Failed to generate key" (GenerateKey rnd);
  '(rootCert, rootCertBytes) ← wrap "Failed to generate cert"
    (genCert (rootTemplate now) (rootTemplate now) (Public priv) priv);
  priBytes ← wrap "Failed to generate private key" (exportPrivateKey priv);
  Ok (rootCert, rootCertBytes, priv, priBytes).

Definition serverTemplate (now : Z) (dnsName : string) (dnsNames : list string)
    (certDuration : Z) : CertTemplate := {|
  SerialNumber := now / Second;
  Subject := mkPkixName ["US"] [AppName] ["CLIENT"] dnsName;
  DNSNames := dnsNames;
  NotBefore := now - 10 * Second;
  NotAfter := now + certDuration;
  t_KeyUsage := [KeyUsageDigitalSignature];
  t_ExtKeyUsage := [ExtKeyUsageServerAuth; ExtKeyUsageClientAuth];
  BasicConstraintsValid := false;
  IsCA := false;
  MaxPathLen := 0;
  MaxPathLenZero := true |}.

(** [dnsNames[0]] panics on an empty list. *)
Definition GenServerCert (dnsNames : list string) (rootCert : Certificate)
    (rootKey : PrivateKey) (certDuration now : Z) (rnd : nat)
  : res (Certificate * string * PrivateKey * string) :=
  priv ← wrap "Failed to generate key" (GenerateKey rnd);
  match dnsNames with
  | [] => Crash "index out of range"
  | dnsName :: _ =>
      '(serverCert, serverCertBytes) ← wrap "Failed to generate cert"
        (genCert (serverTemplate now dnsName dnsNames certDuration)
           (cert_Template rootCert) (Public priv) rootKey);
      priBytes ← wrap "Failed to generate private key" (exportPrivateKey priv);
      Ok (serverCert, serverCertBytes, priv, priBytes)
  end.

Definition NewCertificate (ca : CA) (dnsNames : list string) (certDuration now : Z)
    (rnd : nat) : res (Certificate * string * PrivateKey * string) :=
  GenServerCert dnsNames (caCert ca) (caKey ca) certDuration now rnd.

Definition GetLoadedRootCert (ca : CA) : Certificate := caCert ca.
Definition GetLoadedRootCertBytes (ca : CA) : string := caCertBytes ca.
Definition GetLoadedRootKey (ca : CA) : PrivateKey := caKey ca.
Definition GetLoadedRootKeyBytes (ca : CA) : res string := exportPrivateKey (caKey ca).

(** [certBlock, _ := pem.Decode(...)] is nil when the file has no PEM block, and
    reading its bytes panics. *)
Definition loadCAFromFiles (config : Type_) (ReadFile : string → option string)
  : res CA :=
  match ReadFile (SSLCrt config) with
  | None => Err (Wrapped (New "open") "can not load certicate")
  | Some certBytes =>
      match pem_Decode certBytes with
      | None => Crash "nil pointer dereference"
      | Some certBlock =>
          cert ← wrap "can not parse certicate" (ParseCertificate certBlock);
          match ReadFile (SSLKey config) with
          | None => Err (Wrapped (New "open") "can not load key")
          | Some keyBytes =>
              match pem_Decode keyBytes with
              | None => Crash "nil pointer dereference"
              | Some keyBlock =>
                  key ← wrap "can not parse key" (ParsePKCS8PrivateKey keyBlock);
                  match key with
                  | None => Err (New "assertion error")
                  | Some privateKey => Ok (mkCA cert certBytes privateKey)
                  end
              end
          end
      end
  end.

Definition Init (config : Type_) (ReadFile : string → option string) (now : Z)
    (rnd : nat) : res CA :=
  if (0 <? String.length (SSLCrt config))%nat && (0 <? String.length (SSLKey config))%nat
  then loadCAFromFiles config ReadFile
  else '(cert, certBytes, key, _) ← GenCARoot now rnd;
       Ok (mkCA cert certBytes key).

(** ** Rounding to whole seconds *)

Lemma whole_seconds_le t : (whole_seconds t ≤ t)%Z.
Proof.
  unfold whole_seconds. pose proof (Z.mul_div_le t Second eq_refl). lia.
Qed.

Lemma whole_seconds_lt t : (t - Second < whole_seconds t)%Z.
Proof.
  unfold whole_seconds. pose proof (Z.mul_succ_div_gt t Second eq_refl).
  unfold Second, Millisecond in *. lia.
Qed.

Lemma whole_seconds_mono t u : (t ≤ u → whole_seconds t ≤ whole_seconds u)%Z.
Proof.
  intros Ht. unfold whole_seconds. apply Z.mul_le_mono_nonneg_r; [done|].
  by apply Z.div_le_mono.
Qed.

(** ** Verification of a chain of one certificate under a root *)

Definition in_window (c : Certificate) (t : Z) : Prop :=
  (NotBefore (cert_Template c) ≤ t ≤ NotAfter (cert_Template c))%Z.

(** What a TLS peer checks of [child] against a trusted [root] at time [t]: the
    signature, the issuer's name, that the root may sign, both windows, and
    that the key may authenticate both ends. *)
Definition verifies (root child : Certificate) (t : Z) : Prop :=
  cert_SignedBy child = cert_PublicKey root ∧
  cert_Issuer child = Subject (cert_Template root) ∧
  IsCA (cert_Template root) = true ∧
  KeyUsageCertSign ∈ t_KeyUsage (cert_Template root) ∧
  in_window root t ∧ in_window child t ∧
  ExtKeyUsageServerAuth ∈ t_ExtKeyUsage (cert_Template child) ∧
  ExtKeyUsageClientAuth ∈ t_ExtKeyUsage (cert_Template child).

Lemma genCert_Ok `{!CryptoLaws} template parent pub priv c pem :
  genCert template parent pub priv = Ok (c, pem) →
  cert_Template c = x509_encoded template ∧ cert_PublicKey c = pub ∧
  cert_SignedBy c = Public priv ∧ cert_Issuer c = Subject parent.
Proof.
  unfold genCert. intros E. ok_step E as b Hb. ok_step E as c' Hc. injection E as <- _.
  by apply (parse_created _ _ _ _ _ _ Hb Hc).
Qed.

Lemma GenServerCert_Ok `{!CryptoLaws} names root rootKey d now rnd c pem key kpem :
  GenServerCert names root rootKey d now rnd = Ok (c, pem, key, kpem) →
  ∃ name, head names = Some name ∧
  cert_Template c = x509_encoded (serverTemplate now name names d) ∧ cert_PublicKey c = Public key ∧
  cert_SignedBy c = Public rootKey ∧ cert_Issuer c = Subject (cert_Template root).
Proof.
  unfold GenServerCert. intros E. ok_step E as p.
  destruct names as [|name names]; [done|]. ok_step E as [c' pem'] Hc. ok_step E as k.
  injection E as -> -> -> ->.
  apply genCert_Ok in Hc. by exists name.
Qed.

Lemma GenCARoot_Ok `{!CryptoLaws} now rnd c pem key kpem :
  GenCARoot now rnd = Ok (c, pem, key, kpem) →
  cert_Template c = x509_encoded (rootTemplate now) ∧ cert_PublicKey c = Public key ∧
  cert_SignedBy c = Public key ∧ cert_Issuer c = Subject (rootTemplate now).
Proof.
  unfold GenCARoot. intros E. ok_step E as p. ok_step E as [c' pem'] Hc. ok_step E as k.
  injection E as -> -> -> ->.
  by apply genCert_Ok in Hc.
Qed.

End certs.
End Certs.
