(* ===== verification/Utils.v ===== *)
(** * pkg/utils: snapshots and secrets

    [GetConfigSnapshot] and [NewSecrets], with the interface of the snapshot
    cache of go-control-plane ([XdsCache]) that [ConfigStore] publishes to. *)

From stdpp Require Import options.
From S2P Require Import Prelude.
From S2P Require Import GoStd.
From S2P Require Import GoSlice.
From S2P Require Import Envoy.
From S2P Require Import AppConfig.
From S2P Require Import Resources.
From S2P Require Import Config.
From S2P Require Import Certs.
From Stdlib Require Import ZArith.

(** The map [resources] passed to [cache.NewSnapshot], one field per type URL. *)
Record SnapshotResources := mkSnapshotResources {
  ClusterType : list Resource;
  RouteType : list Resource;
  ListenerType : list Resource;
  SecretType : list Resource;
  EndpointType : list (ClusterLoadAssignment Slice) }.

(** go-control-plane's snapshots and snapshot cache.  [GetSnapshot] of a node
    without a snapshot returns a nil interface and an error: [None]. *)
Class XdsCache := {
  Snapshot : Type;
  NewSnapshot : string → SnapshotResources → res Snapshot;
  (** [snap.GetVersion(resource.EndpointType)] *)
  GetVersion : Snapshot → string;
  SnapshotCache : Type;
  SetSnapshot : string → Snapshot → SnapshotCache → SnapshotCache * option error;
  GetSnapshot : SnapshotCache → string → option Snapshot;
  ClearSnapshot : string → SnapshotCache → SnapshotCache;
  GetStatusKeys : SnapshotCache → list string }.

(** The documented behaviour of the cache: a snapshot that was set is the one
    found, until it is cleared, and nodes do not disturb each other. *)
Class XdsCacheLaws `{XdsCache} : Prop := {
  version_of_new : ∀ v r s, NewSnapshot v r = Ok s → GetVersion s = v;
  get_set : ∀ id s c c', SetSnapshot id s c = (c', None) → GetSnapshot c' id = Some s;
  (** an error comes from answering the watches, before or after the snapshot
      was stored *)
  get_set_err : ∀ id s c c' e, SetSnapshot id s c = (c', e) →
    GetSnapshot c' id = Some s ∨ GetSnapshot c' id = GetSnapshot c id;
  get_set_ne : ∀ id id' s c c' e,
    SetSnapshot id s c = (c', e) → id ≠ id' → GetSnapshot c' id' = GetSnapshot c id';
  get_clear : ∀ id c, GetSnapshot (ClearSnapshot id c) id = None;
  get_clear_ne : ∀ id id' c,
    id ≠ id' → GetSnapshot (ClearSnapshot id c) id' = GetSnapshot c id' }.

Module Utils.

Import AppConfig.

(** The resources published for a node: the decoded ones, the common secrets
    after the configured ones, and the endpoints. *)
Definition snapshotResources (configType : ConfigType)
    (endpoints : list (ClusterLoadAssignment Slice)) (commonSecrets : list Secret)
  : SnapshotResources := {|
  ClusterType := Config.GetClusters configType;
  RouteType := Config.GetRoutes configType;
  ListenerType := Config.GetListeners configType;
  SecretType := Config.GetSecrets configType ++ map RSecret commonSecrets;
  EndpointType := endpoints |}.

Definition GetConfigSnapshot `{XdsCache} (version : string) (configType : ConfigType)
    (endpoints : list (ClusterLoadAssignment Slice)) (commonSecrets : list Secret)
  : res Snapshot :=
  NewSnapshot version (snapshotResources configType endpoints commonSecrets).

Section secrets.
Context `{Codec} `{Crypto}.

(** The certificate is made for [dnsName]; the validation context trusts the
    loaded CA unless the configuration names another one. *)
Definition NewSecrets (app : Type_) (ca : Certs.CA) (now : Z) (rnd : nat)
    (dnsName : string) (validation : option iface) : res (list Secret) :=
  '(_, serverCertBytes, _, serverKeyBytes) ←
    Certs.NewCertificate ca [dnsName] Certs.CertValidity now rnd;
  let trustedCa := Certs.GetLoadedRootCertBytes ca in
  validationContext ← (
    match validation with
    | Some v =>
        if negb (SSLDoNotUseValidation app) then
          jsonObj ← wrap "json.Marshal(yamlObjJSON)" (json_Marshal (ConvertYAMLtoJSON v));
          vc ← wrap "protojson.Unmarshal(jsonObj)" (protojson_ValidationContext jsonObj);
          Ok (match cvc_TrustedCa vc with
              | None => mkValidationContext (Some trustedCa) (cvc_rest vc)
              | Some _ => vc
              end)
        else Ok (mkValidationContext (Some trustedCa) [])
    | None => Ok (mkValidationContext (Some trustedCa) [])
    end);
  Ok [mkSecret (SSLName app) (Secret_TlsCertificate serverCertBytes serverKeyBytes);
      mkSecret "validation" (Secret_ValidationContext validationContext)].

(** Two secrets, under fixed names; the validation context always trusts some
    CA, and the configured exceptions apply only when validation is on. *)
Lemma NewSecrets_shape app ca now rnd name v ss :
  NewSecrets app ca now rnd name v = Ok ss →
  ∃ crt key vc, ss = [mkSecret (SSLName app) (Secret_TlsCertificate crt key);
                      mkSecret "validation" (Secret_ValidationContext vc)] ∧
    is_Some (cvc_TrustedCa vc) ∧
    (v = None ∨ SSLDoNotUseValidation app = true →
     vc = mkValidationContext (Some (Certs.caCertBytes ca)) []).
Proof.
  unfold NewSecrets. intros E. ok_step E as [[[c crt] k] key].
  ok_step E as vc Hvc. injection E as <-. exists crt, key, vc.
  split; [done|]. destruct v as [v|]; [|naive_solver].
  destruct (SSLDoNotUseValidation app); simpl in Hvc; [naive_solver|].
  ok_step Hvc as j.
  ok_step Hvc as vc'. injection Hvc as <-.
  destruct (cvc_TrustedCa vc') eqn:Ht; naive_solver.
Qed.

End secrets.
End Utils.
