(* ===== verification/ConfigStore.v ===== *)
(** * pkg/configstore: the endpoints of one configuration

    The state of a [ConfigStore], the discovery of endpoints from pods and
    services, and the detection of changes that ends in a push.  The endpoint
    lists that are published are slices over a shared memory ([GoSlice]), as
    the code appends discovered endpoints to the configured ones. *)

From stdpp Require Import options.
From S2P Require Import Prelude.
From S2P Require Import GoStd.
From S2P Require Import GoNet.
From S2P Require Import GoSlice.
From S2P Require Import Envoy.
From S2P Require Import AppConfig.
From S2P Require Import Resources.
From S2P Require Import Config.
From S2P Require Import Api.
From S2P Require Import Certs.
From S2P Require Import Utils.
From Stdlib Require Import ZArith.

Notation Memory := (Mem LocalityLbEndpoints).

(** The mutex only delimits critical sections and the logger has no influence
    on the state, so neither is a field.  [lastEndpoints] and
    [lastEndpointsArray] are [None] when nil. *)
Record ConfigStore := mkConfigStore {
  Version : string;
  cs_Config : ConfigType;
  configEndpoints : gmap string Slice;
  lastEndpoints : option (list (ClusterLoadAssignment Slice));
  lastEndpointsArray : option (list string);
  cs_secrets : list Secret;
  isStoped : bool }.

(** A goroutine the store starts on itself. *)
Inductive Spawn := GoPush (reason : string) | GoSaveLastEndpoints.

#[global] Instance Spawn_eq_dec : EqDecision Spawn.
Proof. solve_decision. Defined.

Module Store.

Import AppConfig.

Definition defaultZone : string := "unknown".
Definition envoyMetaPodName : string := "k8s.pod.name".
Definition envoyMetaPodLabels : string := "k8s.pod.labels.".
Definition envoyMetaEndpointIP : string := "k8s.endpoint.ip".
Definition envoyMetaNodeName : string := "k8s.node.name".
Definition podLabelIgnore : string := "pod-template-hash".

Record envoyEndpoint := mkEnvoyEndpoint {
  IsCanary : bool;
  ee_Node : string;
  ee_Address : string;
  Item : KubernetesType;
  ee_Metadata : gmap string string }.

Definition SetNode (e : envoyEndpoint) (address : EndpointAddress) : envoyEndpoint :=
  match addr_NodeName address with
  | Some n => mkEnvoyEndpoint (IsCanary e) n (ee_Address e) (Item e) (ee_Metadata e)
  | None => e
  end.

(** ** Metadata *)

(** The loop over a pod's labels: every label but one, under a prefix. *)
Definition metaLabels (labels : gmap string string) : gmap string string :=
  kmap (λ k, envoyMetaPodLabels +:+ k) (filter (λ kv, kv.1 ≠ podLabelIgnore) labels).

Definition getEnvoyMetaFromPod (pod : Pod) : gmap string string :=
  let labels := from_option metaLabels ∅ (pod_Labels pod) in
  <[envoyMetaNodeName := pod_NodeName pod]>
    (<[envoyMetaEndpointIP := pod_PodIP pod]>
       (<[envoyMetaPodName := pod_Name pod]> labels)).

Definition getEnvoyMetaFromEndpoint (k : KubeCache) (address : EndpointAddress)
  : gmap string string :=
  let labels1 :=
    match addr_TargetRef address with
    | Some ref =>
        if String.eqb (ref_Kind ref) "Pod" then
          let labels :=
            match Api.GetPod k (ref_Namespace ref) (ref_Name ref) with
            | Ok (Some pod) => from_option metaLabels ∅ (pod_Labels pod)
            | _ => ∅
            end in
          <[envoyMetaPodName := ref_Name ref]> labels
        else ∅
    | None => ∅
    end in
  let labels2 :=
    match addr_NodeName address with
    | Some n => <[envoyMetaNodeName := n]> labels1
    | None => labels1
    end in
  <[envoyMetaEndpointIP := addr_IP address]> labels2.

(** ** One endpoint *)

Section discovery.
Variable app : Type_.
Variable k : KubeCache.

Definition getEndpointLocality (node : string) : Locality :=
  match Api.GetNode k node with
  | Ok nodeInfo =>
      let zone := default "" (node_Labels nodeInfo !! NodeZoneLabel app) in
      if (String.length zone =? 0)%nat then mkLocality defaultZone else mkLocality zone
  | _ => mkLocality defaultZone
  end.

Definition metadataEnvoyLB (e : envoyEndpoint) : gmap string StructValue :=
  let endpointStage := if IsCanary e then "canary" else "main" in
  (StringValue <$> ee_Metadata e) ∪
    <["stage" := StringValue endpointStage]>
      (<["canary" := BoolValue (IsCanary e)]> ∅).

Definition getEnvoyLocalityLbEndpoint (e : envoyEndpoint) : LocalityLbEndpoints :=
  let priority := if (0 <? k_Priority (Item e))%N then k_Priority (Item e) else 0%N in
  let healthCheckConfig :=
    mkHealthCheckConfig (if (0 <? k_HealthCheckPort (Item e))%N
                         then k_HealthCheckPort (Item e) else 0%N) in
  {| lle_Locality := Some (getEndpointLocality (ee_Node e));
     lle_Priority := priority;
     lle_LbEndpoints :=
       [{| lb_Metadata := {["envoy.lb" := metadataEnvoyLB e]};
           lb_Endpoint := Some
             {| ep_HealthCheckConfig := Some healthCheckConfig;
                ep_Address := Some
                  {| sa_Protocol := TCP; sa_Address := ee_Address e;
                     sa_PortValue := k_Port (Item e) |} |} |}] |}.

(** ** Discovery *)

(** A pod is ready when it runs and one of its conditions says so. *)
Fixpoint anyReady (conditions : list PodCondition) : bool :=
  match conditions with
  | [] => false
  | c :: cs' =>
      if String.eqb (pc_Type c) PodReady && String.eqb (pc_Status c) "True" then true
      else anyReady cs'
  end.

Definition isPodReady (pod : Pod) : bool :=
  if String.eqb (pod_Phase pod) PodRunning then anyReady (pod_Conditions pod) else false.

Notation LbEndpoints := (gmap string (list LocalityLbEndpoints)).

(** The body of the loop over the pods a selector finds. *)
Definition addPod (kubernetes : KubernetesType) (lbEndpoints : LbEndpoints) (pod : Pod)
  : LbEndpoints :=
  if (String.length (pod_PodIP pod) =? 0)%nat || (String.length (pod_NodeName pod) =? 0)%nat
  then lbEndpoints
  else if bool_decide (is_Some (pod_DeletionTimestamp pod)) then lbEndpoints
  else if negb (isPodReady pod) then lbEndpoints
  else mapAppend lbEndpoints (k_ClusterName kubernetes)
         [getEnvoyLocalityLbEndpoint
            {| IsCanary := false; ee_Node := pod_NodeName pod;
               ee_Address := pod_PodIP pod; Item := kubernetes;
               ee_Metadata := getEnvoyMetaFromPod pod |}].

Fixpoint selectorLoop (items : list KubernetesType) (lbEndpoints : LbEndpoints)
  : res LbEndpoints :=
  match items with
  | [] => Ok lbEndpoints
  | kubernetes :: items' =>
      match k_Selector kubernetes with
      | None => selectorLoop items' lbEndpoints
      | Some selector =>
          pods ← wrap "error getting pods" (Api.ListPods k selector);
          selectorLoop items' (foldl (addPod kubernetes) lbEndpoints pods)
      end
  end.

(** The body of the loop over the addresses of a service. *)
Definition addAddress (isCanary : bool) (kubernetes : KubernetesType)
    (lbEndpoints : LbEndpoints) (address : EndpointAddress) : LbEndpoints :=
  let newEp := SetNode
    {| IsCanary := isCanary; ee_Node := ""; ee_Address := addr_IP address;
       Item := kubernetes; ee_Metadata := getEnvoyMetaFromEndpoint k address |} address in
  mapAppend lbEndpoints (k_ClusterName kubernetes) [getEnvoyLocalityLbEndpoint newEp].

Definition addSubset (isCanary : bool) (kubernetes : KubernetesType)
    (lbEndpoints : LbEndpoints) (subset : EndpointSubset) : LbEndpoints :=
  foldl (addAddress isCanary kubernetes) lbEndpoints (sub_Addresses subset).

Fixpoint serviceLoop (items : list KubernetesType) (lbEndpoints : LbEndpoints)
  : res LbEndpoints :=
  match items with
  | [] => Ok lbEndpoints
  | kubernetes :: items' =>
      if (String.length (k_Service kubernetes) =? 0)%nat
      then serviceLoop items' lbEndpoints
      else
        endpoints ← wrap "error getting endpoints"
                      (Api.GetEndpoint k (k_Service kubernetes));
        match endpoints with
        | None => serviceLoop items' lbEndpoints
        | Some endpoints =>
            let lb1 := foldl (addSubset false kubernetes) lbEndpoints
                         (eps_Subsets endpoints) in
            endpointsCanary ← wrap "error getting endpoints"
              (Api.GetEndpoint k (k_Service kubernetes +:+ CanarySuffix));
            match endpointsCanary with
            | None => serviceLoop items' lb1
            | Some endpointsCanary =>
                serviceLoop items' (foldl (addSubset true kubernetes) lb1
                                      (eps_Subsets endpointsCanary))
            end
        end
  end.

Definition getLocalityLbEndpoints (c : ConfigType) : res LbEndpoints :=
  lbEndpoints ← selectorLoop (Kubernetes c) ∅;
  serviceLoop (Kubernetes c) lbEndpoints.

End discovery.

(** ** Change detection *)

(** [fmt.Sprintf("%s|%s|%d|%s|%d|%d", ...)]. *)
Definition fingerprint (clusterName : string) (value1 : LocalityLbEndpoints)
    (value2 : LbEndpoint) : string :=
  clusterName +:+ "|" +:+ GetZone (lle_Locality value1)
  +:+ "|" +:+ GoStrconv.FormatUint (lle_Priority value1)
  +:+ "|" +:+ GetAddress value2
  +:+ "|" +:+ GoStrconv.FormatUint (GetPortValue value2)
  +:+ "|" +:+ GoStrconv.FormatUint (GetHealthCheckPort value2).

(** What the two inner loops add to [publishEpArray] for one cluster. *)
Definition clusterFingerprints (clusterName : string) (ep : list LocalityLbEndpoints)
  : list string :=
  concat (map (λ value1, map (fingerprint clusterName value1) (lle_LbEndpoints value1)) ep).

(** Whether they set [isInvalidIP]. *)
Definition clusterInvalidIP (ep : list LocalityLbEndpoints) : bool :=
  existsb (λ value1, existsb (λ value2, negb (GoNet.ParseIP_ok (GetAddress value2)))
                       (lle_LbEndpoints value1)) ep.

(** The result of the loop: [publishEp] and [publishEpArray]. *)
Record Publish := mkPublish {
  publishEp : list (ClusterLoadAssignment Slice);
  publishEpArray : list string }.

Section store.
Context `{Codec} `{Crypto} `{XdsCache} `{GoRuntime}.
Variable app : Type_.

(** ** Construction *)

(** The loop of [getConfigEndpoints]: the endpoints of a cluster that is listed
    several times are appended. *)
Fixpoint configEndpointsLoop (endpoints : list Resource) (m : Memory)
    (lbEndpoints : gmap string Slice) : res (Memory * gmap string Slice) :=
  match endpoints with
  | [] => Ok (m, lbEndpoints)
  | REndpoint fixed :: endpoints' =>
      let '(m', s) := GoSlice.append m
        (default nilSlice (lbEndpoints !! cla_ClusterName fixed)) (cla_Endpoints fixed) in
      configEndpointsLoop endpoints' m' (<[cla_ClusterName fixed := s]> lbEndpoints)
  | _ :: _ => Crash "ep.(*endpoint.ClusterLoadAssignment)"
  end.

Definition getConfigEndpoints (m : Memory) (c : ConfigType)
  : res (Memory * gmap string Slice) :=
  endpoints ← Resources.YamlToResources (Endpoints c) Resources.TClusterLoadAssignment;
  configEndpointsLoop endpoints m ∅.

(** [now] and [rnd] are the clock and the randomness of the certificate. *)
Definition LoadNewSecrets (ca : Certs.CA) (now : Z) (rnd : nat) (cs : ConfigStore)
  : res ConfigStore :=
  secrets ← wrap "can not create secrets"
    (Utils.NewSecrets app ca now rnd (Name (cs_Config cs)) (Validation (cs_Config cs)));
  Ok (mkConfigStore (Version cs) (cs_Config cs) (configEndpoints cs) (lastEndpoints cs)
        (lastEndpointsArray cs) secrets (isStoped cs)).

(** ** saveLastEndpoints *)

(** The copy of [configEndpoints] (its slices share the arrays) and the loop
    that appends the discovered endpoints. *)
Fixpoint appendEndpoints (order : list (string * list LocalityLbEndpoints)) (m : Memory)
    (lbEndpoints : gmap string Slice) : Memory * gmap string Slice :=
  match order with
  | [] => (m, lbEndpoints)
  | (key, value) :: order' =>
      let '(m', s) := GoSlice.append m (default nilSlice (lbEndpoints !! key)) value in
      appendEndpoints order' m' (<[key := s]> lbEndpoints)
  end.

(** The loop over [lbEndpoints]: the two results and [isInvalidIP]. *)
Definition publishLoop (order : list (string * Slice)) (m : Memory) : Publish * bool :=
  (mkPublish
     (map (λ kv, mkCLA kv.1 kv.2) order)
     (concat (map (λ kv, clusterFingerprints kv.1 (GoSlice.read m kv.2)) order)),
   existsb (λ kv, clusterInvalidIP (GoSlice.read m kv.2)) order).

(** What happens before the mutex is taken; [None] for the two early returns: an
    error of a lister, which is logged, and an address that is not an IP address.
    The listers do not panic. *)
Definition saveCollect `{MapOrder} (k : KubeCache) (m : Memory) (cs : ConfigStore)
  : Memory * option Publish :=
  match getLocalityLbEndpoints app k (cs_Config cs) with
  | Ok endpoints =>
      let '(m', lbEndpoints) :=
        appendEndpoints (range_order endpoints) m (configEndpoints cs) in
      let '(p, isInvalidIP) := publishLoop (range_order lbEndpoints) m' in
      if isInvalidIP then (m', None)
      else (m', Some (mkPublish (publishEp p) (GoStrings.Strings (publishEpArray p))))
  | _ => (m, None)
  end.

(** The critical section.  [reflect.DeepEqual] tells the nil slice of a new
    store from an empty list. *)
Definition saveCommit (p : Publish) (cs : ConfigStore) : ConfigStore * list Spawn :=
  if bool_decide (lastEndpointsArray cs = Some (publishEpArray p)) then (cs, [])
  else (mkConfigStore (Version cs) (cs_Config cs) (configEndpoints cs)
          (Some (publishEp p)) (Some (publishEpArray p)) (cs_secrets cs) (isStoped cs),
        [GoPush "new endpoints"]).

Definition saveLastEndpoints `{MapOrder} (k : KubeCache) (m : Memory) (cs : ConfigStore)
  : Memory * ConfigStore * list Spawn :=
  match saveCollect k m cs with
  | (m', None) => (m', cs, [])
  | (m', Some p) => let '(cs', sp) := saveCommit p cs in (m', cs', sp)
  end.

(** ** The exported operations *)

Definition New `{MapOrder} (ca : Certs.CA) (now : Z) (rnd : nat) (k : KubeCache)
    (m : Memory) (config : ConfigType) : res (Memory * ConfigStore * list Spawn) :=
  (* a decoding error is logged and leaves a nil map *)
  '(m1, ce) ← (match getConfigEndpoints m config with
               | Err _ => Ok (m, ∅)
               | r => r
               end);
  let cs := mkConfigStore "" config ce None None [] false in
  cs1 ← wrap "error in LoadNewSecrets" (LoadNewSecrets ca now rnd cs);
  Ok (saveLastEndpoints k m1 cs1).

Definition hasStoped (cs : ConfigStore) : bool := isStoped cs.

Definition NewPod `{MapOrder} (k : KubeCache) (m : Memory) (cs : ConfigStore)
  : Memory * ConfigStore * list Spawn :=
  if hasStoped cs then (m, cs, []) else saveLastEndpoints k m cs.

Definition NewEndpoint `{MapOrder} := NewPod.
Definition DeletePod `{MapOrder} := NewPod.

(** The loop that draws a version until it differs from the current one:
    [uuids] is the sequence of draws of the process, [n] the next one.  [None]
    is a loop that has not ended after [fuel] draws. *)
Fixpoint nextVersion (fuel : nat) (uuids : nat → string) (n : nat) (version : string)
  : option (string * nat) :=
  match fuel with
  | O => None
  | S fuel' =>
      if String.eqb (uuids n) version then nextVersion fuel' uuids (S n) version
      else Some (uuids n, S n)
  end.

(** Two draws are enough when draws differ ([nextVersion_ends]). *)
Definition versionFuel : nat := 2.

Definition with_Version (v : string) (cs : ConfigStore) : ConfigStore :=
  mkConfigStore v (cs_Config cs) (configEndpoints cs) (lastEndpoints cs)
    (lastEndpointsArray cs) (cs_secrets cs) (isStoped cs).

Definition Push (uuids : nat → string) (n : nat) (cs : ConfigStore)
    (cache : SnapshotCache) : option (ConfigStore * nat * SnapshotCache) :=
  '(newVersion, n') ← nextVersion versionFuel uuids n (Version cs);
  let cs' := with_Version newVersion cs in
  match Utils.GetConfigSnapshot newVersion (cs_Config cs')
          (default [] (lastEndpoints cs')) (cs_secrets cs') with
  | Ok snap => let '(cache', _) := SetSnapshot (ID (cs_Config cs')) snap cache in
               Some (cs', n', cache')
  | _ => Some (cs', n', cache)
  end.

Definition GetLastEndpoints (cs : ConfigStore) : option (list string) :=
  lastEndpointsArray cs.

Definition Stop (cs : ConfigStore) : ConfigStore :=
  mkConfigStore (Version cs) (cs_Config cs) (configEndpoints cs) (lastEndpoints cs)
    (lastEndpointsArray cs) (cs_secrets cs) true.

(** The critical section of [Sync].  The error of [GetSnapshot] is only logged:
    calling [GetVersion] on the nil interface it comes with panics. *)
Definition syncCheck (cs : ConfigStore) (cache : SnapshotCache)
  : res (ConfigStore * list Spawn) :=
  match lastEndpoints cs with
  | None => Ok (cs, [])
  | Some _ =>
      match GetSnapshot cache (ID (cs_Config cs)) with
      | None => Crash "nil pointer dereference"
      | Some snap =>
          let snapVersion := GetVersion snap in
          if (0 <? String.length snapVersion)%nat && negb (String.eqb snapVersion (Version cs))
          then Ok (mkConfigStore (Version cs) (cs_Config cs) (configEndpoints cs) None None
                     (cs_secrets cs) (isStoped cs), [GoSaveLastEndpoints])
          else Ok (cs, [])
      end
  end.

Definition Sync `{MapOrder} (k : KubeCache) (m : Memory) (cs : ConfigStore)
    (cache : SnapshotCache) : res (Memory * ConfigStore * list Spawn) :=
  if hasStoped cs then Ok (m, cs, [])
  else let '(m', cs1, sp1) := saveLastEndpoints k m cs in
       '(cs2, sp2) ← syncCheck cs1 cache;
       Ok (m', cs2, sp1 ++ sp2).

End store.
End Store.
