(* ===== verification/Discovery.v ===== *)
(** * Endpoint discovery: specification and proofs

    What [getLocalityLbEndpoints] of pkg/configstore computes, as a closed form
    over the configured items: the ready pods of each selector, then the
    addresses of each service and of its canary service. *)

From stdpp Require Import options.
From S2P Require Import Prelude.
From S2P Require Import GoStd.
From S2P Require Import GoNet.
From S2P Require Import GoSlice.
From S2P Require Import Envoy.
From S2P Require Import AppConfig.
From S2P Require Import Resources.
From S2P Require Import Config.
From S2P Require Import Api.
From S2P Require Import Certs.
From S2P Require Import Utils.
From S2P Require Import ConfigStore.
From Stdlib Require Import ZArith.

Module Discovery.

Import AppConfig Store.

(** ** Specification *)

(** The pods that become endpoints. *)
Definition podEligible (pod : Pod) : Prop :=
  pod_PodIP pod ≠ "" ∧ pod_NodeName pod ≠ "" ∧ pod_DeletionTimestamp pod = None ∧
  pod_Phase pod = "Running" ∧
  ∃ c, c ∈ pod_Conditions pod ∧ pc_Type c = "Ready" ∧ pc_Status c = "True".

#[global] Instance podEligible_dec pod : Decision (podEligible pod).
Proof.
  unfold podEligible. repeat apply and_dec; try apply _.
  destruct (decide (Exists (λ c, pc_Type c = "Ready" ∧ pc_Status c = "True")
    (pod_Conditions pod))) as [H|H]; [left|right]; rewrite Exists_exists in H; done.
Defined.

Section spec.
Variable app : Type_.
Variable k : KubeCache.

Definition podEndpoint (item : KubernetesType) (pod : Pod) : LocalityLbEndpoints :=
  getEnvoyLocalityLbEndpoint app k
    {| IsCanary := false; ee_Node := pod_NodeName pod; ee_Address := pod_PodIP pod;
       Item := item; ee_Metadata := getEnvoyMetaFromPod pod |}.

Definition addressEndpoint (item : KubernetesType) (ca : bool * EndpointAddress)
  : LocalityLbEndpoints :=
  getEnvoyLocalityLbEndpoint app k
    {| IsCanary := ca.1; ee_Node := default "" (addr_NodeName ca.2);
       ee_Address := addr_IP ca.2; Item := item;
       ee_Metadata := getEnvoyMetaFromEndpoint k ca.2 |}.

Definition addresses (e : K8sEndpoints) : list EndpointAddress :=
  concat (map sub_Addresses (eps_Subsets e)).

(** The endpoints a selector item contributes. *)
Definition selectorPart (item : KubernetesType) : list LocalityLbEndpoints :=
  match k_Selector item with
  | None => []
  | Some sel =>
      match Api.ListPods k sel with
      | Ok pods => map (podEndpoint item) (filter podEligible pods)
      | _ => []
      end
  end.

(** The addresses of a service item, each with its canary mark; the canary
    service is only consulted when the service itself exists. *)
Definition serviceAddresses (item : KubernetesType) : list (bool * EndpointAddress) :=
  if decide (k_Service item = "") then []
  else match Api.GetEndpoint k (k_Service item) with
       | Ok (Some e) =>
           map (pair false) (addresses e) ++
           match Api.GetEndpoint k (k_Service item +:+ CanarySuffix) with
           | Ok (Some ec) => map (pair true) (addresses ec)
           | _ => []
           end
       | _ => []
       end.

Definition servicePart (item : KubernetesType) : list LocalityLbEndpoints :=
  map (addressEndpoint item) (serviceAddresses item).

(** The items that feed a cluster. *)
Definition itemsOf (cluster : string) (items : list KubernetesType) : list KubernetesType :=
  filter (λ i, k_ClusterName i = cluster) items.

Definition discovered (c : ConfigType) (cluster : string) : list LocalityLbEndpoints :=
  concat (map selectorPart (itemsOf cluster (Kubernetes c))) ++
  concat (map servicePart (itemsOf cluster (Kubernetes c))).

(** ** Proofs *)

Lemma anyReady_true l :
  anyReady l = true ↔ ∃ c, c ∈ l ∧ pc_Type c = "Ready" ∧ pc_Status c = "True".
Proof.
  induction l as [|x l IH]; simpl.
  - split; [done|by intros (c & ?%elem_of_nil & _)].
  - unfold PodReady. setoid_rewrite elem_of_cons.
    destruct (String.eqb_spec (pc_Type x) "Ready"), (String.eqb_spec (pc_Status x) "True");
      simpl; rewrite ?IH; naive_solver.
Qed.

Lemma addPod_spec item lb pod :
  addPod app k item lb pod =
  if decide (podEligible pod)
  then mapAppend lb (k_ClusterName item) [podEndpoint item pod] else lb.
Proof.
  unfold addPod, isPodReady, PodRunning. rewrite !GoStrings.length_eqb_0.
  pose proof (anyReady_true (pod_Conditions pod)) as Hr.
  destruct (decide (podEligible pod)) as [(H1 & H2 & H3 & H4 & H5)|Hn].
  - rewrite !bool_decide_eq_false_2 by done. simpl. rewrite H3, H4. simpl.
    by rewrite (proj2 Hr H5).
  - repeat case_bool_decide; simpl; try done.
    destruct (String.eqb_spec (pod_Phase pod) "Running"); [|done].
    destruct (anyReady (pod_Conditions pod)) eqn:Ha; [|done].
    destruct Hn. split_and!; [done..| |done|by apply Hr].
    by apply eq_None_not_Some.
Qed.

(** A loop that appends under one key adds what it appends, in order. *)
Lemma lookupNil_foldl {A B} (f : gmap string (list B) → A → gmap string (list B))
    (key : string) (g : A → list B) l lb c :
  (∀ lb x, lookupNil (f lb x) c = lookupNil lb c ++ (if decide (key = c) then g x else [])) →
  lookupNil (foldl f lb l) c =
  lookupNil lb c ++ (if decide (key = c) then concat (map g l) else []).
Proof.
  intros Hf. revert lb. induction l as [|x l IH]; intros lb; simpl.
  - case_decide; by rewrite app_nil_r.
  - rewrite IH, Hf. case_decide; by rewrite <-?app_assoc, ?app_nil_r.
Qed.

Lemma lookupNil_foldl_addPod item pods lb c :
  lookupNil (foldl (addPod app k item) lb pods) c =
  lookupNil lb c ++ (if decide (k_ClusterName item = c)
                     then map (podEndpoint item) (filter podEligible pods) else []).
Proof.
  rewrite (lookupNil_foldl _ (k_ClusterName item)
    (λ pod, if decide (podEligible pod) then [podEndpoint item pod] else [])).
  - case_decide; [|done]. f_equal. induction pods as [|p pods IH]; simpl; [done|].
    rewrite filter_cons, IH. by case_decide.
  - intros lb' p. rewrite addPod_spec. destruct (decide (podEligible p)).
    + by rewrite lookupNil_mapAppend.
    + case_decide; by rewrite app_nil_r.
Qed.

Lemma addAddress_spec canary item lb a :
  addAddress app k canary item lb a =
  mapAppend lb (k_ClusterName item) [addressEndpoint item (canary, a)].
Proof. unfold addAddress, addressEndpoint, SetNode. simpl. by destruct (addr_NodeName a). Qed.

Lemma lookupNil_addSubset canary item lb s c :
  lookupNil (addSubset app k canary item lb s) c =
  lookupNil lb c ++ (if decide (k_ClusterName item = c)
    then map (λ a, addressEndpoint item (canary, a)) (sub_Addresses s) else []).
Proof.
  unfold addSubset. rewrite (lookupNil_foldl _ (k_ClusterName item)
    (λ a, [addressEndpoint item (canary, a)])).
  - case_decide; [|done]. f_equal. induction (sub_Addresses s); simpl; congruence.
  - intros lb' a. by rewrite addAddress_spec, lookupNil_mapAppend.
Qed.

Lemma lookupNil_foldl_addSubset canary item e lb c :
  lookupNil (foldl (addSubset app k canary item) lb (eps_Subsets e)) c =
  lookupNil lb c ++ (if decide (k_ClusterName item = c)
    then map (addressEndpoint item) (map (pair canary) (addresses e)) else []).
Proof.
  rewrite (lookupNil_foldl _ (k_ClusterName item)
    (λ s, map (λ a, addressEndpoint item (canary, a)) (sub_Addresses s))).
  - case_decide; [|done]. f_equal. unfold addresses. rewrite map_map, concat_map.
    by rewrite map_map.
  - intros. apply lookupNil_addSubset.
Qed.

Lemma selectorLoop_spec items lb lb' c :
  selectorLoop app k items lb = Ok lb' →
  lookupNil lb' c = lookupNil lb c ++ concat (map selectorPart (itemsOf c items)).
Proof.
  revert lb. induction items as [|i items IH]; intros lb; simpl.
  - intros [= ->]. by rewrite app_nil_r.
  - unfold itemsOf in *. rewrite filter_cons. unfold selectorPart at 1.
    destruct (k_Selector i) as [sel|] eqn:Es.
    + intros E. ok_step E as pods Hp. rewrite (IH _ E).
      rewrite lookupNil_foldl_addPod. rewrite <-app_assoc. f_equal.
      case_decide; [|done]. simpl. by rewrite Es, Hp.
    + intros E. rewrite (IH _ E). f_equal. case_decide; [|done]. simpl. by rewrite Es.
Qed.

Lemma serviceLoop_spec items lb lb' c :
  serviceLoop app k items lb = Ok lb' →
  lookupNil lb' c = lookupNil lb c ++ concat (map servicePart (itemsOf c items)).
Proof.
  revert lb. induction items as [|i items IH]; intros lb; simpl.
  - intros [= ->]. by rewrite app_nil_r.
  - unfold itemsOf in *. rewrite filter_cons.
    assert (∀ l, concat (map servicePart (if decide (k_ClusterName i = c) then i :: l else l))
      = (if decide (k_ClusterName i = c) then servicePart i else []) ++
        concat (map servicePart l)) as Hsplit by (intros l; by case_decide).
    rewrite Hsplit. unfold servicePart at 1, serviceAddresses.
    destruct (k_Service i) as [|x svc] eqn:Es; simpl.
    { intros E. rewrite (IH _ E). f_equal. by case_decide. }
    intros E. ok_step E as o Ho. rewrite Ho. destruct o as [e|].
    + ok_step E as oc Hoc. rewrite Hoc.
      destruct oc as [ec|]; rewrite (IH _ E), ?lookupNil_foldl_addSubset, <-?app_assoc;
        f_equal; case_decide; try done.
      * by rewrite map_app, <-app_assoc.
      * by rewrite app_nil_r.
    + rewrite (IH _ E). f_equal. by case_decide.
Qed.

Lemma getLocalityLbEndpoints_lookup c lb cluster :
  getLocalityLbEndpoints app k c = Ok lb → lookupNil lb cluster = discovered c cluster.
Proof.
  unfold getLocalityLbEndpoints, discovered. intros H2. ok_step H2 as lb1 H1.
  by rewrite (serviceLoop_spec _ _ _ _ H2), (selectorLoop_spec _ _ _ _ H1).
Qed.

(** A cluster is a key only when something was appended for it. *)
Definition no_empty (lb : gmap string (list LocalityLbEndpoints)) : Prop :=
  ∀ c l, lb !! c = Some l → l ≠ [].

Lemma no_empty_mapAppend lb c x : no_empty lb → no_empty (mapAppend lb c [x]).
Proof.
  unfold no_empty, mapAppend. intros H c' l. rewrite lookup_insert.
  case_decide; [|apply H]. intros [= <-]. by destruct (lb !! c) as [[]|].
Qed.

Lemma foldl_inv {A B} (P : B → Prop) (f : B → A → B) l b :
  (∀ b x, P b → P (f b x)) → P b → P (foldl f b l).
Proof. intros Hf. revert b. induction l; simpl; auto. Qed.

Lemma no_empty_addSubset canary item lb s :
  no_empty lb → no_empty (addSubset app k canary item lb s).
Proof.
  apply foldl_inv. intros b x. rewrite addAddress_spec. apply no_empty_mapAppend.
Qed.

Lemma selectorLoop_no_empty items lb lb' :
  selectorLoop app k items lb = Ok lb' → no_empty lb → no_empty lb'.
Proof.
  revert lb. induction items as [|i items IH]; intros lb; simpl; [by intros [= ->]|].
  destruct (k_Selector i); [|apply IH]. rewrite bind_Ok. intros (pods & _ & E) Hlb.
  apply (IH _ E). apply foldl_inv; [|done]. intros b x Hb.
  rewrite addPod_spec. case_decide; [by apply no_empty_mapAppend|done].
Qed.

Lemma serviceLoop_no_empty items lb lb' :
  serviceLoop app k items lb = Ok lb' → no_empty lb → no_empty lb'.
Proof.
  revert lb. induction items as [|i items IH]; intros lb; simpl; [by intros [= ->]|].
  destruct (_ =? 0)%nat; [apply IH|]. rewrite bind_Ok. intros (o & _ & E) Hlb.
  destruct o as [e|]; [|by eapply IH]. ok_step E as oc.
  destruct oc; eapply (IH _ E);
    repeat (apply foldl_inv; [intros; by apply no_empty_addSubset|]); done.
Qed.

Lemma getLocalityLbEndpoints_no_empty c lb :
  getLocalityLbEndpoints app k c = Ok lb → no_empty lb.
Proof.
  unfold getLocalityLbEndpoints. intros H2. ok_step H2 as lb1 H1.
  eapply serviceLoop_no_empty; [exact H2|]. eapply selectorLoop_no_empty; [exact H1|].
  by intros ???.
Qed.

(** Discovery fails exactly when one of the listings it needs fails. *)
Definition listings_ok (items : list KubernetesType) : Prop :=
  ∀ i, i ∈ items →
    (∀ sel, k_Selector i = Some sel → ∃ pods, Api.ListPods k sel = Ok pods) ∧
    (k_Service i ≠ "" → ∃ l, endpointsLister_List k = Ok l).

Lemma GetEndpoint_is_Ok name :
  (∃ o, Api.GetEndpoint k name = Ok o) ↔ ∃ l, endpointsLister_List k = Ok l.
Proof. unfold Api.GetEndpoint. apply bind_ret_is_Ok. Qed.

Lemma wrap_is_Ok {A} m (r : res A) : (∃ a, wrap m r = Ok a) ↔ ∃ a, r = Ok a.
Proof. by setoid_rewrite wrap_Ok. Qed.

Lemma selectorLoop_is_Ok items lb :
  (∃ lb', selectorLoop app k items lb = Ok lb') ↔
  ∀ i, i ∈ items → ∀ sel, k_Selector i = Some sel → ∃ pods, Api.ListPods k sel = Ok pods.
Proof.
  revert lb. induction items as [|i items IH]; intros lb; simpl.
  - split; [by intros _ i ?%elem_of_nil|by eexists].
  - destruct (k_Selector i) as [sel|] eqn:Es.
    + split.
      * intros (lb' & E). ok_step E as pods Hp.
        intros j [->|Hj]%elem_of_cons sel' Hs; [simplify_eq; eauto|].
        eapply IH; eauto.
      * intros HI. destruct (HI i) with sel as [pods Hp]; [by left|done|].
        rewrite Hp. simpl. apply IH. intros j Hj. apply HI. by right.
    + rewrite IH. split; intros HI j Hj; [|apply HI; by right].
      apply elem_of_cons in Hj as [->|Hj]; [congruence|by apply HI].
Qed.

Lemma serviceLoop_is_Ok items lb :
  (∃ lb', serviceLoop app k items lb = Ok lb') ↔
  ∀ i, i ∈ items → k_Service i ≠ "" → ∃ l, endpointsLister_List k = Ok l.
Proof.
  revert lb. induction items as [|i items IH]; intros lb; simpl.
  - split; [by intros _ i ?%elem_of_nil|by eexists].
  - destruct (k_Service i) as [|x svc] eqn:Es; simpl.
    + rewrite IH. split; intros HI j Hj; [|apply HI; by right].
      apply elem_of_cons in Hj as [->|Hj]; [done|by apply HI].
    + split.
      * intros (lb' & E). rewrite bind_Ok in E. destruct E as (o & Ho%wrap_Ok & _).
        intros _ _ _. apply (GetEndpoint_is_Ok (String x svc)). eauto.
      * intros HI. destruct (HI i) as [l Hl]; [by left|congruence|].
        unfold Api.GetEndpoint. rewrite Hl. simpl.
        assert (∀ lb0, ∃ lb', serviceLoop app k items lb0 = Ok lb') as HI'
          by (intros lb0; apply IH; intros j Hj; apply HI; by right).
        by repeat case_match.
Qed.

Lemma getLocalityLbEndpoints_is_Ok c :
  (∃ lb, getLocalityLbEndpoints app k c = Ok lb) ↔ listings_ok (Kubernetes c).
Proof.
  unfold getLocalityLbEndpoints, listings_ok. setoid_rewrite bind_Ok. split.
  - intros (lb & lb1 & H1 & H2) i Hi. split; intros.
    + eapply selectorLoop_is_Ok; eauto.
    + eapply serviceLoop_is_Ok; eauto.
  - intros H. destruct (proj2 (selectorLoop_is_Ok (Kubernetes c) ∅)) as [lb1 H1].
    { intros i Hi. by apply H. }
    destruct (proj2 (serviceLoop_is_Ok (Kubernetes c) lb1)) as [lb2 H2];
      [intros i Hi; by apply H|eauto].
Qed.

End spec.
End Discovery.
