(* ===== verification/StoreFacts.v ===== *)
(** * ConfigStore: lemmas on endpoints, slices and saving

    The slices of a store never overlap, so appending the discovered endpoints
    leaves the configured ones alone ([appendEndpoints_spec]); the closed forms
    of [saveCollect] and [saveLastEndpoints]; construction, pushing and
    metadata. *)

From stdpp Require Import options.
From S2P Require Import Prelude.
From S2P Require Import GoStd.
From S2P Require Import GoNet.
From S2P Require Import GoSlice.
From S2P Require Import Envoy.
From S2P Require Import AppConfig.
From S2P Require Import Resources.
From S2P Require Import Config.
From S2P Require Import Api.
From S2P Require Import Certs.
From S2P Require Import Utils.
From S2P Require Import ConfigStore.
From S2P Require Import Discovery.
From Stdlib Require Import ZArith.

Module StoreFacts.

Import AppConfig Store GoSlice.

(** ** Slices held in a map *)

Section slices.
Context `{GoRuntime}.
Implicit Types (m : Memory) (lb : gmap string Slice).

(** What indexing the map returns: the nil slice for a missing key. *)
Definition slot lb (key : string) : Slice := default nilSlice (lb !! key).

Definition disjoint_slices (s t : Slice) : Prop :=
  s_cap s = 0%nat ∨ s_cap t = 0%nat ∨ s_arr s ≠ s_arr t.

(** Every slice is well formed and no two keys share an array. *)
Definition slices_ok m lb : Prop :=
  (∀ key s, lb !! key = Some s → slice_ok m s) ∧
  (∀ k1 k2 s1 s2, lb !! k1 = Some s1 → lb !! k2 = Some s2 → k1 ≠ k2 →
     disjoint_slices s1 s2).

(** A slice out of reach of every append to the map's slices. *)
Definition apart_all lb (t : Slice) : Prop :=
  ∀ key s, lb !! key = Some s → apart s t.

Lemma slices_ok_empty m : slices_ok m ∅.
Proof. split; intros; by simplify_map_eq. Qed.

Lemma slot_ok m lb key : slices_ok m lb → slice_ok m (slot lb key).
Proof.
  intros [Hok _]. unfold slot. destruct (lb !! key) eqn:E; simpl;
    [by eapply Hok|apply nilSlice_ok].
Qed.

Lemma disjoint_apart s t : disjoint_slices s t → apart s t.
Proof. intros [?|[?|?]]; unfold apart; auto. Qed.

Lemma slot_apart lb key t : apart_all lb t → apart (slot lb key) t.
Proof.
  intros Ht. unfold slot. destruct (lb !! key) eqn:E; simpl; [by eapply Ht|by left].
Qed.

(** A slice of the map is out of reach of the appends to the map. *)
Lemma apart_all_own m lb key t :
  slices_ok m lb → lb !! key = Some t → apart_all lb t.
Proof.
  intros [_ Hd] Ht key' s Hs. destruct (decide (key' = key)) as [->|Hne].
  - simplify_eq. by right; right; right.
  - apply disjoint_apart. by eapply Hd.
Qed.

(** One append to the slice of a key. *)
Lemma append_slot_ok m lb key value m' s :
  slices_ok m lb → append m (slot lb key) value = (m', s) →
  slices_ok m' (<[key := s]> lb).
Proof.
  intros Hok E. pose proof Hok as [Hs Hd]. split.
  - intros key' s'. rewrite lookup_insert. case_decide as Hk.
    + intros [= <-]. by eapply append_ok, E; apply slot_ok.
    + intros Hs'. eapply append_frame; [by apply slot_ok|exact E|by eapply Hs|].
      apply slot_apart. by eapply apart_all_own.
  - assert (∀ key' t, lb !! key' = Some t → key' ≠ key → disjoint_slices s t) as Hnew.
    { intros key' t Ht Hne. unfold disjoint_slices.
      destruct (append_arr _ _ _ _ _ E) as [[Ha Hc]|Hf].
      - rewrite Ha, Hc. unfold slot. destruct (lb !! key) eqn:El; simpl; [|by left].
        by eapply (Hd key key').
      - destruct (Hs _ _ Ht) as [_ [?|(c & Hc & _)]]; [auto|].
        right; right. intros He. apply Hf. rewrite He. apply elem_of_dom. by exists c. }
    intros k1 k2 s1 s2. rewrite !lookup_insert. repeat case_decide; subst; try done.
    + intros [= <-] ??. by eapply Hnew.
    + intros ? [= <-] ?. destruct (Hnew k1 s1) as [?|[?|?]]; unfold disjoint_slices; auto.
    + by apply Hd.
Qed.

Lemma append_slot_frame m lb key value m' s t :
  slices_ok m lb → append m (slot lb key) value = (m', s) →
  slice_ok m t → apart_all lb t →
  slice_ok m' t ∧ read m' t = read m t ∧ apart_all (<[key := s]> lb) t.
Proof.
  intros Hok E Ht Ha. destruct (append_frame m (slot lb key) value m' s t) as [??];
    [by apply slot_ok|done|done|by apply slot_apart|]. split_and!; [done..|].
  intros key' s'. rewrite lookup_insert. case_decide; [|apply Ha].
  intros [= <-]. eapply append_apart; [exact E|done|by apply slot_apart].
Qed.

(** ** The loop that appends the discovered endpoints *)

(** Two possibly missing lists, one after the other. *)
Definition app_opt {A} (x y : option (list A)) : option (list A) :=
  union_with (λ a b, Some (a ++ b)) x y.

Lemma appendEndpoints_spec order m lb m' lb' :
  slices_ok m lb → NoDup order.*1 → appendEndpoints order m lb = (m', lb') →
  slices_ok m' lb' ∧
  (∀ key, read m' <$> (lb' !! key)
          = app_opt (read m <$> (lb !! key)) ((list_to_map order : gmap string _) !! key)) ∧
  (∀ t, slice_ok m t → apart_all lb t →
        slice_ok m' t ∧ read m' t = read m t ∧ apart_all lb' t).
Proof.
  revert m lb. induction order as [|[key0 value] order IH]; intros m lb Hok Hnd; simpl.
  - intros [= <- <-]. split_and!; [done| |by intros]. intros key. simpl.
    rewrite lookup_empty. by destruct (lb !! key).
  - simpl in Hnd. apply NoDup_cons in Hnd as [Hnin Hnd].
    fold (slot lb key0). destruct (append m (slot lb key0) value) as [m1 s] eqn:E.
    intros Happ. pose proof (append_slot_ok _ _ _ _ _ _ Hok E) as Hok1.
    destruct (IH _ _ Hok1 Hnd Happ) as (Hok' & Hread & Hframe). split_and!; [done| |].
    + intros key. rewrite Hread, !lookup_insert. case_decide as Hk; subst; simpl.
      * rewrite (not_elem_of_list_to_map_1 order key) by done.
        rewrite (read_append _ _ _ _ _ (slot_ok m lb key Hok) E). unfold slot.
        by destruct (lb !! key).
      * f_equal. destruct (lb !! key) as [t|] eqn:Ht; simpl; [|done]. f_equal.
        eapply append_slot_frame; [exact Hok|exact E| |by eapply apart_all_own].
        by eapply Hok.
    + intros t Ht Ha.
      destruct (append_slot_frame _ _ _ _ _ _ _ Hok E Ht Ha) as (Ht1 & Hr1 & Ha1).
      destruct (Hframe t Ht1 Ha1) as (? & Hr & ?). by rewrite Hr, Hr1.
Qed.

(** ** The configured endpoints *)

(** The endpoints of the decoded resources for one cluster, in order. *)
Definition configured (rs : list Resource) (cluster : string) : list LocalityLbEndpoints :=
  concat (map (λ r, match r with
                    | REndpoint e => if decide (cla_ClusterName e = cluster)
                                     then cla_Endpoints e else []
                    | _ => []
                    end) rs).

Lemma read_slot_insert m lb key s key' :
  read m (slot (<[key := s]> lb) key')
  = if decide (key = key') then read m s else read m (slot lb key').
Proof. unfold slot. rewrite lookup_insert. by case_decide. Qed.

Lemma configEndpointsLoop_spec rs m lb :
  slices_ok m lb → Forall (Resources.has_type Resources.TClusterLoadAssignment) rs →
  ∃ m' lb', configEndpointsLoop rs m lb = Ok (m', lb') ∧ slices_ok m' lb' ∧
    (∀ c, read m' (slot lb' c) = read m (slot lb c) ++ configured rs c) ∧
    (∀ t, slice_ok m t → apart_all lb t → slice_ok m' t ∧ read m' t = read m t).
Proof.
  intros Hok Hty. revert m lb Hok. induction Hty as [|r rs Hr _ IH]; intros m lb Hok; simpl.
  - exists m, lb. split_and!; [done..| |by split]. intros c. by rewrite app_nil_r.
  - destruct r as [|r|e|r|r]; simpl in Hr; try done. fold (slot lb (cla_ClusterName e)).
    destruct (append m (slot lb (cla_ClusterName e)) (cla_Endpoints e)) as [m1 s] eqn:E.
    destruct (IH _ _ (append_slot_ok _ _ _ _ _ _ Hok E)) as (m' & lb' & HE & Hok' & Hread & Hf).
    exists m', lb'. split_and!; [done..| |].
    + intros c. rewrite Hread, read_slot_insert. unfold configured. simpl. case_decide; subst.
      * rewrite (read_append _ _ _ _ _ (slot_ok m lb _ Hok) E). by rewrite <-app_assoc.
      * simpl. f_equal. destruct (lb !! c) as [t|] eqn:Ht; unfold slot; rewrite Ht; simpl;
          [|done]. eapply append_slot_frame; [exact Hok|exact E| |by eapply apart_all_own].
        by eapply Hok.
    + intros t Ht Ha.
      destruct (append_slot_frame _ _ _ _ _ _ _ Hok E Ht Ha) as (Ht1 & <- & Ha1). by apply Hf.
Qed.

(** The slices of a store under construction are in fresh arrays. *)
Definition fresh_from (m0 : Memory) (lb : gmap string Slice) : Prop :=
  ∀ key s, lb !! key = Some s → s_cap s = 0%nat ∨ s_arr s ∉ dom m0.

Lemma configEndpointsLoop_fresh m0 rs m lb m' lb' :
  dom m0 ⊆ dom m → fresh_from m0 lb → configEndpointsLoop rs m lb = Ok (m', lb') →
  fresh_from m0 lb'.
Proof.
  revert m lb. induction rs as [|r rs IH]; intros m lb Hd Hf; simpl.
  { by intros [= _ <-]. }
  destruct r as [|?|e|?|?]; try done. fold (slot lb (cla_ClusterName e)).
  destruct (append m (slot lb (cla_ClusterName e)) (cla_Endpoints e)) as [m1 s] eqn:E.
  apply IH; [etrans; [done|by eapply append_dom]|].
  intros key t. rewrite lookup_insert. case_decide; [|apply Hf]. intros [= <-].
  destruct (append_arr _ _ _ _ _ E) as [[Har Hc]|Hn]; [|right; set_solver].
  rewrite Har, Hc. unfold slot. destruct (lb !! _) eqn:El; simpl; [by eapply Hf|by left].
Qed.

Lemma fresh_from_disjoint m0 lb key s t :
  fresh_from m0 lb → lb !! key = Some s → slice_ok m0 t → disjoint_slices s t.
Proof.
  intros Hf Hs [_ [?|(c & Hc & _)]]; [by right; left|].
  destruct (Hf _ _ Hs) as [?|Hn]; [by left|]. right; right. intros E. apply Hn.
  rewrite E. apply elem_of_dom. by exists c.
Qed.

(** ** Full slices *)

(** When no configured slice has spare capacity, appending to them writes to
    fresh arrays only. *)
Lemma appendEndpoints_full order m lb m' lb' :
  slices_ok m lb → NoDup order.*1 → (∀ key, key ∈ order.*1 → full (slot lb key)) →
  appendEndpoints order m lb = (m', lb') →
  ∀ t, slice_ok m t → slice_ok m' t ∧ read m' t = read m t.
Proof.
  revert m lb. induction order as [|[key0 value] order IH]; intros m lb Hok Hnd Hfull; simpl.
  - intros [= <- <-]. by intros.
  - simpl in Hnd, Hfull. apply NoDup_cons in Hnd as [Hnin Hnd].
    fold (slot lb key0). destruct (append m (slot lb key0) value) as [m1 s] eqn:E.
    intros Happ t Ht. assert (full (slot lb key0)) as Hf by (apply Hfull; by left).
    destruct (append_full_frame _ _ _ _ _ Hf E t Ht) as [Ht1 <-].
    apply (IH m1 (<[key0 := s]> lb)); [by eapply append_slot_ok|done| |done|done].
    intros key Hkey. unfold slot. rewrite lookup_insert_ne by (intros ->; done).
    apply Hfull. by right.
Qed.

End slices.

(** ** What a save wants to publish *)

Notation Published := (gmap string (list LocalityLbEndpoints)).

(** The configured endpoints of each cluster, then the discovered ones. *)
Definition want (m : Memory) (cs : ConfigStore) (disc : Published) : Published :=
  union_with (λ a b, Some (a ++ b)) (read m <$> configEndpoints cs) disc.

Definition mapFingerprints (g : Published) : list string :=
  concat (map (λ kv, clusterFingerprints kv.1 kv.2) (map_to_list g)).

Definition validIPs (g : Published) : Prop :=
  map_Forall (λ _ l, clusterInvalidIP l = false) g.

#[global] Instance validIPs_dec g : Decision (validIPs g).
Proof. unfold validIPs. apply _. Defined.

(** The resources [ep], read in memory [m], are the clusters of [g], each
    once. *)
Definition publishes (m : Memory) (ep : list (ClusterLoadAssignment Slice))
    (g : Published) : Prop :=
  map (λ cla, (cla_ClusterName cla, read m (cla_Endpoints cla))) ep ≡ₚ map_to_list g.

Definition store_ok (m : Memory) (cs : ConfigStore) : Prop :=
  slices_ok m (configEndpoints cs).

Lemma existsb_permutation {A} (f : A → bool) l k :
  l ≡ₚ k → existsb f l = existsb f k.
Proof.
  induction 1; simpl; [done|by f_equal| |congruence].
  by rewrite !orb_assoc, (orb_comm (f x)).
Qed.

Lemma concat_map_permutation {A B} (f : A → list B) l k :
  l ≡ₚ k → concat (map f l) ≡ₚ concat (map f k).
Proof.
  induction 1; simpl; [done|by f_equiv| |by etrans].
  by rewrite !app_assoc, (Permutation_app_comm (f y)).
Qed.

Lemma publishLoop_spec m (lb : gmap string Slice) order (g : Published) :
  order ≡ₚ map_to_list lb → g = read m <$> lb →
  ∃ p, publishLoop order m = (p, negb (bool_decide (validIPs g))) ∧
    publishes m (publishEp p) g ∧ publishEpArray p ≡ₚ mapFingerprints g ∧
    (∀ cla, cla ∈ publishEp p → lb !! cla_ClusterName cla = Some (cla_Endpoints cla)).
Proof.
  intros Ho ->. eexists. split; [|split_and!].
  - unfold publishLoop. f_equal.
    rewrite (existsb_permutation _ _ _ Ho). case_bool_decide as Hv; simpl.
    + rewrite <-not_true_iff_false, existsb_exists. intros ([c s] & Hin & Hc).
      apply list_elem_of_In, elem_of_map_to_list in Hin.
      rewrite (Hv c (read m s)) in Hc; [done|]. by rewrite lookup_fmap, Hin.
    + apply not_false_iff_true. intros Hf. apply Hv. intros c l.
      rewrite lookup_fmap, fmap_Some. intros (s & Hs & ->).
      apply not_true_iff_false. intros Hc. apply not_true_iff_false in Hf.
      apply Hf, existsb_exists. exists (c, s). split; [|done].
      by apply list_elem_of_In, elem_of_map_to_list.
  - unfold publishes. simpl. rewrite map_map. simpl.
    rewrite map_to_list_fmap. unfold fmap, list_fmap.
    rewrite Ho. apply reflexive_eq. apply map_ext. by intros [c s].
  - simpl. unfold mapFingerprints. rewrite (concat_map_permutation _ _ _ Ho).
    rewrite map_to_list_fmap. apply reflexive_eq. f_equal.
    rewrite (map_map (prod_map id (read m))). apply map_ext. by intros [c s].
  - simpl. intros cla Hin.
    apply list_elem_of_In, in_map_iff in Hin as ([c s] & <- & Hin%list_elem_of_In). simpl.
    rewrite Ho in Hin. by apply elem_of_map_to_list.
Qed.

Section save.
Context `{Codec} `{Crypto} `{XdsCache} `{GoRuntime}.
Variable app : Type_.
Implicit Types (cs : ConfigStore) (m : Memory).

Lemma list_to_map_range `{MapOrder} (disc : Published) :
  (list_to_map (range_order disc) : Published) = disc.
Proof.
  transitivity (list_to_map (map_to_list disc) : Published);
    [|apply list_to_map_to_list].
  apply list_to_map_proper; [apply NoDup_range|apply range_perm].
Qed.

(** Collecting, in closed form: what is wanted is published when discovery
    succeeds and every address is an IP address. *)
Lemma saveCollect_spec `{MapOrder} k m cs m' r :
  store_ok m cs → saveCollect app k m cs = (m', r) →
  store_ok m' cs ∧
  (∀ t, slice_ok m t → apart_all (configEndpoints cs) t →
        slice_ok m' t ∧ read m' t = read m t) ∧
  match getLocalityLbEndpoints app k (cs_Config cs) with
  | Ok disc =>
      if decide (validIPs (want m cs disc))
      then ∃ p, r = Some p ∧ publishes m' (publishEp p) (want m cs disc) ∧
           publishEpArray p = GoStrings.Strings (mapFingerprints (want m cs disc)) ∧
           (∀ cla, cla ∈ publishEp p → slice_ok m' (cla_Endpoints cla))
      else r = None
  | _ => r = None ∧ m' = m
  end.
Proof.
  intros Hok. unfold saveCollect.
  destruct (getLocalityLbEndpoints app k (cs_Config cs)) as [disc|e|w];
    [|by intros [= <- <-]; split_and!; [|by intros|..]..].
  destruct (appendEndpoints (range_order disc) m (configEndpoints cs)) as [m1 lb1] eqn:Ea.
  destruct (appendEndpoints_spec _ _ _ _ _ Hok (NoDup_range disc) Ea) as (Hok1 & Hread & Hf).
  assert (want m cs disc = read m1 <$> lb1) as Hwant.
  { apply map_eq. intros key. unfold want. rewrite lookup_union_with, !lookup_fmap, Hread.
    by rewrite list_to_map_range. }
  destruct (publishLoop_spec m1 lb1 (range_order lb1) _ (range_perm lb1) Hwant)
    as (p & -> & Hpub & Hfp & Hsl).
  intros E. assert (m' = m1) as ->.
  { destruct (bool_decide _) in E; simpl in E; by injection E. }
  split_and!.
  - split; [|apply Hok]. intros key s Hs.
    by apply (Hf s); [eapply Hok|eapply apart_all_own].
  - intros t Ht Ha. destruct (Hf t Ht Ha) as (? & ? & _). done.
  - case_bool_decide as Hv; simpl in E; injection E as <-;
      [rewrite decide_True by done|by rewrite decide_False].
    eexists. split_and!; [done|done| |].
    + simpl. by apply GoStrings.Strings_eq_iff.
    + simpl. intros cla Hcla. eapply Hok1. by apply Hsl.
Qed.

Definition with_last ep fps cs : ConfigStore :=
  mkConfigStore (Version cs) (cs_Config cs) (configEndpoints cs) (Some ep) (Some fps)
    (cs_secrets cs) (isStoped cs).

(** Saving, in closed form: either nothing changes, or the wanted endpoints
    replace the last ones and a push is started. *)
Inductive save_outcome (k : KubeCache) m cs m' : ConfigStore → list Spawn → Prop :=
  | save_published disc ep :
      getLocalityLbEndpoints app k (cs_Config cs) = Ok disc →
      validIPs (want m cs disc) →
      lastEndpointsArray cs ≠ Some (GoStrings.Strings (mapFingerprints (want m cs disc))) →
      publishes m' ep (want m cs disc) →
      (∀ cla, cla ∈ ep → slice_ok m' (cla_Endpoints cla)) →
      save_outcome k m cs m'
        (with_last ep (GoStrings.Strings (mapFingerprints (want m cs disc))) cs)
        [GoPush "new endpoints"]
  | save_unchanged disc :
      getLocalityLbEndpoints app k (cs_Config cs) = Ok disc →
      validIPs (want m cs disc) →
      lastEndpointsArray cs = Some (GoStrings.Strings (mapFingerprints (want m cs disc))) →
      save_outcome k m cs m' cs []
  | save_invalid disc :
      getLocalityLbEndpoints app k (cs_Config cs) = Ok disc →
      ¬ validIPs (want m cs disc) →
      save_outcome k m cs m' cs []
  | save_listing_failed :
      is_ok (getLocalityLbEndpoints app k (cs_Config cs)) = false → m' = m →
      save_outcome k m cs m' cs [].

Lemma saveLastEndpoints_outcome `{MapOrder} k m cs m' cs' sp :
  store_ok m cs → saveLastEndpoints app k m cs = (m', cs', sp) →
  save_outcome k m cs m' cs' sp.
Proof.
  intros Hok. unfold saveLastEndpoints.
  destruct (saveCollect app k m cs) as [m1 r] eqn:Ec.
  destruct (saveCollect_spec k m cs m1 r Hok Ec) as (_ & _ & Hr).
  destruct (getLocalityLbEndpoints app k (cs_Config cs)) as [disc|e|w] eqn:Ed;
    [|by destruct Hr as [-> ->]; intros [= <- <- <-]; apply save_listing_failed;
         rewrite ?Ed..].
  case_decide as Hv.
  - destruct Hr as (p & -> & Hpub & Hfp & Hsl). unfold saveCommit.
    case_bool_decide as Hl; rewrite Hfp in *; intros [= <- <- <-].
    + by eapply save_unchanged.
    + by eapply save_published.
  - subst. intros [= <- <- <-]. by eapply save_invalid.
Qed.

Lemma saveLastEndpoints_frame `{MapOrder} k m cs m' cs' sp :
  store_ok m cs → saveLastEndpoints app k m cs = (m', cs', sp) →
  store_ok m' cs' ∧ configEndpoints cs' = configEndpoints cs ∧
  cs_Config cs' = cs_Config cs ∧ Version cs' = Version cs ∧
  cs_secrets cs' = cs_secrets cs ∧ isStoped cs' = isStoped cs ∧
  (∀ t, slice_ok m t → apart_all (configEndpoints cs) t →
        slice_ok m' t ∧ read m' t = read m t).
Proof.
  intros Hok. unfold saveLastEndpoints.
  destruct (saveCollect app k m cs) as [m1 r] eqn:Ec.
  destruct (saveCollect_spec k m cs m1 r Hok Ec) as (Hok1 & Hf & _).
  destruct r as [p|]; [|intros [= <- <- <-]; by split_and!].
  unfold saveCommit. case_bool_decide; intros [= <- <- <-]; by split_and!.
Qed.

(** The configured part of what is wanted does not move. *)
Lemma want_frame m m' cs disc :
  store_ok m cs →
  (∀ t, slice_ok m t → apart_all (configEndpoints cs) t → read m' t = read m t) →
  want m' cs disc = want m cs disc.
Proof.
  intros Hok Hf. unfold want. f_equal. apply map_eq. intros key. rewrite !lookup_fmap.
  destruct (configEndpoints cs !! key) as [s|] eqn:Hs; simpl; [|done]. f_equal.
  apply Hf; [by eapply Hok|by eapply apart_all_own].
Qed.

(** ** Versions and pushes *)

Lemma nextVersion_ends (uuids : nat → string) n v :
  uuids n ≠ uuids (S n) →
  ∃ v' n', nextVersion versionFuel uuids n v = Some (v', n') ∧ v' ≠ v ∧
    (n' = S n ∨ n' = S (S n)) ∧ v' = uuids (pred n').
Proof.
  intros Hne. unfold versionFuel. simpl.
  destruct (String.eqb_spec (uuids n) v) as [<-|]; [|naive_solver].
  destruct (String.eqb_spec (uuids (S n)) (uuids n)) as [Heq|]; [|by eauto 10].
  by destruct Hne.
Qed.

End save.

(** ** Construction *)

Section new.
Context `{Codec} `{Crypto} `{XdsCache} `{GoRuntime}.
Variable app : Type_.

(** The endpoints the configuration lists itself, none when they do not
    decode. *)
Definition configuredEndpoints (c : ConfigType) (cluster : string)
  : list LocalityLbEndpoints :=
  match Resources.YamlToResources (Endpoints c) Resources.TClusterLoadAssignment with
  | Ok rs => configured rs cluster
  | _ => []
  end.

Lemma getConfigEndpoints_spec m c :
  match Resources.YamlToResources (Endpoints c) Resources.TClusterLoadAssignment with
  | Ok rs => ∃ m' lb, getConfigEndpoints m c = Ok (m', lb) ∧ slices_ok m' lb ∧
      (∀ cl, read m' (slot lb cl) = configured rs cl) ∧
      (∀ t, slice_ok m t → slice_ok m' t ∧ read m' t = read m t) ∧ fresh_from m lb
  | Err e => getConfigEndpoints m c = Err e
  | Crash w => getConfigEndpoints m c = Crash w
  end.
Proof.
  unfold getConfigEndpoints.
  destruct (Resources.YamlToResources (Endpoints c) Resources.TClusterLoadAssignment)
    as [rs|e|w] eqn:E; simpl; [|done..].
  destruct (configEndpointsLoop_spec rs m ∅ (slices_ok_empty m)) as (m' & lb & HE & Hok & Hr & Hf).
  { by eapply Resources.YamlToResources_type. }
  exists m', lb. split_and!; [done..| | |].
  - intros cl. by rewrite Hr.
  - intros t Ht. apply Hf; [done|]. intros key s Hs. by simplify_map_eq.
  - eapply configEndpointsLoop_fresh; [done| |exact HE]. intros key s Hs.
    by simplify_map_eq.
Qed.

(** A new store holds the configured endpoints and fresh secrets, and has been
    saved once. *)
Lemma New_spec `{MapOrder} ca now rnd k m config m' cs sp :
  New app ca now rnd k m config = Ok (m', cs, sp) →
  ∃ m1 ce ss,
    let cs0 := mkConfigStore "" config ce None None ss false in
    Utils.NewSecrets app ca now rnd (Name config) (Validation config) = Ok ss ∧
    store_ok m1 cs0 ∧
    (∀ cl, read m1 (slot ce cl) = configuredEndpoints config cl) ∧
    (∀ t, slice_ok m t → slice_ok m1 t ∧ read m1 t = read m t) ∧
    fresh_from m ce ∧
    saveLastEndpoints app k m1 cs0 = (m', cs, sp).
Proof.
  unfold New, configuredEndpoints. intros E. ok_step E as [m1 ce] Hce.
  ok_step E as cs1 Hcs1. injection E as E.
  unfold LoadNewSecrets in Hcs1. rewrite bind_Ok in Hcs1. simpl in Hcs1.
  destruct Hcs1 as (ss & Hss%wrap_Ok & [= <-]). exists m1, ce, ss. simpl.
  pose proof (getConfigEndpoints_spec m config) as Hspec.
  destruct (Resources.YamlToResources (Endpoints config) _) as [rs|e|w].
  - destruct Hspec as (m2 & lb & Hg & Hok & Hr & Hf & Hfr). rewrite Hg in Hce.
    injection Hce as -> ->. by split_and!.
  - rewrite Hspec in Hce. injection Hce as <- <-.
    split_and!; [done|apply slices_ok_empty|done|by intros| |done].
    intros key s Hs. by simplify_map_eq.
  - by rewrite Hspec in Hce.
Qed.

End new.

(** ** Metadata *)

Section metadata.
Variable k : KubeCache.

#[local] Instance meta_prefix_inj : Inj (=) (=) (λ l, envoyMetaPodLabels +:+ l).
Proof. intros l l' E. simpl in E. by simplify_eq. Qed.

(** Keys that can come from a pod or an address. *)
Definition k8sKey (key : string) : Prop := GoStrings.HasPrefix key "k8s." = true.

Lemma metaLabels_lookup labels l :
  metaLabels labels !! (envoyMetaPodLabels +:+ l)
  = if decide (l = podLabelIgnore) then None else labels !! l.
Proof.
  unfold metaLabels. rewrite (lookup_kmap (λ k, envoyMetaPodLabels +:+ k)).
  rewrite map_lookup_filter. destruct (labels !! l) as [v|]; simpl; [|by case_decide].
  case_decide; subst; case_guard; simpl in *; naive_solver.
Qed.

Lemma metaLabels_keys labels key v :
  metaLabels labels !! key = Some v → ∃ l, key = envoyMetaPodLabels +:+ l.
Proof.
  unfold metaLabels. intros E.
  apply (lookup_kmap_Some (λ k, envoyMetaPodLabels +:+ k)) in E. naive_solver.
Qed.

Definition k8sKeys (meta : gmap string string) : Prop :=
  ∀ key v, meta !! key = Some v → k8sKey key.

Lemma k8sKeys_insert meta key v :
  k8sKey key → k8sKeys meta → k8sKeys (<[key := v]> meta).
Proof.
  intros Hk Hm key' v'. rewrite lookup_insert. case_decide; subst; [done|by apply Hm].
Qed.

Lemma k8sKeys_metaLabels o : k8sKeys (from_option metaLabels ∅ o).
Proof.
  destruct o as [labels|]; simpl; [|by intros ???].
  intros key v [l ->]%metaLabels_keys. done.
Qed.

Lemma k8sKeys_pod pod : k8sKeys (getEnvoyMetaFromPod pod).
Proof. repeat (apply k8sKeys_insert; [done|]). apply k8sKeys_metaLabels. Qed.

Lemma k8sKeys_endpoint a : k8sKeys (getEnvoyMetaFromEndpoint k a).
Proof.
  unfold getEnvoyMetaFromEndpoint. apply k8sKeys_insert; [done|].
  assert (∀ meta, k8sKeys meta → k8sKeys (match addr_NodeName a with
    | Some n => <[envoyMetaNodeName := n]> meta | None => meta end)) as Hn.
  { intros meta Hm. destruct (addr_NodeName a); [|done]. by apply k8sKeys_insert. }
  apply Hn. destruct (addr_TargetRef a) as [ref|]; [|by intros ???].
  destruct (ref_Kind ref =? "Pod"); [|by intros ???].
  apply k8sKeys_insert; [done|].
  destruct (Api.GetPod k (ref_Namespace ref) (ref_Name ref)) as [[pod|]|e|w];
    [apply k8sKeys_metaLabels|by intros ???..].
Qed.

Lemma metadataEnvoyLB_reserved e :
  k8sKeys (ee_Metadata e) →
  metadataEnvoyLB e !! "canary" = Some (BoolValue (IsCanary e)) ∧
  metadataEnvoyLB e !! "stage"
    = Some (StringValue (if IsCanary e then "canary" else "main")).
Proof.
  intros Hk. unfold metadataEnvoyLB.
  assert (∀ key, GoStrings.HasPrefix key "k8s." = false →
    (StringValue <$> ee_Metadata e) !! key = None) as Hnone.
  { intros key Hp. rewrite lookup_fmap, fmap_None, eq_None_not_Some.
    intros [v Hv]. apply Hk in Hv. unfold k8sKey in Hv. congruence. }
  split; rewrite lookup_union_r by (by apply Hnone).
  - rewrite lookup_insert_ne by done. apply lookup_insert_eq.
  - apply lookup_insert_eq.
Qed.

Lemma metadataEnvoyLB_own e key v :
  ee_Metadata e !! key = Some v → metadataEnvoyLB e !! key = Some (StringValue v).
Proof.
  intros Hv. unfold metadataEnvoyLB. apply lookup_union_Some_l. by rewrite lookup_fmap, Hv.
Qed.

End metadata.
End StoreFacts.
