(* ===== verification/ConfigMapsStore.v ===== *)
(** * pkg/configmapsstore: ConfigMaps to stores

    The process state the packages share ([World]): the memory of the endpoint
    slices, the stores by address, [configstore.StoreMap], the snapshot cache,
    the draws of versions and the goroutines that were started.  A store that
    was replaced in the map stays in the heap, because goroutines may still
    hold it. *)

From stdpp Require Import options.
From S2P Require Import Prelude.
From S2P Require Import GoStd.
From S2P Require Import GoSlice.
From S2P Require Import Envoy.
From S2P Require Import AppConfig.
From S2P Require Import Resources.
From S2P Require Import Config.
From S2P Require Import Api.
From S2P Require Import Certs.
From S2P Require Import Utils.
From S2P Require Import ConfigStore.
From Stdlib Require Import ZArith.

Section world.
Context `{XdsCache}.

Record World := mkWorld {
  w_mem : Memory;
  w_heap : gmap nat ConfigStore;
  StoreMap : gmap string nat;
  w_cache : SnapshotCache;
  w_draws : nat;
  (** goroutines started and not yet scheduled, oldest first *)
  w_spawned : list (nat * Spawn) }.

Definition set_store (l : nat) (cs : ConfigStore) (w : World) : World :=
  mkWorld (w_mem w) (<[l := cs]> (w_heap w)) (StoreMap w) (w_cache w) (w_draws w)
    (w_spawned w).

Definition set_mem (m : Memory) (w : World) : World :=
  mkWorld m (w_heap w) (StoreMap w) (w_cache w) (w_draws w) (w_spawned w).

Definition spawn (l : nat) (sp : list Spawn) (w : World) : World :=
  mkWorld (w_mem w) (w_heap w) (StoreMap w) (w_cache w) (w_draws w)
    (w_spawned w ++ map (pair l) sp).

Definition set_cache (c : SnapshotCache) (w : World) : World :=
  mkWorld (w_mem w) (w_heap w) (StoreMap w) c (w_draws w) (w_spawned w).

Definition set_draws (n : nat) (w : World) : World :=
  mkWorld (w_mem w) (w_heap w) (StoreMap w) (w_cache w) n (w_spawned w).

Definition set_StoreMap (s : gmap string nat) (w : World) : World :=
  mkWorld (w_mem w) (w_heap w) s (w_cache w) (w_draws w) (w_spawned w).

End world.

Module ConfigMapsStore.

Import AppConfig.

Definition checkConfigMapLabels (app : Type_) (cm : ConfigMap) : res bool :=
  if negb (String.length (ConfigMapNames app) =? 0)%nat then
    Ok (existsb (String.eqb (cm_Name cm)) (GoStrings.Split (ConfigMapNames app) ","))
  else
    match GoStrings.Split (ConfigMapLabels app) "=" with
    | l0 :: l1 :: _ => Ok (String.eqb (default "" (cm_Labels cm !! l0)) l1)
    | _ => Crash "index out of range"
    end.

(** The configuration of an entry, between its parsing and its lookup in the
    store map: identity, origin, version label and default namespaces. *)
Definition prepareConfig (cm : ConfigMap) (nodeID : string) (config : ConfigType)
  : ConfigType :=
  let id := if (String.length (ID config) =? 0)%nat then nodeID else ID config in
  let name := if (String.length (Name config) =? 0)%nat then id else Name config in
  let label := default "" (cm_Labels cm !! VersionLabelKey config) in
  let versioned := UseVersionLabel config && (0 <? String.length label)%nat in
  Config.with_identity
    (if versioned then id +:+ "-" +:+ label else id) name
    (if versioned then label else VersionLabel config)
    (cm_Name cm) (cm_Namespace cm) (default ∅ (cm_Annotations cm))
    (map (λ k8s, if (String.length (k_Namespace k8s) =? 0)%nat
                 then mkKubernetesType (k_ClusterName k8s) (cm_Namespace cm) (k_Port k8s)
                        (k_HealthCheckPort k8s) (k_Priority k8s) (k_Selector k8s)
                        (k_Service k8s)
                 else k8s) (Kubernetes config))
    config.

Section store.
Context `{Codec} `{ConfigParser} `{Crypto} `{XdsCache} `{GoRuntime}.
Variable app : Type_.
Variable ca : Certs.CA.

(** [cs.Stop()] on the store the map holds for an identifier. *)
Definition stopExisting (id : string) (w : World) : World :=
  match StoreMap w !! id ≫= λ l, (l,.) <$> w_heap w !! l with
  | Some (l, cs) => set_store l (Store.Stop cs) w
  | None => w
  end.

(** A store that has just been built, at a new address; its first push, if it
    started one, runs on its own from now on. *)
Definition allocStore (m : Memory) (cs : ConfigStore) (sp : list Spawn) (w : World)
  : World * nat :=
  let l := fresh (dom (w_heap w)) in (spawn l sp (set_store l cs (set_mem m w)), l).

(** [configstore.StoreMap.Store(config.ID, newConfigStore)]. *)
Definition registerStore (id : string) (l : nat) (w : World) : World :=
  set_StoreMap (<[id := l]> (StoreMap w)) w.

(** From [config.SaveResources()] to [configstore.New(ctx, config)]. *)
Definition buildEntry `{MapOrder} (now : Z) (rnd : nat) (k : KubeCache)
    (config : ConfigType) (w : World) : World * res nat :=
  match wrap "error in config.SaveResources" (Config.SaveResources app config) with
  | Err e => (w, Err e)
  | Crash why => (w, Crash why)
  | Ok config' =>
      match Store.New app ca now rnd k (w_mem w) config' with
      | Err e => (w, Err e)
      | Crash why => (w, Crash why)
      | Ok (m', cs, sp) => let '(w', l) := allocStore m' cs sp w in (w', Ok l)
      end
  end.

(** One round of the loop over [cm.Data].  The state changes made before an
    error stay. *)
Definition newEntry `{MapOrder} (now : Z) (rnd : nat) (k : KubeCache) (cm : ConfigMap)
    (nodeID text : string) (w : World) : World * res unit :=
  match Config.ParseConfigYaml nodeID text with
  | Err e => (w, Err e)
  | Crash why => (w, Crash why)
  | Ok config0 =>
      let config := prepareConfig cm nodeID config0 in
      match buildEntry now rnd k config (stopExisting (ID config) w) with
      | (w', Ok l) => (registerStore (ID config) l w', Ok ())
      | (w', Err e) => (w', Err e)
      | (w', Crash why) => (w', Crash why)
      end
  end.

Fixpoint newEntries `{MapOrder} (now : Z) (rnd : nat) (k : KubeCache) (cm : ConfigMap)
    (data : list (string * string)) (w : World) : World * res unit :=
  match data with
  | [] => (w, Ok ())
  | (nodeID, text) :: data' =>
      match newEntry now rnd k cm nodeID text w with
      | (w', Ok _) => newEntries now rnd k cm data' w'
      | (w', r) => (w', r)
      end
  end.

Definition NewConfigMap `{MapOrder} (now : Z) (rnd : nat) (k : KubeCache)
    (cm : ConfigMap) (w : World) : World * res unit :=
  match checkConfigMapLabels app cm with
  | Ok true => newEntries now rnd k cm (range_order (default ∅ (cm_Data cm))) w
  | Ok false => (w, Ok ())
  | Err e => (w, Err e)
  | Crash why => (w, Crash why)
  end.

(** Whether a store comes from a ConfigMap. *)
Definition fromConfigMap (cm : ConfigMap) (cs : ConfigStore) : bool :=
  String.eqb (ConfigMapName (cs_Config cs)) (cm_Name cm)
  && String.eqb (ConfigMapNamespace (cs_Config cs)) (cm_Namespace cm).

(** After the drain period: the snapshot and the map entry go. *)
Definition clearStore (key : string) (l : nat) (w : World) : World :=
  match w_heap w !! l with
  | Some cs => set_StoreMap (delete key (StoreMap w))
                 (set_cache (ClearSnapshot (ID (cs_Config cs)) (w_cache w)) w)
  | None => w
  end.

(** One round of the [Range] of [DeleteConfigMap], without interleaving. *)
Definition deleteVisit (cm : ConfigMap) (w : World) (kl : string * nat) : World :=
  match w_heap w !! kl.2 with
  | Some cs =>
      if fromConfigMap cm cs
      then clearStore kl.1 kl.2 (set_store kl.2 (Store.Stop cs) w)
      else w
  | None => w
  end.

Definition DeleteConfigMap `{MapOrder} (cm : ConfigMap) (w : World) : World :=
  foldl (deleteVisit cm) w (range_order (StoreMap w)).

End store.
End ConfigMapsStore.
