(* ===== verification/System.v ===== *)
(** * internal: the running process as a transition system

    The event handlers and periodic jobs of internal.go, run by concurrent
    goroutines.  A goroutine is the list of the actions it still has to do; an
    action is what happens without another goroutine getting in between: a
    critical section, or code that only touches local state.  In particular a
    save is two actions, the collection and the locked commit (the collection
    appends to copies of the configured slices: without spare capacity these are
    fresh arrays, see [collect_private] of Contents); the drain of a
    deleted ConfigMap separates its [Stop] from its [ClearSnapshot]; and a new
    store is stopped, built and registered in three actions.

    Events come from five sources: the three informers, which call their handlers
    one at a time (client-go delivers the notifications of a handler
    sequentially), and the two periodic loops.  A source raises its next event
    when the handling of the last one has ended; handlings of different sources
    and the goroutines that stores start run concurrently.  [NewConfigMap] is
    only called by the handlers of one informer, so its mutex is always free:
    [no_orphan_store] of Lifetimes rests on that.  The listers answer each action
    from a [KubeCache] of its own: the cluster may change, and be listed in another
    order, from one action to the next. *)

From stdpp Require Import options.
From S2P Require Import Prelude.
From S2P Require Import GoStd.
From S2P Require Import GoSlice.
From S2P Require Import Envoy.
From S2P Require Import AppConfig.
From S2P Require Import Resources.
From S2P Require Import Config.
From S2P Require Import Api.
From S2P Require Import Certs.
From S2P Require Import Utils.
From S2P Require Import ConfigStore.
From S2P Require Import ConfigMapsStore.
From Stdlib Require Import ZArith.

Module System.

Import AppConfig ConfigMapsStore.

(** What the rounds of a [StoreMap.Range] do with a store. *)
Inductive Visitor :=
  | VNewPod                     (* OnNewPod, OnDeletePod, OnNewEndpoints *)
  | VSync                       (* syncAll *)
  | VRotate                     (* rotateCertificates *)
  | VDelete (cm : ConfigMap).   (* DeleteConfigMap *)

(** Where events come from. *)
Inductive Source := SPods | SConfigMaps | SEndpoints | SSync | SRotate.

#[global] Instance Source_eq_dec : EqDecision Source.
Proof. solve_decision. Defined.

(** The handlers and loops of each source. *)
Definition raises (s : Source) (v : Visitor) : bool :=
  match s, v with
  | SPods, VNewPod | SEndpoints, VNewPod | SSync, VSync | SRotate, VRotate
  | SConfigMaps, VDelete _ => true
  | _, _ => false
  end.

Inductive Action :=
  (* one round of a Range: the value of a key, if it is still there *)
  | AVisit (key : string) (v : Visitor)
  (* NewPod: the test of isStoped *)
  | AUnlessStoped (l : nat) (body : list Action)
  (* saveLastEndpoints before the mutex is taken, and its critical section *)
  | ACollect (l : nat)
  | ACommit (l : nat) (p : Store.Publish)
  (* the critical section of Sync *)
  | ASyncCheck (l : nat)
  | APush (l : nat) (reason : string)
  | ALoadNewSecrets (l : nat)
  (* DeleteConfigMap after time.Sleep: the snapshot, then the map entry *)
  | AClear (key : string) (l : nat)
  | ADeleteKey (key : string)
  (* one round of the loop of NewConfigMap: parsing and the Stop of the store
     it replaces; SaveResources and New; the registration *)
  | ANewEntry (cm : ConfigMap) (nodeID text : string)
  | ABuild (config : ConfigType)
  | ARegister (id : string) (l : nat)
  (* the handler returns, or the round of the loop ends *)
  | AEnd (s : Source).

Definition thread := list Action.

(** A goroutine a store starts. *)
Definition spawned_thread (ls : nat * Spawn) : thread :=
  match ls.2 with
  | GoPush reason => [APush ls.1 reason]
  | GoSaveLastEndpoints => [ACollect ls.1]
  end.

Section system.
Context `{Codec} `{ConfigParser} `{Crypto} `{XdsCache} `{GoRuntime}.
Variable app : Type_.
Variable ca : Certs.CA.
(** The versions the process draws, in order. *)
Variable uuids : nat → string.

(** What a visitor does with the store [cs] found at [l]; [Stop] comes first in
    the deletion, so it happens with the visit. *)
Definition visit (v : Visitor) (key : string) (l : nat) (cs : ConfigStore) (w : World)
  : World * list Action :=
  match v with
  | VNewPod => (w, [AUnlessStoped l [ACollect l]])
  | VSync => (w, [AUnlessStoped l [ACollect l; ASyncCheck l]])
  | VRotate => (w, [ALoadNewSecrets l])
  | VDelete cm =>
      if fromConfigMap cm cs then (set_store l (Store.Stop cs) w, [AClear key l])
      else (w, [])
  end.

(** The effect of an action: the next state and the actions to run before the
    rest of the goroutine, [None] to drop the rest (an error returned). *)
Definition exec `{MapOrder} (now : Z) (rnd : nat) (k : KubeCache) (a : Action) (w : World)
  : res (World * option (list Action)) :=
  match a with
  | AVisit key v =>
      match StoreMap w !! key ≫= λ l, (l,.) <$> w_heap w !! l with
      | Some (l, cs) => let '(w', acts) := visit v key l cs w in Ok (w', Some acts)
      | None => Ok (w, Some [])
      end
  | AUnlessStoped l body =>
      match w_heap w !! l with
      | Some cs => Ok (w, Some (if Store.hasStoped cs then [] else body))
      | None => Ok (w, Some [])
      end
  | ACollect l =>
      match w_heap w !! l with
      | Some cs =>
          let '(m', r) := Store.saveCollect app k (w_mem w) cs in
          Ok (set_mem m' w, Some (match r with Some p => [ACommit l p] | None => [] end))
      | None => Ok (w, Some [])
      end
  | ACommit l p =>
      match w_heap w !! l with
      | Some cs => let '(cs', sp) := Store.saveCommit p cs in
                   Ok (spawn l sp (set_store l cs' w), Some [])
      | None => Ok (w, Some [])
      end
  | ASyncCheck l =>
      match w_heap w !! l with
      | Some cs => '(cs', sp) ← Store.syncCheck cs (w_cache w);
                   Ok (spawn l sp (set_store l cs' w), Some [])
      | None => Ok (w, Some [])
      end
  | APush l _ =>
      match w_heap w !! l with
      | Some cs =>
          match Store.Push uuids (w_draws w) cs (w_cache w) with
          | Some (cs', n', c') =>
              Ok (set_draws n' (set_cache c' (set_store l cs' w)), Some [])
          | None => Ok (w, Some [a])      (* still drawing *)
          end
      | None => Ok (w, Some [])
      end
  | ALoadNewSecrets l =>
      match w_heap w !! l with
      | Some cs =>
          match Store.LoadNewSecrets app ca now rnd cs with
          | Ok cs' => Ok (set_store l cs' w, Some [APush l "LoadNewSecrets"])
          | Err _ => Ok (w, Some [])       (* logged *)
          | Crash why => Crash why
          end
      | None => Ok (w, Some [])
      end
  | AClear key l =>
      match w_heap w !! l with
      | Some cs => Ok (set_cache (ClearSnapshot (ID (cs_Config cs)) (w_cache w)) w,
                       Some [ADeleteKey key])
      | None => Ok (w, Some [])
      end
  | ADeleteKey key => Ok (set_StoreMap (delete key (StoreMap w)) w, Some [])
  | ANewEntry cm nodeID text =>
      match Config.ParseConfigYaml nodeID text with
      | Ok config0 =>
          let config := prepareConfig cm nodeID config0 in
          Ok (stopExisting (ID config) w, Some [ABuild config])
      | Err _ => Ok (w, None)              (* logged by OnNewConfig *)
      | Crash why => Crash why
      end
  | ABuild config =>
      match buildEntry app ca now rnd k config w with
      | (w', Ok l) => Ok (w', Some [ARegister (ID config) l])
      | (w', Err _) => Ok (w', None)
      | (_, Crash why) => Crash why
      end
  | ARegister id l => Ok (registerStore id l w, Some [])
  | AEnd _ => Ok (w, Some [])
  end.

(** The goroutine an event starts, in the order of one iteration. *)
Definition on_visitor `{MapOrder} (v : Visitor) (w : World) : thread :=
  map (λ kl, AVisit kl.1 v) (range_order (StoreMap w)).

Definition on_new_config `{MapOrder} (cm : ConfigMap) : res thread :=
  match checkConfigMapLabels app cm with
  | Ok true => Ok (map (λ nt, ANewEntry cm nt.1 nt.2) (range_order (default ∅ (cm_Data cm))))
  | Ok false => Ok []
  | Err e => Err e
  | Crash why => Crash why
  end.

Record Process := mkProcess { p_world : World; p_threads : list thread }.

(** Goroutines started by the last action join the pool. *)
Definition schedule_spawned (w : World) (ts : list thread) : Process :=
  mkProcess (mkWorld (w_mem w) (w_heap w) (StoreMap w) (w_cache w) (w_draws w) [])
    (ts ++ map spawned_thread (w_spawned w)).

(** Whether a goroutine still handles an event of a source. *)
Definition busy (s : Source) (t : thread) : bool :=
  existsb (λ a, match a with AEnd s' => bool_decide (s = s') | _ => false end) t.

Definition idle (s : Source) (p : Process) : bool := negb (existsb (busy s) (p_threads p)).

(** Some goroutine runs its next action, at some time and against a state of the
    cluster. *)
Inductive run (k : KubeCache) (p : Process) : Process → Prop :=
  | run_action (order : MapOrder) now rnd ts1 a rest ts2 w' pre :
      p_threads p = ts1 ++ (a :: rest) :: ts2 →
      exec now rnd k a (p_world p) = Ok (w', pre) →
      run k p (schedule_spawned w'
                 (ts1 ++ (from_option (λ acts, acts ++ rest) [] pre) :: ts2)).

(** One transition: an idle source raises an event, or a goroutine runs. *)
Inductive step (p : Process) : Process → Prop :=
  | step_event (order : MapOrder) s v :
      idle s p = true → raises s v = true →
      step p (mkProcess (p_world p) ((on_visitor v (p_world p) ++ [AEnd s]) :: p_threads p))
  | step_new_config (order : MapOrder) cm t :
      idle SConfigMaps p = true → on_new_config cm = Ok t →
      step p (mkProcess (p_world p) ((t ++ [AEnd SConfigMaps]) :: p_threads p))
  | step_run k p' : run k p p' → step p p'.

(** The state of a process that has just started. *)
Definition initial (c : SnapshotCache) : Process :=
  mkProcess (mkWorld ∅ ∅ ∅ c 0 []) [].

Definition reachable (c : SnapshotCache) (p : Process) : Prop := rtc step (initial c) p.

(** No goroutine has anything left to do. *)
Definition quiescent (p : Process) : Prop := Forall (λ t, t = []) (p_threads p).

(** A goroutine whose next action ends the process. *)
Definition crashes (p : Process) : Prop :=
  ∃ (order : MapOrder) now rnd k ts1 a rest ts2 why,
    p_threads p = ts1 ++ (a :: rest) :: ts2 ∧
    exec now rnd k a (p_world p) = Crash why.

End system.
End System.
