(* ===== verification/Metrics.v ===== *)
(** * pkg/metrics: the metrics of the process, and who counts

    The declarations of pkg/metrics and the state they have: a counter or a gauge
    is a number, a histogram the list of its observations, each under its full
    name and label.  Registration and rendering belong to Prometheus; it demands
    that full names are valid and different, which is proved here.  The small
    observers of pkg/utils (TimeTrack) and pkg/api (metrics.go) are here too. *)

From stdpp Require Import options.
From S2P Require Import Prelude.
From S2P Require Import GoStd.
From S2P Require Import AppConfig.
From Stdlib Require Import ZArith.

Module Metrics.

Import AppConfig.

Inductive Kind :=
  | Gauge | Counter | CounterVec (label : string) | Histogram | HistogramVec (label : string).

Record Metric := mkMetric { Kind_ : Kind; Name : string; Help : string }.

Definition namespace : string := "envoy_control_plane".

Definition LeaderElectionIsMaster : Metric :=
  mkMetric Gauge "leader_election_is_master" "0 if not master, 1 if master".
Definition GrpcOnStreamOpen : Metric :=
  mkMetric Counter "on_stream_open_total" "The total number of OnStreamOpen events".
Definition GrpcOnStreamClosed : Metric :=
  mkMetric Counter "on_stream_closed_total" "The total number of OnStreamClosed events".
Definition GrpcOnStreamRequest : Metric :=
  mkMetric Counter "on_stream_request_total" "The total number of OnStreamRequest events".
Definition GrpcOnStreamResponse : Metric :=
  mkMetric Counter "on_stream_response_total" "The total number of OnStreamResponse events".
Definition GrpcOnFetchRequest : Metric :=
  mkMetric Counter "on_fetch_request_total" "The total number of OnFetchRequest events".
Definition GrpcOnFetchResponse : Metric :=
  mkMetric Counter "on_fetch_response_total" "The total number of OnFetchResponse events".
Definition GrpcOnStreamDeltaRequest : Metric :=
  mkMetric Counter "on_stream_delta_request_total"
    "The total number of OnStreamDeltaRequest events".
Definition GrpcOnStreamDeltaResponse : Metric :=
  mkMetric Counter "on_stream_delta_response_total"
    "The total number of OnStreamDeltaResponse events".
Definition GrpcOnStreamDeltaRequestOnStreamDeltaRequest : Metric :=
  mkMetric Counter "on_stream_delta_request_on_stream_delta_request_total"
    "The total number of OnStreamDeltaRequestOnStreamDeltaRequest events".
Definition GrpcOnDeltaStreamOpen : Metric :=
  mkMetric Counter "on_delta_stream_open_total" "The total number of OnDeltaStreamOpen events".
Definition GrpcOnDeltaStreamClosed : Metric :=
  mkMetric Counter "on_delta_stream_closed_total"
    "The total number of OnDeltaStreamClosed events".
Definition KubernetesAPIRequest : Metric :=
  mkMetric (CounterVec "code") "apiserver_request_total"
    "The total number of kunernetes API requests".
Definition KubernetesAPIRequestDuration : Metric :=
  mkMetric Histogram "apiserver_request_duration"
    "The duration in seconds of kunernetes API requests".
Definition ConfigmapsstoreAddFunc : Metric :=
  mkMetric Counter "configmapsstore_add_total"
    "The total number of AddFunc events in configmapsstore".
Definition ConfigmapsstoreUpdateFunc : Metric :=
  mkMetric Counter "configmapsstore_update_total"
    "The total number of UpdateFunc events in configmapsstore".
Definition ConfigmapsstoreDeleteFunc : Metric :=
  mkMetric Counter "configmapsstore_delete_total"
    "The total number of DeleteFunc events in configmapsstore".
Definition ConfigmapsstorePush : Metric :=
  mkMetric Counter "configmapsstore_push_total" "The total number of Push".
Definition EndpointstoreAddFunc : Metric :=
  mkMetric Counter "endpointstore_add_total"
    "The total number of AddFunc events in endpointstore".
Definition EndpointstoreUpdateFunc : Metric :=
  mkMetric Counter "endpointstore_update_total"
    "The total number of UpdateFunc events in endpointstore".
Definition EndpointstoreDeleteFunc : Metric :=
  mkMetric Counter "endpointstore_delete_total"
    "The total number of DeleteFunc events in endpointstore".
Definition Operation : Metric :=
  mkMetric (CounterVec "operation") "operation_total" "The total number of web requests".
Definition OperationDuration : Metric :=
  mkMetric (HistogramVec "operation") "operation_duration" "The duration in ms of operations".

(** The declarations, in order: each is registered when the package is loaded. *)
Definition declared : list Metric :=
  [LeaderElectionIsMaster; GrpcOnStreamOpen; GrpcOnStreamClosed; GrpcOnStreamRequest;
   GrpcOnStreamResponse; GrpcOnFetchRequest; GrpcOnFetchResponse; GrpcOnStreamDeltaRequest;
   GrpcOnStreamDeltaResponse; GrpcOnStreamDeltaRequestOnStreamDeltaRequest;
   GrpcOnDeltaStreamOpen; GrpcOnDeltaStreamClosed; KubernetesAPIRequest;
   KubernetesAPIRequestDuration; ConfigmapsstoreAddFunc; ConfigmapsstoreUpdateFunc;
   ConfigmapsstoreDeleteFunc; ConfigmapsstorePush; EndpointstoreAddFunc;
   EndpointstoreUpdateFunc; EndpointstoreDeleteFunc; Operation; OperationDuration].

(** The full name: the namespace and the name. *)
Definition FQName (m : Metric) : string := namespace +:+ "_" +:+ Name m.
#[global] Arguments FQName : simpl never.

(** A valid metric name: letters, digits, underscores and colons, not starting
    with a digit. *)
Definition name_start (c : ascii) : bool :=
  let n := N_of_ascii c in
  ((97 <=? n) && (n <=? 122) || (65 <=? n) && (n <=? 90) || (n =? 95) || (n =? 58))%N.
Definition name_char (c : ascii) : bool :=
  let n := N_of_ascii c in name_start c || ((48 <=? n) && (n <=? 57))%N.
Definition valid_name (s : string) : bool :=
  match String.list_ascii_of_string s with
  | [] => false
  | c :: cs => name_start c && forallb name_char cs
  end.

(** ** State *)

(** The numbers of counters and gauges and the observations of histograms, by
    full name and label value ("" for a metric without labels). *)
Record State := mkState {
  numbers : gmap (string * string) N;
  observations : gmap (string * string) (list Z) }.

Definition initial : State := mkState ∅ ∅.

Definition value (m : Metric) (label : string) (s : State) : N :=
  default 0%N (numbers s !! (FQName m, label)).

Definition observed (m : Metric) (label : string) (s : State) : list Z :=
  default [] (observations s !! (FQName m, label)).

(** [m.Inc()], and [m.WithLabelValues(label).Inc()]. *)
Definition IncLabel (m : Metric) (label : string) (s : State) : State :=
  mkState (<[(FQName m, label) := N.succ (value m label s)]> (numbers s)) (observations s).
Definition Inc (m : Metric) : State → State := IncLabel m "".

(** [m.Set(v)]. *)
Definition Set_ (m : Metric) (v : N) (s : State) : State :=
  mkState (<[(FQName m, "") := v]> (numbers s)) (observations s).

(** [m.Observe(v)]. *)
Definition ObserveLabel (m : Metric) (label : string) (v : Z) (s : State) : State :=
  mkState (numbers s) (<[(FQName m, label) := observed m label s ++ [v]]> (observations s)).

Lemma value_IncLabel m l m' l' s :
  value m' l' (IncLabel m l s) =
  (value m' l' s + if decide (FQName m = FQName m' ∧ l = l') then 1 else 0)%N.
Proof.
  unfold value at 1, IncLabel. cbn [numbers]. rewrite lookup_insert.
  destruct (decide ((FQName m, l) = (FQName m', l'))) as [E|E].
  - apply pair_equal_spec in E as [E <-]. rewrite decide_True by (by split).
    cbn [default]. unfold value. rewrite E. cbn. lia.
  - rewrite decide_False by (intros [Em ->]; apply E; by rewrite Em). unfold value. lia.
Qed.

Lemma observed_ObserveLabel m l v m' l' s :
  observed m' l' (ObserveLabel m l v s) =
  observed m' l' s ++ if decide (FQName m = FQName m' ∧ l = l') then [v] else [].
Proof.
  unfold observed at 1, ObserveLabel. cbn [observations]. rewrite lookup_insert.
  destruct (decide ((FQName m, l) = (FQName m', l'))) as [E|E].
  - apply pair_equal_spec in E as [E <-]. rewrite decide_True by (by split).
    cbn [default]. unfold observed. by rewrite E.
  - rewrite decide_False by (intros [Em ->]; apply E; by rewrite Em).
    by rewrite app_nil_r.
Qed.

(** ** The observers *)

(** pkg/utils, TimeTrack: counts the operation, observes its whole milliseconds
    and warns about a slow one. *)
Definition timeTrackWarning : Z := 100 * Millisecond.

Definition TimeTrack (name : string) (start now : Z) (s : State) : State * bool :=
  let elapsed := (now - start)%Z in
  (ObserveLabel OperationDuration name (Z.quot elapsed Millisecond)
     (IncLabel Operation name s),
   (timeTrackWarning <? elapsed)%Z).

(** pkg/api, requestResult.Increment and requestLatency.Observe; the duration in
    nanoseconds stands for its seconds. *)
Definition Increment (code : string) (s : State) : State :=
  IncLabel KubernetesAPIRequest code s.
Definition Observe (latency : Z) (s : State) : State :=
  ObserveLabel KubernetesAPIRequestDuration "" latency s.

(** What a run of tracked operations leaves in the metrics. *)
Fixpoint track (ops : list (string * Z * Z)) (s : State) : State :=
  match ops with
  | [] => s
  | (name, start, now) :: ops' => track ops' (TimeTrack name start now s).1
  end.

(** ** Theorems *)

Lemma declared_names : NoDup (map FQName declared) ∧ Forall (λ m, valid_name (FQName m) = true) declared.
Proof. split; apply (bool_decide_unpack _); vm_compute; exact I. Qed.

(** Different metrics have different names. *)
Lemma FQName_inj m m' : m ∈ declared → m' ∈ declared → FQName m = FQName m' → m = m'.
Proof.
  intros Hm Hm' E. pose proof (proj1 declared_names) as Hnd.
  apply list_elem_of_lookup in Hm as [i Hi], Hm' as [j Hj].
  assert (i = j) as <-; [|congruence].
  apply (NoDup_lookup (FQName <$> declared) i j (FQName m) Hnd); rewrite list_lookup_fmap;
    [by rewrite Hi|by rewrite Hj, E].
Qed.

Lemma observed_track ops s name :
  observed OperationDuration name (track ops s) =
  observed OperationDuration name s ++
  map (λ o, Z.quot (o.2 - o.1.2) Millisecond) (List.filter (λ o, String.eqb o.1.1 name) ops) ∧
  value Operation name (track ops s) =
  (value Operation name s + N.of_nat (length (List.filter (λ o, String.eqb o.1.1 name) ops)))%N.
Proof.
  revert s. induction ops as [|[[n start] now] ops IH]; intros s.
  - cbn. rewrite app_nil_r. split; [done|lia].
  - cbn [track List.filter fst snd]. destruct (IH (TimeTrack n start now s).1) as [-> ->].
    unfold TimeTrack. cbn [fst]. rewrite observed_ObserveLabel.
    change (value Operation name (ObserveLabel ?m ?l ?v ?t)) with (value Operation name t).
    rewrite value_IncLabel. destruct (String.eqb_spec n name) as [->|Hne].
    + rewrite !decide_True by done. cbn [map length snd fst]. rewrite <-app_assoc.
      split; [done|lia].
    + rewrite !decide_False by tauto. rewrite app_nil_r. split; [done|lia].
Qed.

End Metrics.
