(* ===== verification/Callbacks.v ===== *)
(** * pkg/controlplane/callbacks.go: the callbacks of the xDS server

    The streams of the proxies call them at the same time.  A callback is the list
    of its atomic actions: to count itself in a metric, to run its part under the
    mutex, to open a file, one write(2).  A run is an interleaving of the
    callbacks that are called.  [signal] is a channel that the first request
    closes; a second close would panic.  With the access log on, a stream response
    appends to two files, without the mutex: what is written is part of the state,
    and so are the files that no code closes.  The lines of the log are left out,
    but for the counters that [Report] prints. *)

From stdpp Require Import options.
From S2P Require Import Prelude.
From S2P Require Import GoStd.
From S2P Require Import AppConfig.
From S2P Require Import Metrics.
From Stdlib Require Import ZArith.

Module Callbacks.

Import AppConfig Metrics.

(** Go's [int] on 64-bit platforms: [n + 1] wraps to the least value. *)
Definition int_incr (n : Z) : Z :=
  ((n + 1 + 2 ^ 63) mod 2 ^ 64 - 2 ^ 63)%Z.

Record callbacks := mkCallbacks {
  (** [cb.signal != nil], and whether that channel is closed *)
  signal : bool;
  signal_closed : bool;
  fetches : Z;
  requests : Z;
  (** the access log: what was appended to which file, in order *)
  appended : list (string * string);
  (** the log files that were opened and that no code closes: their handles are
      left to the finalizer of [os.File] *)
  unclosed : list string }.

(** [controlplane.Init]. *)
Definition Init : callbacks := mkCallbacks true false 0 0 [] [].

(** [if cb.signal != nil { close(cb.signal); cb.signal = nil }]. *)
Definition close_signal (cb : callbacks) : res callbacks :=
  if signal cb then
    if signal_closed cb then Crash "close of closed channel"
    else Ok (mkCallbacks false true (fetches cb) (requests cb) (appended cb) (unclosed cb))
  else Ok cb.

(** The state the callbacks share: their struct and the metrics. *)
Notation Shared := (callbacks * State)%type.

Inductive Action :=
  | AInc (m : Metric)               (* .Inc() *)
  | ARequest | AFetch               (* between Lock and Unlock *)
  | AOpen (file : string)           (* a handle that no code closes *)
  | AWrite (file piece : string).   (* write(2) on a file opened with O_APPEND *)

Definition act (a : Action) (p : Shared) : res Shared :=
  let '(cb, s) := p in
  match a with
  | AInc m => Ok (cb, Inc m s)
  | ARequest =>
      cb' ← close_signal (mkCallbacks (signal cb) (signal_closed cb) (fetches cb)
        (int_incr (requests cb)) (appended cb) (unclosed cb));
      Ok (cb', s)
  | AFetch =>
      cb' ← close_signal (mkCallbacks (signal cb) (signal_closed cb) (int_incr (fetches cb))
        (requests cb) (appended cb) (unclosed cb));
      Ok (cb', s)
  | AOpen file => Ok (mkCallbacks (signal cb) (signal_closed cb) (fetches cb) (requests cb)
      (appended cb) (file :: unclosed cb), s)
  | AWrite file piece => Ok (mkCallbacks (signal cb) (signal_closed cb) (fetches cb)
      (requests cb) (appended cb ++ [(file, piece)]) (unclosed cb), s)
  end.

Fixpoint acts (l : list Action) (p : Shared) : res Shared :=
  match l with
  | [] => Ok p
  | a :: l' => act a p ≫= acts l'
  end.

(** A callback that only counts itself and logs. *)
Definition counted (m : Metric) : list Action := [AInc m].

Definition OnStreamOpen : list Action := counted GrpcOnStreamOpen.
Definition OnStreamClosed : list Action := counted GrpcOnStreamClosed.
Definition OnStreamRequest : list Action := [AInc GrpcOnStreamRequest; ARequest].

(** What becomes of a [WriteString]: how many bytes its calls of write(2) take, and
    whether it then fails, which is only logged, or writes the rest. *)
Record Written := mkWritten { w_sizes : list nat; w_fails : bool }.

Fixpoint pieces (text : string) (sizes : list nat) (fails : bool) : list string :=
  match sizes with
  | [] => if fails then [] else [text]
  | n :: r => String.substring 0 n text
              :: pieces (String.substring n (String.length text - n) text) r fails
  end.

(** What a stream response brings: the node of its request, the request and the
    response as [protojson] marshals them ("" on its error, which is dropped), and
    for each of its files what becomes of it; [None] when [os.OpenFile] fails. *)
Record Exchange := mkExchange {
  x_nodeID : string;
  x_request : string;
  x_response : string;
  x_requestFile : option Written;
  x_responseFile : option Written }.

Definition fileNameRequest (app : Type_) (nodeID : string) : string :=
  GoPath.Join [LogPath app; "OnStreamRequest." +:+ nodeID +:+ ".log"].
Definition fileNameResponce (app : Type_) (nodeID : string) : string :=
  GoPath.Join [LogPath app; "OnStreamResponse." +:+ nodeID +:+ ".log"].

Definition nl : string := String "010" "".
Definition discoveryRequestText (discoveryRequest : string) : string :=
  nl +:+ "DiscoveryRequest=>" +:+ nl +:+ nl +:+ discoveryRequest +:+ nl +:+ nl.
Definition discoveryResponseText (discoveryResponse : string) : string :=
  nl +:+ "DiscoveryResponse=>" +:+ nl +:+ nl +:+ discoveryResponse +:+ nl +:+ nl.

(** [WriteString]; on a nil handle it is an error that is only logged. *)
Definition WriteString (handle : option Written) (text : string) : list string :=
  match handle with
  | Some w => pieces text (w_sizes w) (w_fails w)
  | None => []
  end.

(** The two [WriteString]s. *)
Definition writes (app : Type_) (x : Exchange) : list (string * string) :=
  map (pair (fileNameRequest app (x_nodeID x)))
    (WriteString (x_requestFile x) (discoveryRequestText (x_request x))) ++
  map (pair (fileNameResponce app (x_nodeID x)))
    (WriteString (x_responseFile x) (discoveryResponseText (x_response x))).

(** Both deferred calls close [fResponce]: the handle of the request file stays
    open. *)
Definition OnStreamResponse (app : Type_) (x : Exchange) : list Action :=
  AInc GrpcOnStreamResponse ::
  (if LogAccess app
   then (if x_requestFile x then [AOpen (fileNameRequest app (x_nodeID x))] else [])
        ++ map (λ fw, AWrite fw.1 fw.2) (writes app x)
   else []).

(** The counters of the line that [Report] logs after every stream response. *)
Definition Report (app : Type_) (cb : callbacks) : option (Z * Z) :=
  if LogAccess app then Some (fetches cb, requests cb) else None.

Definition OnFetchRequest : list Action := [AInc GrpcOnFetchRequest; AFetch].
Definition OnFetchResponse : list Action := counted GrpcOnFetchResponse.
Definition OnStreamDeltaRequest : list Action := counted GrpcOnStreamDeltaRequest.
Definition OnStreamDeltaResponse : list Action := counted GrpcOnStreamDeltaResponse.
Definition OnStreamDeltaRequestOnStreamDeltaRequest : list Action :=
  counted GrpcOnStreamDeltaRequestOnStreamDeltaRequest.
Definition OnDeltaStreamOpen : list Action := counted GrpcOnDeltaStreamOpen.
Definition OnDeltaStreamClosed : list Action := counted GrpcOnDeltaStreamClosed.

Inductive Callback :=
  | StreamOpen | StreamClosed | StreamRequest | StreamResponse (x : Exchange)
  | FetchRequest | FetchResponse | StreamDeltaRequest | StreamDeltaResponse
  | StreamDeltaRequestOnStreamDeltaRequest | DeltaStreamOpen | DeltaStreamClosed.

Definition call (app : Type_) (c : Callback) : list Action :=
  match c with
  | StreamOpen => OnStreamOpen
  | StreamClosed => OnStreamClosed
  | StreamRequest => OnStreamRequest
  | StreamResponse x => OnStreamResponse app x
  | FetchRequest => OnFetchRequest
  | FetchResponse => OnFetchResponse
  | StreamDeltaRequest => OnStreamDeltaRequest
  | StreamDeltaResponse => OnStreamDeltaResponse
  | StreamDeltaRequestOnStreamDeltaRequest => OnStreamDeltaRequestOnStreamDeltaRequest
  | DeltaStreamOpen => OnDeltaStreamOpen
  | DeltaStreamClosed => OnDeltaStreamClosed
  end.

(** The callbacks [l], called at the same time: one of their runs. *)
Definition run_of (app : Type_) (l : list Callback) (r : list Action) : Prop :=
  interleaving (map (call app) l) r.

(** ** Proofs *)

(** The number of elements of a kind. *)
Definition count {A} (f : A → bool) (l : list A) : Z := Z.of_nat (length (List.filter f l)).

Definition is_request (c : Callback) : bool := match c with StreamRequest => true | _ => false end.
Definition is_fetch (c : Callback) : bool := match c with FetchRequest => true | _ => false end.
Definition is_response (c : Callback) : bool :=
  match c with StreamResponse x => if x_requestFile x then true else false | _ => false end.

(** The metric a callback counts itself in. *)
Definition metric_of (c : Callback) : Metric :=
  match c with
  | StreamOpen => GrpcOnStreamOpen
  | StreamClosed => GrpcOnStreamClosed
  | StreamRequest => GrpcOnStreamRequest
  | StreamResponse _ => GrpcOnStreamResponse
  | FetchRequest => GrpcOnFetchRequest
  | FetchResponse => GrpcOnFetchResponse
  | StreamDeltaRequest => GrpcOnStreamDeltaRequest
  | StreamDeltaResponse => GrpcOnStreamDeltaResponse
  | StreamDeltaRequestOnStreamDeltaRequest => GrpcOnStreamDeltaRequestOnStreamDeltaRequest
  | DeltaStreamOpen => GrpcOnDeltaStreamOpen
  | DeltaStreamClosed => GrpcOnDeltaStreamClosed
  end.

Definition counts_in (m : Metric) (c : Callback) : bool :=
  bool_decide (FQName (metric_of c) = FQName m).

(** What the callbacks append to the files of the access log, one after the
    other. *)
Definition logged (app : Type_) (l : list Callback) : list (string * string) :=
  if LogAccess app
  then concat (map (λ c, match c with StreamResponse x => writes app x | _ => [] end) l)
  else [].

(** *** The same of actions *)

Definition a_request (a : Action) : bool := match a with ARequest => true | _ => false end.
Definition a_fetch (a : Action) : bool := match a with AFetch => true | _ => false end.
Definition a_open (a : Action) : bool := match a with AOpen _ => true | _ => false end.
Definition a_counts_in (m : Metric) (a : Action) : bool :=
  match a with AInc m' => bool_decide (FQName m' = FQName m) | _ => false end.
Definition a_write (a : Action) : option (string * string) :=
  match a with AWrite f t => Some (f, t) | _ => None end.

Lemma count_app {A} (f : A → bool) l k : count f (l ++ k) = (count f l + count f k)%Z.
Proof. unfold count. rewrite List.filter_app, length_app. lia. Qed.

Lemma count_Permutation {A} (f : A → bool) l k : l ≡ₚ k → count f l = count f k.
Proof.
  unfold count. induction 1 as [|x l k _ IH|x y l|l k r _ IH1 _ IH2]; simpl; [done|..].
  - destruct (f x); simpl; lia.
  - by destruct (f x), (f y).
  - congruence.
Qed.

(** A callback does once what it is counted for. *)
Lemma count_calls app f (g : Callback → bool) l :
  (∀ c, count f (call app c) = Z.b2z (g c)) → count f (concat (map (call app) l)) = count g l.
Proof.
  intros Hc. induction l as [|c l IH]; [done|]. simpl concat. rewrite count_app, IH, Hc.
  unfold count. simpl. destruct (g c); simpl; lia.
Qed.

Lemma count_writes f (l : list (string * string)) :
  (∀ x y, f (AWrite x y) = false) → count f (map (λ fw, AWrite fw.1 fw.2) l) = 0%Z.
Proof.
  intros Hf. unfold count. induction l as [|[] l IH]; [done|]. cbn [map List.filter]. by rewrite Hf.
Qed.

Lemma omap_writes (l : list (string * string)) :
  omap a_write (map (λ fw, AWrite fw.1 fw.2) l) = l.
Proof. induction l as [|[] l IH]; [done|]. simpl in *. by f_equal. Qed.

(** *** Actions *)

(** What [int] makes of a number. *)
Definition int_of (n : Z) : Z := ((n + 2 ^ 63) mod 2 ^ 64 - 2 ^ 63)%Z.

Lemma int_incr_of n : int_incr (int_of n) = int_of (n + 1).
Proof.
  unfold int_incr, int_of. f_equal.
  replace ((n + 2 ^ 63) mod 2 ^ 64 - 2 ^ 63 + 1 + 2 ^ 63)%Z
    with ((n + 2 ^ 63) mod 2 ^ 64 + 1)%Z by lia.
  rewrite Zplus_mod_idemp_l. f_equal. lia.
Qed.

(** The channel is closed exactly when the callbacks have let go of it. *)
Definition good (cb : callbacks) : Prop := signal_closed cb = negb (signal cb).

Definition touches (a : Action) : bool := a_request a || a_fetch a.

(** What a run of actions has counted so far. *)
Record counted_ok (l : list Action) (s0 : State) (p : Shared) : Prop := {
  c_good : good p.1;
  c_signal : signal p.1 = negb (existsb touches l);
  c_requests : requests p.1 = int_of (count a_request l);
  c_fetches : fetches p.1 = int_of (count a_fetch l);
  c_appended : appended p.1 = omap a_write l;
  c_unclosed : Z.of_nat (length (unclosed p.1)) = count a_open l;
  c_metrics : ∀ m, Z.of_N (value m "" p.2)
                   = (Z.of_N (value m "" s0) + count (a_counts_in m) l)%Z }.

Lemma count_snoc {A} (f : A → bool) l a : count f (l ++ [a]) = (count f l + Z.b2z (f a))%Z.
Proof. rewrite count_app. unfold count at 2. simpl. by destruct (f a). Qed.

Lemma close_signal_good cb :
  good cb → ∃ cb', close_signal cb = Ok cb' ∧ good cb' ∧ signal cb' = false ∧
    requests cb' = requests cb ∧ fetches cb' = fetches cb ∧
    appended cb' = appended cb ∧ unclosed cb' = unclosed cb.
Proof.
  unfold good, close_signal. intros Hg. destruct (signal cb) eqn:Hs; simpl in Hg.
  - rewrite Hg. by eexists.
  - exists cb. by rewrite Hs, Hg.
Qed.

Lemma value_Inc m m' s :
  Z.of_N (value m "" (Inc m' s))
  = (Z.of_N (value m "" s) + Z.b2z (bool_decide (FQName m' = FQName m)))%Z.
Proof.
  unfold Inc. rewrite value_IncLabel, N2Z.inj_add. destruct (decide _) as [[? _]|Hn].
  - by rewrite bool_decide_eq_true_2.
  - by rewrite bool_decide_eq_false_2 by tauto.
Qed.

Lemma act_spec l a s0 p :
  counted_ok l s0 p → ∃ p', act a p = Ok p' ∧ counted_ok (l ++ [a]) s0 p'.
Proof.
  intros [Hg Hs Hr Hf Ha Hu Hm]. destruct p as [cb s]. cbn [fst snd] in *.
  destruct a; cbn [act];
    try (match goal with |- context [close_signal ?x] =>
           destruct (close_signal_good x Hg) as (cb' & -> & Hg' & Hs' & Hr' & Hf' & Ha' & Hu')
         end);
    (eexists; split; [reflexivity|]; constructor; cbn [fst snd] in *; [..|intros m'; specialize (Hm m')];
     rewrite ?existsb_app, ?count_snoc, ?omap_app, ?value_Inc;
     cbn [existsb touches a_request a_fetch a_open a_counts_in a_write orb omap list_omap Z.b2z];
     rewrite ?orb_false_r, ?orb_true_r, ?Z.add_0_r, ?app_nil_r; try (done || lia)).
  all: rewrite ?Hs', ?Hr', ?Hf', ?Hu', ?Ha'; simpl; rewrite ?Hr, ?Hf, ?Ha, ?int_incr_of;
    try (done || lia).
Qed.

Lemma acts_spec l' l s0 p :
  counted_ok l s0 p → ∃ p', acts l' p = Ok p' ∧ counted_ok (l ++ l') s0 p'.
Proof.
  revert l p. induction l' as [|a l' IH]; intros l p Hp; simpl.
  - exists p. by rewrite app_nil_r.
  - destruct (act_spec _ a _ _ Hp) as (p1 & -> & Hp1). simpl.
    destruct (IH _ _ Hp1) as (p' & -> & Hp'). exists p'. by rewrite <-app_assoc in Hp'.
Qed.

Lemma acts_init r s0 : ∃ cb s, acts r (Init, s0) = Ok (cb, s) ∧ counted_ok r s0 (cb, s).
Proof.
  destruct (acts_spec r [] s0 (Init, s0)) as ([cb s] & E & H); [|by exists cb, s].
  constructor; try done. intros m. unfold count. simpl. lia.
Qed.

(** *** Callbacks *)

Lemma concat_map_app {A B} (f : A → list B) x l : concat (map f (x :: l)) = f x ++ concat (map f l).
Proof. done. Qed.

Lemma omap_calls app l : omap a_write (concat (map (call app) l)) = logged app l.
Proof.
  unfold logged. induction l as [|c l IH]; [by destruct (LogAccess app)|].
  rewrite concat_map_app, omap_app, IH.
  destruct c; simpl; try by destruct (LogAccess app).
  unfold OnStreamResponse. destruct (LogAccess app); [|done].
  rewrite <-(omap_writes (writes app x)) at 2. by destruct (x_requestFile x).
Qed.

Lemma count_one {A} (f : A → bool) a : count f [a] = Z.b2z (f a).
Proof. unfold count. simpl. by destruct (f a). Qed.

Lemma response_count app x f :
  (∀ y z, f (AWrite y z) = false) →
  count f (OnStreamResponse app x)
  = (Z.b2z (f (AInc GrpcOnStreamResponse))
     + Z.b2z (LogAccess app && (if x_requestFile x then true else false)
              && f (AOpen (fileNameRequest app (x_nodeID x)))))%Z.
Proof.
  intros Hf. unfold OnStreamResponse.
  match goal with |- context [?a :: ?l] => change (a :: l) with ([a] ++ l) end.
  rewrite count_app, count_one.
  destruct (LogAccess app); [|done].
  rewrite count_app, count_writes by done. rewrite Z.add_0_r.
  destruct (x_requestFile x); [by rewrite count_one|done].
Qed.

Lemma call_count app c :
  count a_request (call app c) = Z.b2z (is_request c) ∧
  count a_fetch (call app c) = Z.b2z (is_fetch c) ∧
  count a_open (call app c) = Z.b2z (LogAccess app && is_response c) ∧
  ∀ m, count (a_counts_in m) (call app c) = Z.b2z (counts_in m c).
Proof.
  assert (∀ m k, count (a_counts_in m) [AInc k] = Z.b2z (bool_decide (FQName k = FQName m))) as H1.
  { intros m k. apply (count_one (a_counts_in m)). }
  assert (∀ m k a, a_counts_in m a = false → count (a_counts_in m) [AInc k; a]
    = Z.b2z (bool_decide (FQName k = FQName m))) as H2.
  { intros m k a Ha. etrans; [apply (count_app _ [_] [_])|]. rewrite H1, count_one, Ha.
    apply Z.add_0_r. }
  destruct c as [| | |x| | | | | | |]; cbn [call is_response]; rewrite ?andb_false_r.
  4:{ split_and!; [..|intros m]; rewrite response_count by done;
        cbn [a_request a_fetch a_open a_counts_in Z.b2z is_request is_fetch];
        rewrite ?andb_false_r, ?andb_true_r, ?Z.add_0_r; done. }
  all: split_and!; [reflexivity|reflexivity|reflexivity|intros m].
  all: first [apply H1|by apply H2].
Qed.

Lemma existsb_count {A} (f : A → bool) l : existsb f l = bool_decide (count f l ≠ 0)%Z.
Proof.
  unfold count. induction l as [|a l IH]; simpl; [done|].
  by destruct (f a).
Qed.

Lemma count_touches l : count touches l = (count a_request l + count a_fetch l)%Z.
Proof.
  unfold count, touches. induction l as [|[] l IH]; simpl; try done; lia.
Qed.

Lemma count_touched l :
  count (λ c, is_request c || is_fetch c) l = (count is_request l + count is_fetch l)%Z.
Proof. unfold count. induction l as [|[] l IH]; simpl; try done; lia. Qed.

Lemma count_and b (f : Callback → bool) l :
  count (λ c, b && f c) l = (if b then count f l else 0)%Z.
Proof. unfold count. destruct b; simpl; [done|]. by induction l. Qed.

(** C39: however the callbacks of concurrent streams interleave, none closes the
    signal channel twice: every run ends normally, the channel is closed exactly
    when a request or a fetch has come, the counters are the numbers of requests
    and fetches, as [int]s, and every metric has grown by the number of callbacks
    it counts; the access log gets what the stream responses write, in order when
    no two of them overlap - while with the access log on every stream response
    that opens its request file leaves it to the garbage collector to close. *)
Theorem callbacks_correct app l r s0 :
  run_of app l r →
  ∃ cb s, acts r (Init, s0) = Ok (cb, s) ∧
    signal_closed cb = existsb (λ c, is_request c || is_fetch c) l ∧
    requests cb = int_of (count is_request l) ∧
    fetches cb = int_of (count is_fetch l) ∧
    (∀ m, Z.of_N (value m "" s) = (Z.of_N (value m "" s0) + count (counts_in m) l)%Z) ∧
    appended cb ≡ₚ logged app l ∧
    (r = concat (map (call app) l) → appended cb = logged app l) ∧
    Z.of_nat (length (unclosed cb)) = (if LogAccess app then count is_response l else 0%Z).
Proof.
  intros Hr%interleaving_Permutation.
  destruct (acts_init r s0) as (cb & s & E & [Hg Hs Hrq Hf Ha Hu Hm]). cbn [fst snd] in *.
  assert (∀ f g, (∀ c, count f (call app c) = Z.b2z (g c)) → count f r = count g l) as Hc.
  { intros f g Hfg. rewrite (count_Permutation _ _ _ Hr). by apply count_calls. }
  rewrite (Hc _ is_request) in Hrq by apply call_count.
  rewrite (Hc _ is_fetch) in Hf by apply call_count.
  rewrite (Hc _ (λ c, LogAccess app && is_response c)), count_and in Hu by apply call_count.
  exists cb, s. split_and!; try done.
  - unfold good in Hg. rewrite Hg, Hs, negb_involutive, !existsb_count, count_touches, count_touched.
    by rewrite (Hc _ is_request), (Hc _ is_fetch) by apply call_count.
  - intros m. rewrite Hm. rewrite (Hc _ (counts_in m)); [done|].
    intros c. apply (proj2 (proj2 (proj2 (call_count app c)))).
  - rewrite Ha, <-omap_calls. by rewrite Hr.
  - intros ->. by rewrite Ha, omap_calls.
Qed.

(** A request, a fetch and two responses at once, and the ends of their files. *)
Definition overlapping : list Callback :=
  let x := mkExchange "a" "{}" "{}" (Some (mkWritten [] false)) (Some (mkWritten [3] true)) in
  [StreamRequest; FetchRequest; StreamResponse x; StreamResponse x].

Lemma callbacks_correct_witness :
  let app := config (λ _, "") "dev" in
  ∃ cb s, acts (concat (map (call app) overlapping)) (Init, initial) = Ok (cb, s) ∧
    signal_closed cb = true ∧ requests cb = 1%Z ∧ fetches cb = 1%Z.
Proof.
  intros app.
  destruct (callbacks_correct app overlapping _ initial (interleaving_concat _))
    as (cb & s & E & Hs & Hr & Hf & _).
  exists cb, s. exact (conj E (conj Hs (conj Hr Hf))).
Defined.

End Callbacks.
