(* ===== verification/AccessLog.v ===== *)
(** * pkg/controlplane/accessLogService.go: the access-log service

    Envoy opens a stream and sends messages until the stream fails; the service
    writes one line for every entry.  Only the first message of a stream has to
    carry the identifier, so the name of the log is kept from message to
    message.  A stream is the list of its messages and the error that ends it;
    the written lines are the result.  Timestamps and the text of an address
    are parameters. *)

From stdpp Require Import options.
From S2P Require Import Prelude.
From S2P Require Import GoStd.
From Stdlib Require Import ZArith.

Module AccessLog.

(** ** Messages *)

Record AccessLogCommon := mkAccessLogCommon {
  UpstreamCluster : string;
  (** the text of the address; the text of a nil address for a missing one *)
  UpstreamLocalAddress : string }.

Record HTTPRequestProperties := mkHTTPRequestProperties {
  Authority : string; Path : string; Scheme : string; RequestId : string }.

Record HTTPResponseProperties := mkHTTPResponseProperties {
  (** a wrapped number: nil has the value 0 *)
  ResponseCode : option N }.

Record HTTPAccessLogEntry := mkHTTPAccessLogEntry {
  http_CommonProperties : option AccessLogCommon;
  http_Request : option HTTPRequestProperties;
  http_Response : option HTTPResponseProperties }.

Record TCPAccessLogEntry := mkTCPAccessLogEntry {
  tcp_CommonProperties : option AccessLogCommon }.

(** The entries of a message; a nil element of a list is [None]. *)
Inductive LogEntries :=
  | HttpLogs (entries : list (option HTTPAccessLogEntry))
  | TcpLogs (entries : list (option TCPAccessLogEntry))
  | NoEntries.

Record StreamAccessLogsMessage := mkMessage {
  (** [GetIdentifier().GetLogName()] *)
  Identifier : option string;
  Entries : LogEntries }.

(** ** The service *)

Section service.
(** The text of a nil [*core.Address], and the time of each line. *)
Variable nilAddress : string.
Variable time : nat → string.

Definition emptyCommon : AccessLogCommon := mkAccessLogCommon "" nilAddress.
Definition emptyRequest : HTTPRequestProperties := mkHTTPRequestProperties "" "" "" "".
Definition emptyResponse : HTTPResponseProperties := mkHTTPResponseProperties None.

(** ["[%s%s] %s %s %s %d %s %s"]. *)
Definition http_line (logName now : string) (entry : HTTPAccessLogEntry) : string :=
  let common := default emptyCommon (http_CommonProperties entry) in
  let req := default emptyRequest (http_Request entry) in
  let resp := default emptyResponse (http_Response entry) in
  "[" +:+ logName +:+ now +:+ "] " +:+ Authority req +:+ " " +:+ Path req +:+ " "
  +:+ Scheme req +:+ " " +:+ GoStrconv.FormatUint (default 0%N (ResponseCode resp)) +:+ " "
  +:+ RequestId req +:+ " " +:+ UpstreamCluster common.

(** ["[%s%s] tcp %s %s"]. *)
Definition tcp_line (logName now : string) (entry : TCPAccessLogEntry) : string :=
  let common := default emptyCommon (tcp_CommonProperties entry) in
  "[" +:+ logName +:+ now +:+ "] tcp " +:+ UpstreamLocalAddress common +:+ " "
  +:+ UpstreamCluster common.

(** A loop over entries: nil ones are skipped, the others are written after the
    lines there are. *)
Fixpoint write_entries {A} (line : string → A → string) (entries : list (option A))
    (lines : list string) : list string :=
  match entries with
  | [] => lines
  | None :: entries' => write_entries line entries' lines
  | Some entry :: entries' =>
      write_entries line entries' (lines ++ [line (time (length lines)) entry])
  end.

(** The body of the loop after [Recv]. *)
Definition handle (msg : StreamAccessLogsMessage) (logName : string) (lines : list string)
  : string * list string :=
  let logName' := match Identifier msg with Some name => name | None => logName end in
  (logName',
   match Entries msg with
   | HttpLogs entries => write_entries (http_line logName') entries lines
   | TcpLogs entries => write_entries (tcp_line logName') entries lines
   | NoEntries => lines
   end).

Fixpoint receive (stream : list StreamAccessLogsMessage) (failure : error)
    (logName : string) (lines : list string) : list string * error :=
  match stream with
  | [] => (lines, Wrapped failure "error in stream.Recv()")
  | msg :: stream' =>
      let '(logName', lines') := handle msg logName lines in
      receive stream' failure logName' lines'
  end.

Definition StreamAccessLogs (stream : list StreamAccessLogsMessage) (failure : error)
  : list string * error :=
  receive stream failure "" [].

(** ** Specification *)

(** The text of an entry without its timestamp. *)
Inductive Entry := EHttp (e : HTTPAccessLogEntry) | ETcp (e : TCPAccessLogEntry).

Definition entry_line (logName now : string) (e : Entry) : string :=
  match e with EHttp e => http_line logName now e | ETcp e => tcp_line logName now e end.

Definition entries_of (msg : StreamAccessLogsMessage) : list Entry :=
  match Entries msg with
  | HttpLogs entries => omap (option_map EHttp) entries
  | TcpLogs entries => omap (option_map ETcp) entries
  | NoEntries => []
  end.

(** The name a message is logged under: the last one sent up to it. *)
Definition name_at (stream : list StreamAccessLogsMessage) (i : nat) : string :=
  default "" (last (omap Identifier (take (S i) stream))).

(** The entries of a stream, each under its name. *)
Definition named_entries (stream : list StreamAccessLogsMessage) : list (string * Entry) :=
  concat (imap (λ i msg, map (pair (name_at stream i)) (entries_of msg)) stream).

Lemma write_entries_spec {A} (line : string → A → string) entries lines :
  write_entries line entries lines =
  lines ++ imap (λ i e, line (time (length lines + i)) e) (omap id entries).
Proof.
  revert lines. induction entries as [|[e|] entries IH]; intros lines; simpl.
  - by rewrite app_nil_r.
  - rewrite IH, <-app_assoc. simpl. f_equal. rewrite Nat.add_0_r. f_equal.
    apply imap_ext. intros i x _. simpl. do 2 f_equal. rewrite length_app. simpl. lia.
  - apply IH.
Qed.

Definition timed (n : nat) (l : list (string * Entry)) : list string :=
  imap (λ i ne, entry_line ne.1 (time (n + i)) ne.2) l.

Lemma timed_app n l k : timed n (l ++ k) = timed n l ++ timed (n + length l) k.
Proof.
  unfold timed. rewrite imap_app. f_equal. apply imap_ext. intros i x _. simpl.
  do 2 f_equal. lia.
Qed.

Lemma length_timed n l : length (timed n l) = length l.
Proof. apply length_imap. Qed.

Lemma omap_option_map {X} (c : X → Entry) (o : list (option X)) :
  omap (option_map c) o = c <$> omap id o.
Proof. induction o as [|[x|] o IH]; cbn; [done|by f_equal|done]. Qed.

(** The lines of the entries of one message. *)
Lemma timed_entries {X} (c : X → Entry) n logName (o : list (option X)) :
  timed n (map (pair logName) (omap (option_map c) o)) =
  imap (λ i e, entry_line logName (time (n + i)) (c e)) (omap id o).
Proof.
  rewrite omap_option_map. unfold timed.
  change (map (pair logName) ?l) with (pair logName <$> l).
  by rewrite !imap_fmap.
Qed.

Lemma handle_spec msg logName lines :
  handle msg logName lines =
  (default logName (Identifier msg),
   lines ++ timed (length lines)
     (map (pair (default logName (Identifier msg))) (entries_of msg))).
Proof.
  unfold handle, entries_of.
  change (match Identifier msg with Some n => n | None => logName end)
    with (default logName (Identifier msg)).
  f_equal. destruct (Entries msg) as [l|l|];
    [by rewrite write_entries_spec, timed_entries..|].
  unfold timed. simpl. by rewrite app_nil_r.
Qed.

(** The messages that follow a prefix that ended with the name [logName]. *)
Fixpoint named_from (logName : string) (stream : list StreamAccessLogsMessage)
  : list (string * Entry) :=
  match stream with
  | [] => []
  | msg :: stream' =>
      let logName' := default logName (Identifier msg) in
      map (pair logName') (entries_of msg) ++ named_from logName' stream'
  end.

Lemma receive_spec stream failure logName lines :
  receive stream failure logName lines =
  (lines ++ timed (length lines) (named_from logName stream),
   Wrapped failure "error in stream.Recv()").
Proof.
  revert logName lines. induction stream as [|msg stream IH]; intros logName lines;
    cbn [receive named_from]; [unfold timed; simpl; by rewrite app_nil_r|].
  rewrite handle_spec, IH, timed_app, <-app_assoc, length_app.
  by rewrite (length_timed _ (map _ _)).
Qed.

Lemma named_from_entries stream :
  ∀ logName, named_from logName stream =
  concat (imap (λ i msg,
    map (pair (default logName (last (omap Identifier (take (S i) stream)))))
      (entries_of msg)) stream).
Proof.
  induction stream as [|msg stream IH]; intros logName; [done|].
  cbn [named_from imap concat]. f_equal.
  { cbn [take omap list_omap]. rewrite firstn_O. by destruct (Identifier msg). }
  rewrite IH. f_equal. apply imap_ext. intros i x Hx. unfold compose. do 2 f_equal.
  cbn [take omap list_omap]. destruct (Identifier msg) as [name|]; [|done].
  rewrite last_cons. by destruct (last (omap Identifier (take (S i) stream))).
Qed.

(** C38: the access log is complete and in order: whatever parts a message leaves
    out, the service writes exactly one line for each entry that is there, under
    the name of the last identifier the stream has sent, and ends only with the
    error of the stream.  (The lines are logged at the level info, the default.) *)
Theorem access_log_correct stream failure :
  StreamAccessLogs stream failure =
  (timed 0 (named_entries stream), Wrapped failure "error in stream.Recv()").
Proof.
  unfold StreamAccessLogs. rewrite receive_spec. simpl. do 2 f_equal.
  apply named_from_entries.
Qed.

End service.

Example sticky_name :
  (StreamAccessLogs "" (λ _, "T")
     [mkMessage (Some "ingress") NoEntries;
      mkMessage None (HttpLogs [None; Some (mkHTTPAccessLogEntry None None None)])]
     (New "EOF")).1
  = ["[ingressT]    0  "].
Proof. reflexivity. Qed.

End AccessLog.
