(* ===== verification/LogFiles.v ===== *)
(** * pkg/controlplane/callbacks.go: the files of the access log

    With the access log on, every stream response appends its request and its
    response to two files named after the node.  Nodes whose identifiers have no
    slash never share a file, and all files lie in one directory; an identifier
    with slashes names any file.  The streams append at the same time, so the
    order within a file is one of the interleavings of what they write.  A
    write(2) on a file opened with O_APPEND is one step; nobody else writes to the
    files or removes them. *)

From stdpp Require Import options.
From S2P Require Import Prelude.
From S2P Require Import GoStd.
From S2P Require Import AppConfig.
From S2P Require Import Metrics.
From S2P Require Import Callbacks.
From Stdlib Require Import ZArith.

Module LogFiles.

Import AppConfig Callbacks GoPath.

(** What is appended to a file. *)
Definition to_file (file : string) (fw : string * string) : option string :=
  if decide (fw.1 = file) then Some fw.2 else None.

(** What a file holds after a sequence of appends, from what it held before. *)
Definition content (old : string → string) (file : string) (w : list (string * string)) : string :=
  old file +:+ String.concat "" (omap (to_file file) w).

(** The exchanges of a run, in order. *)
Definition exchanges (l : list Callback) : list Exchange :=
  omap (λ c, match c with StreamResponse x => Some x | _ => None end) l.

(** An identifier that stays within one segment of a path. *)
Definition plain_id (id : string) : Prop := "/"%char ∉ String.list_ascii_of_string id.

(** ** File names *)

Lemma name_is_file_name kind id :
  plain_id id → "/"%char ∉ String.list_ascii_of_string kind →
  file_name (kind +:+ id +:+ ".log").
Proof.
  intros Hid Hs. unfold file_name.
  assert (∀ s, s ∈ ["" ; "."; ".."] → kind +:+ id +:+ ".log" ≠ s) as Hne.
  { intros s Hin E. apply (f_equal String.length) in E.
    rewrite !GoStrings.length_string_app in E. change (String.length ".log") with 4%nat in E.
    assert (String.length s ≤ 2)%nat; [|lia].
    rewrite !elem_of_cons, elem_of_nil in Hin. naive_solver (simpl; lia). }
  split_and!; [apply Hne; set_solver..|].
  rewrite !GoStrings.list_ascii_app, !elem_of_app. unfold plain_id in Hid.
  intros [|[|Hin]]; [done..|]. simpl in Hin. by set_solver.
Qed.

Lemma string_app_inj_r (s t u : string) : s +:+ u = t +:+ u → s = t.
Proof.
  revert t. induction s as [|c s IH]; intros [|d t] E; [done| | |].
  - apply (f_equal String.length) in E. rewrite !GoStrings.length_string_app in E. simpl in E. lia.
  - apply (f_equal String.length) in E. rewrite !GoStrings.length_string_app in E. simpl in E. lia.
  - simpl in E. injection E as -> E. f_equal. by apply IH.
Qed.

Lemma string_app_inj_l (s t u : string) : s +:+ t = s +:+ u → t = u.
Proof. induction s as [|c s IH]; simpl; [done|]. by intros [= ?%IH]. Qed.

(** One directory holds the files of all plain identifiers. *)
Lemma log_directory app : ∃ dir, ∀ id, plain_id id →
  fileNameRequest app id = dir +:+ "OnStreamRequest." +:+ id +:+ ".log" ∧
  fileNameResponce app id = dir +:+ "OnStreamResponse." +:+ id +:+ ".log".
Proof.
  destruct (Join_file_name (LogPath app)) as [dir Hdir]. exists dir. intros id Hid.
  split; apply Hdir, name_is_file_name; try done; simpl; set_solver.
Qed.

(** No two of them are the same. *)
Lemma log_names_differ app id1 id2 :
  plain_id id1 → plain_id id2 →
  (fileNameRequest app id1 = fileNameRequest app id2 → id1 = id2) ∧
  (fileNameResponce app id1 = fileNameResponce app id2 → id1 = id2) ∧
  fileNameRequest app id1 ≠ fileNameResponce app id2.
Proof.
  intros H1 H2. destruct (log_directory app) as [dir Hdir].
  destruct (Hdir id1 H1) as [-> ->], (Hdir id2 H2) as [-> ->]. split_and!.
  - intros E%string_app_inj_l%string_app_inj_l. by apply string_app_inj_r in E.
  - intros E%string_app_inj_l%string_app_inj_l. by apply string_app_inj_r in E.
  - by intros E%string_app_inj_l.
Qed.

(** ** Contents *)

Lemma string_app_empty_r s : s +:+ "" = s.
Proof. induction s as [|c s IH]; simpl; [done|by rewrite IH]. Qed.

Lemma substring_all s : String.substring 0 (String.length s) s = s.
Proof. induction s as [|c s IH]; simpl; [done|by rewrite IH]. Qed.

Lemma substring_split n s :
  String.substring 0 n s +:+ String.substring n (String.length s - n) s = s.
Proof.
  revert n. induction s as [|c s IH]; intros [|n]; simpl; [done..| |].
  - by rewrite substring_all.
  - by rewrite IH.
Qed.

Lemma concat_empty_cons x l : String.concat "" (x :: l) = x +:+ String.concat "" l.
Proof. destruct l as [|y l]; [|done]. simpl. induction x; simpl; congruence. Qed.

(** What a [WriteString] appends is the text, or, when it fails, a prefix. *)
Lemma pieces_prefix text sizes fails :
  ∃ rest, text = String.concat "" (pieces text sizes fails) +:+ rest ∧ (fails = false → rest = "").
Proof.
  revert text. induction sizes as [|n sizes IH]; intros text; simpl pieces.
  - destruct fails; [by exists text|]. exists "". split; [|done].
    rewrite concat_empty_cons. by rewrite !string_app_empty_r.
  - destruct (IH (String.substring n (String.length text - n) text)) as (rest & E & Hr).
    exists rest. split; [|done].
    by rewrite concat_empty_cons, string_app_assoc, <-E, substring_split.
Qed.

(** The parts of a file that come from one exchange. *)
Definition request_parts (id : string) (x : Exchange) : list string :=
  if decide (x_nodeID x = id)
  then WriteString (x_requestFile x) (discoveryRequestText (x_request x)) else [].
Definition response_parts (id : string) (x : Exchange) : list string :=
  if decide (x_nodeID x = id)
  then WriteString (x_responseFile x) (discoveryResponseText (x_response x)) else [].

Lemma omap_to_file file f ts :
  omap (to_file file) (map (pair f) ts) = if decide (f = file) then ts else [].
Proof.
  unfold to_file. induction ts as [|t ts IH]; simpl in *; [by case_decide|].
  case_decide; simpl; [by f_equal|done].
Qed.

Lemma writes_to_file app id x :
  plain_id id → plain_id (x_nodeID x) →
  omap (to_file (fileNameRequest app id)) (writes app x) = request_parts id x ∧
  omap (to_file (fileNameResponce app id)) (writes app x) = response_parts id x.
Proof.
  intros Hid Hx. destruct (log_names_differ app (x_nodeID x) id Hx Hid) as (Hrq & Hrs & Hd).
  destruct (log_names_differ app id (x_nodeID x) Hid Hx) as (_ & _ & Hd').
  unfold writes, request_parts, response_parts. rewrite !omap_app, !omap_to_file.
  split; repeat case_decide; subst; rewrite ?app_nil_r; done || congruence || (exfalso; eauto).
Qed.

(** What a callback appends to a file. *)
Definition appends (file : string) (a : Action) : option string := a_write a ≫= to_file file.

Lemma omap_appends file (l : list Action) : omap (appends file) l = omap (to_file file) (omap a_write l).
Proof.
  induction l as [|a l IH]; [done|]. simpl. unfold appends at 1.
  destruct (a_write a) as [fw|]; simpl; [|done]. destruct (to_file file fw); [by f_equal|done].
Qed.

Lemma call_writes app c :
  LogAccess app = true →
  omap a_write (call app c) = match c with StreamResponse x => writes app x | _ => [] end.
Proof.
  intros Ha. pose proof (omap_calls app [c]) as E. unfold logged in E. rewrite Ha in E.
  simpl in E. by rewrite !app_nil_r in E.
Qed.

(** The streams interleave on every file. *)
Lemma file_interleaving app file parts l r :
  LogAccess app = true → run_of app l r →
  (∀ x, x ∈ exchanges l → omap (to_file file) (writes app x) = parts x) →
  interleaving (map parts (exchanges l)) (omap (appends file) r).
Proof.
  intros Ha Hr Hp. apply (interleaving_omap (appends file)) in Hr. rewrite map_map in Hr.
  set (f (c : Callback) := match c with StreamResponse x => Some (parts x) | _ => None end).
  assert (omap f l = map parts (exchanges l)) as <-.
  { unfold exchanges, f. clear. induction l as [|[] l IH]; simpl in *; try done. by f_equal. }
  apply interleaving_drop. erewrite map_ext_in; [exact Hr|].
  intros c Hc%list_elem_of_In. cbn. rewrite omap_appends, call_writes by done.
  destruct c; try done. simpl. symmetry. apply Hp. unfold exchanges. apply list_elem_of_omap. eauto.
Qed.

(** C40: the access log keeps the nodes apart: when no identifier has a slash, all
    files lie in one directory and, however the streams interleave, the request
    file of a node holds what it held before and then what the responses of that
    node alone wrote, each in its order; so does its response file.  What one of
    them writes is its text - its prefix when the write fails, nothing when the
    file could not be opened - so with writes that are not cut the file holds the
    texts of the node one after the other. *)
Theorem log_files_correct app old l r s0 :
  LogAccess app = true → Forall (λ x, plain_id (x_nodeID x)) (exchanges l) → run_of app l r →
  (∃ dir, ∀ id, plain_id id →
     fileNameRequest app id = dir +:+ "OnStreamRequest." +:+ id +:+ ".log" ∧
     fileNameResponce app id = dir +:+ "OnStreamResponse." +:+ id +:+ ".log") ∧
  ∃ cb s, acts r (Init, s0) = Ok (cb, s) ∧ ∀ id, plain_id id →
    (∃ ws, interleaving (map (request_parts id) (exchanges l)) ws ∧
       content old (fileNameRequest app id) (appended cb)
       = old (fileNameRequest app id) +:+ String.concat "" ws) ∧
    (∃ ws, interleaving (map (response_parts id) (exchanges l)) ws ∧
       content old (fileNameResponce app id) (appended cb)
       = old (fileNameResponce app id) +:+ String.concat "" ws).
Proof.
  intros Ha Hids Hr. split; [apply log_directory|].
  destruct (acts_init r s0) as (cb & s & E & Hok).
  exists cb, s. split; [done|]. intros id Hid. pose proof (c_appended _ _ _ Hok) as Hap.
  cbn [fst] in Hap. rewrite Hap. rewrite Forall_forall in Hids.
  unfold content. rewrite <-!omap_appends.
  split; eexists; (split; [|reflexivity]); apply (file_interleaving app _ _ l r Ha Hr);
    intros x Hx; by apply writes_to_file; [|apply Hids].
Qed.

(** An identifier with slashes leaves the directory: a proxy that calls its node so
    makes the process append to any file that ends in .log. *)
Theorem log_path_escapes Getenv gitVersion :
  fileNameRequest (config Getenv gitVersion) "/../../etc/app" = "/etc/app.log".
Proof. reflexivity. Qed.

(** ** A run *)

(** The default settings with the access log on. *)
Definition logging : Type_ :=
  let d := config (λ _, "") "dev" in
  mkType (GracePeriod d) (LogLevel d) (LogPretty d) true (LogPath d) (LogReportCaller d)
    (ConfigFile d) (ConfigMapLabels d) (ConfigMapNames d) (KubeConfigFile d) (WatchNamespaced d)
    (LeaderElection d) (PodName d) (Namespace d) (GrpcAddress d) (WebHTTPAddress d)
    (WebHTTPSAddress d) (NodeZoneLabel d) (ConfigDrainPeriod d) (EndpointCheckPeriod d)
    (SentryDSN d) (SSLName d) (SSLCrt d) (SSLKey d) (SSLDoNotUseValidation d)
    (SSLRotationPeriod d) (WebAdminUser d) (WebAdminPassword d).

(** Whole writes, one that is cut, one that fails and one without its file. *)
Definition two_nodes : list Callback :=
  let ok := Some (mkWritten [] false) in
  [StreamRequest; StreamResponse (mkExchange "a" "{1}" "{2}" ok (Some (mkWritten [10] true)));
   StreamResponse (mkExchange "b" "{3}" "{4}" (Some (mkWritten [7; 3] false)) ok);
   StreamResponse (mkExchange "a" "{5}" "{6}" ok None)].

(** A goroutine within another one. *)
Lemma merge_within {A} n (l k : list A) : merge l k (take n l ++ k ++ drop n l).
Proof.
  assert (∀ l, merge l k (k ++ l)) as Hk.
  { clear. intros l. induction k as [|x k IH]; simpl; [|by constructor].
    induction l; by constructor. }
  revert n. induction l as [|x l IH]; intros [|n]; simpl; try apply (Hk []); try apply Hk.
  by constructor.
Qed.

(** The last response comes within the second, and both within the first. *)
Definition two_nodes_run : list Action :=
  let c k := call logging (nth k two_nodes StreamOpen) in
  c 0 ++ take 2 (c 1) ++ (take 3 (c 2) ++ c 3 ++ drop 3 (c 2)) ++ drop 2 (c 1).

Lemma two_nodes_run_of : run_of logging two_nodes two_nodes_run.
Proof.
  unfold run_of, two_nodes_run, two_nodes. cbn [map nth].
  econstructor; [|apply merge_app]. econstructor; [|apply merge_within].
  econstructor; [|apply merge_within].
  rewrite <-(app_nil_r (call _ _)). econstructor; [constructor|apply merge_app].
Qed.

Lemma log_files_correct_witness :
  let old f := if decide (f = "/tmp/OnStreamRequest.a.log") then "before" else "" in
  ∃ cb s ws, acts two_nodes_run (Init, Metrics.initial) = Ok (cb, s) ∧
    interleaving (map (request_parts "a") (exchanges two_nodes)) ws ∧
    content old "/tmp/OnStreamRequest.a.log" (appended cb) = "before" +:+ String.concat "" ws.
Proof.
  intros old.
  assert (∀ c : ascii, c ≠ "/"%char → plain_id (String c "")) as Hp.
  { intros c Hc [E|[]%elem_of_nil]%elem_of_cons. by apply Hc. }
  destruct (log_files_correct logging old two_nodes two_nodes_run Metrics.initial eq_refl)
    as (_ & cb & s & E & Hall).
  - repeat constructor; apply Hp; discriminate.
  - exact two_nodes_run_of.
  - destruct (Hall "a" (Hp "a"%char ltac:(discriminate))) as [(ws & Hi & Hc) _].
    exists cb, s, ws. exact (conj E (conj Hi Hc)).
Defined.

(** The same run, computed: the request of the response that came in between is
    first. *)
Lemma two_nodes_files :
  let file p old := content (λ _, old) p
    match acts two_nodes_run (Init, Metrics.initial) with Ok (cb, _) => appended cb | _ => [] end in
  file "/tmp/OnStreamRequest.a.log" "before"
    = "before" +:+ discoveryRequestText "{5}" +:+ discoveryRequestText "{1}" ∧
  file "/tmp/OnStreamResponse.a.log" "" = String.substring 0 10 (discoveryResponseText "{2}") ∧
  file "/tmp/OnStreamRequest.b.log" "" = discoveryRequestText "{3}".
Proof. vm_compute. split_and!; reflexivity. Qed.

End LogFiles.
