(* ===== verification/Web.v ===== *)
(** * pkg/web: the administration server

    The routes, their dispatch by [http.ServeMux], the authentication of the
    administration routes and the handlers.  A request is its method, its
    decoded path, its basic-auth credentials and its form; a response its
    status, the headers the code sets and its body.  JSON encoding, metrics and
    pprof are parameters; timeouts and logging are left out. *)

From stdpp Require Import options.
From S2P Require Import Prelude.
From S2P Require Import GoStd.
From S2P Require Import GoSlice.
From S2P Require Import Envoy.
From S2P Require Import AppConfig.
From S2P Require Import Resources.
From S2P Require Import Config.
From S2P Require Import Api.
From S2P Require Import Certs.
From S2P Require Import Utils.
From S2P Require Import ConfigStore.
From S2P Require Import ConfigMapsStore.
From Stdlib Require Import ZArith.

Module Web.

Import AppConfig.

Definition basicRealm : string := AppName.
Definition adminPrefix : string := "/api/admin".

(** ** HTTP *)

Record Request := mkRequest {
  r_Method : string;
  r_Path : string;
  r_BasicAuth : option (string * string);
  (** the error of [ParseForm], and the values [Form.Get] finds *)
  r_FormError : option error;
  r_Form : gmap string string }.

Record Response := mkResponse {
  status : N;
  ContentType : string;
  WWWAuthenticate : string;
  Location : string;
  body : string }.

(** A response that sets at most the content type. *)
Definition reply (code : N) (contentType text : string) : Response :=
  mkResponse code contentType "" "" text.

Definition StatusOK : N := 200.
Definition StatusMovedPermanently : N := 301.
Definition StatusBadRequest : N := 400.
Definition StatusUnauthorized : N := 401.
Definition StatusNotFound : N := 404.
Definition StatusInternalServerError : N := 500.

Definition FormGet (r : Request) (key : string) : string := default "" (r_Form r !! key).

(** [http.Error(w, msg, code)]. *)
Definition http_Error (msg : string) (code : N) : Response :=
  reply code "text/plain; charset=utf-8" (msg +:+ String "010" "").

(** ** Routes *)

Inductive Handler :=
  | handlerHelp | handlerReady | handlerHealthz | handlerStatus | handlerConfigDump
  | handlerConfigEndpoints | handlerZone | handlerVersion | metrics_Handler | handlerCerts
  | pprof_Index | pprof_Cmdline | pprof_Profile | pprof_Symbol | pprof_Trace.

#[global] Instance Handler_eq_dec : EqDecision Handler.
Proof. solve_decision. Defined.

Record Route := mkWebRoute {
  path : string;
  description : string;
  handler : Handler;
  httpShema : bool }.

Definition getRoutes : list Route := [
  mkWebRoute "/api/help" "Help" handlerHelp false;
  mkWebRoute "/api/ready" "Route for application rediness probe" handlerReady false;
  mkWebRoute "/api/healthz" "Route for application health probe" handlerHealthz false;
  mkWebRoute "/api/admin/status" "Status all nodes in SnapshotCache " handlerStatus false;
  mkWebRoute "/api/admin/config_dump" "All dumps of configs that loaded to control-plane"
    handlerConfigDump false;
  mkWebRoute "/api/config_endpoints" "All endpoints in configs" handlerConfigEndpoints false;
  mkWebRoute "/api/zone" "Get pod zone" handlerZone false;
  mkWebRoute "/api/version" "Get version" handlerVersion false;
  mkWebRoute "/api/metrics" "Get metrics" metrics_Handler true;
  mkWebRoute "/api/admin/certs" "Generate cert" handlerCerts false;
  mkWebRoute "/debug/pprof/" "" pprof_Index false;
  mkWebRoute "/debug/pprof/cmdline" "" pprof_Cmdline false;
  mkWebRoute "/debug/pprof/profile" "" pprof_Profile false;
  mkWebRoute "/debug/pprof/symbol" "" pprof_Symbol false;
  mkWebRoute "/debug/pprof/trace" "" pprof_Trace false].

(** [GetHandler]: the patterns registered with the mux. *)
Definition GetHandler (onlyHTTPShema : bool) : list (string * Handler) :=
  map (λ route, (path route, handler route))
    (List.filter (λ route, negb onlyHTTPShema || Bool.eqb (httpShema route) onlyHTTPShema)
       getRoutes).

(** ** [http.ServeMux] *)

(** The path a request is matched with: [path.Clean], with the trailing slash
    kept. *)
Definition cleanPath (p : string) : string :=
  match p with
  | EmptyString => "/"
  | String c _ =>
      let p' := if Ascii.eqb c "/" then p else String "/" p in
      let np := GoPath.Clean p' in
      if GoStrings.HasSuffix p' "/" && negb (String.eqb np "/") then np +:+ "/" else np
  end.

(** A pattern matches its own path; one that ends in a slash also matches every
    path below it. *)
Definition pattern_matches (pattern p : string) : bool :=
  String.eqb pattern p || (GoStrings.HasSuffix pattern "/" && GoStrings.HasPrefix p pattern).

(** The most specific match: the longest pattern. *)
Fixpoint mux_match (mux : list (string * Handler)) (p : string) : option (string * Handler) :=
  match mux with
  | [] => None
  | (pattern, h) :: mux' =>
      let rest := mux_match mux' p in
      if pattern_matches pattern p
      then match rest with
           | Some (pattern', h') =>
               if (String.length pattern <? String.length pattern')%nat then rest
               else Some (pattern, h)
           | None => Some (pattern, h)
           end
      else rest
  end.

Inductive Dispatch := DHandler (h : Handler) | DRedirect (location : string) | DNotFound.

Definition dispatch (mux : list (string * Handler)) (r : Request) : Dispatch :=
  let p := if String.eqb (r_Method r) "CONNECT" then r_Path r else cleanPath (r_Path r) in
  match mux_match mux p with
  | Some (_, h) => if String.eqb p (r_Path r) then DHandler h else DRedirect p
  | None => if bool_decide (is_Some (mux_match mux (p +:+ "/"))) then DRedirect (p +:+ "/")
            else if String.eqb p (r_Path r) then DNotFound else DRedirect p
  end.

Section server.
Context `{Codec} `{Crypto} `{XdsCache}.
Variable app : Type_.
Variable ca : Certs.CA.

(** *** The results the handlers encode *)

Record EndpointsResults := mkEndpointsResults {
  er_Name : string; er_Version : string; er_LastSaved : option (list string) }.

Record StatusResponce := mkStatusResponce {
  sr_NodeID : string; sr_Snapshot : option Snapshot }.

Record APIVersion := mkAPIVersion {
  av_Version : string; av_GoVersion : string; av_Goroutines : Z; av_GOMAXPROCS : Z;
  av_GOGC : string; av_GODEBUG : string }.

Inductive Payload :=
  | PConfigs (l : list ConfigType)
  | PEndpoints (l : list EndpointsResults)
  | PStatus (l : list StatusResponce)
  | PVersion (v : APIVersion).

(** encoding/json, time.ParseDuration, the API server and what the runtime
    reports. *)
Variable Marshal : Payload → res string.
Variable ParseDuration : string → Z + error.
Variable getPod : string → string → res Pod.
Variable getNode : string → res Node.
Variable version : APIVersion.
Variable external : Handler → Request → Response.

(** An encoding error is logged and nothing is written. *)
Definition write_json (p : Payload) : Response :=
  reply StatusOK "application/json"
    (match Marshal p with Ok b => b | _ => "" end).

(** [errors.Wrap(err, msg).Error()]. *)
Fixpoint Error (e : error) : string :=
  match e with New msg => msg | Wrapped cause msg => msg +:+ ": " +:+ Error cause end.

Definition no_results : Response := http_Error "no results" StatusInternalServerError.

(** The stores of the map, in the order of the iteration. *)
Definition stores `{MapOrder} (w : World) : list ConfigStore :=
  omap (λ kl, w_heap w !! kl.2) (range_order (StoreMap w)).

Definition wanted (id nodeID : string) : bool :=
  (String.length id =? 0)%nat || String.eqb nodeID id.

Definition serveHelp : Response :=
  reply StatusOK "text/html"
    ("<table border='1' cellpadding='8'>" +:+
     String.concat "" (map (λ route,
       if (0 <? String.length (description route))%nat
       then "<tr><td>" +:+ description route +:+ "</td><td><a href='" +:+ path route
            +:+ "'>" +:+ path route +:+ "</a></td></tr>"
       else "") getRoutes) +:+ "</table>").

Definition serveConfigDump `{MapOrder} (w : World) (r : Request) : Response :=
  let id := FormGet r "id" in
  match List.filter (λ c, wanted id (ID c)) (map cs_Config (stores w)) with
  | [] => no_results
  | results => write_json (PConfigs results)
  end.

Definition serveConfigEndpoints `{MapOrder} (w : World) (r : Request) : Response :=
  let id := FormGet r "id" in
  match map (λ cs, mkEndpointsResults (ID (cs_Config cs)) (Version cs)
                     (Store.GetLastEndpoints cs))
          (List.filter (λ cs, wanted id (ID (cs_Config cs))) (stores w)) with
  | [] => no_results
  | results => write_json (PEndpoints results)
  end.

Definition serveStatus (w : World) (r : Request) : Response :=
  let id := FormGet r "id" in
  match map (λ nodeID, mkStatusResponce nodeID (GetSnapshot (w_cache w) nodeID))
          (List.filter (wanted id) (GetStatusKeys (w_cache w))) with
  | [] => no_results
  | results => write_json (PStatus results)
  end.

Definition serveZone (r : Request) : Response :=
  match r_FormError r with
  | Some e => http_Error (Error e) StatusInternalServerError
  | None => reply StatusOK ""
              (Api.GetZoneByPodName app getPod getNode (FormGet r "namespace")
                 (FormGet r "pod"))
  end.

(** An error of the generation is logged, and nothing is written. *)
Definition serveCerts (now : Z) (rnd : nat) (r : Request) : Response :=
  let name := FormGet r "name" in
  let duration := FormGet r "duration" in
  if (String.length name =? 0)%nat then http_Error "no name" StatusBadRequest
  else if (String.length duration =? 0)%nat
  then http_Error "no duration" StatusBadRequest
  else match ParseDuration duration with
       | inl certDuration =>
           reply StatusOK "text/plain"
             (match Certs.NewCertificate ca [name] certDuration now rnd with
              | Ok (_, crtBytes, _, keyBytes) => crtBytes +:+ keyBytes
              | _ => ""
              end)
       | inr e => http_Error (Error (Wrapped e "error in parsing duration")) StatusBadRequest
       end.

Definition serveVersion : Response := write_json (PVersion version).

(** The response of a handler; none of them changes the state. *)
Definition run_handler `{MapOrder} (now : Z) (rnd : nat) (w : World) (h : Handler)
    (r : Request) : Response :=
  match h with
  | handlerHelp => serveHelp
  | handlerReady => reply StatusOK "" "ready"
  | handlerHealthz => reply StatusOK "" "LIVE"
  | handlerStatus => serveStatus w r
  | handlerConfigDump => serveConfigDump w r
  | handlerConfigEndpoints => serveConfigEndpoints w r
  | handlerZone => serveZone r
  | handlerVersion => serveVersion
  | handlerCerts => serveCerts now rnd r
  | _ => external h r
  end.

(** [mux.ServeHTTP]. *)
Definition ServeHTTP `{MapOrder} (now : Z) (rnd : nat) (w : World)
    (mux : list (string * Handler)) (r : Request) : Response :=
  match dispatch mux r with
  | DHandler h => run_handler now rnd w h r
  | DRedirect l => mkResponse StatusMovedPermanently "" "" l ""
  | DNotFound => http_Error "404 page not found" StatusNotFound
  end.

(** [auth]: only the paths with the prefix ask for credentials. *)
Definition unauthorized : Response :=
  mkResponse StatusUnauthorized ""
    ("Basic realm=" +:+ String "034" (basicRealm +:+ String "034" "")) "" "Unauthorised".

Definition authorized (r : Request) : bool :=
  match r_BasicAuth r with
  | Some (user, pass) =>
      String.eqb user (WebAdminUser app) && String.eqb pass (WebAdminPassword app)
  | None => false
  end.

Definition auth (next : Request → Response) (r : Request) : Response :=
  if GoStrings.HasPrefix (r_Path r) adminPrefix && negb (authorized r)
  then unauthorized else next r.

(** The two servers: [Start] serves plain HTTP, [StartTLS] everything. *)
Definition serve `{MapOrder} (now : Z) (rnd : nat) (w : World) (onlyHTTPShema : bool)
    (r : Request) : Response :=
  auth (ServeHTTP now rnd w (GetHandler onlyHTTPShema)) r.

End server.
End Web.
