(* ===== verification/Samples.v ===== *)
(** * Concrete instances

    Small instances of the interfaces the development leaves open: the codecs,
    the certificate library, the snapshot cache, the parser and the runtime.
    They satisfy the laws the theorems assume, so the theorems can be evaluated
    on concrete inputs. *)

From stdpp Require Import options.
From stdpp Require Import countable.
From S2P Require Import Prelude.
From S2P Require Import GoStd.
From S2P Require Import GoSlice.
From S2P Require Import Envoy.
From S2P Require Import AppConfig.
From S2P Require Import Resources.
From S2P Require Import Config.
From S2P Require Import Api.
From S2P Require Import Certs.
From S2P Require Import Utils.
From Stdlib Require Import ZArith.

Module Samples.

(** ** A wire format for countable types *)

Fixpoint pos_str (p : positive) : string :=
  match p with
  | xH => ""
  | xO p => String "0" (pos_str p)
  | xI p => String "1" (pos_str p)
  end.

Fixpoint str_pos (s : string) : positive :=
  match s with
  | EmptyString => xH
  | String c s => if Ascii.eqb c "0" then xO (str_pos s) else xI (str_pos s)
  end.

Lemma str_pos_str p : str_pos (pos_str p) = p.
Proof. induction p; simpl; congruence. Qed.

Definition to_wire `{Countable A} (x : A) : string := pos_str (encode x).
Definition of_wire `{Countable A} (s : string) : option A := decode (str_pos s).

Lemma of_to_wire `{Countable A} (x : A) : of_wire (to_wire x) = Some x.
Proof. unfold of_wire, to_wire. rewrite str_pos_str. apply decode_encode. Qed.

(** ** Messages on the wire *)

#[export] Instance entry_eq_dec : EqDecision WeightedClusterEntry.
Proof. solve_decision. Defined.
#[export] Instance weighted_eq_dec : EqDecision WeightedCluster.
Proof. solve_decision. Defined.
#[export] Instance route_eq_dec : EqDecision Route.
Proof. solve_decision. Defined.
#[export] Instance vhost_eq_dec : EqDecision VirtualHost.
Proof. solve_decision. Defined.
#[export] Instance rc_eq_dec : EqDecision RouteConfiguration.
Proof. solve_decision. Defined.
#[export] Instance hcm_eq_dec : EqDecision HttpConnectionManager.
Proof. solve_decision. Defined.
#[export] Instance tls_eq_dec : EqDecision DownstreamTlsContext.
Proof. solve_decision. Defined.
#[export] Instance pkix_eq_dec : EqDecision PkixName.
Proof. solve_decision. Defined.
#[export] Instance usage_eq_dec : EqDecision KeyUsage.
Proof. solve_decision. Defined.
#[export] Instance ext_usage_eq_dec : EqDecision ExtKeyUsage.
Proof. solve_decision. Defined.
#[export] Instance template_eq_dec : EqDecision CertTemplate.
Proof. solve_decision. Defined.

#[export] Instance entry_countable : Countable WeightedClusterEntry.
Proof.
  by refine (inj_countable' (λ e, (wce_Name e, wce_Weight e, wce_rest e))
    (λ t, mkWeightedClusterEntry t.1.1 t.1.2 t.2) _); intros [].
Defined.
#[export] Instance weighted_countable : Countable WeightedCluster.
Proof.
  by refine (inj_countable' (λ e, (wc_Clusters e, wc_rest e))
    (λ t, mkWeightedCluster t.1 t.2) _); intros [].
Defined.
#[export] Instance route_countable : Countable Route.
Proof.
  by refine (inj_countable' (λ e, (rt_WeightedClusters e, rt_rest e))
    (λ t, mkRoute t.1 t.2) _); intros [].
Defined.
#[export] Instance vhost_countable : Countable VirtualHost.
Proof.
  by refine (inj_countable' (λ e, (vh_Routes e, vh_rest e))
    (λ t, mkVirtualHost t.1 t.2) _); intros [].
Defined.
#[export] Instance rc_countable : Countable RouteConfiguration.
Proof.
  by refine (inj_countable' (λ e, (rc_VirtualHosts e, rc_rest e))
    (λ t, mkRouteConfiguration t.1 t.2) _); intros [].
Defined.
#[export] Instance hcm_countable : Countable HttpConnectionManager.
Proof.
  by refine (inj_countable' (λ e, (hcm_RouteConfig e, hcm_rest e))
    (λ t, mkHCM t.1 t.2) _); intros [].
Defined.
#[export] Instance tls_countable : Countable DownstreamTlsContext.
Proof.
  by refine (inj_countable' (λ e, (tls_RequireClientCertificate e, tls_rest e))
    (λ t, mkDownstreamTlsContext t.1 t.2) _); intros [].
Defined.
#[export] Instance pkix_countable : Countable PkixName.
Proof.
  by refine (inj_countable'
    (λ e, ((Country e, Organization e), (OrganizationalUnit e, CommonName e)))
    (λ '((c, o), (u, n)), mkPkixName c o u n) _); intros [].
Defined.
#[export] Instance usage_countable : Countable KeyUsage.
Proof.
  by refine (inj_countable'
    (λ u, match u with KeyUsageCertSign => 0 | KeyUsageCRLSign => 1 | _ => 2 end)
    (λ n, match n with 0 => KeyUsageCertSign | 1 => KeyUsageCRLSign
                     | _ => KeyUsageDigitalSignature end) _); intros [].
Defined.
#[export] Instance ext_usage_countable : Countable ExtKeyUsage.
Proof.
  by refine (inj_countable'
    (λ u, match u with ExtKeyUsageServerAuth => true | _ => false end)
    (λ b : bool, if b then ExtKeyUsageServerAuth else ExtKeyUsageClientAuth) _); intros [].
Defined.
#[export] Instance template_countable : Countable CertTemplate.
Proof.
  by refine (inj_countable'
    (λ e, (Subject e, ((DNSNames e, (SerialNumber e, (NotBefore e, NotAfter e))),
           ((t_KeyUsage e, t_ExtKeyUsage e), ((BasicConstraintsValid e, IsCA e),
            (MaxPathLen e, MaxPathLenZero e))))))
    (λ '(b, ((c, (a, (d, e))), ((f, g), ((h, i), (j, k))))),
       mkCertTemplate a b c d e f g h i j k) _); intros [].
Defined.

(** ** Codec

    A YAML list of strings; an endpoint is written [cluster@ip], any other
    resource by its name. *)

Definition read_or {A} (o : option A) : res A :=
  match o with Some a => Ok a | None => Err (New "bad message") end.

Definition endpoint_at (ip : string) : LocalityLbEndpoints :=
  mkLocalityLbEndpoints (Some (mkLocality "z")) 0
    [mkLbEndpoint ∅ (Some (mkEndpoint None (Some (mkSocketAddress TCP ip 80))))].

Definition decode_cla (s : string)
  : res (ClusterLoadAssignment (list LocalityLbEndpoints)) :=
  match GoStrings.Split s "@" with
  | c :: ips => Ok (mkCLA c (map endpoint_at ips))
  | [] => Err (New "bad endpoint")
  end.

Definition sample_rc (name : string) : RouteConfiguration :=
  mkRouteConfiguration
    [mkVirtualHost
       [mkRoute (Some (mkWeightedCluster [mkWeightedClusterEntry name (Some 1%N) []] []))
          []] []] [("name", name)].

Definition sample_listener (name : string) : Listener :=
  mkListener
    [mkFilterChain
       [mkFilter wellknown_HTTPConnectionManager
          (Some (mkAny "hcm" (to_wire (mkHCM (Some (sample_rc name)) [])))) []]
       (Some (mkTransportSocket wellknown_TransportSocketTLS
          (Some (mkAny "tls" (to_wire (mkDownstreamTlsContext (Some true) [])))) [])) []]
    [("name", name)].

Definition codec : Codec := {|
  ConvertYAMLtoJSON := id;
  json_Marshal := λ v, match v with
    | IString s => Ok s
    | IList l => Ok (String.concat ","
        (map (λ x, match x with IString s => s | _ => "?" end) l))
    | _ => Err (New "unsupported") end;
  json_Unmarshal_list := λ s, Ok (map IString (GoStrings.Split s ","));
  GetJSONfromYAML := λ v, match v with IString s => Ok s | _ => Err (New "not a string") end;
  protojson_Cluster := λ s,
    if String.eqb s "?" then Err (New "bad cluster") else Ok (mkCluster s []);
  protojson_RouteConfiguration := λ s, Ok (sample_rc s);
  protojson_ClusterLoadAssignment := decode_cla;
  protojson_Listener := λ s, Ok (sample_listener s);
  protojson_Secret := λ s, Ok (mkSecret s (Secret_Other []));
  protojson_ValidationContext := λ s, Ok (mkValidationContext None [("match", s)]);
  UnmarshalTo_HCM := λ a, read_or (a ≫= λ a, of_wire (Any_Value a));
  anypb_New_HCM := λ m, Ok (mkAny "hcm" (to_wire m));
  UnmarshalTo_TLS := λ a, read_or (a ≫= λ a, of_wire (Any_Value a));
  anypb_New_TLS := λ m, Ok (mkAny "tls" (to_wire m)) |}.

Lemma codec_laws : @CodecLaws codec.
Proof.
  constructor; intros m a [= <-]; exact (f_equal read_or (of_to_wire m)).
Qed.

(** ** Certificates: keys are numbers, a PEM block is its label and its bytes *)

Fixpoint after_colon (s : string) : option string :=
  match s with
  | EmptyString => None
  | String c s' => if Ascii.eqb c ":" then Some s' else after_colon s'
  end.

Definition crypto : Crypto := {|
  PrivateKey := nat;
  PublicKey := nat;
  Public := λ p, p;
  Certificate := CertTemplate * nat * nat * PkixName;
  cert_Template := λ c, c.1.1.1;
  cert_PublicKey := λ c, c.1.1.2;
  cert_SignedBy := λ c, c.1.2;
  cert_Issuer := λ c, c.2;
  GenerateKey := λ rnd, Ok rnd;
  CreateCertificate := λ t parent pub priv, Ok (to_wire (x509_encoded t, pub, priv, Subject parent));
  ParseCertificate := λ s, read_or (of_wire s);
  MarshalPKCS8PrivateKey := λ p, Ok (to_wire p);
  ParsePKCS8PrivateKey := λ s,
    if String.eqb s "ec" then Ok None else Some <$> read_or (of_wire s);
  pem_Encode := λ label bytes, label +:+ ":" +:+ bytes;
  pem_Decode := after_colon |}.

Lemma crypto_laws : @CryptoLaws crypto.
Proof.
  constructor. intros t p pub priv bytes c [= <-] Hc.
  assert (read_or (of_wire (to_wire (x509_encoded t, pub, priv, Subject p)))
    = Ok (x509_encoded t, pub, priv, Subject p)) as Hw
    by exact (f_equal read_or (of_to_wire (x509_encoded t, pub, priv, Subject p))).
  pose proof (eq_trans (eq_sym Hw) Hc) as Hc'. by injection Hc' as <-.
Qed.

Lemma created_parses t p pub priv :
  is_ok (b ← @CreateCertificate crypto t p pub priv; @ParseCertificate crypto b) = true.
Proof.
  pose proof (f_equal (λ o, is_ok (read_or o))
    (of_to_wire (x509_encoded t, pub, priv, Subject p))) as Hw. exact Hw.
Qed.

Lemma crypto_codecs : @CryptoCodecs crypto.
Proof.
  constructor; [by intros label bytes [-> | ->]|]. intros p bytes [= <-].
  unfold ParsePKCS8PrivateKey, crypto. rewrite (of_to_wire (A := nat) p).
  assert (to_wire (A := nat) p =? "ec" = false) as -> by
    (unfold to_wire; by destruct (encode (A := nat) p)).
  done.
Qed.

Definition cert_of (b : string) : res (@Certificate crypto) :=
  read_or (of_wire (A := CertTemplate * nat * nat * PkixName) b).
Definition key_of (kb : string) : res (@PrivateKey crypto) := read_or (of_wire (A := nat) kb).

Definition no_pem : error := New "tls: failed to find any PEM data".

Definition crypto_tls : @CryptoTls crypto := {|
  X509KeyPair := λ certPEM keyPEM,
    match after_colon certPEM, after_colon keyPEM with
    | Some b, Some kb => c ← cert_of b; k ← key_of kb; Ok (c, k)
    | _, _ => Err no_pem
    end;
  AppendCertsFromPEM := λ pem,
    match cert_of <$> after_colon pem with Some (Ok c) => [c] | _ => [] end |}.

Lemma crypto_tls_laws : @CryptoTlsLaws crypto crypto_tls.
Proof.
  constructor.
  - intros b c kb k Hc Hk _. change (cert_of b = Ok c) in Hc.
    assert (key_of kb = Ok k) as Hk'
      by (injection Hk as <-; exact (f_equal read_or (of_to_wire (A := nat) k))).
    change ((c' ← cert_of b; k' ← key_of kb; Ok (c', k')) = Ok (c, k)). by rewrite Hc, Hk'.
  - intros b c Hc. change (cert_of b = Ok c) in Hc.
    change (match cert_of b with Ok c => [c] | _ => [] end = [c]). by rewrite Hc.
Qed.

Lemma read_or_no_crash {A} (o : option A) why : read_or o ≠ Crash why.
Proof. by destruct o. Qed.

Lemma parsers_no_crash b why :
  @ParseCertificate crypto b ≠ Crash why ∧ @ParsePKCS8PrivateKey crypto b ≠ Crash why.
Proof.
  split; [apply read_or_no_crash|]. unfold ParsePKCS8PrivateKey, crypto.
  destruct (b =? "ec"); [done|]. by destruct (of_wire (A := nat) b).
Qed.

(** ** The snapshot cache: a map *)

Definition xds : XdsCache := {|
  Snapshot := string * SnapshotResources;
  NewSnapshot := λ v r, Ok (v, r);
  GetVersion := fst;
  SnapshotCache := gmap string (string * SnapshotResources);
  SetSnapshot := λ id s c, (<[id := s]> c, None);
  GetSnapshot := λ c id, c !! id;
  ClearSnapshot := λ id c, delete id c;
  GetStatusKeys := λ c, (map_to_list c).*1 |}.

Lemma xds_laws : @XdsCacheLaws xds.
Proof.
  constructor; simpl.
  - by intros v r s [= <-].
  - intros id s c c' [= <-]. by rewrite lookup_insert_eq.
  - intros id s c c' e [= <- <-]. left. by rewrite lookup_insert_eq.
  - intros id id' s c c' e [= <- <-] ?. by rewrite lookup_insert_ne.
  - intros. by rewrite lookup_delete_eq.
  - intros. by rewrite lookup_delete_ne.
Qed.

(** ** Configurations: the text [id;service;endpoint;cluster]

    The last two parts can be empty; the cluster "?" does not decode.  The service
    "pods" stands for a selector. *)

Definition part (s : string) : list iface := if String.eqb s "" then [] else [IString s].

Definition kitem (cluster service : string) : KubernetesType :=
  if String.eqb service "pods"
  then mkKubernetesType cluster "" 80 0 0 (Some {["app" := "web"]}) ""
  else mkKubernetesType cluster "" 80 0 0 None service.

Definition sample_config (id service : string) (eps cls : list iface) (base : ConfigType)
  : ConfigType :=
  mkConfigType id (Name base) (UseVersionLabel base) (VersionLabelKey base)
    (VersionLabel base) (ConfigMapName base) (ConfigMapNamespace base)
    (ConfigMapAnnotations base) [kitem "web" service] eps
    (Routes base) cls (Listeners base) (Secrets base) (Validation base)
    (clusters base) (routes base) (listeners base) (secrets base).

Definition parser : ConfigParser := {|
  Template := string;
  template_Parse := λ _ text, if String.eqb text "{{" then Err (New "unclosed action") else Ok text;
  ExecuteTemplate := λ t _, Ok t;
  yaml_Unmarshal_ConfigType := λ text base,
    match GoStrings.Split text ";" with
    | [id; service; ep; cl] => Ok (sample_config id service (part ep) (part cl) base)
    | _ => Err (New "yaml")
    end |}.

(** ** The cluster *)

Definition no_kube : KubeCache :=
  mkKubeCache (λ _, Ok []) (λ _ _, Ok None) (λ _, Err (New "not found")) (Ok []) (Ok []).

Definition service_with (name : string) (ips : list string) : K8sEndpoints :=
  mkK8sEndpoints name ∅ [mkEndpointSubset (map (λ ip, mkEndpointAddress ip None None) ips)].

(** A cluster with the service [web] at these addresses. *)
Definition kube_web (ips : list string) : KubeCache :=
  mkKubeCache (λ _, Ok []) (λ _ _, Ok None) (λ _, Err (New "not found"))
    (Ok [service_with "web" ips]) (Ok []).

(** A cluster where the selector finds ready pods at these addresses. *)
Definition kube_pods (ips : list string) : KubeCache :=
  mkKubeCache
    (λ _, Ok (map (λ ip, mkPod ("web-" +:+ ip) "ns" None None "node-1" ip "Running"
                           [mkPodCondition "Ready" "True"]) ips))
    (λ _ _, Ok None) (λ _, Err (New "not found")) (Ok []) (Ok []).

Definition app : AppConfig.Type_ := AppConfig.config (λ _, "") "v1".

(** Other choices of the ConfigMap names, the ConfigMap label, the certificate
    files and the validation switch. *)
Definition app_with (names labels crt key : string) (noval : bool) : AppConfig.Type_ :=
  let a := app in
  AppConfig.mkType (AppConfig.GracePeriod a) (AppConfig.LogLevel a) (AppConfig.LogPretty a)
    (AppConfig.LogAccess a) (AppConfig.LogPath a) (AppConfig.LogReportCaller a)
    (AppConfig.ConfigFile a) labels names (AppConfig.KubeConfigFile a)
    (AppConfig.WatchNamespaced a) (AppConfig.LeaderElection a) (AppConfig.PodName a)
    (AppConfig.Namespace a) (AppConfig.GrpcAddress a) (AppConfig.WebHTTPAddress a)
    (AppConfig.WebHTTPSAddress a) (AppConfig.NodeZoneLabel a)
    (AppConfig.ConfigDrainPeriod a) (AppConfig.EndpointCheckPeriod a)
    (AppConfig.SentryDSN a) (AppConfig.SSLName a) crt key noval
    (AppConfig.SSLRotationPeriod a) (AppConfig.WebAdminUser a)
    (AppConfig.WebAdminPassword a).

(** A CA that signs with key 7. *)
Definition ca : @Certs.CA crypto :=
  @Certs.mkCA crypto (Certs.rootTemplate 0, 7, 7, Subject (Certs.rootTemplate 0)) "root" 7.

(** A configuration for the node [id], with the service [web]. *)
Definition web_config (id : string) (eps : list iface) : ConfigType :=
  sample_config id "web" eps [] Config.emptyConfig.

Definition uuids (n : nat) : string := "v" +:+ pretty n.

#[export] Instance uuids_inj : Inj (=) (=) uuids.
Proof. intros x y E. unfold uuids in E. simpl in E. injection E as E. by apply (inj pretty). Qed.

(** Another order of iteration: the standard one reversed. *)
Definition map_order_rev : MapOrder :=
  {| range_order := λ V m, reverse (map_to_list m);
     range_perm := λ V m, reverse_Permutation _ |}.

End Samples.
