(* ===== verification/ConfigTheorems.v ===== *)
(** * pkg/config and pkg/resources: theorems

    Decoding, the cluster weights set by annotations and the removal of
    client-certificate requirements, up to what [SaveResources] leaves in a
    configuration. *)

From stdpp Require Import options.
From S2P Require Import Prelude.
From S2P Require Import GoStd.
From S2P Require Import GoSlice.
From S2P Require Import Envoy.
From S2P Require Import AppConfig.
From S2P Require Import Resources.
From S2P Require Import Config.
From S2P Require Import Samples.
From Stdlib Require Import ZArith.

Module ConfigTheorems.

Import AppConfig Config.

(** ** Specification *)

(** A route configuration whose weights were set, and nothing else. *)
Definition rc_weighted (c : ConfigType) (r r' : RouteConfiguration) : Prop :=
  erase r' = erase r ∧ Forall2 (entry_weighted c) (entries r) (entries r').

Definition opt_rc_weighted (c : ConfigType) (o o' : option RouteConfiguration) : Prop :=
  match o, o' with
  | Some r, Some r' => rc_weighted c r r'
  | None, None => True
  | _, _ => False
  end.

Definition route_weighted (c : ConfigType) (r r' : Resource) : Prop :=
  match r, r' with RRoute a, RRoute b => rc_weighted c a b | _, _ => False end.

Section codec.
Context `{Codec}.

(** A filter whose inline routes were weighted: what Envoy decodes from the new
    one against what it decodes from the old one. *)
Definition filter_weighted (c : ConfigType) (f f' : Filter) : Prop :=
  if String.eqb (f_Name f) wellknown_HTTPConnectionManager
  then f_Name f' = f_Name f ∧ f_rest f' = f_rest f ∧
       ∃ m m', UnmarshalTo_HCM (f_TypedConfig f) = Ok m ∧
               UnmarshalTo_HCM (f_TypedConfig f') = Ok m' ∧
               hcm_rest m' = hcm_rest m ∧
               opt_rc_weighted c (hcm_RouteConfig m) (hcm_RouteConfig m')
  else f' = f.

Definition chain_weighted (c : ConfigType) (fc fc' : FilterChain) : Prop :=
  fc_TransportSocket fc' = fc_TransportSocket fc ∧ fc_rest fc' = fc_rest fc ∧
  Forall2 (filter_weighted c) (fc_Filters fc) (fc_Filters fc').

Definition listener_weighted (c : ConfigType) (r r' : Resource) : Prop :=
  match r, r' with
  | RListener l, RListener l' =>
      l_rest l' = l_rest l ∧
      Forall2 (chain_weighted c) (l_FilterChains l) (l_FilterChains l')
  | _, _ => False
  end.

(** A TLS context that differs at most in that it no longer demands a client
    certificate. *)
Definition context_opened (t t' : DownstreamTlsContext) : Prop :=
  tls_rest t' = tls_rest t ∧
  tls_RequireClientCertificate t' = (λ _, false) <$> tls_RequireClientCertificate t.

Definition socket_opened (s s' : TransportSocket) : Prop :=
  if String.eqb (ts_Name s) wellknown_TransportSocketTLS
  then ts_Name s' = ts_Name s ∧ ts_rest s' = ts_rest s ∧
       ∃ t t', UnmarshalTo_TLS (ts_TypedConfig s) = Ok t ∧
               UnmarshalTo_TLS (ts_TypedConfig s') = Ok t' ∧ context_opened t t'
  else s' = s.

Definition chain_opened (fc fc' : FilterChain) : Prop :=
  fc_Filters fc' = fc_Filters fc ∧ fc_rest fc' = fc_rest fc ∧
  match fc_TransportSocket fc, fc_TransportSocket fc' with
  | Some s, Some s' => socket_opened s s'
  | None, None => True
  | _, _ => False
  end.

Definition listener_opened (r r' : Resource) : Prop :=
  match r, r' with
  | RListener l, RListener l' =>
      l_rest l' = l_rest l ∧ Forall2 chain_opened (l_FilterChains l) (l_FilterChains l')
  | _, _ => False
  end.

(** No TLS socket of the listener demands a client certificate. *)
Definition no_client_cert (r : Resource) : Prop :=
  match r with
  | RListener l => ∀ fc s t, fc ∈ l_FilterChains l → fc_TransportSocket fc = Some s →
      ts_Name s = wellknown_TransportSocketTLS → UnmarshalTo_TLS (ts_TypedConfig s) = Ok t →
      tls_RequireClientCertificate t ≠ Some true
  | _ => True
  end.

(** ** Lemmas *)

Lemma opt_rc_weighted_mutate c o o' :
  mutateWeightedRouteConfiguration c o = Ok o' → opt_rc_weighted c o o'.
Proof.
  intros E. pose proof (mutate_rc_shape _ _ _ E) as Hs.
  destruct o as [r|], o' as [r'|]; simpl.
  - by apply mutate_rc_Ok.
  - by destruct (proj1 Hs (mk_is_Some _ _ eq_refl)).
  - by destruct (proj2 Hs (mk_is_Some _ _ eq_refl)).
  - done.
Qed.

Lemma mutateWeightedFilter_Ok `{!CodecLaws} c f f' :
  mutateWeightedFilter c f = Ok f' → filter_weighted c f f'.
Proof.
  unfold mutateWeightedFilter, filter_weighted.
  destruct (f_Name f =? _); [|by intros [= <-]].
  intros E. ok_step E as m Hm. ok_step E as rc Hrc. ok_step E as a Ha. injection E as <-. simpl.
  split_and!; [done..|].
  exists m, (mkHCM rc (hcm_rest m)). split_and!; [done|by apply anypb_roundtrip_HCM|done|].
  by apply opt_rc_weighted_mutate.
Qed.

Lemma mapM_res_Forall2 {A B} (f : A → res B) (R : A → B → Prop) l k :
  (∀ x y, f x = Ok y → R x y) → mapM f l = Ok k → Forall2 R l k.
Proof. intros Hf E%mapM_res_Ok. by eapply Forall2_impl. Qed.

Lemma mutateWeightedListeners_Ok `{!CodecLaws} c ls ls' :
  mutateWeightedRoutesInListeners c ls = Ok ls' → Forall2 (listener_weighted c) ls ls'.
Proof.
  apply mapM_res_Forall2. intros [|r|e|l|s] y; try done. rewrite bind_Ok.
  intros (fcs & E & [= <-]). simpl. split; [done|]. revert E. apply mapM_res_Forall2.
  intros fc fc'. unfold mutateWeightedFilterChain. rewrite bind_Ok.
  intros (fs & E & [= <-]). split_and!; [done..|]. revert E. apply mapM_res_Forall2.
  intros f f'. apply mutateWeightedFilter_Ok.
Qed.

Lemma mutateWeightedRoutes_Ok c rs rs' :
  mutateWeightedRoutes c rs = Ok rs' → Forall2 (route_weighted c) rs rs'.
Proof.
  apply mapM_res_Forall2. intros [|r|e|l|s] y; try done. rewrite bind_Ok.
  intros (o & E%wrap_Ok & [= <-]). apply opt_rc_weighted_mutate in E.
  by destruct o as [r'|].
Qed.

Lemma filterTransportSocket_Ok `{!CodecLaws} s s' :
  filterTransportSocket s = Ok s' → socket_opened s s'.
Proof.
  unfold filterTransportSocket, socket_opened.
  destruct (ts_Name s =? _); [|by intros [= <-]].
  intros E. ok_step E as t Ht. ok_step E as a Ha. injection E as <-. simpl. split_and!; [done..|].
  eexists t, _. split_and!; [done|by apply anypb_roundtrip_TLS|done].
Qed.

Lemma filterCertificates_Ok `{!CodecLaws} ls ls' :
  filterCertificates ls = Ok ls' → Forall2 listener_opened ls ls'.
Proof.
  apply mapM_res_Forall2. intros [|r|e|l|s] y; try done. rewrite bind_Ok.
  intros (fcs & E & [= <-]). simpl. split; [done|]. revert E. apply mapM_res_Forall2.
  intros fc fc'. unfold filterFilterChain, chain_opened.
  destruct (fc_TransportSocket fc) as [s|] eqn:Es; [|intros [= <-]; by rewrite Es].
  rewrite bind_Ok. intros (s' & E & [= <-]). simpl.
  split_and!; [done..|by apply filterTransportSocket_Ok].
Qed.

Lemma listener_opened_no_cert r r' : listener_opened r r' → no_client_cert r'.
Proof.
  destruct r as [|?|?|l|?], r' as [|?|?|l'|?]; try done. intros [_ Hf] fc' s' t Hfc Hs Hn Ht.
  apply list_elem_of_lookup in Hfc as [i Hi].
  destruct (Forall2_lookup_r _ _ _ _ _ Hf Hi) as (fc & _ & _ & _ & Hsock).
  rewrite Hs in Hsock. destruct (fc_TransportSocket fc) as [s|]; [|done].
  unfold socket_opened in Hsock.
  destruct (String.eqb_spec (ts_Name s) wellknown_TransportSocketTLS).
  - destruct Hsock as (_ & _ & t0 & t' & _ & Ht' & _ & Hc). rewrite Ht in Ht'.
    injection Ht' as <-. rewrite Hc. by destruct (tls_RequireClientCertificate t0).
  - by subst.
Qed.

(** Without weights, nothing needs to change. *)
Lemma rc_weighted_none c r : HasClusterWeights c = false → rc_weighted c r r.
Proof.
  intros Hw. split; [done|]. apply Forall_Forall2_diag, Forall_true. intros e.
  unfold entry_weighted. by rewrite HasClusterWeights_false.
Qed.

Lemma route_weighted_none c rs :
  HasClusterWeights c = false → Forall (Resources.has_type Resources.TRouteConfiguration) rs →
  Forall2 (route_weighted c) rs rs.
Proof.
  intros Hw Ht. apply Forall_Forall2_diag. eapply Forall_impl; [exact Ht|].
  intros [] ?; try done. by apply rc_weighted_none.
Qed.

(** ** Properties *)

(** C20: [SaveResources] decodes the four resource lists and changes nothing but
    the weights the annotations set and, when validation is switched off, the
    demand for client certificates: the identity and the source lists of the
    configuration stay, clusters and secrets are as decoded, routes are the
    decoded ones weighted, and then no listener demands a client certificate. *)
Theorem SaveResources_correct `{!CodecLaws} app c c' :
  SaveResources app c = Ok c' →
  ∃ cl ro li li1 se,
    Resources.YamlToResources (Clusters c) Resources.TCluster = Ok cl ∧
    Resources.YamlToResources (Routes c) Resources.TRouteConfiguration = Ok ro ∧
    Resources.YamlToResources (Listeners c) Resources.TListener = Ok li ∧
    Resources.YamlToResources (Secrets c) Resources.TSecret = Ok se ∧
    c' = with_resources cl (routes c') (listeners c') se c ∧
    Forall2 (route_weighted c) ro (routes c') ∧
    (if HasClusterWeights c then Forall2 (listener_weighted c) li li1 else li1 = li) ∧
    (if SSLDoNotUseValidation app
     then Forall2 listener_opened li1 (listeners c') ∧ Forall no_client_cert (listeners c')
     else listeners c' = li1).
Proof.
  unfold SaveResources. intros E. ok_step E as cl Hcl.
  ok_step E as ro Hro.
  ok_step E as li Hli.
  ok_step E as se Hse.
  ok_step E as [li1 ro1] H1.
  ok_step E as li2 H2. injection E as <-.
  exists cl, ro, li, li1, se. simpl. split_and!; [done..| | |].
  - destruct (HasClusterWeights c) eqn:Hw.
    + ok_step H1 as li'. rewrite bind_Ok in H1.
      destruct H1 as (ro' & Hro'%wrap_Ok & [= _ <-]). by apply mutateWeightedRoutes_Ok.
    + injection H1 as _ <-. apply route_weighted_none; [done|].
      by eapply Resources.YamlToResources_type.
  - destruct (HasClusterWeights c) eqn:Hw; [|by injection H1].
    ok_step H1 as li' Hl. ok_step H1 as ro'. injection H1 as <- _.
    by apply mutateWeightedListeners_Ok.
  - destruct (SSLDoNotUseValidation app); [|by injection H2].
    apply wrap_Ok, filterCertificates_Ok in H2. split; [done|].
    apply Forall_lookup. intros i r' Hr.
    destruct (Forall2_lookup_r _ _ _ _ _ H2 Hr) as (r & _ & Ho).
    by eapply listener_opened_no_cert.
Qed.

(** C21: applying the annotated weights to routes succeeds exactly when every
    resource is a route configuration and every annotation looked up is a
    decimal number of at most 64 bits; it then changes weights only, and
    applying it again changes nothing. *)
Theorem mutateWeightedRoutes_correct c rs :
  ((∃ rs', mutateWeightedRoutes c rs = Ok rs') ↔
   ∀ r, r ∈ rs → ∃ a, r = RRoute a ∧
     ∀ e w, e ∈ entries a → annotation c (wce_Name e) = Some w →
            ∃ n, GoStrconv.ParseUint w = Ok n) ∧
  (∀ rs', mutateWeightedRoutes c rs = Ok rs' →
     Forall2 (route_weighted c) rs rs' ∧ mutateWeightedRoutes c rs' = Ok rs').
Proof.
  split.
  - unfold mutateWeightedRoutes. rewrite mapM_res_is_Ok.
    assert (∀ r, (∃ y, (match r with
      | RRoute r0 => r' ← wrap "error mutateWeightedRouteConfiguration"
                            (mutateWeightedRouteConfiguration c (Some r0));
                     Ok (RRoute (default r0 r'))
      | _ => Err errUnknownClass end) = Ok y) ↔ ∃ a, r = RRoute a ∧
        ∀ e w, e ∈ entries a → annotation c (wce_Name e) = Some w →
               ∃ n, GoStrconv.ParseUint w = Ok n) as Hr; [|by setoid_rewrite Hr].
    intros [|r|e|l|s]; [split; [by intros [? ?]|by intros (? & ? & _)]| |
      split; [by intros [? ?]|by intros (? & ? & _)]..].
    rewrite bind_ret_is_Ok. setoid_rewrite wrap_Ok. rewrite mutate_rc_is_Ok.
    split; [by eauto|]. by intros (a & [= ->] & Ha).
  - intros rs' E. split; [by apply mutateWeightedRoutes_Ok|]. revert E.
    apply mapM_res_again. intros [|r|e|l|s] y; try done. rewrite bind_Ok.
    intros (o & E%wrap_Ok & [= <-]). pose proof (mutate_rc_again _ _ _ E) as Ha.
    apply opt_rc_weighted_mutate in E. destruct o as [r'|]; [|done]. simpl default.
    by rewrite Ha.
Qed.

(** the annotated weights reach the routes inside listeners: what Envoy
    decodes from every HTTP connection manager has the weights and nothing else
    changed, and every other filter, chain and socket is untouched. *)
Theorem mutateWeightedRoutesInListeners_correct `{!CodecLaws} c ls ls' :
  mutateWeightedRoutesInListeners c ls = Ok ls' → Forall2 (listener_weighted c) ls ls'.
Proof. apply mutateWeightedListeners_Ok. Qed.


(** the weight an annotation sets is its number modulo 2^32: an annotated
    number is the weight Envoy gets exactly when it fits 32 bits, and a larger
    one is accepted and truncated. *)
Theorem annotated_weight_truncates c e n :
  annotation c (wce_Name e) = Some (GoStrconv.FormatUint n) →
  (n ≤ GoStrconv.maxUint64)%N →
  ∃ e', mutateWeightedClusterEntry c e = Ok e' ∧ wce_Name e' = wce_Name e ∧
    default 0%N (wce_Weight e') = (n `mod` 2 ^ 32)%N ∧
    (default 0%N (wce_Weight e') = n ↔ (n < 2 ^ 32)%N).
Proof.
  intros Ha Hn. pose proof (GoStrconv.ParseUint_FormatUint n Hn) as Hp.
  destruct (proj2 (mutate_entry_is_Ok c e)) as [e' He].
  { intros w Hw. rewrite Ha in Hw. injection Hw as <-. eauto. }
  exists e'. destruct (mutate_entry_Ok _ _ _ He) as [Her Hw].
  unfold entry_weighted in Hw. rewrite Ha in Hw. destruct Hw as (n' & Hn' & Hw).
  rewrite Hp in Hn'. injection Hn' as <-.
  split_and!; [done|by injection Her|done|]. rewrite Hw.
  pose proof (N.Div0.div_mod n (2 ^ 32)). split; intros Hlt.
  - rewrite <-Hlt. by apply N.mod_lt.
  - by apply N.mod_small.
Qed.

(** C36: decoding is all or nothing and in order: nothing for an empty list;
    otherwise one resource for each element of the list's JSON form, in order,
    each of the requested type. *)
Theorem YamlToResources_correct yamlObj outType rs :
  Resources.YamlToResources yamlObj outType = Ok rs →
  Forall (Resources.has_type outType) rs ∧
  ((yamlObj = [] ∧ rs = []) ∨
   ∃ jsonObj vs, json_Marshal (ConvertYAMLtoJSON (IList yamlObj)) = Ok jsonObj ∧
     json_Unmarshal_list jsonObj = Ok vs ∧
     Forall2 (λ v r, ∃ j, GetJSONfromYAML v = Ok j ∧
                          Resources.decodeResource outType j = Ok r) vs rs).
Proof.
  intros E. split; [by eapply Resources.YamlToResources_type|].
  unfold Resources.YamlToResources in E. destruct yamlObj as [|y ys]; [left; by injection E|].
  right. ok_step E as j Hj. ok_step E as vs Hvs. exists j, vs. split_and!; [done..|].
  revert E. apply mapM_res_Forall2. intros v r. rewrite bind_Ok.
  intros (t & Ht%wrap_Ok & Hr). eauto.
Qed.

End codec.
End ConfigTheorems.
