(* ===== verification/ConfigExamples.v ===== *)
(** * pkg/config and pkg/resources: the theorems at concrete inputs *)

From stdpp Require Import options.
From S2P Require Import Prelude.
From S2P Require Import GoStd.
From S2P Require Import GoSlice.
From S2P Require Import Envoy.
From S2P Require Import AppConfig.
From S2P Require Import Resources.
From S2P Require Import Config.
From S2P Require Import Samples.
From S2P Require Import ConfigTheorems.
From Stdlib Require Import ZArith.

Module ConfigExamples.

Import Samples AppConfig Config ConfigTheorems.

#[local] Existing Instances codec codec_laws.

(** ** Inputs *)

(** A configuration with a route and a listener for [web], whose weight an
    annotation sets. *)
Definition weighted (weight : string) : ConfigType :=
  mkConfigType "n" "n" false "version" "" "" ""
    {[annotationRouteClusterWeight +:+ "web" := weight]} [] [] [IString "web"] [IString "c"]
    [IString "web"] [] None [] [] [] [].

(** Validation switched off. *)
Definition app_open : Type_ := app_with "" "app=x" "" "" true.

Definition value {A} (d : A) (r : res A) : A := match r with Ok a => a | _ => d end.

Lemma value_eq {A} (d : A) r : is_ok r = true → r = Ok (value d r).
Proof. by destruct r. Qed.

Definition saved_config : ConfigType :=
  value emptyConfig (SaveResources app_open (weighted "30")).
Definition mutated_routes : list Resource :=
  value [] (mutateWeightedRoutes (weighted "30") [RRoute (sample_rc "web")]).
Definition mutated_listeners : list Resource :=
  value [] (mutateWeightedRoutesInListeners (weighted "30")
              [RListener (sample_listener "web")]).

(** ** Witnesses *)

Lemma SaveResources_correct_witness :
  Forall no_client_cert (listeners saved_config) ∧
  routes saved_config ≠ [RRoute (sample_rc "web")].
Proof.
  destruct (SaveResources_correct app_open (weighted "30") saved_config)
    as (cl & ro & li & li1 & se & _ & _ & _ & _ & _ & _ & _ & _ & H).
  - apply value_eq. vm_compute. reflexivity.
  - split; [exact H|]. vm_compute. discriminate.
Defined.

Lemma mutateWeightedRoutes_correct_witness :
  Forall2 (route_weighted (weighted "30")) [RRoute (sample_rc "web")] mutated_routes.
Proof.
  apply (mutateWeightedRoutes_correct (weighted "30") [RRoute (sample_rc "web")]).
  apply value_eq. vm_compute. reflexivity.
Defined.

Lemma mutateWeightedRoutesInListeners_correct_witness :
  Forall2 (listener_weighted (weighted "30")) [RListener (sample_listener "web")]
    mutated_listeners.
Proof.
  apply mutateWeightedRoutesInListeners_correct. apply value_eq. vm_compute. reflexivity.
Defined.


(** 2^32 is accepted as a weight, and means 0. *)
Lemma annotated_weight_truncates_witness :
  ∃ e', mutateWeightedClusterEntry (weighted "4294967296")
          (mkWeightedClusterEntry "web" (Some 1%N) []) = Ok e' ∧
        default 0%N (wce_Weight e') = 0%N.
Proof.
  destruct (annotated_weight_truncates (weighted "4294967296")
    (mkWeightedClusterEntry "web" (Some 1%N) []) 4294967296) as (e' & He & _ & Hw & _).
  - vm_compute. reflexivity.
  - vm_compute. discriminate.
  - exists e'. split; [exact He|exact Hw].
Defined.

Lemma YamlToResources_correct_witness :
  Forall (Resources.has_type Resources.TCluster)
    [RCluster (mkCluster "a" []); RCluster (mkCluster "b" [])].
Proof.
  apply (YamlToResources_correct [IString "a"; IString "b"] Resources.TCluster).
  vm_compute. reflexivity.
Defined.

End ConfigExamples.
