(* ===== verification/WebTheorems.v ===== *)
(** * pkg/web: theorems

    Which requests need credentials, what each server serves, and the handlers'
    answers on every branch. *)

From stdpp Require Import options.
From S2P Require Import Prelude.
From S2P Require Import GoStd.
From S2P Require Import GoSlice.
From S2P Require Import Envoy.
From S2P Require Import AppConfig.
From S2P Require Import Resources.
From S2P Require Import Config.
From S2P Require Import Api.
From S2P Require Import Certs.
From S2P Require Import Utils.
From S2P Require Import ConfigStore.
From S2P Require Import ConfigMapsStore.
From S2P Require Import Web.
From S2P Require Import Samples.
From Stdlib Require Import ZArith.

Module WebTheorems.

Import AppConfig Web.

(** The handlers that must not answer without credentials. *)
Definition adminHandlers : list Handler := [handlerStatus; handlerConfigDump; handlerCerts].

(** ** Dispatch *)

Lemma mux_match_Some mux p pattern h :
  mux_match mux p = Some (pattern, h) → (pattern, h) ∈ mux ∧ pattern_matches pattern p = true.
Proof.
  induction mux as [|[q g] mux IH]; simpl; [done|]. rewrite elem_of_cons.
  destruct (pattern_matches q p) eqn:Eq; [|naive_solver].
  destruct (mux_match mux p) as [[q' g']|]; [|naive_solver].
  destruct (_ <? _)%nat; naive_solver.
Qed.

Lemma dispatch_handler mux r h :
  dispatch mux r = DHandler h →
  ∃ pattern, (pattern, h) ∈ mux ∧ pattern_matches pattern (r_Path r) = true.
Proof.
  unfold dispatch. set (p := if _ : bool then _ else _).
  destruct (mux_match mux p) as [[q g]|] eqn:E; [|by repeat case_match].
  destruct (String.eqb_spec p (r_Path r)) as [Ep|]; [|done]. intros [= <-].
  apply mux_match_Some in E. rewrite Ep in E. by exists q.
Qed.

Lemma GetHandler_elem only pattern h :
  (pattern, h) ∈ GetHandler only →
  ∃ route, route ∈ getRoutes ∧ path route = pattern ∧ handler route = h ∧
    (only = true → httpShema route = true).
Proof.
  unfold GetHandler. rewrite list_elem_of_In, in_map_iff.
  intros (route & [= <- <-] & [Hin Hf]%filter_In). exists route.
  split_and!; [by apply list_elem_of_In|done|done|]. intros ->.
  revert Hf. simpl. by destruct (httpShema route).
Qed.

(** The administration handlers are registered under the prefix only. *)
Lemma admin_routes route :
  route ∈ getRoutes → handler route ∈ adminHandlers →
  GoStrings.HasSuffix (path route) "/" = false ∧
  GoStrings.HasPrefix (path route) adminPrefix = true.
Proof.
  intros Hr Hh.
  assert (forallb (λ route, negb (bool_decide (handler route ∈ adminHandlers)) ||
    (negb (GoStrings.HasSuffix (path route) "/")
     && GoStrings.HasPrefix (path route) adminPrefix)) getRoutes = true) as Hall by done.
  rewrite forallb_forall in Hall. specialize (Hall route (proj1 (list_elem_of_In _ _) Hr)).
  rewrite bool_decide_eq_true_2 in Hall by done. simpl in Hall.
  apply andb_true_iff in Hall as [?%negb_true_iff ?]. done.
Qed.

Section server.
Context `{Codec} `{Crypto} `{XdsCache}.
Variable app : Type_.
Variable ca : Certs.CA.
Variable Marshal : Payload → res string.
Variable ParseDuration : string → Z + error.
Variable getPod : string → string → res Pod.
Variable getNode : string → res Node.
Variable version : APIVersion.
Variable external : Handler → Request → Response.

(** ** Properties *)

(** C25: whatever the request and on both servers, an administration handler -
    the status, the dump of the configurations, the generation of certificates -
    answers only when the request carries the administrator's credentials;
    without them every path under the prefix is refused with a challenge. *)
Theorem auth_correct `{MapOrder} now rnd w only r :
  (GoStrings.HasPrefix (r_Path r) adminPrefix = true → authorized app r = false →
   serve app ca Marshal ParseDuration getPod getNode version external now rnd w only r
     = unauthorized) ∧
  (∀ h, dispatch (GetHandler only) r = DHandler h → h ∈ adminHandlers →
   GoStrings.HasPrefix (r_Path r) adminPrefix = true) ∧
  (authorized app r = true ↔
   r_BasicAuth r = Some (WebAdminUser app, WebAdminPassword app)).
Proof.
  split_and!.
  - unfold serve, auth. by intros -> ->.
  - intros h (pattern & Hin & Hm)%dispatch_handler Hh.
    apply GetHandler_elem in Hin as (route & Hr & <- & <- & _).
    destruct (admin_routes route Hr Hh) as [Hs Hp].
    unfold pattern_matches in Hm. rewrite Hs, orb_false_r in Hm.
    apply String.eqb_eq in Hm. by rewrite <-Hm.
  - unfold authorized. destruct (r_BasicAuth r) as [[u p]|]; [|done].
    rewrite andb_true_iff, !String.eqb_eq. split; [by intros [-> ->]|by intros [= -> ->]].
Qed.

(** the plain-HTTP server exposes the metrics and nothing else: any other
    request is refused, redirected or not found, so no handler that reads the
    configurations can be reached without TLS. *)
Theorem http_serves_metrics_only `{MapOrder} r :
  GetHandler true = [("/api/metrics", metrics_Handler)] ∧
  match dispatch (GetHandler true) r with
  | DHandler h => h = metrics_Handler ∧ r_Path r = "/api/metrics"
  | _ => True
  end.
Proof.
  split; [done|]. destruct (dispatch (GetHandler true) r) as [h| |] eqn:E; [|done..].
  apply dispatch_handler in E as (p & Hin & Hm).
  apply list_elem_of_singleton in Hin as [= -> ->]. split; [done|].
  unfold pattern_matches in Hm. rewrite orb_false_r in Hm. by apply String.eqb_eq in Hm.
Qed.

(** the dump answers with the configurations of the registered stores, all of
    them or those of the requested node, in the order of the iteration, and with
    an error when there is none. *)
Theorem config_dump_correct `{MapOrder} w r :
  ∃ results,
    serveConfigDump Marshal w r
      = (match results with [] => no_results | _ => write_json Marshal (PConfigs results) end) ∧
    ∀ c, c ∈ results ↔
      (∃ key l cs, StoreMap w !! key = Some l ∧ w_heap w !! l = Some cs ∧ cs_Config cs = c) ∧
      (FormGet r "id" = "" ∨ ID c = FormGet r "id").
Proof.
  exists (List.filter (λ c, wanted (FormGet r "id") (ID c)) (map cs_Config (stores w))).
  split; [unfold serveConfigDump; by case_match|]. intros c.
  rewrite list_elem_of_In, filter_In, in_map_iff.
  unfold wanted, stores. rewrite orb_true_iff, GoStrings.length_eqb_0, bool_decide_eq_true,
    String.eqb_eq.
  apply and_iff_compat_r. split.
  - intros (cs & <- & Hin%list_elem_of_In).
    apply list_elem_of_omap in Hin as ([key l] & Hin & Hl).
    apply elem_of_range in Hin. by exists key, l, cs.
  - intros (key & l & cs & Hk & Hl & <-). exists cs. split; [done|].
    apply list_elem_of_In, list_elem_of_omap. exists (key, l). by rewrite elem_of_range.
Qed.

(** The profiles answer everybody: their path has no credentials to check. *)
Theorem pprof_needs_no_credentials `{MapOrder} now rnd w r :
  r_Method r = "GET" → r_Path r = "/debug/pprof/cmdline" →
  serve app ca Marshal ParseDuration getPod getNode version external now rnd w false r
    = external pprof_Cmdline r.
Proof.
  intros Hm Hp. unfold serve, auth, ServeHTTP, dispatch. by rewrite Hp, Hm.
Qed.

End server.
End WebTheorems.
