(* ===== verification/ApiTheorems.v ===== *)
(** * pkg/api, pkg/certs and pkg/utils: theorems

    The lookup of services, the informer handlers and the client; the chain a
    proxy verifies, the lifetime of what it gets and the loading of a CA. *)

From stdpp Require Import options.
From S2P Require Import Prelude.
From S2P Require Import GoStd.
From S2P Require Import GoSlice.
From S2P Require Import Envoy.
From S2P Require Import AppConfig.
From S2P Require Import Resources.
From S2P Require Import Config.
From S2P Require Import Api.
From S2P Require Import Certs.
From S2P Require Import Utils.
From S2P Require Import ConfigStore.
From S2P Require Import ConfigMapsStore.
From S2P Require Import Samples.
From Stdlib Require Import ZArith.

Module ApiTheorems.

Import AppConfig Api Certs.

(** ** Lookups and events *)

(** a service is found by its exact name; one whose name ends in the canary
    suffix is found only if it carries the annotation that enables it, and
    "nothing found" means that there is no such service. *)
Theorem GetEndpoint_correct k name :
  match GetEndpoint k name with
  | Ok (Some e) => ∃ l, endpointsLister_List k = Ok l ∧ e ∈ l ∧ eps_Name e = name ∧
      (GoStrings.HasSuffix name CanarySuffix = true →
       eps_Annotations e !! AnnotationCanaryEnabled = Some "true")
  | Ok None => ∃ l, endpointsLister_List k = Ok l ∧
      ∀ e, e ∈ l → eps_Name e = name → GoStrings.HasSuffix name CanarySuffix = true ∧
           eps_Annotations e !! AnnotationCanaryEnabled ≠ Some "true"
  | _ => ∀ l, endpointsLister_List k ≠ Ok l
  end.
Proof.
  unfold GetEndpoint. destruct (endpointsLister_List k) as [l|e|w]; simpl; [|done..].
  destruct (findEndpoint name l) as [e|] eqn:E.
  - apply findEndpoint_Some in E as (Hin & Hn & Hd). exists l. split_and!; [done..|].
    unfold canary_disabled in Hd. intros Hs. rewrite Hs in Hd. simpl in Hd.
    by apply negb_false_iff, bool_decide_eq_true in Hd.
  - exists l. split; [done|]. intros e Hin Hn. eapply findEndpoint_None in E; [|done..].
    unfold canary_disabled in E. apply andb_true_iff in E as [-> E]. split; [done|].
    by apply negb_true_iff, bool_decide_eq_false in E.
Qed.

(** labelling a ConfigMap so that it becomes one of the program's does not
    load it: for every ConfigMap there are labels that select it, and the update
    that only sets them is dropped. *)
Theorem relabelled_config_not_loaded {W} (app : Type_) (cbs : Callbacks W) old (w : W) :
  ConfigMapNames app = "" →
  (1 < length (GoStrings.Split (ConfigMapLabels app) "="))%nat →
  ∃ labels, let cur := mkConfigMap (cm_Name old) (cm_Namespace old) labels
                         (cm_Annotations old) (cm_Data old) in
    ConfigMapsStore.checkConfigMapLabels app cur = Ok true ∧
    configInformer_UpdateFunc cbs (OConfigMap old) (OConfigMap cur) w = Ok w.
Proof.
  intros Hn Hl. unfold ConfigMapsStore.checkConfigMapLabels. rewrite Hn. simpl.
  destruct (GoStrings.Split (ConfigMapLabels app) "=") as [|l0 [|l1 ls]]; simpl in Hl; [lia..|].
  exists {[l0 := l1]}. simpl. rewrite lookup_singleton_eq. simpl.
  by rewrite String.eqb_refl, !bool_decide_eq_true_2.
Qed.

(** a deletion that the informer reports with anything but the object itself,
    as it does for one it missed, ends the process; with the object, the handler
    is the callback. *)
Theorem DeleteFunc_crash_iff {W} (cbs : Callbacks W) obj (w : W) :
  (∀ cm w why, invoke (OnDeleteConfig cbs) cm w ≠ Crash why) →
  (∀ pod w why, invoke (OnDeletePod cbs) pod w ≠ Crash why) →
  ((∃ why, configInformer_DeleteFunc cbs obj w = Crash why) ↔ ∀ cm, obj ≠ OConfigMap cm) ∧
  ((∃ why, podInformer_DeleteFunc cbs obj w = Crash why) ↔ ∀ pod, obj ≠ OPod pod).
Proof.
  intros Hc Hp. split; destruct obj as [pod|cm|e|ty]; simpl; split;
    solve [intros _; by eexists|by intros _ ?|by intros [why Hw]; destruct (Hc _ _ _ Hw)
          |by intros [why Hw]; destruct (Hp _ _ _ Hw)|by intros Hn; destruct (Hn _ eq_refl)].
Qed.

(** the informers watch the program's own namespace, whether or not the
    settings ask for one namespace only. *)
Theorem newClient_namespace {R S} (build : string → res R) inCluster (newFor : R → res S)
    (app : Type_) cl :
  newClient build inCluster newFor app = Ok cl → cl_factoryNamespace cl = Namespace app.
Proof.
  unfold newClient. intros E. ok_step E as rc.
  destruct (newFor rc); [|done..]. destruct (WatchNamespaced app); by injection E as <-.
Qed.

(** ** Certificates *)

Section certs.
Context `{Codec} `{Crypto}.

Lemma GenServerCert_pem names root rootKey d now rnd c pem key kpem :
  GenServerCert names root rootKey d now rnd = Ok (c, pem, key, kpem) →
  ∃ b kb, pem = pem_Encode "CERTIFICATE" b ∧ ParseCertificate b = Ok c ∧
    kpem = pem_Encode "PRIVATE KEY" kb ∧ MarshalPKCS8PrivateKey key = Ok kb.
Proof.
  unfold GenServerCert, genCert, exportPrivateKey. intros E. ok_step E as p.
  destruct names as [|name names]; [done|]. ok_step E as [c' pem'] Hc. ok_step Hc as b.
  ok_step Hc as c'' Hp. injection Hc as -> <-.
  ok_step E as kp Hk. injection E as <- <- <- <-.
  ok_step Hk as kb Hkb. injection Hk as <-. by exists b, kb.
Qed.

(** When the library's own operations succeed, so does issuing. *)
Lemma genCert_succeeds template parent pub priv :
  is_ok (b ← CreateCertificate template parent pub priv; ParseCertificate b) = true →
  ∃ c pem, genCert template parent pub priv = Ok (c, pem).
Proof.
  unfold genCert. destruct (CreateCertificate _ _ _ _) as [b| |]; [|done..]. simpl.
  destruct (ParseCertificate b) as [c| |]; [|done..]. by eexists _, _.
Qed.

Lemma issuing_succeeds :
  (∀ rnd, is_ok (GenerateKey rnd) = true) →
  (∀ t p pub priv, is_ok (b ← CreateCertificate t p pub priv; ParseCertificate b) = true) →
  (∀ p, is_ok (MarshalPKCS8PrivateKey p) = true) →
  (∀ now rnd, ∃ a b c d, GenCARoot now rnd = Ok (a, b, c, d)) ∧
  (∀ ca name names d now rnd, ∃ a b c e,
     NewCertificate ca (name :: names) d now rnd = Ok (a, b, c, e)).
Proof.
  intros Hg Hc Hm. split; intros; unfold NewCertificate, GenServerCert, GenCARoot;
    specialize (Hg rnd); destruct (GenerateKey rnd) as [p| |]; try done; simpl;
    match goal with |- context [genCert ?t ?q ?pub ?priv] =>
      destruct (genCert_succeeds t q pub priv (Hc _ _ _ _)) as (c & pem & ->) end;
    simpl; unfold exportPrivateKey; specialize (Hm p);
    destruct (MarshalPKCS8PrivateKey p); try done; simpl; by eexists _, _, _, _.
Qed.

(** loading the CA ends the process exactly when the certificate file has no
    PEM block, or the certificate parses and the key file has none; every other
    failure is an error, and [Init] reads the files only when both are named. *)
Theorem loadCAFromFiles_crash_iff app ReadFile :
  (∀ b why, ParseCertificate b ≠ Crash why) →
  (∀ b why, ParsePKCS8PrivateKey b ≠ Crash why) →
  (∃ why, loadCAFromFiles app ReadFile = Crash why) ↔
  ∃ crt, ReadFile (SSLCrt app) = Some crt ∧
    (pem_Decode crt = None ∨
     ∃ blk c key, pem_Decode crt = Some blk ∧ ParseCertificate blk = Ok c ∧
       ReadFile (SSLKey app) = Some key ∧ pem_Decode key = None).
Proof.
  intros Hc Hk. unfold loadCAFromFiles. destruct (ReadFile (SSLCrt app)) as [crt|];
    [|split; [by intros []|by intros (? & ? & _)]].
  destruct (pem_Decode crt) as [blk|] eqn:Hb; [|split; [eauto 10|by eexists]].
  specialize (Hc blk). destruct (ParseCertificate blk) as [c|e|w] eqn:Hp; simpl;
    [|split; [by intros []|intros (? & [= <-] & [?|(? & ? & ? & ? & ? & _)]); congruence]
     |by destruct (Hc w)].
  destruct (ReadFile (SSLKey app)) as [key|];
    [|split; [by intros []|intros (? & [= <-] & [?|(? & ? & ? & ? & ? & ? & _)]); congruence]].
  destruct (pem_Decode key) as [kblk|] eqn:Hkb; [|split; [|by eexists]].
  - specialize (Hk kblk). split.
    + intros [why Hw]. destruct (ParsePKCS8PrivateKey kblk) as [[]| |w]; simpl in Hw;
        [done..|by destruct (Hk w)].
    + intros (? & [= <-] & [?|(? & ? & ? & ? & ? & [= <-] & ?)]); congruence.
  - intros _. exists crt. split; [done|]. right. eauto 10.
Qed.

(** C33: a certificate issued under a generated CA verifies against that CA from
    the moment it is issued until its validity ends, as long as the CA lives, and
    not after that; both ends are those of the templates without their fractions of
    a second.  It carries the requested names, the first as its common name, and
    certifies the key that is returned with it. *)
Theorem issued_certificate_verifies `{!CryptoLaws} t0 r0 root rootPem key rootKpem
    dnsNames d t1 r1 c pem ckey ckpem t :
  GenCARoot t0 r0 = Ok (root, rootPem, key, rootKpem) →
  NewCertificate (mkCA root rootPem key) dnsNames d t1 r1 = Ok (c, pem, ckey, ckpem) →
  (t0 ≤ t1 ≤ t)%Z →
  (verifies root c t ↔
   t ≤ whole_seconds (t1 + d) ∧ t ≤ whole_seconds (t0 + CertValidityMax))%Z ∧
  cert_PublicKey c = Public ckey ∧
  DNSNames (cert_Template c) = dnsNames ∧
  head dnsNames = Some (CommonName (Subject (cert_Template c))).
Proof.
  intros (Hrt & Hrp & _)%GenCARoot_Ok Hc Ht. apply GenServerCert_Ok in Hc as
    (name & Hn & Htc & Hpc & Hsc & Hic). simpl in *.
  pose proof (whole_seconds_le (t0 - 10 * Second)). pose proof (whole_seconds_le (t1 - 10 * Second)).
  unfold verifies, in_window. rewrite Hsc, Hrp, Hic, Hrt, Htc. simpl.
  split_and!; [|done..]. split; [intros; lia|intros [Hd Hm]].
  split_and!; try done; try (unfold Second, Millisecond in *; lia); by repeat constructor.
Qed.

(** What the secrets of a node are, with the certificate they were made from. *)
Lemma NewSecrets_certificate `{!CryptoLaws} app ca now rnd dnsName v ss :
  Utils.NewSecrets app ca now rnd dnsName v = Ok ss →
  ∃ c b key kb vc,
    ss = [mkSecret (SSLName app) (Secret_TlsCertificate (pem_Encode "CERTIFICATE" b)
                                    (pem_Encode "PRIVATE KEY" kb));
          mkSecret "validation" (Secret_ValidationContext vc)] ∧
    ParseCertificate b = Ok c ∧ MarshalPKCS8PrivateKey key = Ok kb ∧
    cert_PublicKey c = Public key ∧
    cert_Template c = x509_encoded (serverTemplate now dnsName [dnsName] CertValidity) ∧
    cert_SignedBy c = Public (caKey ca) ∧
    cert_Issuer c = Subject (cert_Template (caCert ca)) ∧
    is_Some (cvc_TrustedCa vc) ∧
    (v = None ∨ SSLDoNotUseValidation app = true →
     vc = mkValidationContext (Some (caCertBytes ca)) []).
Proof.
  intros E.
  destruct (Utils.NewSecrets_shape _ _ _ _ _ _ _ E) as (crt & key & vc & Hss & Hca & Hv).
  unfold Utils.NewSecrets in E. ok_step E as [[[c crt'] k] key'] Hc. ok_step E as vc'.
  injection E as E. rewrite Hss in E. injection E as <- <- <-.
  unfold NewCertificate in Hc.
  destruct (GenServerCert_pem _ _ _ _ _ _ _ _ _ _ Hc) as (b & kb & -> & Hb & -> & Hk).
  apply GenServerCert_Ok in Hc as (name & [= <-] & Ht & Hp & Hs & Hi).
  exists c, b, k, kb, vc'. by split_and!.
Qed.

(** C34: with the default settings, the certificate that a store loads into its
    secrets is valid for more than 167 rotation periods: rotation would have to be
    late by almost a week before a proxy sees an expired certificate. *)
Theorem rotation_in_time `{!CryptoLaws} Getenv version ca now rnd cs cs' :
  Store.LoadNewSecrets (config Getenv version) ca now rnd cs = Ok cs' →
  ∃ c b key secrets,
    cs_secrets cs' = mkSecret (SSLName (config Getenv version))
                       (Secret_TlsCertificate (pem_Encode "CERTIFICATE" b) key) :: secrets ∧
    ParseCertificate b = Ok c ∧
    ∀ t, (now ≤ t ≤ now + 167 * SSLRotationPeriod (config Getenv version))%Z → in_window c t.
Proof.
  unfold Store.LoadNewSecrets. intros E. ok_step E as ss Hs. injection E as <-.
  apply NewSecrets_certificate in Hs as (c & b & key & kb & vc & -> & Hb & _ & _ & Ht & _).
  exists c, b, (pem_Encode "PRIVATE KEY" kb). eexists. split_and!; [done..|].
  intros t Hw. unfold in_window. rewrite Ht. simpl in *.
  pose proof (whole_seconds_le (now - 10 * Second)). pose proof (whole_seconds_lt (now + CertValidity)).
  unfold CertValidity, sslRotationPeriodDefault, Hour, Second, Millisecond in *. lia.
Qed.

(** C35: the secrets of a node are the server certificate, under the configured
    name, for the node's name, signed by the loaded CA and valid for
    [CertValidity], with the private key of exactly that certificate, and the
    validation context, which always trusts some CA: the loaded one unless the
    configuration names another, and exactly the loaded one, with no exception,
    when there is no validation section or validation is switched off. *)
Theorem NewSecrets_correct `{!CryptoLaws} app ca now rnd dnsName v ss :
  Utils.NewSecrets app ca now rnd dnsName v = Ok ss →
  ∃ c b key kb vc,
    ss = [mkSecret (SSLName app) (Secret_TlsCertificate (pem_Encode "CERTIFICATE" b)
                                    (pem_Encode "PRIVATE KEY" kb));
          mkSecret "validation" (Secret_ValidationContext vc)] ∧
    ParseCertificate b = Ok c ∧ MarshalPKCS8PrivateKey key = Ok kb ∧
    cert_PublicKey c = Public key ∧
    DNSNames (cert_Template c) = [dnsName] ∧
    NotBefore (cert_Template c) = whole_seconds (now - 10 * Second) ∧
    NotAfter (cert_Template c) = whole_seconds (now + CertValidity) ∧
    cert_SignedBy c = Public (caKey ca) ∧
    cert_Issuer c = Subject (cert_Template (caCert ca)) ∧
    is_Some (cvc_TrustedCa vc) ∧
    (v = None ∨ SSLDoNotUseValidation app = true →
     vc = mkValidationContext (Some (caCertBytes ca)) []).
Proof.
  intros (c & b & key & kb & vc & -> & Hb & Hk & Hp & Ht & Hs & Hi & Hca & Hv)%NewSecrets_certificate.
  exists c, b, key, kb, vc. rewrite Ht. by split_and!.
Qed.

End certs.
End ApiTheorems.
