(* ===== verification/ApiExamples.v ===== *)
(** * pkg/api, pkg/certs and pkg/utils: the theorems at concrete inputs *)

From stdpp Require Import options.
From S2P Require Import Prelude.
From S2P Require Import GoStd.
From S2P Require Import GoSlice.
From S2P Require Import Envoy.
From S2P Require Import AppConfig.
From S2P Require Import Resources.
From S2P Require Import Config.
From S2P Require Import Api.
From S2P Require Import Certs.
From S2P Require Import Utils.
From S2P Require Import ConfigStore.
From S2P Require Import ConfigMapsStore.
From S2P Require Import Samples.
From S2P Require Import ApiTheorems.
From Stdlib Require Import ZArith.

Module ApiExamples.

Import Samples AppConfig Api Certs ApiTheorems.

#[local] Existing Instances codec crypto crypto_laws.

(** ** Inputs *)

Definition no_callbacks : Callbacks nat := mkCallbacks None None None None None.
Definition plain_cm : ConfigMap := mkConfigMap "cm" "ns" ∅ None None.

(** The sample library never fails to issue. *)
Lemma sample_issues :
  (∀ now rnd, ∃ a b c d, GenCARoot now rnd = Ok (a, b, c, d)) ∧
  (∀ ca name names d now rnd, ∃ a b c e,
     NewCertificate ca (name :: names) d now rnd = Ok (a, b, c, e)).
Proof. apply issuing_succeeds; [done|exact created_parses|done]. Qed.

(** A store without clusters. *)
Definition sample_store : ConfigStore :=
  mkConfigStore "v" (sample_config "node" "web" [] [] Config.emptyConfig) ∅ None None [] false.

(** ** Witnesses *)

Lemma relabelled_config_not_loaded_witness :
  ∃ labels, ConfigMapsStore.checkConfigMapLabels app (mkConfigMap "cm" "ns" labels None None)
            = Ok true.
Proof.
  destruct (relabelled_config_not_loaded app no_callbacks plain_cm 0%nat) as (l & Hl & _).
  - reflexivity.
  - vm_compute. lia.
  - exists l. exact Hl.
Defined.

Lemma DeleteFunc_crash_iff_witness :
  ∃ why, configInformer_DeleteFunc no_callbacks (OOther "DeletedFinalStateUnknown") 0%nat
         = Crash why.
Proof.
  apply (DeleteFunc_crash_iff no_callbacks (OOther "DeletedFinalStateUnknown") 0%nat);
    discriminate.
Defined.

Lemma newClient_namespace_witness :
  ∃ cl : Api.client nat nat,
    newClient (λ _, Ok 0%nat) (Ok 1%nat) (λ r, Ok r) app = Ok cl ∧
    cl_factoryNamespace cl = "default".
Proof.
  eexists. split; [vm_compute; reflexivity|].
  apply (newClient_namespace (λ _, Ok 0%nat) (Ok 1%nat) (λ r, Ok r) app). reflexivity.
Defined.

Lemma issued_certificate_verifies_witness :
  ∃ root c : Certificate, verifies root c (Hour + 24 * Hour) ∧ ¬ verifies root c (CertValidityMax - 1).
Proof.
  destruct (proj1 sample_issues 0%Z 7%nat) as (root & pem & key & kpem & Er).
  destruct (proj2 sample_issues (mkCA root pem key) "node" [] CertValidity Hour 9%nat)
    as (c & cpem & ckey & ckpem & Ec).
  exists root, c. split.
  - apply (issued_certificate_verifies 0 7 root pem key kpem ["node"] CertValidity Hour 9
      c cpem ckey ckpem (Hour + 24 * Hour) Er Ec); vm_compute; split; discriminate.
  - intros Hv. apply (issued_certificate_verifies 0 7 root pem key kpem ["node"] CertValidity
      Hour 9 c cpem ckey ckpem (CertValidityMax - 1) Er Ec) in Hv;
      [|vm_compute; split; discriminate].
    vm_compute in Hv. destruct Hv as [Hv _]. exact (Hv eq_refl).
Defined.

Lemma rotation_in_time_witness :
  ∃ c : Certificate, in_window c (Hour + 24 * Hour).
Proof.
  destruct (Store.LoadNewSecrets (config (λ _, "") "v1") ca Hour 9 sample_store) as [cs'|e|why] eqn:E;
    [|vm_compute in E; discriminate E..].
  destruct (rotation_in_time (λ _, "") "v1" ca Hour 9 sample_store cs' E)
    as (c & b & key & secrets & _ & _ & Hw).
  exists c. apply Hw. vm_compute. split; discriminate.
Defined.

(** Two secrets for a node with a validation section, validation switched off. *)
Definition open_secrets : res (list Secret) :=
  Utils.NewSecrets (app_with "" "app=x" "" "" true) ca Hour 9 "node" (Some (IString "v")).

Lemma NewSecrets_correct_witness :
  ∃ s1, open_secrets = Ok [s1; mkSecret "validation" (Secret_ValidationContext
          (mkValidationContext (Some (caCertBytes ca)) []))].
Proof.
  unfold open_secrets. destruct (Utils.NewSecrets _ _ _ _ _ _) as [ss| |] eqn:E;
    [|vm_compute in E; discriminate..].
  destruct (NewSecrets_correct (app_with "" "app=x" "" "" true) ca Hour 9 "node"
    (Some (IString "v")) ss E) as (c & b & key & kb & vc & -> & _ & _ & _ & _ & _ & _ & _ & _ & _ & Hv).
  eexists. rewrite Hv; [reflexivity|]. right. reflexivity.
Defined.

Lemma loadCAFromFiles_crash_iff_witness :
  ∃ why, loadCAFromFiles (app_with "" "app=x" "crt" "key" false) (λ _, Some "not pem")
         = Crash why.
Proof.
  apply (loadCAFromFiles_crash_iff (app_with "" "app=x" "crt" "key" false)
    (λ _, Some "not pem")).
  - intros b why. apply parsers_no_crash.
  - intros b why. apply parsers_no_crash.
  - exists "not pem". split; [reflexivity|]. left. reflexivity.
Defined.

End ApiExamples.
