(* ===== verification/Gencerts.v ===== *)
(** * cmd/gencerts: the command that writes the certificates

    The command obtains a CA, issues the certificate of the server and the one
    of Envoy, and writes the files.  Its result is the sequence of the writes it
    attempted and whether it ended normally: [log.Fatal] ends the process. *)

From stdpp Require Import options.
From S2P Require Import Prelude.
From S2P Require Import GoStd.
From S2P Require Import AppConfig.
From S2P Require Import Certs.
From S2P Require Import ApiTheorems.
From S2P Require Import Samples.
From Stdlib Require Import ZArith.

Module Gencerts.

Import AppConfig Certs.

Section command.
Context `{Crypto}.

(** The map [files].  [now] and [rnd] are the clock and the randomness of each
    of the three generations. *)
Definition files (app : Type_) (ReadFile : string → option string) (dnsNames : string)
    (now : nat → Z) (rnd : nat → nat) : res (gmap string string) :=
  ca ← fatal (Init app ReadFile (now 0%nat) (rnd 0%nat));
  rootKeyBytes ← fatal (GetLoadedRootKeyBytes ca);
  let files0 :=
    if (String.length (SSLCrt app) =? 0)%nat && (String.length (SSLKey app) =? 0)%nat
    then <["CA.key" := rootKeyBytes]> (<["CA.crt" := GetLoadedRootCertBytes ca]> ∅)
    else ∅ in
  '(_, serverCrtBytes, _, serverKeyBytes) ← fatal
    (GenServerCert (GoStrings.Split dnsNames ",") (GetLoadedRootCert ca)
       (GetLoadedRootKey ca) CertValidityMax (now 1%nat) (rnd 1%nat));
  let files1 := <["server.key" := serverKeyBytes]> (<["server.crt" := serverCrtBytes]> files0) in
  '(_, envoyCrtBytes, _, envoyKeyBytes) ← fatal
    (GenServerCert ["envoy"] (GetLoadedRootCert ca) (GetLoadedRootKey ca) CertValidityMax
       (now 2%nat) (rnd 2%nat));
  Ok (<["envoy.key" := envoyKeyBytes]> (<["envoy.crt" := envoyCrtBytes]> files1)).

(** The loop that writes the files: the first failure ends the process.
    [WriteFile] tells whether a write succeeds. *)
Fixpoint write_files (WriteFile : string → string → bool) (certPath : string)
    (order : list (string * string)) : list (string * string) * res unit :=
  match order with
  | [] => ([], Ok ())
  | (fileName, fileContent) :: order' =>
      let filePath := GoPath.Join [certPath; fileName] in
      if WriteFile filePath fileContent then
        let '(writes, r) := write_files WriteFile certPath order' in
        ((filePath, fileContent) :: writes, r)
      else ([(filePath, fileContent)], Crash "log.Fatal")
  end.

Definition main `{MapOrder} (app : Type_) (ReadFile : string → option string)
    (WriteFile : string → string → bool) (certPath dnsNames : string)
    (now : nat → Z) (rnd : nat → nat) : list (string * string) * res unit :=
  match files app ReadFile dnsNames now rnd with
  | Ok fs => write_files WriteFile certPath (range_order fs)
  | Err e => ([], Err e)
  | Crash why => ([], Crash why)
  end.

(** ** Proofs *)

(** A pair of files for a certificate that [ca] signed and its key. *)
Definition issued (ca : CA) (dnsNames : list string) (now : Z) (crt key : string) : Prop :=
  ∃ c b k kb, crt = pem_Encode "CERTIFICATE" b ∧ ParseCertificate b = Ok c ∧
    key = pem_Encode "PRIVATE KEY" kb ∧ MarshalPKCS8PrivateKey k = Ok kb ∧
    cert_PublicKey c = Public k ∧ cert_SignedBy c = Public (caKey ca) ∧
    cert_Issuer c = Subject (cert_Template (caCert ca)) ∧
    DNSNames (cert_Template c) = dnsNames ∧
    t_ExtKeyUsage (cert_Template c) = [ExtKeyUsageServerAuth; ExtKeyUsageClientAuth] ∧
    (∀ t, (now ≤ t ≤ whole_seconds (now + CertValidityMax))%Z → in_window c t).

Lemma GenServerCert_issued `{!CryptoLaws} ca names now r c crt k key :
  GenServerCert names (caCert ca) (caKey ca) CertValidityMax now r = Ok (c, crt, k, key) →
  issued ca names now crt key.
Proof.
  intros E. pose proof E as (b & kb & -> & Hp & -> & Hm)%ApiTheorems.GenServerCert_pem.
  apply GenServerCert_Ok in E as (name & _ & Ht & Hk & Hs & Hi).
  exists c, b, k, kb. rewrite Hk, Hs, Hi. split_and!; try done; [by rewrite Ht..|].
  intros t Hw. unfold in_window. rewrite Ht. simpl.
  pose proof (whole_seconds_le (now - 10 * Second)). unfold Second, Millisecond in *. lia.
Qed.

(** The loop ends normally exactly when it has written everything; otherwise it
    stopped at the first write that failed. *)
Lemma write_files_spec WriteFile certPath order writes r :
  write_files WriteFile certPath order = (writes, r) →
  let all := map (λ f, (GoPath.Join [certPath; f.1], f.2)) order in
  (r = Ok () ∧ writes = all ∧ Forall (λ w, WriteFile w.1 w.2 = true) all) ∨
  (r = Crash "log.Fatal" ∧ ∃ w, last writes = Some w ∧ WriteFile w.1 w.2 = false ∧
     writes `prefix_of` all).
Proof.
  revert writes r. induction order as [|[name content] order IH]; intros writes r; simpl.
  - intros [= <- <-]. by left.
  - destruct (WriteFile _ content) eqn:Hw.
    + destruct (write_files WriteFile certPath order) as [ws r'] eqn:E. intros [= <- <-].
      destruct (IH _ _ eq_refl) as [(-> & -> & Hall)|(-> & w & Hl & Hf & Hpre)].
      * left. split_and!; [done..|by constructor].
      * right. split; [done|]. exists w. split_and!; [|done|by apply prefix_cons].
        destruct ws; [done|]. by rewrite last_cons, Hl.
    + intros [= <- <-]. right. split; [done|]. eexists. split_and!; [done..|].
      by apply prefix_cons, prefix_nil.
Qed.

(** What the map holds: the two certificates with their keys and, exactly when
    no CA setting is given, the CA. *)
Lemma files_spec `{!CryptoLaws} app ReadFile dnsNames now rnd fs :
  files app ReadFile dnsNames now rnd = Ok fs →
  ∃ ca rootKeyBytes server skey envoy ekey,
    Init app ReadFile (now 0%nat) (rnd 0%nat) = Ok ca ∧
    GetLoadedRootKeyBytes ca = Ok rootKeyBytes ∧
    issued ca (GoStrings.Split dnsNames ",") (now 1%nat) server skey ∧
    issued ca ["envoy"] (now 2%nat) envoy ekey ∧
    map_to_list fs ≡ₚ
      [("envoy.key", ekey); ("envoy.crt", envoy); ("server.key", skey); ("server.crt", server)]
      ++ (if decide (SSLCrt app = "" ∧ SSLKey app = "")
          then [("CA.key", rootKeyBytes); ("CA.crt", caCertBytes ca)] else []).
Proof.
  unfold files. intros E. ok_step E as ca Hca. ok_step E as rk Hrk.
  ok_step E as [[[c1 s] k1] sk] Hs. ok_step E as [[[c2 e] k2] ek] He. injection E as <-.
  apply fatal_Ok in Hca, Hrk, Hs, He. apply GenServerCert_issued in Hs, He.
  exists ca, rk, s, sk, e, ek. split_and!; [done..|].
  rewrite !GoStrings.length_eqb_0. unfold GetLoadedRootCertBytes.
  destruct (decide (SSLCrt app = "" ∧ SSLKey app = "")) as [[-> ->]|Hne].
  - rewrite !bool_decide_eq_true_2 by done. cbn [andb].
    by rewrite !map_to_list_insert, map_to_list_empty by by simplify_map_eq.
  - assert (bool_decide (SSLCrt app = "") && bool_decide (SSLKey app = "") = false) as ->
      by (do 2 case_bool_decide; simpl; tauto).
    by rewrite !map_to_list_insert, map_to_list_empty by by simplify_map_eq.
Qed.

(** What the writes are when the command ends normally. *)
Lemma main_spec `{!CryptoLaws} `{MapOrder} app ReadFile WriteFile certPath dnsNames now rnd writes :
  main app ReadFile WriteFile certPath dnsNames now rnd = (writes, Ok ()) →
  ∃ ca rootKeyBytes server skey envoy ekey,
    Init app ReadFile (now 0%nat) (rnd 0%nat) = Ok ca ∧
    exportPrivateKey (caKey ca) = Ok rootKeyBytes ∧
    issued ca (GoStrings.Split dnsNames ",") (now 1%nat) server skey ∧
    issued ca ["envoy"] (now 2%nat) envoy ekey ∧
    Forall (λ w, WriteFile w.1 w.2 = true) writes ∧
    writes ≡ₚ map (λ f, (GoPath.Join [certPath; f.1], f.2))
      ([("envoy.key", ekey); ("envoy.crt", envoy); ("server.key", skey); ("server.crt", server)]
       ++ (if decide (SSLCrt app = "" ∧ SSLKey app = "")
           then [("CA.key", rootKeyBytes); ("CA.crt", caCertBytes ca)] else [])).
Proof.
  unfold main. destruct (files _ _ _ _ _) as [fs|e|y] eqn:Ef; [|done..]. intros Ew.
  destruct (files_spec _ _ _ _ _ _ Ef) as (ca & rk & s & sk & e & ek & Hca & Hrk & Hs & He & Hp).
  apply write_files_spec in Ew as [(_ & -> & Hall)|(? & _)]; [|done].
  exists ca, rk, s, sk, e, ek. split_and!; [done..|].
  apply Permutation_map. by rewrite range_perm.
Qed.

(** Without settings the CA is generated. *)
Lemma Init_default app ReadFile now rnd c pem key kpem :
  SSLCrt app = "" → GenCARoot now rnd = Ok (c, pem, key, kpem) →
  Init app ReadFile now rnd = Ok (mkCA c pem key).
Proof. unfold Init. by intros -> ->. Qed.

(** A CA that is not read from files is generated. *)
Lemma Init_generated app ReadFile now rnd ca :
  SSLCrt app = "" ∨ SSLKey app = "" → Init app ReadFile now rnd = Ok ca →
  ∃ key rootKey, GenCARoot now rnd = Ok (caCert ca, caCertBytes ca, key, rootKey) ∧
    caKey ca = key.
Proof.
  intros Hempty Hca. unfold Init in Hca. rewrite !GoStrings.length_ltb_0 in Hca.
  assert (bool_decide (SSLCrt app ≠ "") && bool_decide (SSLKey app ≠ "") = false) as Hb
    by (do 2 case_bool_decide; simpl; tauto).
  rewrite Hb in Hca. ok_step Hca as [[[c b] k] kb] Hg. injection Hca as <-. eauto.
Qed.

(** what the command writes, when it ends normally, in any order: the
    certificates of the server, for the names of its flag, and of Envoy, with
    their keys, both signed by the CA and valid from their issue for the
    longest validity; and the CA itself with its key exactly when neither setting names
    a file - although [Init] generates a CA as soon as one of them is empty, and
    that CA is then lost. *)
Theorem gencerts_correct `{!CryptoLaws} `{MapOrder} app ReadFile WriteFile certPath dnsNames
    now rnd writes :
  main app ReadFile WriteFile certPath dnsNames now rnd = (writes, Ok ()) →
  ∃ ca rootKeyBytes server skey envoy ekey,
    Init app ReadFile (now 0%nat) (rnd 0%nat) = Ok ca ∧
    exportPrivateKey (caKey ca) = Ok rootKeyBytes ∧
    issued ca (GoStrings.Split dnsNames ",") (now 1%nat) server skey ∧
    issued ca ["envoy"] (now 2%nat) envoy ekey ∧
    Forall (λ w, WriteFile w.1 w.2 = true) writes ∧
    writes ≡ₚ map (λ f, (GoPath.Join [certPath; f.1], f.2))
      ([("envoy.key", ekey); ("envoy.crt", envoy); ("server.key", skey); ("server.crt", server)]
       ++ (if decide (SSLCrt app = "" ∧ SSLKey app = "")
           then [("CA.key", rootKeyBytes); ("CA.crt", caCertBytes ca)] else [])) ∧
    ((SSLCrt app = "" ∨ SSLKey app = "") →
     ∃ key rootKey, GenCARoot (now 0%nat) (rnd 0%nat) = Ok (caCert ca, caCertBytes ca, key, rootKey)).
Proof.
  intros (ca & rk & s & sk & e & ek & Hca & H')%main_spec.
  exists ca, rk, s, sk, e, ek. destruct H' as (? & ? & ? & ? & ?). split_and!; [done..|].
  intros Hempty. destruct (Init_generated _ _ _ _ _ Hempty Hca) as (k & rk' & Hg & _). eauto.
Qed.

End command.
End Gencerts.

Module GencertsExamples.

Import Samples AppConfig Gencerts.

#[local] Existing Instances codec crypto crypto_laws map_order_std.

(** The command with only the certificate file named: the CA is generated and
    not written. *)
Notation run :=
  (main (app_with "" "app=ecp" "ca.crt" "" false) (λ _, None) (λ _ _, true) "certs" "test"
    (λ i, Z.of_nat i) (λ i, i)).

Lemma run_ok : is_ok run.2 = true.
Proof. vm_compute. reflexivity. Qed.

Lemma gencerts_correct_witness :
  ∃ writes, run = (writes, Ok ()) ∧ length writes = 4%nat.
Proof.
  destruct run as [writes r] eqn:E.
  assert (r = Ok ()) as ->.
  { pose proof run_ok as Hok. rewrite E in Hok. destruct r as [[]| |]; [done|discriminate..]. }
  exists writes. split; [reflexivity|].
  pose proof (gencerts_correct _ _ _ _ _ _ _ _ E) as Hm.
  destruct Hm as (ca & rk & s & sk & e & ek & _ & _ & _ & _ & _ & P & _).
  rewrite P, length_map, length_app, decide_False; [reflexivity|].
  by intros [? _].
Defined.

End GencertsExamples.
