(* ===== verification/ControlPlane.v ===== *)
(** * pkg/controlplane: the gRPC server and the adapter of its log

    [createGrpcServer] decides who may connect: the certificate it presents and
    the authority it accepts clients from.  [Init] registers the services.
    Listening and the protocol belong to grpc and go-control-plane. *)

From stdpp Require Import options.
From S2P Require Import Prelude.
From S2P Require Import AppConfig.
From S2P Require Import Certs.
From Stdlib Require Import ZArith.

Module ControlPlane.

Import AppConfig Certs.

Definition grpcKeepaliveTime : Z := 30 * Second.
Definition grpcKeepaliveTimeout : Z := 5 * Second.
Definition grpcKeepaliveMinTime : Z := 30 * Second.
Definition grpcMaxConcurrentStreams : N := 1000000.

Section server.
Context `{Crypto}.

(** [tls.Config], the fields the code sets. *)
Inductive ClientAuthType := NoClientCert | RequireAndVerifyClientCert.
Record TlsConfig := mkTlsConfig {
  tls_Certificate : Certificate; tls_PrivateKey : PrivateKey;
  ClientAuth : ClientAuthType; ClientCAs : list Certificate; RootCAs : list Certificate }.

(** The keep-alive parameters and limits the code sets. *)
Record ServerOptions := mkServerOptions {
  Creds : TlsConfig; MaxConcurrentStreams : N;
  KeepaliveTime : Z; KeepaliveTimeout : Z; MinTime : Z; PermitWithoutStream : bool }.

(** The services of the xDS protocol and the access log. *)
Inductive Service :=
  | AccessLogService | EndpointDiscoveryService | ClusterDiscoveryService
  | RouteDiscoveryService | ListenerDiscoveryService | SecretDiscoveryService.

Record GrpcServer := mkGrpcServer { options : ServerOptions; services : list Service }.

(** An error of the generation is fatal. *)
Definition createGrpcServer (ca : CA) (now : Z) (rnd : nat) : res GrpcServer :=
  match NewCertificate ca [AppName] CertValidityMax now rnd with
  | Ok (serverCert, _, serverKey, _) =>
      let certPool := [GetLoadedRootCert ca] in
      let grpcCred :=
        mkTlsConfig serverCert serverKey RequireAndVerifyClientCert certPool certPool in
      Ok (mkGrpcServer (mkServerOptions grpcCred grpcMaxConcurrentStreams grpcKeepaliveTime
                          grpcKeepaliveTimeout grpcKeepaliveMinTime true) [])
  | Err _ => Crash "log.Fatal"
  | Crash why => Crash why
  end.

Definition register (s : Service) (g : GrpcServer) : GrpcServer :=
  mkGrpcServer (options g) (services g ++ [s]).

Definition Init (ca : CA) (now : Z) (rnd : nat) : res GrpcServer :=
  grpcServer ← createGrpcServer ca now rnd;
  Ok (register SecretDiscoveryService
       (register ListenerDiscoveryService
         (register RouteDiscoveryService
           (register ClusterDiscoveryService
             (register EndpointDiscoveryService
               (register AccessLogService grpcServer)))))).

(** Whether the handshake of a client that presents [client] succeeds at [t]. *)
Definition accepts_client (g : GrpcServer) (client : option Certificate) (t : Z) : Prop :=
  match ClientAuth (Creds (options g)), client with
  | NoClientCert, _ => True
  | RequireAndVerifyClientCert, None => False
  | RequireAndVerifyClientCert, Some c =>
      ∃ root, root ∈ ClientCAs (Creds (options g)) ∧ verifies root c t
  end.

End server.

(** ** logger.go: the log of the snapshot cache is part of the access log *)

Inductive Level := DebugLevel | InfoLevel | WarnLevel | ErrorLevel.

Definition Logger_log (app : Type_) (l : Level) (line : string) : list (Level * string) :=
  if LogAccess app then [(l, line)] else [].

Definition Infof (app : Type_) (line : string) := Logger_log app InfoLevel line.
Definition Debugf (app : Type_) (line : string) := Logger_log app DebugLevel line.
Definition Warnf (app : Type_) (line : string) := Logger_log app WarnLevel line.
Definition Errorf (app : Type_) (line : string) := Logger_log app ErrorLevel line.

End ControlPlane.
