(* ===== verification/WebServer.v ===== *)
(** * pkg/web: the two servers

    [Start] and [StartTLS] up to the point where they listen: what they serve,
    where, within which times and under which certificate. *)

From stdpp Require Import options.
From S2P Require Import Prelude.
From S2P Require Import AppConfig.
From S2P Require Import Certs.
From Stdlib Require Import ZArith.

Module WebServer.

Import AppConfig.

Definition serverReadTimeout : Z := 5 * Second.
Definition serverRequestTimeout : Z := 5 * Second.
Definition serverWriteTimeout : Z := 10 * Second.

Section servers.
Context `{CryptoTls}.

(** [http.Server]: the handler is [http.TimeoutHandler] around
    [auth(GetHandler(onlyHTTPShema))] of Web. *)
Record Server := mkServer {
  Addr : string;
  onlyHTTPShema : bool;
  RequestTimeout : Z;
  ReadTimeout : Z;
  WriteTimeout : Z;
  TLSCertificate : option (Certificate * PrivateKey) }.

Definition Start (app : Type_) : Server :=
  mkServer (WebHTTPAddress app) true serverRequestTimeout serverReadTimeout
    serverWriteTimeout None.

(** An error of the certificate is fatal. *)
Definition StartTLS (app : Type_) (ca : Certs.CA) (now : Z) (rnd : nat) : res Server :=
  match '(_, serverCertBytes, _, serverKeyBytes) ←
          Certs.NewCertificate ca [AppName] Certs.CertValidityYear now rnd;
        X509KeyPair serverCertBytes serverKeyBytes with
  | Ok cert =>
      Ok (mkServer (WebHTTPSAddress app) false serverRequestTimeout serverReadTimeout
            serverWriteTimeout (Some cert))
  | Err _ => Crash "log.Fatal"
  | Crash why => Crash why
  end.

End servers.
End WebServer.
