(* ===== verification/Cli.v ===== *)
(** * cmd/cli: the command that pods run next to Envoy

    Depending on its flags the command sets the log level of the Envoy beside
    it, drains that Envoy, or asks the control plane for something - its zone by
    default - after waiting until it is ready.  A run is a function of what the
    outside answers; its result is the sequence of the effects - requests,
    sleeps, output - and how the process ended.  [log.Fatal] ends it with a
    message; what else is logged has no effect. *)

From stdpp Require Import options.
From S2P Require Import Prelude.
From S2P Require Import GoStd.
From S2P Require Import GoUrl.
From S2P Require Import AppConfig.
From S2P Require Import Certs.
From Stdlib Require Import ZArith.

Module Cli.

Import AppConfig.

Definition serverPort : Z := 18081.
Definition serverAdminPort : Z := 18000.
Definition defaultTimeout : Z := 10 * Second.

(** The flags the behaviour depends on: [debug] and [logFlags] only change what
    is logged. *)
Record Flags := mkFlags {
  action : string;
  namespace : string;
  pod : string;
  server : string;
  port : Z;
  wait : bool;
  envoyLogLevel : string;
  drainEnvoy : bool;
  timeout : Z;
  envoyAdminPort : Z;
  tlsInsecure : bool;
  tlsCA : string;
  tlsClientCrt : string;
  tlsClientKey : string }.

(** Their values when none is given. *)
Definition defaults (Getenv : string → string) : Flags := {|
  action := "/api/zone";
  namespace := Getenv "MY_POD_NAMESPACE";
  pod := Getenv "HOSTNAME";
  server := "envoy-control-plane";
  port := serverPort;
  wait := true;
  envoyLogLevel := "";
  drainEnvoy := false;
  timeout := defaultTimeout;
  envoyAdminPort := serverAdminPort;
  tlsInsecure := false;
  tlsCA := "/certs/CA.crt";
  tlsClientCrt := "/certs/envoy.crt";
  tlsClientKey := "/certs/envoy.key" |}.

Record HttpRequest := mkHttpRequest {
  q_Method : string; q_URL : string; q_ContentType : string; q_Body : string }.

(** What [cli.Do] returns: an error, or a status and what reading the body gives. *)
Inductive Reply := RErr (e : error) | RResp (StatusCode : N) (Body : string + error).

(** The exact text of [fmt.Sprintf] with the host and the port. *)
Definition address (f : Flags) : string := server f +:+ ":" +:+ pretty (port f).
Definition ready_url (f : Flags) : string := "https://" +:+ address f +:+ "/api/ready".
Definition requestURL (f : Flags) : string := "https://" +:+ address f +:+ action f.
Definition admin_url (f : Flags) (path : string) : string :=
  "http://127.0.0.1:" +:+ pretty (envoyAdminPort f) +:+ path.

Section command.
Context `{CryptoTls}.

(** The TLS settings of the client. *)
Record ClientConfig := mkClientConfig {
  Certificates : list (Certificate * PrivateKey);
  RootCAs : list Certificate;
  InsecureSkipVerify : bool }.

Inductive Event :=
  | ESend (cfg : ClientConfig) (r : HttpRequest)
  | ECloseBody
  | ESleep (d : Z)
  | EStdout (s : string).

Notation Trace := (list Event).

(** ** Effects: a run extends the trace, or ends the process. *)

Inductive Exit (A : Type) :=
  | Returns (a : A) (t : Trace)
  | Fatal (e : error) (t : Trace)
  | Panics (why : string) (t : Trace)
  (** the fuel is used up: the loop goes on *)
  | Loops (t : Trace).
Arguments Returns {A}.
Arguments Fatal {A}.
Arguments Panics {A}.
Arguments Loops {A}.

Definition M (A : Type) : Type := Trace → Exit A.

#[global] Instance M_ret : MRet M := λ A a t, Returns a t.
#[global] Instance M_bind : MBind M := λ A B f m t,
  match m t with
  | Returns a t' => f a t'
  | Fatal e t' => Fatal e t'
  | Panics why t' => Panics why t'
  | Loops t' => Loops t'
  end.

Definition emit (e : Event) : M unit := λ t, Returns () (t ++ [e]).
Definition fatal {A} (e : error) : M A := Fatal e.
Definition panic {A} (why : string) : M A := Panics why.

(** ** The outside *)

(** [os.ReadFile], the error of [http.NewRequestWithContext] for a URL that does
    not parse, and what comes back for a request, which may depend on all that
    was done before. *)
Variable ReadFile : string → res string.
Variable url_error : string → option error.
Variable Do : Trace → ClientConfig → HttpRequest → Reply.

Definition cli_Do (cfg : ClientConfig) (r : HttpRequest) : M Reply :=
  λ t, Returns (Do t cfg r) (t ++ [ESend cfg r]).

(** [http.NewRequestWithContext] with [log.Fatal] on its error. *)
Definition new_request (method url contentType body : string) : M HttpRequest :=
  match url_error url with
  | Some e => fatal e
  | None => mret (mkHttpRequest method url contentType body)
  end.

(** [cli.Do] and [io.ReadAll], fatal on their errors, and the close of the body. *)
Definition exchange (cfg : ClientConfig) (r : HttpRequest) : M (N * string) :=
  resp ← cli_Do cfg r;
  match resp with
  | RErr e | RResp _ (inr e) => fatal e
  | RResp code (inl body) => emit ECloseBody;; mret (code, body)
  end.

(** ** The functions of main.go *)

(** The deferred closes run when the function returns. *)
Fixpoint close_bodies (n : nat) : M unit :=
  match n with
  | O => mret ()
  | S n' => emit ECloseBody;; close_bodies n'
  end.

(** The loop of [waitForAPI]; [opened] counts the deferred closes.  A URL that
    does not parse gives a nil request, which [cli.Do] dereferences. *)
Fixpoint waitForAPI (fuel : nat) (f : Flags) (cfg : ClientConfig) (opened : nat) : M unit :=
  match fuel with
  | O => Loops
  | S fuel' =>
      match url_error (ready_url f) with
      | Some _ => panic "nil pointer dereference"
      | None =>
          resp ← cli_Do cfg (mkHttpRequest "GET" (ready_url f) "" "");
          match resp with
          | RErr _ => emit (ESleep (1 * Second));; waitForAPI fuel' f cfg opened
          | RResp code _ =>
              if (code =? 200)%N then close_bodies (S opened)
              else emit (ESleep (1 * Second));; waitForAPI fuel' f cfg (S opened)
          end
      end
  end.

(** The status of the answer is not looked at. *)
Definition requestEnvoyAdmin (f : Flags) (cfg : ClientConfig) (path : string) : M unit :=
  r ← new_request "POST" (admin_url f path) "" "";
  exchange cfg r;; mret ().

(** [tls.LoadX509KeyPair]. *)
Definition LoadX509KeyPair (certFile keyFile : string) : res (Certificate * PrivateKey) :=
  certPEMBlock ← ReadFile certFile;
  keyPEMBlock ← ReadFile keyFile;
  X509KeyPair certPEMBlock keyPEMBlock.

(** The first part of [main]: the HTTP client. *)
Definition new_client (f : Flags) : M ClientConfig :=
  cliCerts ←
    (if negb (tlsInsecure f) && (0 <? String.length (tlsClientCrt f))%nat
        && (0 <? String.length (tlsCA f))%nat
     then match LoadX509KeyPair (tlsClientCrt f) (tlsClientKey f) with
          | Ok cert => mret [cert]
          | Err e => fatal e
          | Crash why => panic why
          end
     else mret []);
  caCertPool ←
    (if negb (tlsInsecure f) && (0 <? String.length (tlsCA f))%nat
     then match ReadFile (tlsCA f) with
          | Ok caCert => mret (AppendCertsFromPEM caCert)
          | Err e => fatal e
          | Crash why => panic why
          end
     else mret []);
  mret (mkClientConfig cliCerts caCertPool (tlsInsecure f)).

(** The form the control plane is asked with. *)
Definition form (f : Flags) : GoUrl.Values :=
  <["namespace" := [namespace f]]> (<["pod" := [pod f]]> ∅).

Definition drain (f : Flags) (cfg : ClientConfig) : M unit :=
  requestEnvoyAdmin f cfg "/drain_listeners?graceful";;
  requestEnvoyAdmin f cfg "/healthcheck/fail";;
  emit (ESleep (timeout f));;
  requestEnvoyAdmin f cfg "/quitquitquit".

(** The last part of [main]. *)
Definition ask (f : Flags) (cfg : ClientConfig) : M unit :=
  r ← new_request "POST" (requestURL f) GoUrl.FormContentType (GoUrl.Encode (form f));
  '(code, body) ← exchange cfg r;
  emit (EStdout body);;
  if (code =? 200)%N then mret () else fatal (New "result not ok").

(** [fuel] bounds the rounds of [waitForAPI]. *)
Definition main (fuel : nat) (f : Flags) : M unit :=
  cfg ← new_client f;
  if (0 <? String.length (envoyLogLevel f))%nat
  then requestEnvoyAdmin f cfg ("/logging?level=" +:+ envoyLogLevel f)
  else if drainEnvoy f then drain f cfg
  else if (String.length (namespace f) =? 0)%nat then fatal (New "no namespace")
  else if (String.length (pod f) =? 0)%nat then fatal (New "no pod")
  else (if wait f then waitForAPI fuel f cfg 0 else mret ());; ask f cfg.

End command.
End Cli.
