(* ===== verification/TrustTheorems.v ===== *)
(** * Trust: from the files of gencerts to the connections of Envoy

    cmd/gencerts, pkg/certs and pkg/controlplane together: the CA the command
    writes is the CA the server loads, and a proxy that uses the other files and
    the server trust each other. *)

From stdpp Require Import options.
From S2P Require Import Prelude.
From S2P Require Import GoStd.
From S2P Require Import AppConfig.
From S2P Require Import Certs.
From S2P Require Import ApiTheorems.
From S2P Require Import Gencerts.
From S2P Require Import ControlPlane.
From S2P Require Import Samples.
From S2P Require Import ApiExamples.
From Stdlib Require Import ZArith.

Module TrustTheorems.

Import AppConfig Certs Gencerts GoPath.

Section trust.
Context `{Crypto}.

(** The settings of a server that uses the CA in the directory [certPath], and a
    file system that has what the command wrote. *)
Definition uses_files (app : Type_) (ReadFile : string → option string) (certPath : string)
    (writes : list (string * string)) : Prop :=
  SSLCrt app = GoPath.Join [certPath; "CA.crt"] ∧
  SSLKey app = GoPath.Join [certPath; "CA.key"] ∧
  ∀ path content, (path, content) ∈ writes → ReadFile path = Some content.

Lemma GenCARoot_pem now rnd c pem key kpem :
  GenCARoot now rnd = Ok (c, pem, key, kpem) →
  ∃ b, pem = pem_Encode "CERTIFICATE" b ∧ ParseCertificate b = Ok c.
Proof.
  unfold GenCARoot, genCert. intros E. ok_step E as p. ok_step E as [c' pem'] Hc.
  ok_step E as kp Hk. injection E as <- <- <- <-.
  ok_step Hc as b Hb. ok_step Hc as c'' Hp. injection Hc as <- <-. eauto.
Qed.

(** Loading the files of a CA gives the CA back. *)
Lemma load_written `{!CryptoCodecs} app ReadFile ca b keyBytes :
  caCertBytes ca = pem_Encode "CERTIFICATE" b → ParseCertificate b = Ok (caCert ca) →
  exportPrivateKey (caKey ca) = Ok keyBytes →
  ReadFile (SSLCrt app) = Some (caCertBytes ca) → ReadFile (SSLKey app) = Some keyBytes →
  loadCAFromFiles app ReadFile = Ok ca.
Proof.
  intros Hb Hp Hk E1 E2. unfold loadCAFromFiles. unfold exportPrivateKey in Hk.
  ok_step Hk as kb Hm. injection Hk as <-.
  rewrite E1, Hb, pem_decode_encode by auto. simpl. rewrite Hp. simpl.
  rewrite E2, pem_decode_encode by auto. simpl.
  rewrite (pkcs8_parse_marshal _ _ Hm). simpl. destruct ca. simpl in *. by rewrite Hb.
Qed.

(** A server whose settings name the files loads the CA. *)
Lemma load_from_files `{!CryptoLaws} `{!CryptoCodecs} app ReadFile certPath now rnd ca keyBytes
    app' ReadFile' now' rnd' :
  SSLCrt app = "" → Certs.Init app ReadFile now rnd = Ok ca →
  exportPrivateKey (caKey ca) = Ok keyBytes →
  SSLCrt app' = Join [certPath; "CA.crt"] → SSLKey app' = Join [certPath; "CA.key"] →
  ReadFile' (Join [certPath; "CA.crt"]) = Some (caCertBytes ca) →
  ReadFile' (Join [certPath; "CA.key"]) = Some keyBytes →
  Certs.Init app' ReadFile' now' rnd' = Ok ca.
Proof.
  intros Hc Hca Hrk Ec Ek E1 E2.
  destruct (Init_generated _ _ _ _ _ (or_introl Hc) Hca) as (k & kb & Hg & _).
  destruct (GenCARoot_pem _ _ _ _ _ _ Hg) as (b & Hb & Hb'). unfold Certs.Init.
  rewrite !GoStrings.length_ltb_0, !bool_decide_eq_true_2; simpl;
    [|rewrite Ek; eapply Join_nonempty; [by right; left|done]
     |rewrite Ec; eapply Join_nonempty; [by right; left|done]].
  eapply load_written; [done..|by rewrite Ec|by rewrite Ek].
Qed.

(** The server loads the CA that the command generated. *)
Lemma main_loads `{!CryptoLaws} `{!CryptoCodecs} `{MapOrder} app ReadFile WriteFile certPath
    dnsNames now rnd writes app' ReadFile' now' rnd' :
  SSLCrt app = "" → SSLKey app = "" →
  main app ReadFile WriteFile certPath dnsNames now rnd = (writes, Ok ()) →
  uses_files app' ReadFile' certPath writes →
  ∃ ca envoy ekey,
    Certs.Init app ReadFile (now 0%nat) (rnd 0%nat) = Ok ca ∧
    Certs.Init app' ReadFile' now' rnd' = Ok ca ∧
    issued ca ["envoy"] (now 2%nat) envoy ekey ∧
    ReadFile' (Join [certPath; "envoy.crt"]) = Some envoy.
Proof.
  intros Hc Hk (ca & rk & s & sk & e & ek & Hca & Hrk & _ & He & _ & Hp)%main_spec (Ec & Ek & Hr).
  rewrite decide_True in Hp by done. exists ca, e, ek. split_and!; [done| |done|].
  - eapply load_from_files; [exact Hc|exact Hca|exact Hrk|done|done|..]; apply Hr; rewrite Hp; simpl.
    + do 5 right. by left.
    + do 4 right. by left.
  - apply Hr. rewrite Hp. simpl. do 1 right. by left.
Qed.

(** C29: the CA survives the round trip through its files: a server whose settings
    name the files the command wrote loads exactly the CA the command generated -
    the same certificate, the same bytes and the same key. *)
Theorem ca_roundtrip `{!CryptoLaws} `{!CryptoCodecs} `{MapOrder} app ReadFile WriteFile
    certPath dnsNames now rnd writes app' ReadFile' now' rnd' :
  SSLCrt app = "" → SSLKey app = "" →
  main app ReadFile WriteFile certPath dnsNames now rnd = (writes, Ok ()) →
  uses_files app' ReadFile' certPath writes →
  ∃ ca, Certs.Init app ReadFile (now 0%nat) (rnd 0%nat) = Ok ca ∧
        Certs.Init app' ReadFile' now' rnd' = Ok ca.
Proof.
  intros Hc Hk E Hu.
  destruct (main_loads _ _ _ _ _ _ _ _ _ _ now' rnd' Hc Hk E Hu) as (ca & _ & _ & ? & ? & _).
  by exists ca.
Qed.

(** A certificate signed by a generated CA verifies while the CA lives. *)
Lemma verifies_generated `{!CryptoLaws} app ReadFile now rnd ca c t :
  SSLCrt app = "" → Certs.Init app ReadFile now rnd = Ok ca →
  (now ≤ t ≤ whole_seconds (now + CertValidityMax))%Z →
  cert_SignedBy c = Public (caKey ca) → cert_Issuer c = Subject (cert_Template (caCert ca)) →
  t_ExtKeyUsage (cert_Template c) = [ExtKeyUsageServerAuth; ExtKeyUsageClientAuth] →
  in_window c t → verifies (caCert ca) c t.
Proof.
  intros Hc Hca Ht Hs Hi He Hw.
  destruct (Init_generated _ _ _ _ _ (or_introl Hc) Hca) as (k & kb & Hg & Hk).
  apply GenCARoot_Ok in Hg as (Hrt & Hrp & _). unfold verifies.
  rewrite Hs, Hi, Hk, Hrp, He. unfold in_window. rewrite Hrt. simpl.
  unfold in_window in Hw. destruct Hw. pose proof (whole_seconds_le (now - 10 * Second)).
  split_and!; try done; try (unfold Second, Millisecond in *; lia); [by left|by left|right; by left].
Qed.

(** C30: the command, the server and the proxy trust each other: a server that
    loads the files of the command presents a certificate that its CA signed, and
    accepts a client with the certificate the command wrote for Envoy - from the
    moment both are issued until the CA expires, at a whole second - but no client
    without one. *)
Theorem mutual_tls `{!CryptoLaws} `{!CryptoCodecs} `{MapOrder} app ReadFile WriteFile
    certPath dnsNames now rnd writes app' ReadFile' now' rnd' ca srv t1 r1 :
  SSLCrt app = "" → SSLKey app = "" →
  main app ReadFile WriteFile certPath dnsNames now rnd = (writes, Ok ()) →
  uses_files app' ReadFile' certPath writes →
  Certs.Init app' ReadFile' now' rnd' = Ok ca →
  ControlPlane.Init ca t1 r1 = Ok srv →
  ∃ b envoy, ReadFile' (GoPath.Join [certPath; "envoy.crt"]) = Some (pem_Encode "CERTIFICATE" b) ∧
    ParseCertificate b = Ok envoy ∧ DNSNames (cert_Template envoy) = ["envoy"] ∧
    ∀ t, (now 0%nat ≤ now 2%nat ≤ t ∧ now 0%nat ≤ t1 ≤ t ∧
         t ≤ whole_seconds (now 0%nat + CertValidityMax))%Z →
      ControlPlane.accepts_client srv (Some envoy) t ∧
      ¬ ControlPlane.accepts_client srv None t ∧
      let served := ControlPlane.tls_Certificate (ControlPlane.Creds (ControlPlane.options srv)) in
      verifies (caCert ca) served t ∧ DNSNames (cert_Template served) = [AppName].
Proof.
  intros Hc Hk E Hu Hi Hs.
  destruct (main_loads _ _ _ _ _ _ _ _ _ _ now' rnd' Hc Hk E Hu) as (ca0 & e & ek & Hca & Hi' & He & Hr).
  assert (ca0 = ca) as -> by congruence.
  destruct He as (c & b & k & kb & -> & Hb & _ & _ & _ & Hsb & Hib & Hdb & Heb & Hwb).
  exists b, c. split_and!; [done..|].
  - unfold ControlPlane.Init, ControlPlane.createGrpcServer in Hs.
    destruct (NewCertificate ca [AppName] CertValidityMax t1 r1) as [[[[c1 p1] k1] kp1]|e'|y] eqn:Hn;
      [|done..]. simpl in Hs. injection Hs as <-. simpl.
    apply GenServerCert_Ok in Hn as (name & _ & Ht1 & _ & Hs1 & Hi1).
    intros t Ht.
    assert (∀ u, now 0%nat ≤ u → t ≤ whole_seconds (u + CertValidityMax))%Z as Hend.
    { intros u Hle. etrans; [apply Ht|]. apply whole_seconds_mono. lia. }
    split_and!; [|by intros []| |by rewrite Ht1].
    + exists (caCert ca). split; [by left|].
      eapply verifies_generated; [done|exact Hca|lia|done..|]. apply Hwb.
      split; [lia|apply Hend; lia].
    + eapply verifies_generated; [done|exact Hca|lia|done|done|by rewrite Ht1|].
      unfold in_window. rewrite Ht1. simpl. pose proof (whole_seconds_le (t1 - 10 * Second)).
      split; [unfold Second, Millisecond in *; lia|apply Hend; lia].
Qed.

End trust.
End TrustTheorems.

Module TrustExamples.

Import Samples AppConfig Gencerts TrustTheorems.

#[local] Existing Instances codec crypto crypto_laws crypto_codecs map_order_std.

(** The command with the default settings, and a server that reads its files. *)
Notation run :=
  (main app (λ _, None) (λ _ _, true) "certs" "test" (λ i, Z.of_nat i) (λ i, i)).

Definition server_settings : Type_ :=
  app_with "" "app=ecp" "certs/CA.crt" "certs/CA.key" false.

Lemma default_run_ok : ∃ writes, run = (writes, Ok ()).
Proof.
  assert (is_ok run.2 = true) as Hok by (vm_compute; reflexivity).
  destruct run as [writes r]. destruct r as [[]| |]; [by eexists|done..].
Qed.

(** A file system with the files. *)
Definition written (writes : list (string * string)) (path : string) : option string :=
  (list_to_map writes : gmap string string) !! path.

Lemma run_uses_files writes :
  run = (writes, Ok ()) → uses_files server_settings (written writes) "certs" writes.
Proof.
  intros (ca & rk & s & sk & e & ek & _ & _ & _ & _ & _ & P)%main_spec.
  split_and!; [done..|]. intros path content Hin. apply elem_of_list_to_map_1; [|done].
  rewrite P, decide_True by done. apply (bool_decide_unpack _). by vm_compute.
Qed.

Lemma run_loads writes :
  run = (writes, Ok ()) → ∃ ca, Certs.Init server_settings (written writes) 7 7 = Ok ca.
Proof.
  intros E. pose proof (main_loads app _ _ _ _ _ _ _ _ _ 7 7 eq_refl eq_refl E (run_uses_files writes E))
    as Hm.
  destruct Hm as (ca & _ & _ & _ & Hca & _). exists ca. exact Hca.
Qed.

Lemma server_starts ca : ∃ srv, ControlPlane.Init ca 5 9 = Ok srv.
Proof.
  unfold ControlPlane.Init, ControlPlane.createGrpcServer.
  destruct (proj2 ApiExamples.sample_issues ca AppName [] Certs.CertValidityMax 5%Z 9%nat)
    as (a & b & c & d & ->).
  by eexists.
Qed.

Lemma ca_roundtrip_witness :
  ∃ writes ca, run = (writes, Ok ()) ∧
    Certs.Init server_settings (written writes) 7 7 = Ok ca.
Proof.
  destruct default_run_ok as [writes E].
  pose proof (ca_roundtrip app _ _ _ _ _ _ _ _ _ 7 7 eq_refl eq_refl E (run_uses_files writes E))
    as Hm.
  destruct Hm as (ca & _ & Hca). exists writes, ca. split; [exact E|exact Hca].
Defined.

Lemma mutual_tls_witness :
  ∃ writes ca srv b envoy, run = (writes, Ok ()) ∧ ControlPlane.Init ca 5 9 = Ok srv ∧
    written writes "certs/envoy.crt" = Some (pem_Encode "CERTIFICATE" b) ∧
    ParseCertificate b = Ok envoy ∧
    ControlPlane.accepts_client srv (Some envoy) 6.
Proof.
  destruct default_run_ok as [writes E]. pose proof (run_uses_files writes E) as Hu.
  destruct (run_loads writes E) as [ca Hca].
  destruct (server_starts ca) as [srv Hs].
  pose proof (mutual_tls app _ _ _ _ _ _ _ _ _ _ _ _ _ _ _ eq_refl eq_refl E Hu Hca Hs) as Hm.
  destruct Hm as (b & envoy & Hr & Hp & _ & Ht).
  exists writes, ca, srv, b, envoy. split; [exact E|]. split; [exact Hs|].
  split; [exact Hr|]. split; [exact Hp|]. apply (Ht 6%Z).
  split; [lia|split; [lia|vm_compute; discriminate]].
Defined.

End TrustExamples.
