(* ===== verification/StoreTheorems.v ===== *)
(** * pkg/configstore: what a store promises

    The abstract specification of a store ([desired], [spec_save]) and the
    theorems that the operations of [ConfigStore] implement it: discovery,
    saving, construction, pushing, synchronising and the metadata of
    endpoints. *)

From stdpp Require Import options.
From S2P Require Import Prelude.
From S2P Require Import GoStd.
From S2P Require Import GoNet.
From S2P Require Import GoSlice.
From S2P Require Import Envoy.
From S2P Require Import AppConfig.
From S2P Require Import Resources.
From S2P Require Import Config.
From S2P Require Import Api.
From S2P Require Import Certs.
From S2P Require Import Utils.
From S2P Require Import ConfigStore.
From S2P Require Import Discovery.
From S2P Require Import StoreFacts.
From S2P Require Import Samples.
From Stdlib Require Import ZArith.

Module StoreTheorems.

Import AppConfig Store GoSlice Discovery StoreFacts.

(** ** Specification *)

Section spec.
Context `{Codec} `{Crypto} `{XdsCache} `{GoRuntime}.
Variable app : Type_.

(** The clusters a store should publish now: nothing when a listing fails or an
    address is not an IP address. *)
Definition desired (k : KubeCache) (m : Memory) (cs : ConfigStore) : option Published :=
  match getLocalityLbEndpoints app k (cs_Config cs) with
  | Ok disc => let g := want m cs disc in if decide (validIPs g) then Some g else None
  | _ => None
  end.

(** A save, seen from outside: the state is the sorted fingerprints last
    published, the result whether to push. *)
Definition spec_save (d : option Published) (last : option (list string))
  : option (list string) * bool :=
  match d with
  | None => (last, false)
  | Some g => let fps := GoStrings.Strings (mapFingerprints g) in
              (Some fps, negb (bool_decide (last = Some fps)))
  end.

(** The two nilable fields of a store agree. *)
Definition last_ok (cs : ConfigStore) : Prop :=
  is_Some (lastEndpoints cs) ↔ is_Some (lastEndpointsArray cs).

(** ** Lemmas *)

(** Saving against the specification, the form the theorems use. *)
Lemma save_spec `{MapOrder} k m cs m' cs' sp :
  store_ok m cs → saveLastEndpoints app k m cs = (m', cs', sp) →
  match desired k m cs with
  | None => cs' = cs ∧ sp = []
  | Some g =>
      let fps := GoStrings.Strings (mapFingerprints g) in
      (lastEndpointsArray cs = Some fps ∧ cs' = cs ∧ sp = []) ∨
      (lastEndpointsArray cs ≠ Some fps ∧ sp = [GoPush "new endpoints"] ∧
       ∃ ep, cs' = with_last ep fps cs ∧ publishes m' ep g ∧
         ∀ cla, cla ∈ ep → slice_ok m' (cla_Endpoints cla))
  end.
Proof.
  intros Hok E. destruct (saveLastEndpoints_outcome _ _ _ _ _ _ _ Hok E)
    as [disc ep Ed Hv Hl Hp Hsl|disc Ed Hv Hl|disc Ed Hv|Ed _]; unfold desired.
  - rewrite Ed, decide_True by done. right. eauto 10.
  - rewrite Ed, decide_True by done. by left.
  - by rewrite Ed, decide_False.
  - by destruct (getLocalityLbEndpoints app k (cs_Config cs)).
Qed.

Lemma save_desired `{MapOrder} k m cs m' cs' sp :
  store_ok m cs → saveLastEndpoints app k m cs = (m', cs', sp) →
  store_ok m' cs' ∧ desired k m' cs' = desired k m cs.
Proof.
  intros Hok E. destruct (saveLastEndpoints_frame _ _ _ _ _ _ _ Hok E)
    as (Hok' & Hc & Hcfg & _ & _ & _ & Hf).
  split; [done|]. unfold desired. rewrite Hcfg.
  assert (∀ disc, want m' cs' disc = want m cs disc) as Hw.
  { intros disc. unfold want. rewrite Hc.
    apply (want_frame m m' cs disc Hok). intros t Ht Ha. by apply Hf. }
  destruct (getLocalityLbEndpoints app k (cs_Config cs)); [by rewrite Hw|done..].
Qed.

Lemma save_last_ok `{MapOrder} k m cs m' cs' sp :
  store_ok m cs → saveLastEndpoints app k m cs = (m', cs', sp) → last_ok cs → last_ok cs'.
Proof.
  intros Hok E Hl. pose proof (save_spec _ _ _ _ _ _ Hok E) as Hs.
  destruct (desired k m cs) as [g|]; [|by destruct Hs as [-> _]].
  destruct Hs as [(_ & -> & _)|(_ & _ & ep & -> & _)]; [done|].
  unfold last_ok; simpl. by split; eexists.
Qed.

(** What is wanted for one cluster. *)
Lemma want_lookup m cs disc cl :
  lookupNil (want m cs disc) cl = read m (slot (configEndpoints cs) cl) ++ lookupNil disc cl.
Proof.
  unfold lookupNil, want, slot. rewrite lookup_union_with, lookup_fmap.
  destruct (configEndpoints cs !! cl), (disc !! cl); simpl;
    by rewrite ?app_nil_r.
Qed.

Lemma publishes_elem m ep g cla :
  publishes m ep g → cla ∈ ep →
  g !! cla_ClusterName cla = Some (read m (cla_Endpoints cla)).
Proof.
  intros Hp Hin. apply elem_of_map_to_list. rewrite <-Hp.
  by apply (list_elem_of_fmap_2 (λ cla, (cla_ClusterName cla, read m (cla_Endpoints cla)))).
Qed.

Lemma publishes_names m ep g :
  publishes m ep g → map cla_ClusterName ep ≡ₚ (map_to_list g).*1.
Proof.
  unfold publishes. intros <-. apply reflexive_eq. induction ep as [|x ep IH]; csimpl; [done|].
  by rewrite IH.
Qed.

Lemma publishes_NoDup m ep g : publishes m ep g → NoDup (map cla_ClusterName ep).
Proof. intros ->%publishes_names. apply NoDup_fst_map_to_list. Qed.

Lemma clusterInvalidIP_false l :
  clusterInvalidIP l = false ↔
  ∀ e lb, e ∈ l → lb ∈ lle_LbEndpoints e → GoNet.ParseIP_ok (GetAddress lb) = true.
Proof.
  unfold clusterInvalidIP. rewrite <-not_true_iff_false, existsb_exists.
  setoid_rewrite existsb_exists. setoid_rewrite <-list_elem_of_In.
  setoid_rewrite negb_true_iff. split.
  - intros Hn e lb He Hlb. apply not_false_is_true. intros Hp. apply Hn. eauto 10.
  - intros Ha (e & He & lb & Hlb & Hp). by rewrite (Ha e lb) in Hp.
Qed.

Lemma validIPs_lookup (g : Published) :
  validIPs g ↔ ∀ cl e lb, e ∈ lookupNil g cl → lb ∈ lle_LbEndpoints e →
                          GoNet.ParseIP_ok (GetAddress lb) = true.
Proof.
  unfold validIPs, map_Forall, lookupNil. setoid_rewrite clusterInvalidIP_false. split.
  - intros Hv cl e lb He. destruct (g !! cl) as [l|] eqn:Hl; [by eapply Hv|].
    by apply elem_of_nil in He.
  - intros Hv cl l Hl e lb He. apply (Hv cl). by rewrite Hl.
Qed.

(** What a desired map holds for each cluster. *)
Lemma desired_Some k m cs g :
  desired k m cs = Some g →
  validIPs g ∧ (∀ cl, lookupNil g cl = read m (slot (configEndpoints cs) cl)
                                      ++ discovered app k (cs_Config cs) cl).
Proof.
  unfold desired. destruct (getLocalityLbEndpoints _ _ _) as [disc|e|w] eqn:Ed; [|done..].
  simpl. case_decide; [|done]. intros [= <-]. split; [done|]. intros cl.
  by rewrite want_lookup, (getLocalityLbEndpoints_lookup _ _ _ _ _ Ed).
Qed.

Lemma desired_is_Some k m cs :
  is_Some (desired k m cs) ↔
  listings_ok k (Kubernetes (cs_Config cs)) ∧
  ∀ cl e lb, e ∈ read m (slot (configEndpoints cs) cl) ++ discovered app k (cs_Config cs) cl →
    lb ∈ lle_LbEndpoints e → GoNet.ParseIP_ok (GetAddress lb) = true.
Proof.
  unfold desired. rewrite <-(getLocalityLbEndpoints_is_Ok app).
  destruct (getLocalityLbEndpoints _ _ _) as [disc|e|w] eqn:Ed; simpl.
  - assert (validIPs (want m cs disc) ↔ ∀ cl e lb,
      e ∈ read m (slot (configEndpoints cs) cl) ++ discovered app k (cs_Config cs) cl →
      lb ∈ lle_LbEndpoints e → GoNet.ParseIP_ok (GetAddress lb) = true) as <-.
    { rewrite validIPs_lookup. setoid_rewrite want_lookup.
      by setoid_rewrite (getLocalityLbEndpoints_lookup _ _ _ _ _ Ed). }
    case_decide; split; [by eauto|by eauto|by intros []|by intros []].
  - split; [by intros []|by intros [[] _]].
  - split; [by intros []|by intros [[] _]].
Qed.

Lemma store_of_new `{MapOrder} ca now rnd k m config m' cs sp :
  New app ca now rnd k m config = Ok (m', cs, sp) →
  ∃ m1 cs0, store_ok m1 cs0 ∧ cs_Config cs0 = config ∧ lastEndpointsArray cs0 = None ∧
    (∀ cl, read m1 (slot (configEndpoints cs0) cl) = configuredEndpoints config cl) ∧
    saveLastEndpoints app k m1 cs0 = (m', cs, sp).
Proof.
  intros E.
  destruct (New_spec _ _ _ _ _ _ _ _ _ _ E) as (m1 & ce & ss & _ & Hok & Hr & _ & _ & Hs).
  by eexists m1, _.
Qed.

(** ** Properties *)

(** C1: saving implements its specification: with the desired clusters and the
    fingerprints published last, it replaces the fingerprints exactly when they
    changed as a multiset, starts a push exactly then, and what it hands to the
    push is the desired clusters, each once; nothing else of the store changes. *)
Theorem save_refines `{MapOrder} k m cs m' cs' sp :
  store_ok m cs →
  saveLastEndpoints app k m cs = (m', cs', sp) →
  let '(last', changed) := spec_save (desired k m cs) (lastEndpointsArray cs) in
  lastEndpointsArray cs' = last' ∧
  sp = (if changed then [GoPush "new endpoints"] else []) ∧
  (if changed
   then ∃ g ep, desired k m cs = Some g ∧ lastEndpoints cs' = Some ep ∧ publishes m' ep g
   else lastEndpoints cs' = lastEndpoints cs) ∧
  cs_Config cs' = cs_Config cs ∧ Version cs' = Version cs ∧
  cs_secrets cs' = cs_secrets cs ∧ isStoped cs' = isStoped cs.
Proof.
  intros Hok E. pose proof (save_spec _ _ _ _ _ _ Hok E) as Hs. unfold spec_save.
  destruct (desired k m cs) as [g|]; [|by destruct Hs as [-> ->]].
  destruct Hs as [(Hl & -> & ->)|(Hl & -> & ep & -> & Hp & _)].
  - by rewrite bool_decide_eq_true_2.
  - rewrite bool_decide_eq_false_2 by done. simpl. split_and!; [done..| |done|done|done|done].
    by exists g, ep.
Qed.

(** C2: a store built from a configuration publishes, for every cluster, the
    endpoints the configuration lists and then the discovered ones, each cluster
    once and none missing, and starts its first push - as soon as the listings
    answer and every address is an IP address, even when there is no endpoint. *)
Theorem New_publishes `{MapOrder} ca now rnd k m config m' cs sp :
  New app ca now rnd k m config = Ok (m', cs, sp) →
  listings_ok k (Kubernetes config) →
  (∀ cl e lb, e ∈ configuredEndpoints config cl ++ discovered app k config cl →
     lb ∈ lle_LbEndpoints e → GoNet.ParseIP_ok (GetAddress lb) = true) →
  sp = [GoPush "new endpoints"] ∧
  ∃ ep, lastEndpoints cs = Some ep ∧ NoDup (map cla_ClusterName ep) ∧
    (∀ cla, cla ∈ ep → read m' (cla_Endpoints cla)
       = configuredEndpoints config (cla_ClusterName cla)
         ++ discovered app k config (cla_ClusterName cla)) ∧
    (∀ cl, configuredEndpoints config cl ++ discovered app k config cl ≠ [] →
       cl ∈ map cla_ClusterName ep).
Proof.
  intros E Hl Hv.
  destruct (store_of_new _ _ _ _ _ _ _ _ _ E) as (m1 & cs0 & Hok & <- & Hn & Hr & Hs).
  assert (is_Some (desired k m1 cs0)) as [g Hg]
    by (apply desired_is_Some; setoid_rewrite Hr; done).
  pose proof (save_spec _ _ _ _ _ _ Hok Hs) as Hsp. rewrite Hg, Hn in Hsp.
  destruct Hsp as [[? _]|(_ & -> & ep & -> & Hp & _)]; [done|]. split; [done|].
  destruct (desired_Some _ _ _ _ Hg) as [_ Hlk].
  exists ep. simpl. split_and!; [done|by eapply publishes_NoDup| |].
  - intros cla Hin. rewrite <-Hr, <-Hlk. unfold lookupNil.
    by rewrite (publishes_elem _ _ _ _ Hp Hin).
  - intros cl. rewrite <-Hr, <-Hlk. unfold lookupNil.
    rewrite (publishes_names _ _ _ Hp), list_elem_of_fmap.
    destruct (g !! cl) as [l|] eqn:Hgl; [|done]. intros _. exists (cl, l).
    by rewrite elem_of_map_to_list.
Qed.

(** Saving is idempotent: against the same cluster state, a second save
    starts no push and changes nothing, whatever the orders in which the two
    saves iterate over their maps. *)
Theorem save_idempotent (o1 o2 : MapOrder) k m cs m1 cs1 sp1 m2 cs2 sp2 :
  store_ok m cs →
  @saveLastEndpoints _ app o1 k m cs = (m1, cs1, sp1) →
  @saveLastEndpoints _ app o2 k m1 cs1 = (m2, cs2, sp2) →
  cs2 = cs1 ∧ sp2 = [].
Proof.
  intros Hok E1 E2. destruct (save_desired _ _ _ _ _ _ Hok E1) as [Hok1 Hd].
  pose proof (save_spec _ _ _ _ _ _ Hok E1) as H1'.
  pose proof (save_spec _ _ _ _ _ _ Hok1 E2) as H2'. rewrite Hd in H2'.
  destruct (desired k m cs) as [g|]; [|done].
  destruct H2' as [(_ & ? & ?)|[Hn _]]; [done|]. destruct Hn.
  by destruct H1' as [(? & -> & _)|(_ & _ & ep & -> & _)].
Qed.

(** C19: the result of a save does not depend on the order in which Go iterates
    over its maps: the same decision, the same fingerprints and, up to the order
    of the clusters, the same published endpoints. *)
Theorem save_order_independent (o1 o2 : MapOrder) k m cs m1 cs1 sp1 m2 cs2 sp2 :
  store_ok m cs →
  @saveLastEndpoints _ app o1 k m cs = (m1, cs1, sp1) →
  @saveLastEndpoints _ app o2 k m cs = (m2, cs2, sp2) →
  sp1 = sp2 ∧ lastEndpointsArray cs1 = lastEndpointsArray cs2 ∧
  (sp1 ≠ [] → ∃ ep1 ep2, lastEndpoints cs1 = Some ep1 ∧ lastEndpoints cs2 = Some ep2 ∧
     map (λ cla, (cla_ClusterName cla, read m1 (cla_Endpoints cla))) ep1 ≡ₚ
     map (λ cla, (cla_ClusterName cla, read m2 (cla_Endpoints cla))) ep2).
Proof.
  intros Hok E1 E2.
  pose proof (save_spec _ _ _ _ _ _ Hok E1) as H1'.
  pose proof (save_spec _ _ _ _ _ _ Hok E2) as H2'.
  destruct (desired k m cs) as [g|]; [|by destruct H1' as [-> ->], H2' as [-> ->]].
  destruct H1' as [(Ha & -> & ->)|(Ha & -> & ep1 & -> & Hp1 & _)],
    H2' as [(Hb & -> & ->)|(Hb & -> & ep2 & -> & Hp2 & _)]; [done..|].
  split_and!; [done..|]. intros _. exists ep1, ep2. by rewrite Hp1, Hp2.
Qed.

(** ** Discovery *)

(** C3: discovery succeeds exactly when the listings the items need do, and then
    every cluster has the eligible pods of its selectors, in order, followed by
    the addresses of its services and of their canary services; a cluster without
    an endpoint is not a key of the result. *)
Theorem discovery_correct k c :
  match getLocalityLbEndpoints app k c with
  | Ok lb => listings_ok k (Kubernetes c) ∧
             ∀ cl, lb !! cl = match discovered app k c cl with
                              | [] => None
                              | l => Some l
                              end
  | _ => ¬ listings_ok k (Kubernetes c)
  end.
Proof.
  pose proof (getLocalityLbEndpoints_is_Ok app k c) as Hok.
  destruct (getLocalityLbEndpoints app k c) as [lb|e|w] eqn:E;
    [|by intros [? ?]%Hok..].
  split; [apply Hok; by eexists|]. intros cl.
  rewrite <-(getLocalityLbEndpoints_lookup _ _ _ _ _ E). unfold lookupNil.
  destruct (lb !! cl) as [[|x l]|] eqn:Hl; simpl; [|done..].
  by destruct (getLocalityLbEndpoints_no_empty _ _ _ _ E _ _ Hl).
Qed.

(** ** Pushing and synchronising *)

Lemma Push_draws `{!XdsCacheLaws} (uuids : nat → string) n cs cache :
  uuids n ≠ uuids (S n) →
  ∃ v n' cache', Push uuids n cs cache = Some (with_Version v cs, n', cache') ∧
    let r := Utils.snapshotResources (cs_Config cs) (default [] (lastEndpoints cs))
               (cs_secrets cs) in
    (is_ok (NewSnapshot v r) = true →
     (∀ s, (SetSnapshot (ID (cs_Config cs)) s cache).2 = None) →
     ∃ snap, NewSnapshot v r = Ok snap ∧
       GetSnapshot cache' (ID (cs_Config cs)) = Some snap ∧ GetVersion snap = v).
Proof.
  intros Hne. destruct (nextVersion_ends uuids n (Version cs) Hne) as (v & n' & Hv & _).
  unfold Push. rewrite Hv. simpl. unfold Utils.GetConfigSnapshot.
  set (r := Utils.snapshotResources _ _ _). destruct (NewSnapshot v r) as [snap|e|w] eqn:Es.
  - destruct (SetSnapshot (ID (cs_Config cs)) snap cache) as [c' e] eqn:Ec.
    eexists _, _, c'. split; [done|]. intros _ Hs. rewrite Es. exists snap.
    specialize (Hs snap). rewrite Ec in Hs. simpl in Hs. subst e.
    split_and!; [done|by eapply get_set|by eapply version_of_new].
  - eexists _, _, _. split; [done|]. rewrite Es. by intros.
  - eexists _, _, _. split; [done|]. rewrite Es. by intros.
Qed.

(** C18: a push draws a version that differs from the current one, in at most two
    draws when the draws differ; it hands the last saved endpoints, the current
    secrets and the resources of the store's configuration to the cache, under
    the node of the configuration and under no other, and leaves the cache alone
    when no snapshot can be made of them. *)
Theorem Push_correct `{!XdsCacheLaws} (uuids : nat → string) n cs cache :
  uuids n ≠ uuids (S n) →
  ∃ v n' cache', Push uuids n cs cache = Some (with_Version v cs, n', cache') ∧
    v ≠ Version cs ∧ (n < n' ≤ n + 2)%nat ∧ v = uuids (pred n') ∧
    (∀ id, id ≠ ID (cs_Config cs) → GetSnapshot cache' id = GetSnapshot cache id) ∧
    match NewSnapshot v (Utils.snapshotResources (cs_Config cs)
                           (default [] (lastEndpoints cs)) (cs_secrets cs)) with
    | Ok snap =>
        cache' = (SetSnapshot (ID (cs_Config cs)) snap cache).1 ∧
        ((SetSnapshot (ID (cs_Config cs)) snap cache).2 = None →
         GetSnapshot cache' (ID (cs_Config cs)) = Some snap ∧ GetVersion snap = v)
    | _ => cache' = cache
    end.
Proof.
  intros Hne. destruct (nextVersion_ends uuids n (Version cs) Hne)
    as (v & n' & Hv & Hd & Hn & ->).
  unfold Push. rewrite Hv. simpl. unfold Utils.GetConfigSnapshot.
  set (r := Utils.snapshotResources _ _ _).
  destruct (NewSnapshot (uuids (pred n')) r) as [snap|e|w] eqn:Es.
  - destruct (SetSnapshot (ID (cs_Config cs)) snap cache) as [c' e] eqn:Ec.
    eexists _, _, c'. rewrite Es. split_and!; [done|done|lia|lia|done| |by rewrite Ec|].
    + intros id Hid. by eapply get_set_ne.
    + rewrite Ec. simpl. intros ->. split; [by eapply get_set|by eapply version_of_new].
  - eexists _, _, cache. rewrite Es. split_and!; (done || lia).
  - eexists _, _, cache. rewrite Es. split_and!; (done || lia).
Qed.

(** [Sync] ends the process exactly when, after its save, the store has
    endpoints to publish and the cache has no snapshot for its node yet: the
    error of [GetSnapshot] is logged and its nil result is used. *)
Theorem Sync_crash_iff `{MapOrder} k m cs cache :
  (∃ why, Sync app k m cs cache = Crash why) ↔
  isStoped cs = false ∧
  is_Some (lastEndpoints (saveLastEndpoints app k m cs).1.2) ∧
  GetSnapshot cache (ID (cs_Config (saveLastEndpoints app k m cs).1.2)) = None.
Proof.
  unfold Sync, hasStoped. destruct (isStoped cs).
  { split; [by intros []|by intros []]. }
  destruct (saveLastEndpoints app k m cs) as [[m' cs1] sp1]. simpl. unfold syncCheck.
  destruct (lastEndpoints cs1) as [ep|]; simpl.
  - destruct (GetSnapshot cache (ID (cs_Config cs1))) as [snap|]; simpl.
    + case_match; simpl; split; [by intros []|by intros (_ & _ & ?)|by intros []|by intros (_ & _ & ?)].
    + split; [by eauto|by eexists].
  - split; [by intros []|by intros (_ & [] & _)].
Qed.

(** C17: [Sync] repairs a node whose snapshot is not the store's last push: when
    the versions differ it drops the record of the last save, and the save it
    starts then pushes the desired clusters again under the store's new version,
    although they have not changed. *)
Theorem Sync_heals `{!XdsCacheLaws} (o1 o2 : MapOrder) k m cs cache snap g uuids n :
  store_ok m cs → last_ok cs → isStoped cs = false → desired k m cs = Some g →
  GetSnapshot cache (ID (cs_Config cs)) = Some snap →
  GetVersion snap ≠ "" → GetVersion snap ≠ Version cs →
  uuids n ≠ uuids (S n) →
  (∀ v r, is_ok (NewSnapshot v r) = true) →
  (∀ id s c, (SetSnapshot id s c).2 = None) →
  ∃ m1 cs1 sp1, @Sync _ _ app o1 k m cs cache = Ok (m1, cs1, sp1) ∧
    GoSaveLastEndpoints ∈ sp1 ∧
    ∃ m2 cs2, @saveLastEndpoints _ app o2 k m1 cs1 = (m2, cs2, [GoPush "new endpoints"]) ∧
    ∃ v n' cache' snap' ep, Push uuids n cs2 cache = Some (with_Version v cs2, n', cache') ∧
      GetSnapshot cache' (ID (cs_Config cs)) = Some snap' ∧ GetVersion snap' = v ∧
      NewSnapshot v (Utils.snapshotResources (cs_Config cs) ep (cs_secrets cs)) = Ok snap' ∧
      publishes m2 ep g.
Proof.
  intros Hok Hlast Hrun Hg Hsnap Hne Hv Huuid Hnew Hset. unfold Sync, hasStoped.
  rewrite Hrun. destruct (@saveLastEndpoints _ app o1 k m cs) as [[m1 cs1] sp1] eqn:E1.
  destruct (save_desired _ _ _ _ _ _ Hok E1) as [Hok1 Hg1]. rewrite Hg in Hg1.
  destruct (saveLastEndpoints_frame _ _ _ _ _ _ _ Hok E1) as (_ & Hce & Hcfg & Hver & Hsec & _).
  pose proof (save_last_ok _ _ _ _ _ _ Hok E1 Hlast) as Hlast1.
  assert (is_Some (lastEndpoints cs1)) as [ep1 Hep1].
  { apply Hlast1. pose proof (save_spec _ _ _ _ _ _ Hok E1) as Hs. rewrite Hg in Hs.
    destruct Hs as [(Ha & -> & _)|(_ & _ & ep & -> & _)]; [rewrite Ha|]; by eexists. }
  unfold syncCheck. rewrite Hep1, Hcfg, Hsnap, Hver. rewrite GoStrings.length_ltb_0.
  rewrite bool_decide_eq_true_2 by done.
  rewrite (proj2 (String.eqb_neq _ _)) by done. simpl.
  eexists _, _, _. split; [done|]. split; [set_solver|].
  match goal with |- ∃ m2 cs2, saveLastEndpoints _ _ _ ?c = _ ∧ _ => set (cs1' := c) end.
  destruct (@saveLastEndpoints _ app o2 k m1 cs1') as [[m2 cs2] sp2] eqn:E2.
  assert (store_ok m1 cs1') as Hok1' by exact Hok1.
  assert (desired k m1 cs1' = Some g) as Hg1' by (rewrite <-Hg1; unfold desired; by rewrite Hcfg).
  pose proof (save_spec _ _ _ _ _ _ Hok1' E2) as Hs. rewrite Hg1' in Hs.
  destruct Hs as [(Hl & _)|(_ & -> & ep & -> & Hp & _)]; [done|].
  eexists m2, _. split; [done|].
  match goal with |- context [Push _ _ ?c _] => set (cs2 := c) end.
  destruct (Push_draws uuids n cs2 cache Huuid) as (v & n' & cache' & HP & Hdone).
  destruct (Hdone (Hnew _ _) (λ s, Hset _ s _)) as (snap' & Hsn & Hget & Hgv).
  exists v, n', cache', snap', ep. by rewrite HP, <-Hsec.
Qed.

(** ** Aliasing *)

(** C32: the endpoints the configuration lists are never altered by a save,
    although the save appends to copies of their slices: every cluster reads the
    same before and after, and so does any slice apart from them. *)
Theorem save_keeps_configured `{MapOrder} k m cs m' cs' sp :
  store_ok m cs →
  saveLastEndpoints app k m cs = (m', cs', sp) →
  store_ok m' cs' ∧ configEndpoints cs' = configEndpoints cs ∧
  (∀ cl, read m' (slot (configEndpoints cs) cl) = read m (slot (configEndpoints cs) cl)) ∧
  (∀ t, slice_ok m t → apart_all (configEndpoints cs) t → read m' t = read m t).
Proof.
  intros Hok E. destruct (saveLastEndpoints_frame _ _ _ _ _ _ _ Hok E)
    as (Hok' & Hce & _ & _ & _ & _ & Hf).
  split_and!; [done..| |intros; by apply Hf]. intros cl. unfold slot.
  destruct (configEndpoints cs !! cl) as [s|] eqn:Hs; simpl; [|done].
  apply Hf; [by eapply Hok|by eapply apart_all_own].
Qed.

(** when no configured slice has spare capacity, a save leaves every existing
    slice as it was; so what was published before reads the same until it is
    replaced, even when the save is rejected. *)
Theorem save_full_keeps_published `{MapOrder} k m cs m' cs' sp :
  store_ok m cs →
  (∀ cl, full (slot (configEndpoints cs) cl)) →
  saveLastEndpoints app k m cs = (m', cs', sp) →
  ∀ t, slice_ok m t → slice_ok m' t ∧ read m' t = read m t.
Proof.
  intros Hok Hfull. unfold saveLastEndpoints, saveCollect.
  destruct (getLocalityLbEndpoints app k (cs_Config cs)) as [disc|e|w];
    [|by intros [= <- <- <-]..].
  destruct (appendEndpoints (range_order disc) m (configEndpoints cs)) as [m1 lb1] eqn:Ea.
  pose proof (appendEndpoints_full _ _ _ _ _ Hok (NoDup_range disc) (λ c _, Hfull c) Ea) as Hf.
  destruct (publishLoop (range_order lb1) m1) as [p []]; [by intros [= <- <- <-]|].
  unfold saveCommit. case_bool_decide; by intros [= <- <- <-].
Qed.

(** ** Endpoint metadata *)

(** The metadata Envoy's load balancer sees for the endpoint of a pod. *)
Definition lb_fields (e : LocalityLbEndpoints) : gmap string StructValue :=
  default ∅ (head (lle_LbEndpoints e) ≫= λ lb, lb_Metadata lb !! "envoy.lb").

(** the endpoint of a pod is published as a main endpoint with the pod's
    name, address and node, and with every label of the pod but the template
    hash under the prefix; no label can change the canary or stage marks. *)
Theorem podEndpoint_metadata k item pod :
  let f := lb_fields (podEndpoint app k item pod) in
  f !! "canary" = Some (BoolValue false) ∧
  f !! "stage" = Some (StringValue "main") ∧
  f !! envoyMetaPodName = Some (StringValue (pod_Name pod)) ∧
  f !! envoyMetaEndpointIP = Some (StringValue (pod_PodIP pod)) ∧
  f !! envoyMetaNodeName = Some (StringValue (pod_NodeName pod)) ∧
  ∀ l, f !! (envoyMetaPodLabels +:+ l) =
    (if decide (l = podLabelIgnore) then None
     else StringValue <$> (default ∅ (pod_Labels pod) !! l)).
Proof.
  unfold lb_fields, podEndpoint, getEnvoyLocalityLbEndpoint.
  cbn [lle_LbEndpoints head mbind option_bind lb_Metadata].
  rewrite lookup_singleton_eq. cbn [default from_option id].
  match goal with |- context [metadataEnvoyLB ?e] => set (e0 := e) end.
  destruct (metadataEnvoyLB_reserved e0 (k8sKeys_pod pod)) as [-> ->].
  split_and!; [done|done|apply metadataEnvoyLB_own; simpl; unfold getEnvoyMetaFromPod;
    by simplify_map_eq..|].
  intros l. unfold metadataEnvoyLB. rewrite lookup_union_l.
  - rewrite lookup_fmap. unfold e0, getEnvoyMetaFromPod. cbn [ee_Metadata].
    rewrite !lookup_insert_ne by done.
    destruct (pod_Labels pod) as [labels|]; cbn [from_option id].
    + rewrite metaLabels_lookup. by case_decide.
    + rewrite lookup_empty. by case_decide.
  - by rewrite !lookup_insert_ne, lookup_empty by done.
Qed.

(** an address of a service is published as canary exactly when it comes from
    the canary service, and its metadata gives its address, its node when it has
    one and its pod's name when it is backed by a pod. *)
Theorem addressEndpoint_metadata k item canary a :
  let f := lb_fields (addressEndpoint app k item (canary, a)) in
  f !! "canary" = Some (BoolValue canary) ∧
  f !! "stage" = Some (StringValue (if canary then "canary" else "main")) ∧
  f !! envoyMetaEndpointIP = Some (StringValue (addr_IP a)) ∧
  (∀ n, addr_NodeName a = Some n → f !! envoyMetaNodeName = Some (StringValue n)) ∧
  (∀ r, addr_TargetRef a = Some r → ref_Kind r = "Pod" →
        f !! envoyMetaPodName = Some (StringValue (ref_Name r))).
Proof.
  unfold lb_fields, addressEndpoint, getEnvoyLocalityLbEndpoint.
  cbn [lle_LbEndpoints head mbind option_bind lb_Metadata fst snd].
  rewrite lookup_singleton_eq. cbn [default from_option id].
  match goal with |- context [metadataEnvoyLB ?e] => set (e0 := e) end.
  destruct (metadataEnvoyLB_reserved e0 (k8sKeys_endpoint k a)) as [-> ->].
  split_and!; [done|done|..].
  - apply metadataEnvoyLB_own. simpl. unfold getEnvoyMetaFromEndpoint. by simplify_map_eq.
  - intros n Hn. apply metadataEnvoyLB_own. simpl. unfold getEnvoyMetaFromEndpoint.
    rewrite Hn. by simplify_map_eq.
  - intros r Hr Hk. apply metadataEnvoyLB_own. simpl. unfold getEnvoyMetaFromEndpoint.
    rewrite Hr, Hk. simpl. destruct (addr_NodeName a); by simplify_map_eq.
Qed.

End spec.
End StoreTheorems.
