(* ===== verification/Listers.v ===== *)
(** * pkg/api: listers that answer in another order

    client-go lists what its cache holds in the order of a Go map, so two listings
    of the same cluster may differ in their order.  What a store should publish is
    the same for both, up to the order within each cluster. *)

From stdpp Require Import options.
From S2P Require Import Prelude.
From S2P Require Import GoStd.
From S2P Require Import GoSlice.
From S2P Require Import Envoy.
From S2P Require Import AppConfig.
From S2P Require Import Resources.
From S2P Require Import Config.
From S2P Require Import Api.
From S2P Require Import Certs.
From S2P Require Import Utils.
From S2P Require Import ConfigStore.
From S2P Require Import Discovery.
From S2P Require Import StoreFacts.
From S2P Require Import StoreTheorems.
From Stdlib Require Import ZArith.

Set Default Proof Using "Type*".

Module Listers.

Import AppConfig Store Discovery GoSlice StoreFacts StoreTheorems.

(** Both listings fail, or both give the same elements. *)
Definition same_listing {A} (r r' : res (list A)) : Prop :=
  match r, r' with
  | Ok l, Ok l' => l ≡ₚ l'
  | Ok _, _ | _, Ok _ => False
  | _, _ => True
  end.

(** The same cluster, listed again. *)
Record same_answers (k k' : KubeCache) : Prop := {
  same_pods : ∀ sel, same_listing (podLister_List k sel) (podLister_List k' sel);
  same_pod : ∀ namespace name, podLister_Get k' namespace name = podLister_Get k namespace name;
  same_node : ∀ name, nodeLister_Get k' name = nodeLister_Get k name;
  same_endpoint : ∀ name, Api.GetEndpoint k' name = Api.GetEndpoint k name }.

Lemma same_answers_refl k : same_answers k k.
Proof. constructor; [|done..]. intros sel. unfold same_listing. by destruct (podLister_List k sel). Qed.

(** The order of the endpoints does not matter where names are not shared. *)
Lemma findEndpoint_permutation name l l' :
  NoDup (map eps_Name l) → l ≡ₚ l' → Api.findEndpoint name l = Api.findEndpoint name l'.
Proof.
  intros Hnd Hp. revert Hnd. induction Hp as [|e l l' Hp IH|e1 e2 l|l l1 l2 H1 IH1 H2 IH2]; simpl.
  - done.
  - intros [_ Hnd]%NoDup_cons. by rewrite IH.
  - intros [Hn _]%NoDup_cons. apply not_elem_of_cons in Hn as [Hn _].
    destruct (Api.canary_disabled name e1), (Api.canary_disabled name e2); try done.
    destruct (String.eqb_spec (eps_Name e1) name), (String.eqb_spec (eps_Name e2) name); congruence.
  - intros Hnd. rewrite IH1 by done. apply IH2. by rewrite <-H1.
Qed.

(** ** Discovery *)

(** The same clusters, each with the same elements. *)
Definition same_lists (g g' : Published) : Prop :=
  ∀ name, option_Forall2 Permutation (g !! name) (g' !! name).

Lemma same_lists_refl g : same_lists g g.
Proof. intros name. destruct (g !! name); by constructor. Qed.

Lemma same_lists_sym g g' : same_lists g g' → same_lists g' g.
Proof. intros Hs name. destruct (Hs name); by constructor. Qed.

Lemma same_lists_trans g1 g2 g3 : same_lists g1 g2 → same_lists g2 g3 → same_lists g1 g3.
Proof.
  intros H1 H2 name. specialize (H1 name). specialize (H2 name).
  destruct H1 as [x y Hxy|]; inversion H2; subst; constructor. by etrans.
Qed.

Section discovery.
Variable app : Type_.
Variables k k' : KubeCache.
Hypothesis same : same_answers k k'.

Lemma same_endpoint_of e : getEnvoyLocalityLbEndpoint app k' e = getEnvoyLocalityLbEndpoint app k e.
Proof.
  unfold getEnvoyLocalityLbEndpoint, getEndpointLocality, Api.GetNode. by rewrite (same_node _ _ same).
Qed.

Lemma same_selectorPart item : selectorPart app k item ≡ₚ selectorPart app k' item.
Proof.
  unfold selectorPart, Api.ListPods. destruct (k_Selector item) as [sel|]; [|done].
  pose proof (same_pods _ _ same sel) as Hp. unfold same_listing in Hp.
  destruct (podLister_List k sel) as [l| |], (podLister_List k' sel) as [l'| |]; try done.
  unfold podEndpoint. rewrite <-Hp. apply reflexive_eq, map_ext.
  intros pod. by rewrite same_endpoint_of.
Qed.

Lemma same_servicePart item : servicePart app k' item = servicePart app k item.
Proof.
  unfold servicePart, serviceAddresses. rewrite !(same_endpoint _ _ same).
  apply map_ext. intros ca. unfold addressEndpoint. rewrite same_endpoint_of. do 2 f_equal.
  unfold getEnvoyMetaFromEndpoint, Api.GetPod.
  destruct (addr_TargetRef ca.2); [|done]. by rewrite (same_pod _ _ same).
Qed.

Lemma same_discovered c cl : discovered app k c cl ≡ₚ discovered app k' c cl.
Proof.
  unfold discovered.
  assert (map (servicePart app k') (itemsOf cl (Kubernetes c))
    = map (servicePart app k) (itemsOf cl (Kubernetes c))) as ->.
  { apply map_ext. apply same_servicePart. }
  apply Permutation_app_tail. induction (itemsOf cl (Kubernetes c)) as [|i items IH]; [done|].
  simpl. by rewrite same_selectorPart, IH.
Qed.

Lemma same_listings_ok items : listings_ok k items → listings_ok k' items.
Proof.
  intros Hok i Hi. destruct (Hok i Hi) as [Hs He]. split.
  - intros sel Hsel. destruct (Hs sel Hsel) as [l Hl]. pose proof (same_pods _ _ same sel) as Hp.
    unfold Api.ListPods in *. rewrite Hl in Hp. unfold same_listing in Hp.
    destruct (podLister_List k' sel) as [l'| |]; [by exists l'|done..].
  - intros Hne. destruct (He Hne) as [l Hl]. apply (GetEndpoint_is_Ok k' (k_Service i)).
    rewrite (same_endpoint _ _ same). apply GetEndpoint_is_Ok. by exists l.
Qed.

(** What a listing that succeeds gives is the same. *)
Lemma same_discovery c disc :
  getLocalityLbEndpoints app k c = Ok disc →
  ∃ disc', getLocalityLbEndpoints app k' c = Ok disc' ∧ same_lists disc disc'.
Proof.
  intros E. destruct (proj2 (getLocalityLbEndpoints_is_Ok app k' c)) as [disc' E'].
  { apply same_listings_ok. apply (getLocalityLbEndpoints_is_Ok app k c). by exists disc. }
  exists disc'. split; [done|]. intros name.
  pose proof (getLocalityLbEndpoints_lookup _ _ _ _ name E) as H1.
  pose proof (getLocalityLbEndpoints_lookup _ _ _ _ name E') as H2.
  pose proof (getLocalityLbEndpoints_no_empty _ _ _ _ E name) as N1.
  pose proof (getLocalityLbEndpoints_no_empty _ _ _ _ E' name) as N2.
  pose proof (same_discovered c name) as Hp. rewrite <-H1, <-H2 in Hp. unfold lookupNil in Hp.
  destruct (disc !! name) as [l|], (disc' !! name) as [l'|]; simpl in Hp.
  - by constructor.
  - apply Permutation_nil_r in Hp. by destruct (N1 l eq_refl).
  - symmetry in Hp. apply Permutation_nil_r in Hp. by destruct (N2 l' eq_refl).
  - constructor.
Qed.

End discovery.

Lemma same_answers_sym k k' : same_answers k k' → same_answers k' k.
Proof.
  intros [Hp Hg Hn He]. constructor; try done. intros sel. specialize (Hp sel).
  unfold same_listing in *. by destruct (podLister_List k sel), (podLister_List k' sel).
Qed.

(** ** What a store should publish *)

Lemma same_want `{GoRuntime} m cs disc disc' :
  same_lists disc disc' → same_lists (want m cs disc) (want m cs disc').
Proof.
  intros Hs name. unfold want. rewrite !lookup_union_with, !lookup_fmap.
  specialize (Hs name). destruct (configEndpoints cs !! name), Hs; simpl; constructor; try done.
  by apply Permutation_app_head.
Qed.

Lemma same_validIPs g g' : same_lists g g' → validIPs g → validIPs g'.
Proof.
  intros Hs Hv name l' Hl'. specialize (Hs name). rewrite Hl' in Hs. inversion Hs as [l ? Hp E|]; subst.
  symmetry in E. specialize (Hv name l E). simpl in Hv. rewrite <-Hv.
  unfold clusterInvalidIP. by rewrite (existsb_permutation _ _ _ Hp).
Qed.

Lemma same_fingerprints g g' : same_lists g g' → mapFingerprints g ≡ₚ mapFingerprints g'.
Proof.
  unfold mapFingerprints. revert g'. induction g as [|i x m Hi IH] using map_ind; intros g' Hs.
  - assert (g' = ∅) as ->; [|done]. apply map_eq. intros name. specialize (Hs name).
    rewrite lookup_empty in *. by inversion Hs.
  - pose proof (Hs i) as Hsi. rewrite lookup_insert_eq in Hsi. inversion Hsi as [? y Hxy E E'|]; subst.
    symmetry in E'. rewrite <-(insert_delete_id g' i y E').
    rewrite !map_to_list_insert by (done || apply lookup_delete_eq). simpl.
    apply Permutation_app; [by apply concat_map_permutation|apply IH].
    intros name. specialize (Hs name). destruct (decide (i = name)) as [<-|Hne].
    + rewrite lookup_delete_eq, Hi. constructor.
    + by rewrite lookup_delete_ne, lookup_insert_ne in * by done.
Qed.

Section stores.
Context `{Codec} `{Crypto} `{XdsCache} `{GoRuntime}.
Variable app : Type_.
Variables k k' : KubeCache.
Hypothesis same : same_answers k k'.

Lemma same_desired m cs g :
  desired app k m cs = Some g → ∃ g', desired app k' m cs = Some g' ∧ same_lists g g'.
Proof using All.
  unfold desired. destruct (getLocalityLbEndpoints app k (cs_Config cs)) as [disc| |] eqn:E; [|done..].
  destruct (same_discovery app k k' same _ _ E) as (disc' & -> & Hd).
  case_decide as Hv; [|done]. intros [= <-].
  pose proof (same_want m cs _ _ Hd) as Hw. eexists. rewrite decide_True; [done|].
  by eapply same_validIPs.
Qed.

End stores.

(** The fingerprints a store should have are the same. *)
Lemma same_target `{Codec} `{Crypto} `{XdsCache} `{GoRuntime} app k k' m cs :
  same_answers k k' →
  (λ g, GoStrings.Strings (mapFingerprints g)) <$> desired app k m cs
  = (λ g, GoStrings.Strings (mapFingerprints g)) <$> desired app k' m cs.
Proof.
  intros Hs. destruct (desired app k m cs) as [g|] eqn:E.
  - destruct (same_desired app k k' Hs _ _ _ E) as (g' & -> & Hg). simpl. f_equal.
    by apply GoStrings.Strings_eq_iff, same_fingerprints.
  - destruct (desired app k' m cs) as [g'|] eqn:E'; [|done].
    destruct (same_desired app k' k (same_answers_sym _ _ Hs) _ _ _ E') as (g & Eg & _). congruence.
Qed.

End Listers.
