(* ===== verification/StoreExamples.v ===== *)
(** * pkg/configstore on concrete clusters

    Two behaviours shown by a run (the reuse of spare capacity, and changes the
    fingerprints do not see), and the theorems of [StoreTheorems] at concrete
    inputs. *)

From stdpp Require Import options.
From S2P Require Import Prelude.
From S2P Require Import GoStd.
From S2P Require Import GoNet.
From S2P Require Import GoSlice.
From S2P Require Import Envoy.
From S2P Require Import AppConfig.
From S2P Require Import Resources.
From S2P Require Import Config.
From S2P Require Import Api.
From S2P Require Import Certs.
From S2P Require Import Utils.
From S2P Require Import ConfigStore.
From S2P Require Import Discovery.
From S2P Require Import StoreFacts.
From S2P Require Import Samples.
From S2P Require Import StoreTheorems.
From Stdlib Require Import ZArith.

Module StoreExamples.

Import Samples Store GoSlice Discovery StoreFacts StoreTheorems.

#[local] Existing Instances codec crypto xds parser runtime_doubling map_order_std.
#[local] Existing Instances codec_laws crypto_laws xds_laws.

(** ** Inputs *)

(** A configuration that lists endpoints of the cluster [web] itself. *)
Definition listed (ips : list string) : ConfigType :=
  web_config "n" (map (λ ip, IString ("web@" +:+ ip)) ips).

(** The service [web] with one address, backed by the pod [pod]. *)
Definition kube_pod (ip pod : string) : KubeCache :=
  mkKubeCache (λ _, Ok []) (λ _ _, Ok None) (λ _, Err (Prelude.New "not found"))
    (Ok [mkK8sEndpoints "web" ∅ [mkEndpointSubset
           [mkEndpointAddress ip None (Some (mkObjectReference "Pod" "ns" pod))]]]) (Ok []).

(** A store without configured endpoints, not saved yet. *)
Definition store0 : ConfigStore :=
  mkConfigStore "" (web_config "n" []) ∅ None None [] false.

Lemma store0_ok m : store_ok m store0.
Proof. apply slices_ok_empty. Qed.

Lemma store0_last_ok : last_ok store0.
Proof. split; by intros []. Qed.

Definition kube1 : KubeCache := kube_web ["10.0.0.1"].

(** Its first save, against the service with one address. *)
Definition saved : Memory * ConfigStore * list Spawn := saveLastEndpoints app kube1 ∅ store0.

Lemma triple_eta {A B C} (t : A * B * C) : t = (t.1.1, t.1.2, t.2).
Proof. by destruct t as [[] ]. Qed.

Lemma draws_differ : uuids 0 ≠ uuids 1.
Proof. by intros E%(inj uuids). Qed.

(** ** Behaviours *)

(** Whether some published cluster has an address that is not an IP address. *)
Definition publishes_invalid (m : Memory) (cs : ConfigStore) : bool :=
  existsb (λ cla, clusterInvalidIP (read m (cla_Endpoints cla)))
    (default [] (lastEndpoints cs)).

(** with spare capacity in a configured slice, a save that is rejected for an
    invalid address still writes that address into the list published before it:
    the append happens in the array the two lists share. *)
Theorem rejected_save_rewrites_published :
  match Store.New app ca 0 5 kube1 ∅ (listed ["1.1.1.1"; "2.2.2.2"; "3.3.3.3"]) with
  | Ok (m, cs, _) =>
      let '(m', cs', sp) := saveLastEndpoints app (kube_web ["not-an-ip"]) m cs in
      lastEndpoints cs' = lastEndpoints cs ∧ sp = [] ∧
      publishes_invalid m cs = false ∧ publishes_invalid m' cs' = true
  | _ => False
  end.
Proof. vm_compute. by split_and!. Qed.

(** The metadata of the only endpoint of the only cluster published. *)
Definition published_pod (m : Memory) (cs : ConfigStore) : option StructValue :=
  match lastEndpoints cs with
  | Some [cla] => match read m (cla_Endpoints cla) with
                  | [e] => lb_fields e !! envoyMetaPodName
                  | _ => None
                  end
  | _ => None
  end.

(** a change of metadata alone is never pushed: when another pod takes over
    an address, the desired endpoints name the new pod, the save sees no change
    and the published endpoints keep naming the old one. *)
Theorem metadata_change_not_pushed :
  let '(m, cs, _) := saveLastEndpoints app (kube_pod "10.0.0.1" "old") ∅ store0 in
  let '(m', cs', sp) := saveLastEndpoints app (kube_pod "10.0.0.1" "new") m cs in
  let '(mn, csn, _) := saveLastEndpoints app (kube_pod "10.0.0.1" "new") ∅ store0 in
  sp = [] ∧ published_pod m' cs' = Some (StringValue "old") ∧
  published_pod mn csn = Some (StringValue "new").
Proof. vm_compute. by split_and!. Qed.

(** ** Witnesses *)

Lemma save_refines_witness :
  lastEndpointsArray saved.1.2 = Some ["web|unknown|0|10.0.0.1|80|0"] ∧
  saved.2 = [GoPush "new endpoints"].
Proof.
  pose proof (save_refines app kube1 ∅ store0 saved.1.1 saved.1.2 saved.2 (store0_ok ∅)
    (triple_eta _)) as H.
  destruct (spec_save (desired app kube1 ∅ store0) (lastEndpointsArray store0))
    as [l c] eqn:E. vm_compute in E. injection E as <- <-.
  destruct H as (Ha & Hs & _). by split.
Defined.

Definition new_run : res (Memory * ConfigStore * list Spawn) :=
  New app ca 0 5 kube1 ∅ (listed ["1.1.1.1"]).
Definition new_state : Memory * ConfigStore * list Spawn :=
  match new_run with Ok t => t | _ => (∅, store0, []) end.

Lemma new_state_eq : new_run = Ok (new_state.1.1, new_state.1.2, new_state.2).
Proof.
  rewrite <-triple_eta. assert (is_ok new_run = true) as E by (vm_compute; reflexivity).
  unfold new_state. by destruct new_run.
Qed.

Lemma kube1_listings items : listings_ok kube1 items.
Proof. intros i _. split; [intros; by eexists|intros; by eexists]. Qed.

Lemma listed_decodes :
  ∃ l, Resources.YamlToResources (Endpoints (listed ["1.1.1.1"]))
         Resources.TClusterLoadAssignment = Ok [REndpoint (mkCLA "web" l)].
Proof. eexists. vm_compute. reflexivity. Qed.

Lemma New_publishes_witness :
  new_state.2 = [GoPush "new endpoints"] ∧
  ∃ ep, lastEndpoints new_state.1.2 = Some ep ∧ "web" ∈ map cla_ClusterName ep.
Proof.
  destruct (New_publishes app ca 0 5 kube1 ∅ (listed ["1.1.1.1"]) new_state.1.1
    new_state.1.2 new_state.2 new_state_eq (kube1_listings _)) as (Hs & ep & He & _ & _ & Hin).
  - intros cl. apply (proj1 (clusterInvalidIP_false _)).
    unfold configuredEndpoints, discovered, itemsOf.
    change (Kubernetes (listed ["1.1.1.1"])) with [kitem "web" "web"].
    rewrite filter_cons. case_decide as Hc; simpl in Hc.
    + subst cl. by vm_compute.
    + destruct listed_decodes as [l ->]. unfold configured. simpl.
      by rewrite decide_False.
  - split; [done|]. exists ep. split; [done|]. apply Hin. vm_compute. discriminate.
Defined.
(** A second save of [store0], with the other order of iteration. *)
Definition saved_again : Memory * ConfigStore * list Spawn :=
  @saveLastEndpoints _ app map_order_rev kube1 saved.1.1 saved.1.2.

Lemma save_idempotent_witness :
  saved.2 = [GoPush "new endpoints"] ∧ saved_again.1.2 = saved.1.2 ∧ saved_again.2 = [].
Proof.
  split; [vm_compute; reflexivity|].
  apply (save_idempotent app map_order_std map_order_rev kube1 ∅ store0
    saved.1.1 saved.1.2 saved.2 saved_again.1.1); [apply store0_ok|apply triple_eta..].
Defined.

(** Two clusters, so that the order matters. *)
Definition store2 : ConfigStore :=
  mkConfigStore ""
    (Config.with_identity "n" "n" "" "" "" ∅ [kitem "web" "web"; kitem "api" "web"]
       (web_config "n" [])) ∅ None None [] false.

Definition saved_by (o : MapOrder) : Memory * ConfigStore * list Spawn :=
  @saveLastEndpoints _ app o kube1 ∅ store2.

Lemma save_order_independent_witness :
  lastEndpoints (saved_by map_order_std).1.2 ≠ lastEndpoints (saved_by map_order_rev).1.2 ∧
  lastEndpointsArray (saved_by map_order_std).1.2
    = lastEndpointsArray (saved_by map_order_rev).1.2.
Proof.
  split; [vm_compute; discriminate|].
  apply (save_order_independent app map_order_std map_order_rev kube1 ∅ store2
    (saved_by map_order_std).1.1 _ (saved_by map_order_std).2
    (saved_by map_order_rev).1.1 _ (saved_by map_order_rev).2);
    [apply slices_ok_empty|apply triple_eta..].
Defined.

Lemma Push_correct_witness :
  ∃ v n' cache', Push uuids 0 store0 ∅ = Some (with_Version v store0, n', cache') ∧
  (0 < n' ≤ 2)%nat ∧ is_Some (GetSnapshot cache' "n") ∧ GetSnapshot cache' "other" = None.
Proof.
  destruct (Push_correct uuids 0 store0 ∅ draws_differ)
    as (v & n' & cache' & HP & _ & Hn & _ & Hne & Hs).
  exists v, n', cache'. destruct Hs as [_ Hs]. destruct Hs as [Hs _]; [reflexivity|].
  split; [exact HP|]. split; [exact Hn|]. split; [by eexists|]. by rewrite Hne by done.
Defined.

(** A cache where another process published for the node [n]. *)
Definition foreign : @SnapshotCache xds :=
  {["n" := ("other", mkSnapshotResources [] [] [] [] [])]}.

Lemma desired_store0 : is_Some (desired app kube1 ∅ store0).
Proof. vm_compute. by eexists. Qed.

Lemma Sync_heals_witness :
  ∃ m1 cs1 sp1, Sync app kube1 ∅ store0 foreign = Ok (m1, cs1, sp1) ∧
    ∃ m2 cs2, saveLastEndpoints app kube1 m1 cs1 = (m2, cs2, [GoPush "new endpoints"]).
Proof.
  destruct desired_store0 as [g Hg].
  destruct (Sync_heals app map_order_std map_order_std kube1 ∅ store0 foreign
    ("other", mkSnapshotResources [] [] [] [] []) g uuids 0 (store0_ok ∅)
    store0_last_ok eq_refl Hg eq_refl)
    as (m1 & cs1 & sp1 & Hs & _ & m2 & cs2 & Hs2 & _);
    [discriminate|discriminate|apply draws_differ|reflexivity|reflexivity|].
  exists m1, cs1, sp1. split; [exact Hs|]. exists m2, cs2. exact Hs2.
Defined.

(** A store whose configuration lists three endpoints of [web], in an array with
    room for a fourth, where its first save put the discovered one; and a copy of
    the array that is none of the store's. *)
Definition listed_store : Memory * ConfigStore :=
  match Store.New app ca 0 5 kube1 ∅ (listed ["1.1.1.1"; "2.2.2.2"; "3.3.3.3"]) with
  | Ok (m, cs, _) => (<[9%nat := default [] (m !! 2%nat)]> m, cs)
  | _ => (∅, store0)
  end.

Definition listed_slice : Slice := mkSlice 2 3 4.

Lemma listed_endpoints : configEndpoints listed_store.2 = {["web" := listed_slice]}.
Proof. vm_compute. reflexivity. Qed.

Lemma listed_slice_ok : slice_ok listed_store.1 listed_slice.
Proof.
  split; [simpl; lia|right]. exists (default [] (listed_store.1 !! 2%nat)).
  split; [vm_compute; reflexivity|apply (bool_decide_unpack _); vm_compute; exact I].
Qed.

Lemma listed_store_ok : store_ok listed_store.1 listed_store.2.
Proof.
  unfold store_ok. rewrite listed_endpoints. split.
  - intros key s [_ <-]%lookup_singleton_Some. apply listed_slice_ok.
  - by intros k1 k2 s1 s2 [<- _]%lookup_singleton_Some [<- _]%lookup_singleton_Some.
Qed.

(** The service has moved: the save writes into the fourth place of the array. *)
Definition moved_save : Memory * ConfigStore * list Spawn :=
  saveLastEndpoints app (kube_web ["10.0.0.2"]) listed_store.1 listed_store.2.

Lemma moved_writes :
  bool_decide (moved_save.1.1 !! 2%nat ≠ listed_store.1 !! 2%nat ∧
    length (read moved_save.1.1 listed_slice) = 3%nat) = true.
Proof. vm_compute. reflexivity. Qed.

Lemma save_keeps_configured_witness :
  moved_save.1.1 !! 2%nat ≠ listed_store.1 !! 2%nat ∧
  length (read listed_store.1 (slot (configEndpoints listed_store.2) "web")) = 3%nat ∧
  read moved_save.1.1 (slot (configEndpoints listed_store.2) "web")
    = read listed_store.1 (slot (configEndpoints listed_store.2) "web") ∧
  read moved_save.1.1 (mkSlice 9 4 4) = read listed_store.1 (mkSlice 9 4 4).
Proof.
  destruct (save_keeps_configured app (kube_web ["10.0.0.2"]) listed_store.1 listed_store.2
    moved_save.1.1 moved_save.1.2 moved_save.2 listed_store_ok (triple_eta _))
    as (_ & _ & Hr & Ht).
  pose proof (bool_decide_eq_true_1 _ moved_writes) as [Hw Hlen].
  split; [exact Hw|]. split.
  { rewrite <-Hr, listed_endpoints. exact Hlen. }
  split; [apply Hr|]. apply Ht.
  - split; [simpl; lia|right]. exists (default [] (listed_store.1 !! 9%nat)).
    split; [vm_compute; reflexivity|apply (bool_decide_unpack _); vm_compute; exact I].
  - intros key s. rewrite listed_endpoints. intros [_ <-]%lookup_singleton_Some.
    right; right; left. discriminate.
Defined.

(** The loop of a save that appends what it discovered in a cluster. *)
Definition appended_at (k : KubeCache) (m : Memory) (cs : ConfigStore)
  : Memory * gmap string Slice :=
  match getLocalityLbEndpoints app k (cs_Config cs) with
  | Ok disc => appendEndpoints (range_order disc) m (configEndpoints cs)
  | _ => (m, configEndpoints cs)
  end.

(** saves of one store that overlap are not apart: when another save appends
    between the two loops of a save, then with spare capacity the first one
    publishes what the second discovered. *)
Lemma overlapping_saves_mix :
  let cs := listed_store.2 in
  let '(m1, lb) := appended_at (kube_web ["10.0.0.2"]) listed_store.1 cs in
  let '(m2, _) := appended_at (kube_web ["10.0.0.3"]) m1 cs in
  let publishes_it a m := existsb (String.eqb ("web|unknown|0|" +:+ a +:+ "|80|0"))
    (publishEpArray (publishLoop (range_order lb) m).1) in
  map (publishes_it "10.0.0.2") [m1; m2] = [true; false] ∧
  map (publishes_it "10.0.0.3") [m1; m2] = [false; true].
Proof. vm_compute. split; reflexivity. Qed.

(** The published list of [saved], after a save that is rejected. *)
Definition rejected : Memory * ConfigStore * list Spawn :=
  saveLastEndpoints app (kube_web ["not-an-ip"]) saved.1.1 saved.1.2.

Lemma save_full_keeps_published_witness :
  read rejected.1.1 (mkSlice 0 1 1) = read saved.1.1 (mkSlice 0 1 1) ∧
  read saved.1.1 (mkSlice 0 1 1) ≠ [].
Proof.
  split; [|vm_compute; discriminate].
  apply (save_full_keeps_published app (kube_web ["not-an-ip"]) saved.1.1 saved.1.2
    rejected.1.1 rejected.1.2 rejected.2).
  - eapply saveLastEndpoints_frame; [apply (store0_ok ∅)|apply triple_eta].
  - reflexivity.
  - apply triple_eta.
  - split; [vm_compute; lia|]. right. eexists. split; [vm_compute; reflexivity|].
    vm_compute. lia.
Defined.

End StoreExamples.
