(* ===== verification/WorldFacts.v ===== *)
(** * The invariant of the shared state

    [world_ok]: every key of the store map is the node of a store in the heap,
    every store's slices are well formed, and the configured slices of two stores
    never share an array.  The lemmas show that each way the program changes the
    state keeps it. *)

From stdpp Require Import options.
From S2P Require Import Prelude.
From S2P Require Import GoStd.
From S2P Require Import GoSlice.
From S2P Require Import Envoy.
From S2P Require Import AppConfig.
From S2P Require Import Resources.
From S2P Require Import Config.
From S2P Require Import Api.
From S2P Require Import Certs.
From S2P Require Import Utils.
From S2P Require Import ConfigStore.
From S2P Require Import Discovery.
From S2P Require Import StoreFacts.
From S2P Require Import StoreTheorems.
From S2P Require Import ConfigMapsStore.
From Stdlib Require Import ZArith.

Module WorldFacts.

Import AppConfig Store GoSlice StoreFacts StoreTheorems ConfigMapsStore.

Section world.
Context `{Codec} `{ConfigParser} `{Crypto} `{XdsCache} `{GoRuntime}.
Variable app : Type_.
Variable ca : Certs.CA.

Definition stores_apart (cs1 cs2 : ConfigStore) : Prop :=
  ∀ k1 k2 s1 s2, configEndpoints cs1 !! k1 = Some s1 → configEndpoints cs2 !! k2 = Some s2 →
    disjoint_slices s1 s2.

Record world_ok (w : World) : Prop := {
  map_ok : ∀ id l, StoreMap w !! id = Some l →
    ∃ cs, w_heap w !! l = Some cs ∧ ID (cs_Config cs) = id;
  heap_ok : ∀ l cs, w_heap w !! l = Some cs → store_ok (w_mem w) cs ∧ last_ok cs;
  heap_apart : ∀ l1 l2 cs1 cs2, l1 ≠ l2 → w_heap w !! l1 = Some cs1 →
    w_heap w !! l2 = Some cs2 → stores_apart cs1 cs2 }.

(** Stores are never dropped and keep their configuration. *)
Definition heap_le (w w' : World) : Prop :=
  ∀ l cs, w_heap w !! l = Some cs →
    ∃ cs', w_heap w' !! l = Some cs' ∧ cs_Config cs' = cs_Config cs.

Lemma heap_le_refl w : heap_le w w.
Proof. intros l cs ?. by exists cs. Qed.

#[global] Instance heap_le_preorder : PreOrder heap_le.
Proof.
  split; [exact heap_le_refl|]. intros w1 w2 w3 H12 H23 l cs Hl.
  destruct (H12 _ _ Hl) as (cs2 & Hl2 & <-). by apply H23.
Qed.

(** A store replaced by one with the same configuration and slices. *)
Definition same_core (cs cs' : ConfigStore) : Prop :=
  configEndpoints cs' = configEndpoints cs ∧ cs_Config cs' = cs_Config cs.

Lemma heap_le_update w l cs cs' :
  w_heap w !! l = Some cs → same_core cs cs' → heap_le w (set_store l cs' w).
Proof.
  intros Hl [_ Hc] l' cs1 Hl'. simpl. rewrite lookup_insert.
  case_decide; simplify_eq; by eexists.
Qed.

Lemma world_ok_update w l cs cs' :
  world_ok w → w_heap w !! l = Some cs → same_core cs cs' → last_ok cs' →
  world_ok (set_store l cs' w).
Proof.
  intros [Hm Hh Ha] Hl [Hce Hcf] Hlast. constructor; simpl.
  - intros id l' Hid. destruct (Hm _ _ Hid) as (cs1 & Hcs1 & <-).
    rewrite lookup_insert. case_decide; simplify_eq; eexists; split; (done || congruence).
  - intros l' cs1. rewrite lookup_insert. case_decide; [|apply Hh].
    intros [= <-]. split; [|done]. unfold store_ok. rewrite Hce. by apply (Hh l cs).
  - intros l1 l2 cs1 cs2 Hne. unfold stores_apart. rewrite !lookup_insert.
    repeat case_decide; intros; simplify_eq; rewrite ?Hce in *; by eapply (Ha l1 l2).
Qed.

Lemma disjoint_sym s t : disjoint_slices s t → disjoint_slices t s.
Proof. intros [?|[?|?]]; unfold disjoint_slices; auto. Qed.

(** Saving one store leaves the slices of the others alone. *)
Lemma world_ok_collect `{MapOrder} w l cs k m' r :
  world_ok w → w_heap w !! l = Some cs → saveCollect app k (w_mem w) cs = (m', r) →
  world_ok (set_mem m' w).
Proof.
  intros Hw Hl E. pose proof Hw as [Hm Hh Ha]. constructor; simpl; [done| |done].
  intros l' cs' Hl'. destruct (Hh _ _ Hl') as [Hok' Hlast']. split; [|done].
  destruct (Hh _ _ Hl) as [Hok _].
  destruct (saveCollect_spec app k (w_mem w) cs m' r Hok E) as (Hok1 & Hf & _).
  destruct (decide (l' = l)) as [->|Hne]; [by simplify_eq|].
  split; [|apply Hok']. intros key s Hs. apply Hf; [by eapply Hok'|].
  intros key2 s2 Hs2. apply disjoint_apart. by eapply (Ha l l').
Qed.

(** ** New stores *)

(** A store built in [m]: what it is and what it leaves alone. *)
Lemma New_frame `{MapOrder} now rnd k m config m' cs sp :
  New app ca now rnd k m config = Ok (m', cs, sp) →
  cs_Config cs = config ∧ Version cs = "" ∧ isStoped cs = false ∧
  store_ok m' cs ∧ last_ok cs ∧
  (∀ t, slice_ok m t → slice_ok m' t ∧ read m' t = read m t ∧
     ∀ key s, configEndpoints cs !! key = Some s → disjoint_slices s t).
Proof.
  intros E.
  destruct (New_spec _ _ _ _ _ _ _ _ _ _ E) as (m1 & ce & ss & _ & Hok & _ & Hf & Hfr & Hs).
  destruct (saveLastEndpoints_frame _ _ _ _ _ _ _ Hok Hs)
    as (Hok' & Hce & Hcf & Hv & _ & Hst & Hf').
  split_and!; [done..| |].
  - eapply save_last_ok; [exact Hok|exact Hs|]. split; by intros [].
  - intros t Ht. rewrite Hce. simpl.
    assert (∀ key s, ce !! key = Some s → disjoint_slices s t) as Hd
      by (intros key s Hks; by eapply fresh_from_disjoint).
    destruct (Hf t Ht) as [Ht1 <-]. destruct (Hf' t Ht1) as [Ht2 <-]; [|done].
    intros key s Hks. by eapply disjoint_apart, Hd.
Qed.

Lemma heap_le_alloc m cs sp w : heap_le w (allocStore m cs sp w).1.
Proof.
  intros l cs1 Hl. simpl. rewrite lookup_insert_ne; [by exists cs1|].
  intros He. apply (is_fresh (dom (w_heap w))). rewrite He. apply elem_of_dom. by exists cs1.
Qed.

Lemma alloc_lookup m cs sp w :
  w_heap (allocStore m cs sp w).1 !! (allocStore m cs sp w).2 = Some cs.
Proof. simpl. by rewrite lookup_insert_eq. Qed.

Lemma world_ok_alloc `{MapOrder} w now rnd k config m' cs sp :
  world_ok w → New app ca now rnd k (w_mem w) config = Ok (m', cs, sp) →
  world_ok (allocStore m' cs sp w).1.
Proof.
  intros [Hm Hh Ha] E. destruct (New_frame _ _ _ _ _ _ _ _ E) as (_ & _ & _ & Hok & Hlast & Hf).
  assert (∀ l' cs', w_heap w !! l' = Some cs' → stores_apart cs cs' ∧ store_ok m' cs') as Hnew.
  { intros l' cs' Hl'. destruct (Hh _ _ Hl') as [Hok' _]. split.
    - intros k1 k2 s1 s2 Hs1 Hs2. by eapply Hf; [eapply Hok'|].
    - split; [|apply Hok']. intros key s Hs. by eapply Hf, Hok'. }
  constructor; simpl.
  - intros id l Hid. destruct (Hm _ _ Hid) as (cs1 & Hl & <-).
    destruct (heap_le_alloc m' cs sp w l cs1 Hl) as (cs2 & Hl2 & <-). eauto.
  - intros l cs1. rewrite lookup_insert. case_decide; [by intros [= <-]|].
    intros Hl. split; [by eapply Hnew|by eapply Hh].
  - intros l1 l2 cs1 cs2 Hne. rewrite !lookup_insert.
    repeat case_decide; intros; simplify_eq.
    + by eapply Hnew.
    + intros k1 k2 s1 s2 Hs1 Hs2. apply disjoint_sym.
      edestruct Hnew as [Hap _]; [done|]. by eapply Hap.
    + by eapply (Ha l1 l2).
Qed.

Lemma world_ok_register w id l cs :
  world_ok w → w_heap w !! l = Some cs → ID (cs_Config cs) = id →
  world_ok (registerStore id l w).
Proof.
  intros [Hm Hh Ha] Hl Hid. constructor; simpl; [|done..]. intros id' l'.
  rewrite lookup_insert. case_decide; [|apply Hm]. intros [= <-]. subst. eauto.
Qed.

Lemma world_ok_deleteKey w key :
  world_ok w → world_ok (set_StoreMap (delete key (StoreMap w)) w).
Proof.
  intros [Hm Hh Ha]. constructor; simpl; [|done..]. intros id l.
  rewrite lookup_delete_Some. intros [_ ?]. by apply Hm.
Qed.

(** The invariant does not see the cache, the draws and the goroutines. *)
Lemma world_ok_same w w' :
  world_ok w → w_mem w' = w_mem w → w_heap w' = w_heap w → StoreMap w' = StoreMap w →
  world_ok w'.
Proof. intros [Hm Hh Ha] E1 E2 E3. constructor; rewrite ?E1, ?E2, ?E3; done. Qed.

(** What the operations on one store do to its core. *)
Lemma saveCommit_core p cs cs' sp :
  saveCommit p cs = (cs', sp) →
  same_core cs cs' ∧ Version cs' = Version cs ∧ (last_ok cs → last_ok cs').
Proof.
  unfold saveCommit. case_bool_decide; intros [= <- <-]; [done|]. split_and!; [done..|].
  intros _. unfold last_ok; simpl. by split; eexists.
Qed.

Lemma syncCheck_core cs cache cs' sp :
  syncCheck cs cache = Ok (cs', sp) →
  same_core cs cs' ∧ Version cs' = Version cs ∧ (last_ok cs → last_ok cs').
Proof.
  unfold syncCheck. destruct (lastEndpoints cs); [|by intros [= <- <-]].
  destruct (GetSnapshot _ _); [|done]. case_match; intros [= <- <-]; [|done].
  split_and!; [done..|]. intros _. split; by intros [].
Qed.

Lemma LoadNewSecrets_core now rnd cs cs' :
  LoadNewSecrets app ca now rnd cs = Ok cs' →
  same_core cs cs' ∧ Version cs' = Version cs ∧ (last_ok cs → last_ok cs').
Proof.
  unfold LoadNewSecrets. rewrite bind_Ok. by intros (ss & _ & [= <-]).
Qed.

Lemma Push_core uuids n cs cache cs' n' cache' :
  Push uuids n cs cache = Some (cs', n', cache') →
  ∃ v, nextVersion versionFuel uuids n (Version cs) = Some (v, n') ∧
    cs' = with_Version v cs ∧
    (cache' = cache ∨ ∃ snap,
       NewSnapshot v (Utils.snapshotResources (cs_Config cs)
         (default [] (lastEndpoints cs)) (cs_secrets cs)) = Ok snap ∧
       cache' = (SetSnapshot (ID (cs_Config cs)) snap cache).1).
Proof.
  unfold Push. destruct (nextVersion _ _ _ _) as [[v n1]|]; simpl; [|done].
  unfold Utils.GetConfigSnapshot. intros E. exists v.
  destruct (NewSnapshot v _) as [snap|e|w] eqn:Es; simpl in Es.
  - destruct (SetSnapshot _ _ _) as [c e] eqn:Ec. injection E as <- <- <-.
    split_and!; [done..|]. right. exists snap. split; [done|].
    simpl in Ec. by rewrite Ec.
  - injection E as <- <- <-. split_and!; [done..|by left].
  - injection E as <- <- <-. split_and!; [done..|by left].
Qed.

Lemma stopExisting_core id w :
  stopExisting id w = w ∨
  ∃ l cs, StoreMap w !! id = Some l ∧ w_heap w !! l = Some cs ∧
    stopExisting id w = set_store l (Stop cs) w.
Proof.
  unfold stopExisting. destruct (StoreMap w !! id) as [l|] eqn:Em; simpl; [|by left].
  destruct (w_heap w !! l) as [cs|] eqn:El; simpl; [|by left]. right. eauto.
Qed.

Lemma buildEntry_Ok `{MapOrder} now rnd k config w w' l :
  buildEntry app ca now rnd k config w = (w', Ok l) →
  ∃ config' m' cs sp, Config.SaveResources app config = Ok config' ∧
    ID config' = ID config ∧
    New app ca now rnd k (w_mem w) config' = Ok (m', cs, sp) ∧
    w' = (allocStore m' cs sp w).1 ∧ l = (allocStore m' cs sp w).2.
Proof.
  unfold buildEntry.
  destruct (Config.SaveResources app config) as [config'|e|y] eqn:Es; [|done..].
  simpl.
  destruct (New app ca now rnd k (w_mem w) config') as [[[m' cs] sp]|e|y] eqn:En; [|done..].
  intros [= <- <-]. exists config', m', cs, sp. split_and!; [done| |done..].
  unfold Config.SaveResources in Es.
  do 4 (rewrite bind_Ok in Es; destruct Es as (? & _ & Es)).
  ok_step Es as [li1 ro1].
  ok_step Es as li2. by injection Es as <-.
Qed.

Lemma buildEntry_fail `{MapOrder} now rnd k config w w' r :
  buildEntry app ca now rnd k config w = (w', r) → is_ok r = false → w' = w.
Proof.
  unfold buildEntry. destruct (wrap _ _) as [config'|e|y]; [|by intros [= <- <-]..].
  destruct (New _ _ _ _ _ _ _) as [[[m' cs] sp]|e|y]; by intros [= <- <-].
Qed.

Lemma stopExisting_spec id w :
  world_ok w →
  let w1 := stopExisting id w in
  world_ok w1 ∧ StoreMap w1 = StoreMap w ∧ dom (w_heap w1) = dom (w_heap w) ∧
  (∀ l cs, StoreMap w !! id = Some l → w_heap w !! l = Some cs →
     w_heap w1 !! l = Some (Stop cs)) ∧
  (∀ l, StoreMap w !! id ≠ Some l → w_heap w1 !! l = w_heap w !! l).
Proof.
  intros Hw. simpl. unfold stopExisting.
  destruct (StoreMap w !! id) as [l|] eqn:Em; simpl; [|by split_and!].
  destruct (w_heap w !! l) as [cs|] eqn:El; simpl.
  - split_and!; [|done|rewrite dom_insert_L; apply elem_of_dom_2 in El; set_solver| |].
    + eapply world_ok_update; [done..|]. by apply (heap_ok _ Hw l cs).
    + intros l' cs' [= <-] ?. simplify_eq. by rewrite lookup_insert_eq.
    + intros l' Hne. rewrite lookup_insert_ne by congruence. done.
  - split_and!; [done..| |done]. intros l' cs' [= <-]. congruence.
Qed.

End world.
End WorldFacts.

(** The routine goals of a proof that an action keeps the shared state. *)
#[export] Hint Resolve WorldFacts.world_ok_same WorldFacts.world_ok_collect
  WorldFacts.world_ok_deleteKey WorldFacts.world_ok_register WorldFacts.world_ok_alloc
  WorldFacts.heap_le_alloc : ecp.
#[export] Hint Extern 1 (WorldFacts.heap_le ?w _) =>
  exact (WorldFacts.heap_le_refl w) : ecp.
#[export] Hint Extern 2 (Forall _ _) => by repeat constructor : ecp.
