(* ===== verification/MapsTheorems.v ===== *)
(** * pkg/configmapsstore: theorems

    Which ConfigMaps are loaded, what one entry of a ConfigMap does to the
    process, and what the deletion of a ConfigMap removes. *)

From stdpp Require Import options.
From S2P Require Import Prelude.
From S2P Require Import GoStd.
From S2P Require Import GoSlice.
From S2P Require Import Envoy.
From S2P Require Import AppConfig.
From S2P Require Import Resources.
From S2P Require Import Config.
From S2P Require Import Api.
From S2P Require Import Certs.
From S2P Require Import Utils.
From S2P Require Import ConfigStore.
From S2P Require Import Discovery.
From S2P Require Import StoreFacts.
From S2P Require Import StoreTheorems.
From S2P Require Import ConfigMapsStore.
From S2P Require Import WorldFacts.
From S2P Require Import Samples.
From Stdlib Require Import ZArith.

Module MapsTheorems.

Import AppConfig ConfigMapsStore WorldFacts.

(** with exact names configured, the ConfigMaps loaded are those of the list;
    otherwise those whose label has the configured value, where a missing label
    counts as the empty value - and a label setting without "=" ends the process
    at the first ConfigMap. *)
Theorem checkConfigMapLabels_correct app cm :
  match checkConfigMapLabels app cm with
  | Ok b =>
      (ConfigMapNames app ≠ "" ∧
       (b = true ↔ cm_Name cm ∈ GoStrings.Split (ConfigMapNames app) ",")) ∨
      (ConfigMapNames app = "" ∧ ∃ key value rest,
         GoStrings.Split (ConfigMapLabels app) "=" = key :: value :: rest ∧
         (b = true ↔ default "" (cm_Labels cm !! key) = value))
  | Err _ => False
  | Crash _ => ConfigMapNames app = "" ∧
               "="%char ∉ String.list_ascii_of_string (ConfigMapLabels app)
  end.
Proof.
  unfold checkConfigMapLabels. rewrite GoStrings.length_eqb_0.
  case_bool_decide as Hn; simpl.
  - pose proof (GoStrings.Split_second (ConfigMapLabels app) "=") as Hs.
    destruct (GoStrings.Split (ConfigMapLabels app) "=") as [|l0 [|l1 ls]].
    + split; [done|]. intros Hin%Hs. by destruct Hin.
    + split; [done|]. intros Hin%Hs. by destruct Hin.
    + right. split; [done|]. exists l0, l1, ls. by rewrite String.eqb_eq.
  - left. split; [done|]. rewrite existsb_exists. setoid_rewrite <-list_elem_of_In. split.
    + by intros (x & Hx & <-%String.eqb_eq).
    + intros Hx. eexists. by rewrite String.eqb_refl.
Qed.

(** the configuration of an entry: its node is the identifier it gives, or
    the entry's key, followed by the value of its version label when it asks for
    it and the ConfigMap has one; it remembers where it comes from, and every
    Kubernetes item gets the ConfigMap's namespace when it has none. *)
Theorem prepareConfig_correct cm nodeID c :
  let c' := prepareConfig cm nodeID c in
  let id := if decide (ID c = "") then nodeID else ID c in
  let label := default "" (cm_Labels cm !! VersionLabelKey c) in
  ID c' = (if decide (UseVersionLabel c = true ∧ label ≠ "")
           then id +:+ "-" +:+ label else id) ∧
  Name c' = (if decide (Name c = "") then id else Name c) ∧
  ConfigMapName c' = cm_Name cm ∧ ConfigMapNamespace c' = cm_Namespace cm ∧
  (∀ key, ConfigMapAnnotations c' !! key = cm_Annotations cm ≫= (λ a, a !! key)) ∧
  (cm_Namespace cm ≠ "" → Forall (λ i, k_Namespace i ≠ "") (Kubernetes c')) ∧
  map (λ i, (k_ClusterName i, k_Port i, k_Selector i, k_Service i)) (Kubernetes c')
    = map (λ i, (k_ClusterName i, k_Port i, k_Selector i, k_Service i)) (Kubernetes c).
Proof.
  unfold prepareConfig. simpl. rewrite !GoStrings.length_eqb_0, GoStrings.length_ltb_0.
  split_and!.
  - repeat case_decide; repeat case_bool_decide; destruct (UseVersionLabel c); simpl;
      naive_solver.
  - repeat case_decide; repeat case_bool_decide; naive_solver.
  - done.
  - done.
  - intros key. by destruct (cm_Annotations cm).
  - intros Hn. apply Forall_fmap, Forall_true. intros i. simpl.
    rewrite GoStrings.length_eqb_0. by case_bool_decide.
  - rewrite map_map. apply map_ext. intros i. by case_match.
Qed.

Section maps.
Context `{Codec} `{ConfigParser} `{Crypto} `{XdsCache} `{GoRuntime}.
Variable app : Type_.
Variable ca : Certs.CA.

(** What a successful entry does to the process. *)
Lemma newEntry_Ok `{MapOrder} now rnd k cm nodeID text w w' :
  world_ok w → newEntry app ca now rnd k cm nodeID text w = (w', Ok ()) →
  world_ok w' ∧
  ∃ c0 l cs, Config.ParseConfigYaml nodeID text = Ok c0 ∧
    let id := ID (prepareConfig cm nodeID c0) in
    StoreMap w' = <[id := l]> (StoreMap w) ∧
    w_heap w !! l = None ∧ w_heap w' !! l = Some cs ∧
    ID (cs_Config cs) = id ∧ isStoped cs = false ∧
    (∀ lo old, StoreMap w !! id = Some lo → w_heap w !! lo = Some old →
       w_heap w' !! lo = Some (Store.Stop old)) ∧
    (∀ l', l' ≠ l → StoreMap w !! id ≠ Some l' → w_heap w' !! l' = w_heap w !! l').
Proof.
  intros Hw. unfold newEntry.
  destruct (Config.ParseConfigYaml nodeID text) as [c0|e|y]; [|done..].
  set (cfg := prepareConfig cm nodeID c0).
  destruct (stopExisting_spec (ID cfg) w Hw) as (Hw1 & Hm1 & Hd1 & Hold & Hrest).
  set (w1 := stopExisting (ID cfg) w) in *.
  destruct (buildEntry app ca now rnd k cfg w1) as [w2 r] eqn:Eb.
  destruct r as [l|e|y]; [|done..]. intros [= <-].
  apply buildEntry_Ok in Eb as (c' & m' & cs & sp & _ & Hid & Hn & -> & ->).
  pose proof (alloc_lookup m' cs sp w1) as Hl.
  pose proof (world_ok_alloc app ca w1 now rnd k c' m' cs sp Hw1 Hn) as Hw2.
  apply New_frame in Hn as (Hc & _ & Hst & _).
  assert (ID (cs_Config cs) = ID cfg) as Hidcs by congruence.
  split; [by eapply world_ok_register|].
  assert (w_heap w !! (allocStore m' cs sp w1).2 = None) as Hfresh.
  { apply not_elem_of_dom. rewrite <-Hd1. apply is_fresh. }
  exists c0, (allocStore m' cs sp w1).2, cs. split_and!; try done.
  - simpl. by rewrite Hm1.
  - intros lo old Hlo Hold'. simpl.
    rewrite lookup_insert_ne; [by apply Hold|]. intros <-.
    change (w_heap w !! (allocStore m' cs sp w1).2 = Some old) in Hold'. congruence.
  - intros l' Hne Hl'. simpl. rewrite lookup_insert_ne; [by apply Hrest|]. by apply not_eq_sym.
Qed.

(** C23: an entry that loads replaces the store of its node: a new, running store
    of the entry's configuration is registered under the node, the store it
    replaces is stopped, and no other store or key changes. *)
Theorem newEntry_registers `{MapOrder} now rnd k cm nodeID text w w' :
  world_ok w →
  newEntry app ca now rnd k cm nodeID text w = (w', Ok ()) →
  world_ok w' ∧
  ∃ c0 l cs, Config.ParseConfigYaml nodeID text = Ok c0 ∧
    let id := ID (prepareConfig cm nodeID c0) in
    StoreMap w' = <[id := l]> (StoreMap w) ∧
    w_heap w !! l = None ∧ w_heap w' !! l = Some cs ∧
    ID (cs_Config cs) = id ∧ isStoped cs = false ∧
    (∀ lo old, StoreMap w !! id = Some lo → w_heap w !! lo = Some old →
       w_heap w' !! lo = Some (Store.Stop old)) ∧
    (∀ l', l' ≠ l → StoreMap w !! id ≠ Some l' → w_heap w' !! l' = w_heap w !! l').
Proof. apply newEntry_Ok. Qed.

(** C37: an entry that cannot be built freezes its node: when its resources do not
    decode, the error is returned with the old store still registered but
    stopped, and nothing else changed; from then on that store ignores pods,
    endpoints and synchronisation. *)
Theorem newEntry_failure_freezes `{MapOrder} now rnd k cm nodeID text w c0 e l cs :
  Config.ParseConfigYaml nodeID text = Ok c0 →
  let cfg := prepareConfig cm nodeID c0 in
  Config.SaveResources app cfg = Err e →
  StoreMap w !! ID cfg = Some l → w_heap w !! l = Some cs →
  newEntry app ca now rnd k cm nodeID text w
    = (set_store l (Store.Stop cs) w,
       Err (Wrapped e "error in config.SaveResources")) ∧
  ∀ k' m' cache', Store.NewPod app k' m' (Store.Stop cs) = (m', Store.Stop cs, []) ∧
    Store.Sync app k' m' (Store.Stop cs) cache' = Ok (m', Store.Stop cs, []).
Proof.
  intros Hp cfg Hs Hm Hl. split; [|done].
  assert (stopExisting (ID cfg) w = set_store l (Store.Stop cs) w) as Hst
    by (unfold stopExisting; rewrite Hm; simpl; by rewrite Hl).
  unfold newEntry. rewrite Hp. fold cfg. rewrite Hst. unfold buildEntry. by rewrite Hs.
Qed.

(** an entry whose template does not parse ends the whole process, not just
    its own load: [template.Must] panics. *)
Theorem bad_template_crashes `{MapOrder} now rnd k cm nodeID text e w :
  template_Parse nodeID text = Err e →
  ∃ why, (newEntry app ca now rnd k cm nodeID text w).2 = Crash why.
Proof.
  intros Hp. unfold newEntry, Config.ParseConfigYaml. rewrite Hp. by eexists.
Qed.

(** ** Deletion *)

(** A key whose store comes from the ConfigMap. *)
Definition doomed (cm : ConfigMap) (w : World) (key : string) : bool :=
  match StoreMap w !! key ≫= λ l, w_heap w !! l with
  | Some cs => fromConfigMap cm cs
  | None => false
  end.

(** What a deletion leaves of a key it reached, and of one it spared. *)
Definition removed (w w' : World) (key : string) : Prop :=
  StoreMap w' !! key = None ∧ GetSnapshot (w_cache w') key = None ∧
  ∀ l cs, StoreMap w !! key = Some l → w_heap w !! l = Some cs →
    w_heap w' !! l = Some (Store.Stop cs).

Definition spared (w w' : World) (key : string) : Prop :=
  StoreMap w' !! key = StoreMap w !! key ∧
  GetSnapshot (w_cache w') key = GetSnapshot (w_cache w) key ∧
  ∀ l cs, StoreMap w !! key = Some l → w_heap w !! l = Some cs → w_heap w' !! l = Some cs.

Lemma deleteVisit_spec `{!XdsCacheLaws} cm w key l :
  world_ok w → StoreMap w !! key = Some l →
  let w1 := deleteVisit cm w (key, l) in
  world_ok w1 ∧
  (doomed cm w key = true → removed w w1 key) ∧
  (doomed cm w key = false → w1 = w) ∧
  (∀ key', key' ≠ key → spared w w1 key' ∧ doomed cm w1 key' = doomed cm w key').
Proof.
  intros Hw Hk. simpl. destruct (map_ok _ Hw _ _ Hk) as (cs & Hl & Hid).
  unfold deleteVisit, doomed. simpl. rewrite Hk. simpl. rewrite Hl.
  destruct (fromConfigMap cm cs) eqn:Hf; [|by split_and!].
  unfold clearStore. simpl. rewrite lookup_insert_eq. simpl. rewrite Hid.
  split_and!; [| |done|].
  - apply (world_ok_deleteKey
      (set_cache (ClearSnapshot key (w_cache w)) (set_store l (Store.Stop cs) w)) key). 
    apply (world_ok_same (set_store l (Store.Stop cs) w)); [|done..].
    eapply world_ok_update; [done..|]. by apply (heap_ok _ Hw l cs).
  - intros _. split_and!; simpl; [by rewrite lookup_delete_eq|by rewrite get_clear|].
    intros l' cs' ??. simplify_eq. by rewrite lookup_insert_eq.
  - intros key' Hne. unfold spared. simpl. rewrite lookup_delete_ne by done.
    assert (∀ l' cs', StoreMap w !! key' = Some l' → w_heap w !! l' = Some cs' → l ≠ l') as Hll.
    { intros l' cs' Hk' Hl' ->. destruct (map_ok _ Hw _ _ Hk') as (cs2 & ? & ?).
      simplify_eq. }
    split; [split_and!; [done|by rewrite get_clear_ne|]|].
    + intros l' cs' Hk' Hl'. rewrite lookup_insert_ne by (by eapply Hll). done.
    + destruct (StoreMap w !! key') as [l'|] eqn:Hk'; simpl; [|done].
      destruct (map_ok _ Hw _ _ Hk') as (cs' & Hl' & _).
      rewrite lookup_insert_ne by (by eapply Hll). done.
Qed.

(** A stopped store stays stopped. *)
Lemma deleteVisits_stopped cm order w l cs :
  w_heap w !! l = Some (Store.Stop cs) →
  w_heap (foldl (deleteVisit cm) w order) !! l = Some (Store.Stop cs).
Proof.
  revert w. induction order as [|[key0 l0] order IH]; intros w Hl; simpl; [done|].
  apply IH. unfold deleteVisit. simpl. destruct (w_heap w !! l0) as [cs0|] eqn:Hl0; [|done].
  destruct (fromConfigMap cm cs0); [|done]. unfold clearStore. simpl.
  rewrite lookup_insert_eq. simpl. rewrite lookup_insert. case_decide; [|done].
  by simplify_eq.
Qed.

(** The visits of a whole iteration. *)
Lemma deleteVisits_spec `{!XdsCacheLaws} cm order w :
  world_ok w → NoDup order.*1 → (∀ key l, (key, l) ∈ order → StoreMap w !! key = Some l) →
  ∀ key, if decide (key ∈ order.*1 ∧ doomed cm w key = true)
         then removed w (foldl (deleteVisit cm) w order) key
         else spared w (foldl (deleteVisit cm) w order) key.
Proof.
  revert w. induction order as [|[key0 l0] order IH]; intros w Hw Hnd Hin key.
  - rewrite decide_False; [by split_and!|]. by intros [?%elem_of_nil _].
  - cbn [foldl]. rewrite fmap_cons in *. cbn [fst] in *. apply NoDup_cons in Hnd as [Hn0 Hnd].
    destruct (deleteVisit_spec cm w key0 l0 Hw (Hin key0 l0 (list_elem_of_here _ _)))
      as (Hw1 & Hd & Hs & Ho).
    set (w1 := deleteVisit cm w (key0, l0)) in *.
    assert (∀ key' l', (key', l') ∈ order → key' ≠ key0) as Hne.
    { intros key' l' Hin' ->. apply Hn0. by apply (list_elem_of_fmap_2 fst _ (key0, l')). }
    assert (∀ key' l', (key', l') ∈ order → StoreMap w1 !! key' = Some l') as Hin1.
    { intros key' l' Hin'. destruct (Ho key' (Hne _ _ Hin')) as [[-> _] _].
      apply Hin. by right. }
    specialize (IH w1 Hw1 Hnd Hin1 key). set (w2 := foldl (deleteVisit cm) w1 order) in *.
    destruct (decide (key = key0)) as [->|Hk].
    + rewrite decide_False in IH by (by intros []). destruct IH as (I1 & I2 & I3).
      destruct (doomed cm w key0) eqn:Hdm.
      * rewrite decide_True by (split; [by left|done]).
        destruct (Hd eq_refl) as (D1 & D2 & D3). split_and!; [congruence|congruence|].
        intros l cs Hl Hcs. apply deleteVisits_stopped. by eapply D3.
      * rewrite decide_False by (by intros []). rewrite (Hs eq_refl) in *. by split_and!.
    + destruct (Ho key Hk) as [(S1 & S2 & S3) Hdm]. rewrite Hdm in IH.
      assert (key ∈ (key0 :: order.*1) ∧ doomed cm w key = true ↔
              key ∈ order.*1 ∧ doomed cm w key = true) as Hiff
        by (rewrite elem_of_cons; naive_solver).
      destruct (decide (key ∈ order.*1 ∧ doomed cm w key = true)) as [Hy|Hy];
        [rewrite decide_True by (by apply Hiff)|rewrite decide_False by (by rewrite Hiff)];
        destruct IH as (I1 & I2 & I3); (split_and!; [congruence..|]);
        intros l cs Hl Hcs; (apply I3; [by rewrite S1|by eapply S3]).
Qed.

(** C24: deleting a ConfigMap removes exactly what came from it: for every node
    with a store from the ConfigMap, the store is stopped, its map entry goes and
    the cache has no snapshot for the node; every other node keeps its entry, its
    store and its snapshot. *)
Theorem DeleteConfigMap_correct `{!XdsCacheLaws} `{MapOrder} cm w :
  world_ok w →
  ∀ key, if doomed cm w key then removed w (DeleteConfigMap cm w) key
         else spared w (DeleteConfigMap cm w) key.
Proof.
  intros Hw key. unfold DeleteConfigMap.
  pose proof (deleteVisits_spec cm (range_order (StoreMap w)) w Hw (NoDup_range _)
    (λ key l, proj1 (elem_of_range (StoreMap w) key l)) key) as Hs.
  destruct (doomed cm w key) eqn:Hd.
  - rewrite decide_True in Hs; [done|]. split; [|done]. unfold doomed in Hd.
    destruct (StoreMap w !! key) as [l|] eqn:Hk; [|done].
    apply (list_elem_of_fmap_2 fst _ (key, l)). by apply elem_of_range.
  - rewrite decide_False in Hs; [done|]. by intros [].
Qed.

End maps.
End MapsTheorems.
