(* ===== verification/MapsExamples.v ===== *)
(** * pkg/configmapsstore: the theorems at concrete inputs *)

From stdpp Require Import options.
From S2P Require Import Prelude.
From S2P Require Import GoStd.
From S2P Require Import GoSlice.
From S2P Require Import Envoy.
From S2P Require Import AppConfig.
From S2P Require Import Resources.
From S2P Require Import Config.
From S2P Require Import Api.
From S2P Require Import Certs.
From S2P Require Import Utils.
From S2P Require Import ConfigStore.
From S2P Require Import Discovery.
From S2P Require Import StoreFacts.
From S2P Require Import StoreTheorems.
From S2P Require Import ConfigMapsStore.
From S2P Require Import WorldFacts.
From S2P Require Import Samples.
From S2P Require Import MapsTheorems.
From Stdlib Require Import ZArith.

Module MapsExamples.

Import Samples ConfigMapsStore WorldFacts MapsTheorems.

#[local] Existing Instances codec crypto xds parser runtime_doubling map_order_std.
#[local] Existing Instances xds_laws.

(** ** Inputs *)

Definition cm : ConfigMap := mkConfigMap "cm" "ns" ∅ None None.

(** A process that has just started, and one that has loaded the entry [n]. *)
Definition w0 : World := mkWorld ∅ ∅ ∅ ∅ 0 [].
Definition load (text : string) (w : World) : World * res unit :=
  newEntry app ca 0 5 (kube_web ["10.0.0.1"]) cm "n" text w.
Definition w1 : World := (load "n;web;;" w0).1.

Lemma w0_ok : world_ok w0.
Proof. constructor; simpl; intros; by simplify_map_eq. Qed.

Lemma load_w0 : load "n;web;;" w0 = (w1, Ok ()).
Proof.
  unfold w1. assert ((load "n;web;;" w0).2 = Ok ()) as E by (vm_compute; reflexivity).
  destruct (load "n;web;;" w0). simpl in *. by subst.
Qed.

(** ** Witnesses *)

Lemma newEntry_registers_witness :
  world_ok w1 ∧ ∃ l cs, StoreMap w1 !! "n" = Some l ∧ w_heap w1 !! l = Some cs ∧
    isStoped cs = false.
Proof.
  destruct (newEntry_registers app ca 0 5 (kube_web ["10.0.0.1"]) cm "n" "n;web;;" w0 w1
    w0_ok load_w0) as (Hw & c0 & l & cs & Hp & Hm & _ & Hl & _ & Hs & _).
  split; [exact Hw|]. exists l, cs. split; [|split; [exact Hl|exact Hs]].
  rewrite Hm. assert (ID (prepareConfig cm "n" c0) = "n") as ->.
  { vm_compute in Hp. injection Hp as <-. reflexivity. }
  reflexivity.
Defined.

(** The store registered in [w1]. *)
Definition st1 : ConfigStore :=
  default (mkConfigStore "" Config.emptyConfig ∅ None None [] false) (w_heap w1 !! 0%nat).

Lemma st1_eq : w_heap w1 !! 0%nat = Some st1.
Proof.
  assert (bool_decide (is_Some (w_heap w1 !! 0%nat)) = true) as Hs
    by (vm_compute; reflexivity).
  apply bool_decide_eq_true in Hs as [cs Hs]. unfold st1. by rewrite Hs.
Qed.

Lemma newEntry_failure_freezes_witness :
  ∃ e, load "n;web;;?" w1 = (set_store 0 (Store.Stop st1) w1, Err e).
Proof.
  assert (∃ c0 e, Config.ParseConfigYaml "n" "n;web;;?" = Ok c0 ∧
    Config.SaveResources app (prepareConfig cm "n" c0) = Err e ∧
    ID (prepareConfig cm "n" c0) = "n") as (c0 & e & Hp & He & Hid).
  { eexists _, _. split; [vm_compute; reflexivity|]. split; vm_compute; reflexivity. }
  eexists. apply (newEntry_failure_freezes app ca 0 5 (kube_web ["10.0.0.1"]) cm "n"
    "n;web;;?" w1 c0 e 0%nat st1 Hp He).
  - rewrite Hid. vm_compute. reflexivity.
  - exact st1_eq.
Defined.

Lemma bad_template_crashes_witness : ∃ why, (load "{{" w0).2 = Crash why.
Proof.
  apply (bad_template_crashes app ca 0 5 (kube_web ["10.0.0.1"]) cm "n" "{{"
    (New "unclosed action")). reflexivity.
Defined.

Lemma DeleteConfigMap_correct_witness :
  StoreMap w1 !! "n" = Some 0%nat ∧ StoreMap (DeleteConfigMap cm w1) !! "n" = None.
Proof.
  split; [vm_compute; reflexivity|]. assert (world_ok w1) as Hw.
  { eapply (newEntry_Ok app ca); [exact w0_ok|exact load_w0]. }
  pose proof (DeleteConfigMap_correct cm w1 Hw "n") as Hd.
  assert (doomed cm w1 "n" = true) as E by (vm_compute; reflexivity). rewrite E in Hd.
  destruct Hd as [Hd _]. exact Hd.
Defined.

End MapsExamples.
