(* ===== verification/SystemTheorems.v ===== *)
(** * internal: what every run of the process keeps

    Invariants of the transition system of [System], by induction on its steps:
    the shared state stays well formed, versions are never shared, and the
    snapshot cache holds for a node only what a store with that node's
    configuration published. *)

From stdpp Require Import options.
From S2P Require Import Prelude.
From S2P Require Import GoStd.
From S2P Require Import GoSlice.
From S2P Require Import Envoy.
From S2P Require Import AppConfig.
From S2P Require Import Resources.
From S2P Require Import Config.
From S2P Require Import Api.
From S2P Require Import Certs.
From S2P Require Import Utils.
From S2P Require Import ConfigStore.
From S2P Require Import Discovery.
From S2P Require Import StoreFacts.
From S2P Require Import StoreTheorems.
From S2P Require Import ConfigMapsStore.
From S2P Require Import WorldFacts.
From S2P Require Import System.
From Stdlib Require Import ZArith.

Module SystemTheorems.

Import AppConfig Store GoSlice StoreFacts StoreTheorems ConfigMapsStore WorldFacts System.

Section system.
Context `{Codec} `{ConfigParser} `{Crypto} `{XdsCache} `{GoRuntime}.
Variable app : Type_.
Variable ca : Certs.CA.
Variable uuids : nat → string.

(** ** The shared state *)

(** A pending registration names a store of its node. *)
Fixpoint action_ok (w : World) (a : Action) : Prop :=
  match a with
  | ARegister id l => ∃ cs, w_heap w !! l = Some cs ∧ ID (cs_Config cs) = id
  | AUnlessStoped _ body => foldr (λ b P, action_ok w b ∧ P) True body
  | _ => True
  end.

Lemma action_ok_body w body :
  foldr (λ b P, action_ok w b ∧ P) True body ↔ Forall (action_ok w) body.
Proof.
  induction body as [|b body IH]; simpl; [by split|]. by rewrite IH, Forall_cons.
Qed.

Lemma action_ok_mono w w' a : heap_le w w' → action_ok w a → action_ok w' a.
Proof.
  intros Hle. revert a. fix IH 1. intros a. destruct a as [| l body | | | | | | | | | | id l|];
    simpl; try done.
  - induction body as [|b body IHb]; simpl; [done|]. intros [Hb Hr].
    split; [by apply IH|by apply IHb].
  - intros (cs & Hl & <-). destruct (Hle l cs Hl) as (cs' & ? & <-). eauto.
Qed.

Definition process_ok (p : Process) : Prop :=
  world_ok (p_world p) ∧ Forall (Forall (action_ok (p_world p))) (p_threads p).

(** The three facts an action owes: the shared state is well formed, no store
    is lost, and the actions it starts are well formed. *)
Ltac kept := split_and!; try solve [done | eauto 3 with ecp].

Lemma visit_ok v key l cs w w' acts :
  world_ok w → w_heap w !! l = Some cs → visit v key l cs w = (w', acts) →
  world_ok w' ∧ heap_le w w' ∧ Forall (action_ok w') acts.
Proof.
  intros Hw Hl E. destruct v as [| | |cm]; simpl in E;
    [injection E as <- <-; by kept..|].
  destruct (fromConfigMap cm cs); injection E as <- <-;
    [|by kept].
  split_and!; [eapply world_ok_update|eapply heap_le_update|by repeat constructor];
    try done. by apply (heap_ok _ Hw l cs).
Qed.

(** One action on the store at [l] that keeps its core. *)
Lemma update_ok w l cs cs' :
  world_ok w → w_heap w !! l = Some cs →
  same_core cs cs' ∧ (last_ok cs → last_ok cs') →
  world_ok (set_store l cs' w) ∧ heap_le w (set_store l cs' w).
Proof.
  intros Hw Hl [Hc Hlast]. split; [|by eapply heap_le_update].
  eapply world_ok_update; [done..|]. apply Hlast. by apply (heap_ok _ Hw l cs).
Qed.

Lemma stop_ok id w acts :
  world_ok w → Forall (action_ok (stopExisting id w)) acts →
  world_ok (stopExisting id w) ∧ heap_le w (stopExisting id w) ∧
  Forall (action_ok (stopExisting id w)) acts.
Proof.
  intros Hw Ha. destruct (stopExisting_core id w) as [E|(l & cs & _ & Hl & E)];
    rewrite E in *; [by kept|].
  destruct (update_ok w l cs (Stop cs) Hw Hl) as [Hw' Hle]; [by split|by kept].
Qed.

(** A built store is well formed, and its registration may follow. *)
Lemma build_ok (order : MapOrder) now rnd k config w w' l :
  world_ok w → buildEntry app ca now rnd k config w = (w', Ok l) →
  world_ok w' ∧ heap_le w w' ∧ Forall (action_ok w') [ARegister (ID config) l].
Proof.
  intros Hw Eb. apply buildEntry_Ok in Eb as (c' & m' & cs & sp & _ & Hid' & Hn & -> & ->).
  kept. constructor; [|done]. exists cs. split; [apply alloc_lookup|].
  apply New_frame in Hn as (-> & _). done.
Qed.

Lemma exec_ok (order : MapOrder) now rnd k a w w' pre :
  world_ok w → action_ok w a → exec app ca uuids now rnd k a w = Ok (w', pre) →
  world_ok w' ∧ heap_le w w' ∧ Forall (action_ok w') (default [] pre).
Proof.
  intros Hw Ha E. assert (world_ok w ∧ heap_le w w ∧ Forall (action_ok w) []) as Hid
    by kept.
  destruct a as [key v|l body|l|l p|l|l reason|l|key l|key|cm nodeID text|config|id l|s];
    simpl in E.
  - destruct (StoreMap w !! key) as [l|]; simpl in E; [|by injection E as <- <-].
    destruct (w_heap w !! l) as [cs|] eqn:Hl; simpl in E; [|by injection E as <- <-].
    destruct (visit v key l cs w) as [w1 acts] eqn:Ev. injection E as <- <-.
    by eapply visit_ok.
  - destruct (w_heap w !! l) as [cs|]; injection E as <- <-; [|done].
    destruct (hasStoped cs); [done|]. kept. by apply action_ok_body.
  - destruct (w_heap w !! l) as [cs|] eqn:Hl; [|by injection E as <- <-].
    destruct (saveCollect app k (w_mem w) cs) as [m' r] eqn:Es. injection E as <- <-.
    kept; destruct r; by repeat constructor.
  - destruct (w_heap w !! l) as [cs|] eqn:Hl; [|by injection E as <- <-].
    destruct (saveCommit p cs) as [cs' sp] eqn:Es. injection E as <- <-.
    apply saveCommit_core in Es as (Hc & _ & Hlast).
    destruct (update_ok w l cs cs' Hw Hl (conj Hc Hlast)) as [Hw' Hle]. by kept.
  - destruct (w_heap w !! l) as [cs|] eqn:Hl; [|by injection E as <- <-].
    ok_step E as [cs' sp] Es. injection E as <- <-.
    apply syncCheck_core in Es as (Hc & _ & Hlast).
    destruct (update_ok w l cs cs' Hw Hl (conj Hc Hlast)) as [Hw' Hle]. by kept.
  - destruct (w_heap w !! l) as [cs|] eqn:Hl; [|by injection E as <- <-].
    destruct (Push uuids (w_draws w) cs (w_cache w)) as [[[cs' n'] c']|] eqn:Ep;
      injection E as <- <-; [|by kept].
    apply Push_core in Ep as (v & _ & -> & _).
    destruct (update_ok w l cs (with_Version v cs) Hw Hl) as [Hw' Hle]; [by split|by kept].
  - destruct (w_heap w !! l) as [cs|] eqn:Hl; [|by injection E as <- <-].
    destruct (LoadNewSecrets app ca now rnd cs) as [cs'|e|y] eqn:Es; [|by injection E as <- <-|done].
    injection E as <- <-. apply LoadNewSecrets_core in Es as (Hc & _ & Hlast).
    destruct (update_ok w l cs cs' Hw Hl (conj Hc Hlast)) as [Hw' Hle]. by kept.
  - destruct (w_heap w !! l) as [cs|] eqn:Hl; [|by injection E as <- <-].
    injection E as <- <-. by kept.
  - injection E as <- <-. by kept.
  - destruct (Config.ParseConfigYaml nodeID text) as [c0|e|y]; [|by injection E as <- <-|done].
    injection E as <- <-. apply stop_ok; [done|by repeat constructor].
  - destruct (buildEntry app ca now rnd k config w) as [w1 r] eqn:Eb.
    destruct r as [l|e|y]; [| |done]; injection E as <- <-; [|by apply buildEntry_fail in Eb as ->].
    by eapply build_ok.
  - injection E as <- <-. destruct Ha as (cs & Hl & Hid'). by kept.
  - by injection E as <- <-.
Qed.

(** Goroutines do not disturb each other's pending actions. *)
Lemma step_ok p p' : process_ok p → step app ca uuids p p' → process_ok p'.
Proof.
  intros [Hw Ht] Hs.
  destruct Hs as [order s v _ _|order cm t _ Et|k _ [order now rnd ts1 a rest ts2 w' pre Eq Ex]].
  - split; [done|]. constructor; [|done]. apply Forall_app. split; [|by repeat constructor].
    apply Forall_fmap, Forall_true. by intros [].
  - split; [done|]. constructor; [|done]. apply Forall_app. split; [|by repeat constructor].
    unfold on_new_config in Et. destruct (checkConfigMapLabels app cm) as [[]| |];
      [|by injection Et as <-|done..].
    injection Et as <-. apply Forall_fmap, Forall_true. by intros [].
  - rewrite Eq in Ht. apply Forall_app in Ht as [Ht1 Ht2].
    apply Forall_cons in Ht2 as [Ha Ht2]. apply Forall_cons in Ha as [Ha Hrest].
    destruct (exec_ok order now rnd k a _ w' pre Hw Ha Ex) as (Hw' & Hle & Hpre).
    split; [by eapply world_ok_same|]. simpl.
    match goal with |- Forall (Forall (action_ok ?W)) _ => set (w1 := W) end.
    assert (∀ w0 t, heap_le w0 w1 → Forall (action_ok w0) t → Forall (action_ok w1) t) as Hmono.
    { intros w0 t Hle0 Hft. eapply Forall_impl; [exact Hft|]. intros b. by apply action_ok_mono. }
    assert (∀ ts, Forall (Forall (action_ok (p_world p))) ts → Forall (Forall (action_ok w1)) ts)
      as Hmonos.
    { intros ts Hts. eapply Forall_impl; [exact Hts|]. intros t. by apply Hmono. }
    apply Forall_app. split; [apply Forall_app; split; [by apply Hmonos|]|].
    + constructor; [|by apply Hmonos]. destruct pre as [acts|]; simpl; [|by constructor].
      apply Forall_app. split.
      * apply (Hmono w'); [apply (heap_le_refl w')|exact Hpre].
      * by apply (Hmono (p_world p)).
    + apply Forall_fmap, Forall_true. intros [l [reason|]]; by repeat constructor.
Qed.

(** ** Versions and snapshots *)

(** A snapshot that some store published for the node [id], under a version no
    store with another configuration has. *)
Definition published (w : World) (id : string) (snap : Snapshot) : Prop :=
  ∃ i c ep ss, (i < w_draws w)%nat ∧ ID c = id ∧
    NewSnapshot (uuids i) (Utils.snapshotResources c ep ss) = Ok snap ∧
    (∃ l cs, w_heap w !! l = Some cs ∧ cs_Config cs = c) ∧
    (∀ l cs, w_heap w !! l = Some cs → Version cs = uuids i → cs_Config cs = c).

Record versions_ok (w : World) : Prop := {
  v_drawn : ∀ l cs, w_heap w !! l = Some cs →
    Version cs = "" ∨ ∃ i, (i < w_draws w)%nat ∧ Version cs = uuids i;
  v_unique : ∀ l1 l2 cs1 cs2, w_heap w !! l1 = Some cs1 → w_heap w !! l2 = Some cs2 →
    Version cs1 = Version cs2 → Version cs1 ≠ "" → l1 = l2;
  v_cache : ∀ id snap, GetSnapshot (w_cache w) id = Some snap → published w id snap }.

(** A change that draws no version and publishes nothing. *)
Record quiet (w w' : World) : Prop := {
  q_heap : ∀ l cs', w_heap w' !! l = Some cs' →
    (∃ cs, w_heap w !! l = Some cs ∧ Version cs' = Version cs ∧
           cs_Config cs' = cs_Config cs) ∨ Version cs' = "";
  q_kept : heap_le w w';
  q_draws : w_draws w' = w_draws w;
  q_cache : ∀ id snap, GetSnapshot (w_cache w') id = Some snap →
    GetSnapshot (w_cache w) id = Some snap }.

Lemma quiet_refl w : quiet w w.
Proof. constructor; [|apply heap_le_refl|done|done]. intros l cs ?. left. eauto. Qed.

Lemma quiet_update w l cs cs' :
  w_heap w !! l = Some cs → same_core cs cs' → Version cs' = Version cs →
  quiet w (set_store l cs' w).
Proof.
  intros Hl Hc Hv. constructor; [|by eapply heap_le_update|done|done].
  intros l' cs1. simpl. rewrite lookup_insert. case_decide; [|by left; eauto].
  intros [= <-]. subst. left. exists cs. by destruct Hc.
Qed.

(** The invariant does not see the memory, the store map and the goroutines. *)
Lemma quiet_same w w1 w2 :
  quiet w w1 → w_heap w2 = w_heap w1 → w_draws w2 = w_draws w1 → w_cache w2 = w_cache w1 →
  quiet w w2.
Proof.
  intros [Hh Hk Hd Hc] E1 E2 E3. constructor; unfold heap_le; rewrite ?E1, ?E2, ?E3; done.
Qed.

Lemma versions_quiet w w' :
  (∀ i, uuids i ≠ "") → versions_ok w → quiet w w' → versions_ok w'.
Proof.
  intros Hne [Hd Hu Hc] [Qh Qk Qd Qc]. constructor.
  - intros l cs' Hl. destruct (Qh _ _ Hl) as [(cs & Hcs & -> & _)|]; [|by left].
    rewrite Qd. by eapply Hd.
  - intros l1 l2 cs1 cs2 Hl1 Hl2 E Hn.
    destruct (Qh _ _ Hl1) as [(cs1' & Hcs1 & E1 & _)|]; [|done].
    destruct (Qh _ _ Hl2) as [(cs2' & Hcs2 & E2 & _)|]; [|congruence].
    eapply Hu; [done..| |]; congruence.
  - intros id snap Hs.
    destruct (Hc _ _ (Qc _ _ Hs)) as (i & c & ep & ss & Hi & Hid & Hn & Hex & Ho).
    exists i, c, ep, ss. rewrite Qd. split_and!; [done..| |].
    + destruct Hex as (l & cs & Hl & <-). destruct (Qk _ _ Hl) as (cs' & ? & ?). eauto.
    + intros l cs' Hl E. destruct (Qh _ _ Hl) as [(cs & Hcs & E1 & ->)|E1].
      * eapply Ho; [done|congruence].
      * destruct (Hne i). congruence.
Qed.

Lemma nextVersion_index fuel n v v' n' :
  nextVersion fuel uuids n v = Some (v', n') →
  ∃ i, (n ≤ i < n')%nat ∧ v' = uuids i.
Proof.
  revert n. induction fuel as [|fuel IH]; intros n; simpl; [done|].
  destruct (uuids n =? v).
  - intros (i & ? & ->)%IH. exists i. split; [lia|done].
  - intros [= <- <-]. exists n. split; [lia|done].
Qed.

Lemma versions_push `{!XdsCacheLaws} `{!Inj (=) (=) uuids} w l cs cs' n' c' :
  (∀ i, uuids i ≠ "") → versions_ok w → w_heap w !! l = Some cs →
  Push uuids (w_draws w) cs (w_cache w) = Some (cs', n', c') →
  versions_ok (set_draws n' (set_cache c' (set_store l cs' w))).
Proof.
  intros Hne [Hd Hu Hc] Hl Hp. apply Push_core in Hp as (v & Hv & -> & Hc').
  destruct (nextVersion_index _ _ _ _ _ Hv) as (i & Hi & ->).
  assert (∀ l1 cs1, w_heap w !! l1 = Some cs1 → Version cs1 ≠ uuids i) as Hnew.
  { intros l1 cs1 Hl1 E. destruct (Hd _ _ Hl1) as [E'|(j & Hj & E')].
    - destruct (Hne i). congruence.
    - assert (j = i) as -> by (apply (inj uuids); congruence). lia. }
  constructor; simpl.
  - intros l1 cs1. rewrite lookup_insert. case_decide.
    + intros [= <-]. right. exists i. split; [lia|done].
    + intros Hl1. destruct (Hd _ _ Hl1) as [|(j & ? & ?)]; [by left|right]. exists j.
      split; [lia|done].
  - intros l1 l2 cs1 cs2. rewrite !lookup_insert.
    destruct (decide (l = l1)) as [<-|], (decide (l = l2)) as [<-|]; intros E1 E2 E Hn;
      [done| | |by eapply Hu].
    + injection E1 as <-. by destruct (Hnew _ _ E2).
    + injection E2 as <-. by destruct (Hnew _ _ E1).
  - assert (∀ id snap, GetSnapshot (w_cache w) id = Some snap →
      published (set_draws n' (set_cache c' (set_store l (with_Version (uuids i) cs) w))) id snap)
      as Hold.
    { intros id snap Hs. destruct (Hc _ _ Hs) as (j & c & ep & ss & Hj & Hid & Hn & Hex & Ho).
      exists j, c, ep, ss. simpl. split_and!; [lia|done..| |].
      - destruct Hex as (l1 & cs1 & Hl1 & <-).
        destruct (decide (l = l1)) as [->|]; eexists l1, _; simplify_map_eq; eauto.
      - intros l1 cs1. rewrite lookup_insert. case_decide; [|by apply Ho].
        intros [= <-] E%(inj uuids). simpl in E. lia. }
    intros id snap. destruct Hc' as [->|(snap0 & Hn & ->)]; [apply Hold|].
    destruct (SetSnapshot (ID (cs_Config cs)) snap0 (w_cache w)) as [c1 e] eqn:Es. simpl.
    destruct (decide (ID (cs_Config cs) = id)) as [<-|Hid].
    + destruct (get_set_err _ _ _ _ _ Es) as [-> | ->]; [|apply Hold].
      intros [= <-]. eexists i, (cs_Config cs), _, _. simpl.
      split_and!; [lia|done|exact Hn| |].
      * exists l, (with_Version (uuids i) cs). by rewrite lookup_insert_eq.
      * intros l1 cs1. rewrite lookup_insert. case_decide; [by intros [= <-]|].
        intros Hl1 E. by destruct (Hnew _ _ Hl1).
    + rewrite (get_set_ne _ _ _ _ _ _ Es Hid). apply Hold.
Qed.

Lemma quiet_alloc `{MapOrder} now rnd k config w m' cs sp :
  New app ca now rnd k (w_mem w) config = Ok (m', cs, sp) →
  quiet w (allocStore m' cs sp w).1.
Proof.
  intros E. apply New_frame in E as (_ & Hv & _).
  constructor; [|apply heap_le_alloc|done|done]. intros l cs'. simpl.
  rewrite lookup_insert. case_decide; [intros [= <-]; by right|by left; eauto].
Qed.

Lemma quiet_clear `{!XdsCacheLaws} id w : quiet w (set_cache (ClearSnapshot id (w_cache w)) w).
Proof.
  constructor; [intros l cs ?; left; eauto|apply (heap_le_refl w)|done|].
  intros id' snap. simpl. destruct (decide (id = id')) as [->|Hid];
    [by rewrite get_clear|by rewrite get_clear_ne].
Qed.

Lemma visit_quiet v key l cs w w' acts :
  w_heap w !! l = Some cs → visit v key l cs w = (w', acts) → quiet w w'.
Proof.
  intros Hl E. destruct v as [| | |cm]; simpl in E; [injection E as <- _; apply quiet_refl..|].
  destruct (fromConfigMap cm cs); injection E as <- _; [|apply quiet_refl].
  by eapply quiet_update.
Qed.

Lemma quiet_stop id w : quiet w (stopExisting id w).
Proof.
  destruct (stopExisting_core id w) as [->|(l & cs & _ & Hl & ->)];
    [apply quiet_refl|by eapply quiet_update].
Qed.

Lemma exec_versions `{!XdsCacheLaws} `{!Inj (=) (=) uuids} (order : MapOrder) now rnd k a w w' pre :
  (∀ i, uuids i ≠ "") → versions_ok w →
  exec app ca uuids now rnd k a w = Ok (w', pre) → versions_ok w'.
Proof.
  intros Hne Hv E.
  assert (quiet w w' → versions_ok w') as Hq by (by apply versions_quiet).
  assert (w' = w → versions_ok w') as Hsame by (intros ->; done).
  destruct a as [key v|l body|l|l p|l|l reason|l|key l|key|cm nodeID text|config|id l|s];
    simpl in E.
  - destruct (StoreMap w !! key) as [l|]; simpl in E; [|by injection E as <- <-; auto].
    destruct (w_heap w !! l) as [cs|] eqn:Hl; simpl in E; [|by injection E as <- <-; auto].
    destruct (visit v key l cs w) as [w1 acts] eqn:Ev. injection E as <- <-.
    by eapply Hq, visit_quiet.
  - destruct (w_heap w !! l) as [cs|]; injection E as <- <-; auto.
  - destruct (w_heap w !! l) as [cs|] eqn:Hl; [|injection E as <- <-; auto].
    destruct (saveCollect app k (w_mem w) cs) as [m' r]. injection E as <- <-.
    eapply Hq, quiet_same; [apply quiet_refl|done..].
  - destruct (w_heap w !! l) as [cs|] eqn:Hl; [|injection E as <- <-; auto].
    destruct (saveCommit p cs) as [cs' sp] eqn:Es. injection E as <- <-.
    apply saveCommit_core in Es as (Hc & Hver & _).
    eapply Hq, quiet_same; [by eapply quiet_update|done..].
  - destruct (w_heap w !! l) as [cs|] eqn:Hl; [|injection E as <- <-; auto].
    ok_step E as [cs' sp] Es. injection E as <- <-.
    apply syncCheck_core in Es as (Hc & Hver & _).
    eapply Hq, quiet_same; [by eapply quiet_update|done..].
  - destruct (w_heap w !! l) as [cs|] eqn:Hl; [|injection E as <- <-; auto].
    destruct (Push uuids (w_draws w) cs (w_cache w)) as [[[cs' n'] c']|] eqn:Ep;
      injection E as <- <-; [|auto]. by eapply versions_push.
  - destruct (w_heap w !! l) as [cs|] eqn:Hl; [|injection E as <- <-; auto].
    destruct (LoadNewSecrets app ca now rnd cs) as [cs'|e|y] eqn:Es; [| |done];
      injection E as <- <-; [|auto]. apply LoadNewSecrets_core in Es as (Hc & Hver & _).
    by eapply Hq, quiet_update.
  - destruct (w_heap w !! l) as [cs|] eqn:Hl; injection E as <- <-; [|auto].
    apply Hq, quiet_clear.
  - injection E as <- <-. eapply Hq, quiet_same; [apply quiet_refl|done..].
  - destruct (Config.ParseConfigYaml nodeID text) as [c0|e|y]; [|injection E as <- <-; auto|done].
    injection E as <- <-. apply Hq, quiet_stop.
  - destruct (buildEntry app ca now rnd k config w) as [w1 r] eqn:Eb.
    destruct r as [l|e|y]; [| |done]; injection E as <- <-.
    + apply buildEntry_Ok in Eb as (c' & m' & cs & sp & _ & _ & Hn & -> & _).
      by eapply versions_quiet, quiet_alloc.
    + by apply buildEntry_fail in Eb as ->.
  - injection E as <- <-. eapply Hq, quiet_same; [apply quiet_refl|done..].
  - injection E as <- <-. auto.
Qed.

Lemma step_versions `{!XdsCacheLaws} `{!Inj (=) (=) uuids} p p' :
  (∀ i, uuids i ≠ "") → versions_ok (p_world p) → step app ca uuids p p' →
  versions_ok (p_world p').
Proof.
  intros Hne Hv Hs. destruct Hs as [| |k _ [order now rnd ts1 a rest ts2 w' pre _ Ex]]; [done..|].
  apply exec_versions in Ex; [|done..]. eapply versions_quiet; [done|exact Ex|].
  eapply quiet_same; [apply quiet_refl|done..].
Qed.

(** Rule induction over the runs of the process. *)
Lemma reachable_invariant (P : Process → Prop) c p :
  P (initial c) → (∀ p1 p2, P p1 → step app ca uuids p1 p2 → P p2) →
  reachable app ca uuids c p → P p.
Proof.
  intros Hi Hs Hr. unfold reachable in Hr. revert Hi.
  induction Hr as [p1|p1 p2 p3 H12 _ IH]; [done|]. intros Hp. by eapply IH, Hs.
Qed.

Lemma reachable_ok c p : reachable app ca uuids c p → process_ok p.
Proof.
  apply reachable_invariant; [|apply step_ok].
  split; [|by constructor]. constructor; simpl; intros; by simplify_map_eq.
Qed.

Lemma reachable_versions `{!XdsCacheLaws} `{!Inj (=) (=) uuids} c p :
  (∀ i, uuids i ≠ "") → (∀ id, GetSnapshot c id = None) →
  reachable app ca uuids c p → versions_ok (p_world p).
Proof.
  intros Hne Hc. apply (reachable_invariant (λ p, versions_ok (p_world p)));
    [|intros; by eapply step_versions].
  constructor; simpl; intros; [by simplify_map_eq..|by rewrite Hc in *].
Qed.

(** ** Properties *)

(** C7: in every state the process can reach, whatever the goroutines do, every
    key of the store map is the node of the store registered under it, every
    store's configured slices are well formed and its record of the last save is
    all there or not at all, and no two stores share an array for their
    configured endpoints. *)
Theorem state_invariant c p :
  reachable app ca uuids c p →
  (∀ id l, StoreMap (p_world p) !! id = Some l →
     ∃ cs, w_heap (p_world p) !! l = Some cs ∧ ID (cs_Config cs) = id) ∧
  (∀ l cs, w_heap (p_world p) !! l = Some cs → store_ok (w_mem (p_world p)) cs ∧
     (is_Some (lastEndpoints cs) ↔ is_Some (lastEndpointsArray cs))) ∧
  (∀ l1 l2 cs1 cs2 k1 k2 s1 s2, l1 ≠ l2 →
     w_heap (p_world p) !! l1 = Some cs1 → w_heap (p_world p) !! l2 = Some cs2 →
     configEndpoints cs1 !! k1 = Some s1 → configEndpoints cs2 !! k2 = Some s2 →
     disjoint_slices s1 s2).
Proof.
  intros [[Hm Hh Ha] _]%reachable_ok. split_and!; [done|done|].
  intros l1 l2 cs1 cs2 k1 k2 s1 s2 Hne H1' H2' Hs1 Hs2. by eapply (Ha l1 l2).
Qed.

(** C4: a node is never served another node's configuration: in every reachable
    state, a snapshot in the cache was made of the resources of some store whose
    configuration has exactly that node's identifier. *)
Theorem cache_isolation `{!XdsCacheLaws} `{!Inj (=) (=) uuids} c p id snap :
  (∀ i, uuids i ≠ "") → (∀ id, GetSnapshot c id = None) →
  reachable app ca uuids c p →
  GetSnapshot (w_cache (p_world p)) id = Some snap →
  ∃ l cs v ep ss, w_heap (p_world p) !! l = Some cs ∧ ID (cs_Config cs) = id ∧
    NewSnapshot v (Utils.snapshotResources (cs_Config cs) ep ss) = Ok snap.
Proof.
  intros Hne Hc Hr Hs. destruct (v_cache _ (reachable_versions c p Hne Hc Hr) _ _ Hs)
    as (i & cfg & ep & ss & _ & Hid & Hn & (l & cs & Hl & <-) & _). eauto 10.
Qed.

(** C5: the version identifies the publisher: when the snapshot of a node has the
    version of some store, as [Sync] checks, it was made of that store's own
    configuration - and versions other than the initial one are never shared. *)
Theorem version_identifies `{!XdsCacheLaws} `{!Inj (=) (=) uuids} c p id snap l cs :
  (∀ i, uuids i ≠ "") → (∀ id, GetSnapshot c id = None) →
  reachable app ca uuids c p →
  w_heap (p_world p) !! l = Some cs →
  GetSnapshot (w_cache (p_world p)) id = Some snap →
  GetVersion snap = Version cs →
  id = ID (cs_Config cs) ∧
  (∃ ep ss, NewSnapshot (Version cs) (Utils.snapshotResources (cs_Config cs) ep ss) = Ok snap) ∧
  (∀ l' cs', w_heap (p_world p) !! l' = Some cs' → Version cs' = Version cs → l' = l).
Proof.
  intros Hne Hc Hr Hl Hs Hv. pose proof (reachable_versions c p Hne Hc Hr) as Hok.
  destruct (v_cache _ Hok _ _ Hs) as (i & cfg & ep & ss & _ & <- & Hn & _ & Ho).
  rewrite (version_of_new _ _ _ Hn) in Hv. pose proof (Ho _ _ Hl (eq_sym Hv)) as <-.
  rewrite Hv in Hn. split_and!; [done|eauto|]. intros l' cs' Hl' E.
  eapply (v_unique _ Hok); [done..|]. rewrite E, <-Hv. apply Hne.
Qed.

End system.
End SystemTheorems.
