(* ===== verification/SystemExamples.v ===== *)
(** * internal: runs of the process

    Schedules that an interpreter executes on the transition system, and the
    states they reach: a crash of [Sync], a snapshot that outlives its ConfigMap
    and a save overtaken by an older one; then the invariants at one of these
    states. *)

From stdpp Require Import options.
From S2P Require Import Prelude.
From S2P Require Import GoStd.
From S2P Require Import GoSlice.
From S2P Require Import Envoy.
From S2P Require Import AppConfig.
From S2P Require Import Resources.
From S2P Require Import Config.
From S2P Require Import Api.
From S2P Require Import Certs.
From S2P Require Import Utils.
From S2P Require Import ConfigStore.
From S2P Require Import Discovery.
From S2P Require Import StoreFacts.
From S2P Require Import StoreTheorems.
From S2P Require Import ConfigMapsStore.
From S2P Require Import WorldFacts.
From S2P Require Import System.
From S2P Require Import SystemTheorems.
From S2P Require Import Samples.
From Stdlib Require Import ZArith.

Module SystemExamples.

Import Samples ConfigMapsStore System SystemTheorems.

#[local] Existing Instances codec crypto xds parser runtime_doubling map_order_std.
#[local] Existing Instances xds_laws.

(** ** Executing a schedule *)

(** One step of a schedule: an event, or the next action of the goroutine at a
    position, against some state of the cluster. *)
Inductive Move :=
  | MEvent (s : Source) (v : Visitor)
  | MConfig (cm : ConfigMap)
  | MRun (i : nat) (k : KubeCache).

Definition next (i : nat) (k : KubeCache) (p : Process)
  : option (res (World * option (list Action))) :=
  match p_threads p !! i with
  | Some (a :: _) => Some (exec app ca uuids 0 5 k a (p_world p))
  | _ => None
  end.

Definition move (mv : Move) (p : Process) : option Process :=
  match mv with
  | MEvent s v =>
      if idle s p && raises s v
      then Some (mkProcess (p_world p) ((on_visitor v (p_world p) ++ [AEnd s]) :: p_threads p))
      else None
  | MConfig cm =>
      match on_new_config app cm, idle SConfigMaps p with
      | Ok t, true => Some (mkProcess (p_world p) ((t ++ [AEnd SConfigMaps]) :: p_threads p))
      | _, _ => None
      end
  | MRun i k =>
      match next i k p with
      | Some (Ok (w', pre)) =>
          let rest := tail (default [] (p_threads p !! i)) in
          Some (schedule_spawned w'
            (take i (p_threads p) ++ from_option (λ acts, acts ++ rest) [] pre
               :: drop (S i) (p_threads p)))
      | _ => None
      end
  end.

Fixpoint moves (ms : list Move) (p : Process) : option Process :=
  match ms with
  | [] => Some p
  | mv :: ms' => match move mv p with Some p' => moves ms' p' | None => None end
  end.

Lemma move_run i k p p' : move (MRun i k) p = Some p' → run app ca uuids k p p'.
Proof.
  simpl. unfold next. destruct (p_threads p !! i) as [[|a rest]|] eqn:Ei; [done| |done].
  destruct (exec app ca uuids 0 5 k a (p_world p)) as [[w' pre]| |] eqn:Ex; [|done..].
  intros [= <-].
  apply (run_action _ _ _ k p map_order_std 0 5%nat _ a rest _ w' pre); [|done].
  by rewrite <-(take_drop_middle _ _ _ Ei) at 1.
Qed.

Lemma move_step mv p p' : move mv p = Some p' → step app ca uuids p p'.
Proof.
  destruct mv as [s v|cm|i k]; [simpl..|intros Hm; by eapply step_run, move_run].
  - destruct (idle s p) eqn:Ei, (raises s v) eqn:Er; [|done..]. intros [= <-].
    by apply (step_event _ _ _ _ map_order_std).
  - destruct (on_new_config app cm) as [t| |] eqn:E; [|done..].
    destruct (idle SConfigMaps p) eqn:Ei; [|done]. intros [= <-].
    by apply (step_new_config _ _ _ _ map_order_std cm).
Qed.

(** A schedule without events. *)
Lemma moves_runs k js p p' :
  moves (map (λ i, MRun i k) js) p = Some p' → rtc (run app ca uuids k) p p'.
Proof.
  revert p. induction js as [|i js IH]; intros p; cbn [moves map]; [by intros [= ->]|].
  destruct (move (MRun i k) p) as [p1|] eqn:E; [|done]. intros ?%IH.
  eapply rtc_l; [by eapply move_run|done].
Qed.

Lemma moves_reachable ms c p : moves ms (initial c) = Some p → reachable app ca uuids c p.
Proof.
  unfold reachable. generalize (initial c) as p0. induction ms as [|mv ms IH]; intros p0; simpl.
  - by intros [= ->].
  - destruct (move mv p0) as [p1|] eqn:E; [|done]. intros ?%IH.
    eapply rtc_l; [by eapply move_step|done].
Qed.

(** A schedule whose last state has a decidable property reaches such a state. *)
Lemma run_reaches (P : Process → Prop) `{∀ p, Decision (P p)} ms c :
  match moves ms (initial c) with Some p => bool_decide (P p) | None => false end = true →
  ∃ p, reachable app ca uuids c p ∧ P p.
Proof.
  destruct (moves ms (initial c)) as [p|] eqn:E; [|done]. intros HP.
  exists p. split; [by eapply moves_reachable|by apply (bool_decide_eq_true (P p))].
Qed.

(** ** Schedules *)

Definition cm_web : ConfigMap :=
  mkConfigMap "cm" "ns" {["app" := "envoy-control-plane"]} None (Some {["n" := "n;web;;"]}).

Definition k1 : KubeCache := kube_web ["10.0.0.1"].
Definition k2 : KubeCache := kube_web ["10.0.0.2"].
Definition k3 : KubeCache := kube_web ["10.0.0.3"].

(** The ConfigMap arrives and its store is built and registered; the push the
    store started has not run yet. *)
Definition boot : list Move :=
  [MConfig cm_web; MRun 0 k1; MRun 0 k1; MRun 0 k1; MRun 0 k1].

(** The periodic [Sync] comes before the first push. *)
Definition sync_first : list Move :=
  boot ++ [MEvent SSync VSync; MRun 0 k1; MRun 0 k1; MRun 0 k1; MRun 0 k1].

(** The ConfigMap is deleted, and only then the push runs. *)
Definition push_late : list Move :=
  boot ++ [MEvent SConfigMaps (VDelete cm_web); MRun 0 k1; MRun 0 k1; MRun 0 k1; MRun 0 k1;
           MRun 2 k1].

(** The ConfigMap is updated, and the push of the store that is replaced runs after
    that of the new one. *)
Definition push_overtaken : list Move :=
  boot ++ [MConfig cm_web; MRun 0 k1; MRun 0 k1; MRun 0 k1; MRun 0 k1; MRun 3 k1; MRun 2 k1].

(** A pod event and an endpoint event: the save of the first has read the
    endpoints when the service is at [k2]; the service moves on to [k3], where the
    second one saves and pushes; then the first commits and pushes what it had read. *)
Definition stale_save : list Move :=
  boot ++ [MRun 1 k1;
           MEvent SPods VNewPod; MRun 0 k2; MRun 0 k2; MRun 0 k2;
           MEvent SEndpoints VNewPod; MRun 0 k3; MRun 0 k3; MRun 0 k3; MRun 0 k3; MRun 0 k3;
           MRun 4 k3; MRun 1 k3; MRun 1 k3; MRun 5 k3].

(** ** What the runs show *)

(** Whether the next action of a goroutine ends the process. *)
Definition crashes_at (i : nat) (k : KubeCache) (p : Process) : bool :=
  match next i k p with Some (Crash _) => true | _ => false end.

Lemma crashes_at_crashes i k p : crashes_at i k p = true → crashes app ca uuids p.
Proof.
  unfold crashes_at, next. destruct (p_threads p !! i) as [[|a rest]|] eqn:Ei; [done| |done].
  destruct (exec app ca uuids 0 5 k a (p_world p)) as [[w' pre]| |why] eqn:Ex; [done..|].
  intros _. exists map_order_std, 0%Z, 5%nat, k, (take i (p_threads p)), a, rest,
    (drop (S i) (p_threads p)), why.
  split; [symmetry; by apply take_drop_middle|done].
Qed.

(** the process can crash in normal operation: when the periodic [Sync] visits
    a store before the store's first push has reached the cache, it calls a
    method of the nil snapshot. *)
Theorem sync_can_crash : ∃ p, reachable app ca uuids ∅ p ∧ crashes app ca uuids p.
Proof.
  destruct (run_reaches (λ p, crashes_at 0 k1 p = true) sync_first ∅) as (p & Hr & Hp);
    [vm_compute; reflexivity|].
  exists p. split; [done|by eapply crashes_at_crashes].
Qed.

(** The snapshot of a deleted ConfigMap can stay in the cache for good: a push
    does not look at [isStoped], so one that runs after the deletion publishes
    again, and with the store gone from the map nothing clears it: every later
    pod, endpoint, synchronisation or deletion event has nothing to do. *)
Theorem snapshot_outlives_configmap :
  ∃ p, reachable app ca uuids ∅ p ∧ quiescent p ∧ StoreMap (p_world p) = ∅ ∧
    is_Some (GetSnapshot (w_cache (p_world p)) "n") ∧
    ∀ (order : MapOrder) v, on_visitor v (p_world p) = [].
Proof.
  destruct (run_reaches (λ p, (quiescent p ∧ StoreMap (p_world p) = ∅) ∧
    bool_decide (is_Some (GetSnapshot (w_cache (p_world p)) "n")) = true) push_late ∅)
    as (p & Hr & [Hq Hm] & Hs); [vm_compute; reflexivity|].
  exists p. split_and!; [done..|by apply bool_decide_eq_true in Hs|].
  intros order v. unfold on_visitor. by rewrite Hm, range_empty.
Qed.

(** a save can be undone by an older one: collecting and committing are not
    one critical section, so after this run, where every action since the service
    moved ran against [k3], nothing is left to do and the store has recorded,
    and the cache serves, the address it had at [k2]. *)
Theorem older_save_wins :
  match moves stale_save (initial ∅) with
  | Some p => quiescent p ∧
      lastEndpointsArray <$> (w_heap (p_world p) !! 0%nat)
        = Some (Some ["web|unknown|0|10.0.0.2|80|0"]) ∧
      (GetVersion <$> GetSnapshot (w_cache (p_world p)) "n")
        = Version <$> (w_heap (p_world p) !! 0%nat)
  | None => False
  end.
Proof. vm_compute. split_and!; [by repeat constructor|reflexivity..]. Qed.

(** A store that was replaced can still publish: its push may run after that of the
    store that took its place, and then the node is served the old configuration,
    although nothing is left to do, until the next round of [Sync] compares the
    versions. *)
Theorem replaced_store_overrides :
  match moves push_overtaken (initial ∅) with
  | Some p => quiescent p ∧ StoreMap (p_world p) !! "n" = Some 1%nat ∧
      isStoped <$> (w_heap (p_world p) !! 0%nat) = Some true ∧
      (GetVersion <$> GetSnapshot (w_cache (p_world p)) "n")
        = Version <$> (w_heap (p_world p) !! 0%nat) ∧
      (GetVersion <$> GetSnapshot (w_cache (p_world p)) "n")
        ≠ Version <$> (w_heap (p_world p) !! 1%nat)
  | None => False
  end.
Proof. vm_compute. split_and!; [by repeat constructor|reflexivity..|discriminate]. Qed.

(** ** Witnesses *)

(** A process that has pushed its first snapshot. *)
Lemma pushed_run :
  ∃ p, reachable app ca uuids ∅ p ∧
    (is_Some (StoreMap (p_world p) !! "n") ∧
     bool_decide (GetVersion <$> GetSnapshot (w_cache (p_world p)) "n"
       = Version <$> (w_heap (p_world p) !! 0%nat)) = true) ∧
    bool_decide (is_Some (GetSnapshot (w_cache (p_world p)) "n")) = true.
Proof.
  apply (run_reaches (λ p, (is_Some (StoreMap (p_world p) !! "n") ∧
     bool_decide (GetVersion <$> GetSnapshot (w_cache (p_world p)) "n"
       = Version <$> (w_heap (p_world p) !! 0%nat)) = true) ∧
    bool_decide (is_Some (GetSnapshot (w_cache (p_world p)) "n")) = true) (boot ++ [MRun 1 k1])).
  vm_compute. reflexivity.
Qed.

Lemma uuids_not_empty i : uuids i ≠ "".
Proof. done. Qed.

Lemma empty_cache id : GetSnapshot ∅ id = None.
Proof. reflexivity. Qed.

Lemma state_invariant_witness :
  ∃ p l cs, reachable app ca uuids ∅ p ∧ StoreMap (p_world p) !! "n" = Some l ∧
    w_heap (p_world p) !! l = Some cs ∧ ID (cs_Config cs) = "n".
Proof.
  destruct pushed_run as (p & Hr & [[l Hl] _] & _).
  destruct (state_invariant app ca uuids ∅ p Hr) as [Hm _].
  destruct (Hm "n" l Hl) as (cs & Hcs & Hid). by exists p, l, cs.
Defined.

Lemma cache_isolation_witness :
  ∃ p snap l cs, reachable app ca uuids ∅ p ∧
    GetSnapshot (w_cache (p_world p)) "n" = Some snap ∧
    w_heap (p_world p) !! l = Some cs ∧ ID (cs_Config cs) = "n".
Proof.
  destruct pushed_run as (p & Hr & _ & Hs). apply bool_decide_eq_true in Hs as [snap Hs].
  destruct (cache_isolation app ca uuids ∅ p "n" snap uuids_not_empty empty_cache Hr Hs)
    as (l & cs & v & ep & ss & Hl & Hid & _). by exists p, snap, l, cs.
Defined.

Lemma version_identifies_witness :
  ∃ p snap cs, reachable app ca uuids ∅ p ∧ w_heap (p_world p) !! 0%nat = Some cs ∧
    GetSnapshot (w_cache (p_world p)) "n" = Some snap ∧ ID (cs_Config cs) = "n".
Proof.
  destruct pushed_run as (p & Hr & [_ Hv] & Hs).
  apply bool_decide_eq_true in Hs as [snap Hs]. apply bool_decide_eq_true in Hv.
  rewrite Hs in Hv. destruct (w_heap (p_world p) !! 0%nat) as [cs|] eqn:Hl; [|discriminate Hv].
  injection Hv as Hv.
  destruct (version_identifies app ca uuids ∅ p "n" snap 0%nat cs uuids_not_empty
    empty_cache Hr Hl Hs Hv) as (Hid & _). by exists p, snap, cs.
Defined.

End SystemExamples.
