(* ===== verification/Lifetimes.v ===== *)
(** * internal: the lifetime of stores

    A store runs from its construction until it is stopped: by the entry that
    replaces it or by the deletion of its ConfigMap.  As the handlers of the
    config informer run one at a time, every running store is registered or
    about to be, and no node has two of them. *)

From stdpp Require Import options.
From S2P Require Import Prelude.
From S2P Require Import GoStd.
From S2P Require Import GoSlice.
From S2P Require Import Envoy.
From S2P Require Import AppConfig.
From S2P Require Import Resources.
From S2P Require Import Config.
From S2P Require Import Api.
From S2P Require Import Certs.
From S2P Require Import Utils.
From S2P Require Import ConfigStore.
From S2P Require Import ConfigMapsStore.
From S2P Require Import System.
From S2P Require Import WorldFacts.
From S2P Require Import SystemTheorems.
From S2P Require Import Samples.
From S2P Require Import SystemExamples.
From Stdlib Require Import ZArith.

Module Lifetimes.

Import AppConfig Store ConfigMapsStore System WorldFacts SystemTheorems.

Section lifetimes.
Context `{Codec} `{ConfigParser} `{Crypto} `{XdsCache} `{GoRuntime}.
Variable app : Type_.
Variable ca : Certs.CA.
Variable uuids : nat → string.

(** ** What an action may do to the lifetimes *)

(** The node of a store and whether it is stopped. *)
Definition status (cs : ConfigStore) : string * bool := (ID (cs_Config cs), isStoped cs).

(** The lifetimes of a state: the map and the status of every store. *)
Definition same_lives (w w' : World) : Prop :=
  StoreMap w' = StoreMap w ∧ ∀ l, status <$> w_heap w' !! l = status <$> w_heap w !! l.

Lemma same_lives_update w w' l cs cs' :
  w_heap w !! l = Some cs → status cs' = status cs →
  StoreMap w' = StoreMap w → w_heap w' = <[l := cs']> (w_heap w) → same_lives w w'.
Proof.
  intros Hl Hs Hm Hh. split; [done|]. intros l'. rewrite Hh.
  destruct (decide (l = l')) as [<-|Hne]; [|by rewrite lookup_insert_ne].
  rewrite lookup_insert_eq, Hl. by apply (f_equal Some).
Qed.

Lemma saveCommit_status p cs cs' sp : saveCommit p cs = (cs', sp) → status cs' = status cs.
Proof. unfold saveCommit. case_bool_decide; by intros [= <- _]. Qed.

Lemma syncCheck_status cs cache cs' sp :
  syncCheck cs cache = Ok (cs', sp) → status cs' = status cs.
Proof.
  unfold syncCheck. destruct (lastEndpoints cs); [|by intros [= <- _]].
  destruct (GetSnapshot _ _); [|done]. case_match; by intros [= <- _].
Qed.

Lemma LoadNewSecrets_status now rnd cs cs' :
  LoadNewSecrets app ca now rnd cs = Ok cs' → status cs' = status cs.
Proof. unfold LoadNewSecrets. intros E. ok_step E as ss. by injection E as <-. Qed.

Lemma Push_status n cs cache cs' n' cache' :
  Push uuids n cs cache = Some (cs', n', cache') → status cs' = status cs.
Proof. by intros (v & _ & -> & _)%Push_core. Qed.

(** The actions that do not belong to the handling of a ConfigMap. *)
Fixpoint plain (a : Action) : bool :=
  match a with
  | AVisit _ (VDelete _) | AClear _ _ | ADeleteKey _ | ANewEntry _ _ _ | ABuild _
  | ARegister _ _ => false
  | AEnd s => negb (bool_decide (s = SConfigMaps))
  | AUnlessStoped _ body => forallb plain body
  | _ => true
  end.

Lemma plain_exec `{MapOrder} now rnd k a w w' pre :
  plain a = true → exec app ca uuids now rnd k a w = Ok (w', pre) →
  same_lives w w' ∧ forallb plain (default [] pre) = true.
Proof.
  intros Ha E. assert (same_lives w w) as Hid by done.
  destruct a as [key v|l body|l|l p|l|l reason|l|key l|key|cm nodeID text|config|id l|s];
    simpl in E, Ha; try done;
    try (destruct (w_heap w !! l) as [cs|] eqn:Hl; [|by injection E as <- <-]).
  - destruct (StoreMap w !! key) as [l|]; simpl in E; [|by injection E as <- <-].
    destruct (w_heap w !! l) as [cs|]; simpl in E; [|by injection E as <- <-].
    destruct v; [| | |done]; injection E as <- <-; by split.
  - injection E as <- <-. split; [done|]. simpl. by destruct (hasStoped cs).
  - destruct (saveCollect _ _ _ _) as [m' [p|]]; injection E as <- <-; by split.
  - destruct (saveCommit p cs) as [cs' sp] eqn:Es. injection E as <- <-.
    split; [|done]. by eapply same_lives_update, eq_refl; [|eapply saveCommit_status|].
  - ok_step E as [cs' sp] Es. injection E as <- <-.
    split; [|done]. by eapply same_lives_update, eq_refl; [|eapply syncCheck_status|].
  - destruct (Push _ _ _ _) as [[[cs' n'] c']|] eqn:Ep; injection E as <- <-; [|by split].
    split; [|done]. by eapply same_lives_update, eq_refl; [|eapply Push_status|].
  - destruct (LoadNewSecrets app ca now rnd cs) as [cs'|e|y] eqn:Es; [| |done];
      injection E as <- <-; [|by split].
    split; [|done]. by eapply same_lives_update, eq_refl; [|eapply LoadNewSecrets_status|].
  - by injection E as <- <-.
Qed.

(** ** The handling of a ConfigMap *)

(** What waits in the handling of a ConfigMap: its rounds. *)
Definition queued (a : Action) : bool :=
  match a with AVisit _ (VDelete _) | ANewEntry _ _ _ => true | _ => false end.

(** Whatever the map has for a node is stopped. *)
Definition stopped_at (w : World) (key : string) : Prop :=
  ∀ l cs, StoreMap w !! key = Some l → w_heap w !! l = Some cs → isStoped cs = true.

(** The rest of a round that has begun: it has stopped the store of the node
    whose entry it is about to change. *)
Definition head_ok (w : World) (head : list Action) : Prop :=
  match head with
  | [] => True
  | [AClear key _] | [ADeleteKey key] => stopped_at w key
  | [ABuild config] => stopped_at w (ID config)
  | [ARegister id _] => stopped_at w id
  | _ => False
  end.

(** Every running store is registered, or [head] is about to register it. *)
Definition running (w : World) (head : list Action) : Prop :=
  ∀ l cs, w_heap w !! l = Some cs → isStoped cs = false →
    StoreMap w !! ID (cs_Config cs) = Some l ∨ head = [ARegister (ID (cs_Config cs)) l].

Lemma same_lives_lookup w w' l cs' :
  same_lives w w' → w_heap w' !! l = Some cs' →
  ∃ cs, w_heap w !! l = Some cs ∧ ID (cs_Config cs') = ID (cs_Config cs) ∧
    isStoped cs' = isStoped cs.
Proof.
  intros [_ Hs] Hl. specialize (Hs l). rewrite Hl in Hs.
  destruct (w_heap w !! l) as [cs|]; [|done]. exists cs. by injection Hs.
Qed.

Lemma stopped_at_same w w' key : same_lives w w' → stopped_at w key → stopped_at w' key.
Proof.
  intros Hw Hst l cs' Hm Hl. destruct (same_lives_lookup _ _ _ _ Hw Hl) as (cs & Hl' & _ & ->).
  apply (Hst l); [|done]. by rewrite <-(proj1 Hw).
Qed.

Lemma head_ok_same w w' head : same_lives w w' → head_ok w head → head_ok w' head.
Proof.
  intros Hw. destruct head as [|[] []]; simpl; try done; by apply stopped_at_same.
Qed.

Lemma running_same w w' head : same_lives w w' → running w head → running w' head.
Proof.
  intros Hw Hr l cs' Hl Hst. destruct (same_lives_lookup _ _ _ _ Hw Hl) as (cs & Hl' & E1 & E2).
  rewrite E1, (proj1 Hw). apply Hr; [done|congruence].
Qed.

(** Stopping a store keeps the invariant of the others. *)
Lemma running_stop w l cs head :
  w_heap w !! l = Some cs → running w head → running (set_store l (Stop cs) w) head.
Proof.
  intros Hl Hr l' cs'. simpl. destruct (decide (l = l')) as [<-|Hne].
  - rewrite lookup_insert_eq. by intros [= <-].
  - rewrite lookup_insert_ne by done. apply Hr.
Qed.

Lemma stopped_at_stop w l cs key :
  StoreMap w !! key = Some l → stopped_at (set_store l (Stop cs) w) key.
Proof.
  intros Hm l' cs'. simpl. rewrite Hm. intros [= <-]. rewrite lookup_insert_eq.
  by intros [= <-].
Qed.

Lemma stopExisting_lives id w head :
  world_ok w → running w head →
  running (stopExisting id w) head ∧ stopped_at (stopExisting id w) id.
Proof.
  intros Hw Hr. destruct (stopExisting_core id w) as [E|(l & cs & Hm & Hl & ->)].
  - rewrite E. split; [done|]. intros l cs Hm Hl. unfold stopExisting in E.
    rewrite Hm in E. simpl in E. rewrite Hl in E. simpl in E.
    rewrite <-E in Hl. simpl in Hl. rewrite lookup_insert_eq in Hl. by injection Hl as <-.
  - split; [by apply running_stop|by apply stopped_at_stop].
Qed.

(** The map entry of a stopped store can go. *)
Lemma running_delete w key :
  stopped_at w key → running w [] → running (set_StoreMap (delete key (StoreMap w)) w) [].
Proof.
  intros Hst Hr l cs Hl Hrun. simpl in *. left. destruct (Hr l cs Hl Hrun) as [Hm|]; [|done].
  rewrite lookup_delete_ne; [done|]. intros ->. by rewrite (Hst _ _ Hm Hl) in Hrun.
Qed.

(** A store can be registered over a stopped one. *)
Lemma running_register w id l :
  stopped_at w id → running w [ARegister id l] →
  (∃ cs, w_heap w !! l = Some cs ∧ ID (cs_Config cs) = id) →
  running (registerStore id l w) [].
Proof.
  intros Hst Hr (csl & Hcsl & <-) l' cs Hl Hrun. simpl in *. left.
  destruct (Hr l' cs Hl Hrun) as [Hm|[= <- <-]]; [|by rewrite lookup_insert_eq].
  destruct (decide (ID (cs_Config csl) = ID (cs_Config cs))) as [E|];
    [|by rewrite lookup_insert_ne].
  rewrite E in Hst. by rewrite (Hst _ _ Hm Hl) in Hrun.
Qed.

(** A store that has been built is about to be registered. *)
Lemma build_lives `{MapOrder} now rnd k config w w' l :
  world_ok w → stopped_at w (ID config) → running w [] →
  buildEntry app ca now rnd k config w = (w', Ok l) →
  stopped_at w' (ID config) ∧ running w' [ARegister (ID config) l].
Proof.
  intros Hw Hst Hr Eb.
  apply buildEntry_Ok in Eb as (c' & m' & cs & sp & _ & Hid & Hn & -> & ->).
  apply New_frame in Hn as (<- & _). unfold allocStore. simpl.
  set (l := fresh (dom (w_heap w))).
  assert (∀ key l', StoreMap w !! key = Some l' → l ≠ l') as Hfr.
  { intros key l' Hm <-. destruct (map_ok _ Hw _ _ Hm) as (cs' & Hl & _).
    apply (is_fresh (dom (w_heap w))). apply elem_of_dom. by exists cs'. }
  split.
  - intros l' cs' Hm. simpl. rewrite lookup_insert_ne by (by eapply Hfr). by apply Hst.
  - intros l' cs'. simpl. destruct (decide (l = l')) as [<-|].
    + rewrite lookup_insert_eq. intros [= <-] _. right. by rewrite Hid.
    + rewrite lookup_insert_ne by done. intros Hl Hrun.
      destruct (Hr _ _ Hl Hrun) as [|]; [by left|done].
Qed.

(** The goroutine that handles a ConfigMap: the round it is in, and the others. *)
Definition handling (w : World) (t : thread) : Prop :=
  ∃ head queue, t = head ++ queue ++ [AEnd SConfigMaps] ∧
    forallb queued queue = true ∧ head_ok w head ∧ running w head.

(** What a step of that goroutine leaves: a goroutine that still handles the
    ConfigMap, or one that has nothing left to do. *)
Definition handled (w : World) (t : thread) : Prop :=
  handling w t ∨ (t = [] ∧ running w []).

Lemma handling_queue w queue :
  forallb queued queue = true → running w [] → handling w (queue ++ [AEnd SConfigMaps]).
Proof. intros Hq Hr. by exists [], queue. Qed.

Lemma handling_head w a queue :
  head_ok w [a] → forallb queued queue = true → running w [a] →
  handling w (a :: queue ++ [AEnd SConfigMaps]).
Proof. intros Hh Hq Hr. by exists [a], queue. Qed.

(** A round begins. *)
Lemma queued_exec `{MapOrder} now rnd k a queue w w' pre :
  world_ok w → queued a = true → forallb queued queue = true → running w [] →
  exec app ca uuids now rnd k a w = Ok (w', pre) →
  handled w' (from_option (λ acts, acts ++ queue ++ [AEnd SConfigMaps]) [] pre).
Proof.
  intros Hw Ha Hq Hr E. destruct a as [key [| | |cm]| | | | | | | | |cm nodeID text| | |];
    simpl in E; try done.
  - left. assert (handling w (queue ++ [AEnd SConfigMaps])) as Hid by by apply handling_queue.
    destruct (StoreMap w !! key) as [l|] eqn:Hm; simpl in E; [|by injection E as <- <-].
    destruct (w_heap w !! l) as [cs|] eqn:Hl; simpl in E; [|by injection E as <- <-].
    destruct (fromConfigMap cm cs); injection E as <- <-; [|done].
    assert (running (set_store l (Stop cs) w) []) as Hr' by by apply running_stop.
    apply handling_head; [by apply stopped_at_stop|done|].
    intros l' cs' Hl' Hrun. left. by destruct (Hr' l' cs' Hl' Hrun).
  - destruct (Config.ParseConfigYaml nodeID text) as [c0|e|y]; [|by injection E as <- <-; right|done].
    injection E as <- <-. left.
    destruct (stopExisting_lives (ID (prepareConfig cm nodeID c0)) w [] Hw Hr) as [Hr' Hst].
    apply handling_head; [done..|].
    intros l' cs' Hl' Hrun. left. by destruct (Hr' l' cs' Hl' Hrun).
Qed.

(** A round goes on. *)
Lemma head_exec `{MapOrder} now rnd k a queue w w' pre :
  world_ok w → action_ok w a → head_ok w [a] → running w [a] →
  forallb queued queue = true → exec app ca uuids now rnd k a w = Ok (w', pre) →
  handled w' (from_option (λ acts, acts ++ queue ++ [AEnd SConfigMaps]) [] pre).
Proof.
  intros Hw Ha Hh Hr Hq E.
  assert ((∀ id l, a ≠ ARegister id l) → running w []) as Hr0.
  { intros Hne l cs Hl Hrun. left. destruct (Hr l cs Hl Hrun) as [|[= ->]]; [done|].
    by destruct (Hne (ID (cs_Config cs)) l). }
  destruct a as [| | | | | | |key l|key| |config|id l|]; simpl in Hh, E; try done.
  - left. destruct (w_heap w !! l) as [cs|]; injection E as <- <-;
      [|by apply handling_queue; [|apply Hr0]].
    apply handling_head; [done..|]. intros l' cs' Hl' Hrun. left. simpl.
    by destruct (Hr0 ltac:(done) l' cs' Hl' Hrun).
  - injection E as <- <-. left. apply handling_queue; [done|].
    by apply running_delete; [|apply Hr0].
  - destruct (buildEntry app ca now rnd k config w) as [w1 r] eqn:Eb.
    destruct r as [l|e|y]; [| |done]; injection E as <- <-.
    + left. destruct (build_lives _ _ _ _ _ _ _ Hw Hh (Hr0 ltac:(done)) Eb) as [Hst Hr'].
      by apply handling_head.
    + right. split; [done|]. apply buildEntry_fail in Eb as ->; [|done]. by apply Hr0.
  - injection E as <- <-. left. apply handling_queue; [done|]. by apply running_register.
Qed.

Lemma handling_exec `{MapOrder} now rnd k a rest w w' pre :
  world_ok w → Forall (action_ok w) (a :: rest) → handling w (a :: rest) →
  exec app ca uuids now rnd k a w = Ok (w', pre) →
  handled w' (from_option (λ acts, acts ++ rest) [] pre).
Proof.
  intros Hw Ha (head & queue & Et & Hq & Hh & Hr) E. apply Forall_cons in Ha as [Ha _].
  destruct head as [|b head].
  - destruct queue as [|b queue]; simpl in Et.
    + injection Et as -> ->. injection E as <- <-. right. by split.
    + injection Et as -> ->. simpl in Hq. apply andb_true_iff in Hq as [Hb Hq].
      by eapply queued_exec.
  - simpl in Et. injection Et as <- ->.
    assert (head = []) as -> by (destruct a, head; done).
    by eapply head_exec.
Qed.

(** ** The process *)

Definition plain_thread (t : thread) : Prop := forallb plain t = true.

(** No goroutine handles a ConfigMap, or exactly one does. *)
Definition lives_ok (w : World) (ts : list thread) : Prop :=
  ∃ t us, ts ≡ₚ t ++ us ∧ Forall plain_thread us ∧
    match t with
    | [] => running w []
    | [t] => handling w t
    | _ => False
    end.

(** The order of the goroutines does not matter. *)
#[local] Instance lives_ok_Permutation w : Proper ((≡ₚ) ==> iff) (lives_ok w).
Proof.
  intros ts ts' E. unfold lives_ok. split; intros (t & us & Et & H'); exists t, us;
    (split; [|exact H']); [by rewrite <-E|by rewrite E].
Qed.

Lemma lives_ok_handled w ts t us :
  ts ≡ₚ t :: us → Forall plain_thread us → handled w t → lives_ok w ts.
Proof.
  intros E Hus [Ht|[-> Hr]]; [by exists [t], us|].
  exists [], ([] :: us). split_and!; [done|by constructor|done].
Qed.

Lemma handling_same w w' t : same_lives w w' → handling w t → handling w' t.
Proof.
  intros Hw (head & queue & -> & Hq & Hh & Hr). exists head, queue.
  split_and!; [done..|by eapply head_ok_same|by eapply running_same].
Qed.

Lemma lives_ok_same w w' ts : same_lives w w' → lives_ok w ts → lives_ok w' ts.
Proof.
  intros Hw (t & us & E & Hus & Ht). exists t, us. split_and!; [done..|].
  destruct t as [|t []]; [by eapply running_same|by eapply handling_same|done].
Qed.

Lemma handling_busy w t : handling w t → busy SConfigMaps t = true.
Proof.
  intros (head & queue & -> & _). unfold busy. rewrite !existsb_app. simpl.
  by rewrite !orb_true_r.
Qed.

(** When the informer is idle, no goroutine handles a ConfigMap. *)
Lemma idle_running w ts :
  lives_ok w ts → existsb (busy SConfigMaps) ts = false →
  Forall plain_thread ts ∧ running w [].
Proof.
  intros (t & us & E & Hus & Ht) Hb. destruct t as [|t []]; [by rewrite E| |done].
  assert (t ∈ ts) as Hin by (rewrite E; by left).
  apply handling_busy in Ht. assert (existsb (busy SConfigMaps) ts = true); [|congruence].
  apply existsb_exists. exists t. by rewrite <-list_elem_of_In.
Qed.

Lemma plain_visits v s (l : list (string * nat)) :
  (∀ cm, v ≠ VDelete cm) → s ≠ SConfigMaps →
  plain_thread (map (λ kl, AVisit kl.1 v) l ++ [AEnd s]).
Proof.
  intros Hv Hs. unfold plain_thread. rewrite forallb_app. simpl.
  rewrite bool_decide_eq_false_2 by done. simpl. rewrite andb_true_r.
  apply forallb_forall. intros a (kl & <- & _)%in_map_iff. simpl.
  destruct v; [done..|]. by destruct (Hv cm).
Qed.

Lemma queued_visits cm (l : list (string * nat)) :
  forallb queued (map (λ kl, AVisit kl.1 (VDelete cm)) l) = true.
Proof. apply forallb_forall. by intros a (kl & <- & _)%in_map_iff. Qed.

(** One goroutine runs, the others wait. *)
Lemma lives_ok_split w ts1 t0 ts2 :
  lives_ok w (ts1 ++ t0 :: ts2) →
  (Forall plain_thread (ts1 ++ ts2) ∧ handling w t0) ∨
  (plain_thread t0 ∧ lives_ok w (ts1 ++ ts2)).
Proof.
  intros (t & us & E & Hus & Ht). rewrite <-Permutation_middle in E.
  destruct t as [|t []]; [| |done].
  - right. rewrite <-E in Hus. apply Forall_cons in Hus as [Hp0 Hus].
    split; [done|]. by exists [], (ts1 ++ ts2).
  - symmetry in E. apply Permutation_cons_inv_l in E as (k1 & k2 & Ek & Hu).
    destruct k1 as [|x k1]; simpl in Ek.
    + injection Ek as -> ->. left. by rewrite <-Hu.
    + injection Ek as <- ->. right. rewrite Hu in Hus. apply Forall_cons in Hus as [Hp0 Hus].
      split; [done|]. exists [t], (k1 ++ k2). split_and!; [|done..].
      by rewrite <-Permutation_middle.
Qed.

Lemma lives_ok_plain w ts us :
  lives_ok w ts → Forall plain_thread us → lives_ok w (us ++ ts).
Proof.
  intros (t & vs & E & Hvs & Ht) Hus. exists t, (us ++ vs). split_and!; [|by apply Forall_app|done].
  rewrite E, !app_assoc. by rewrite (Permutation_app_comm us t).
Qed.

Lemma lives_step p p' :
  process_ok p → lives_ok (p_world p) (p_threads p) → step app ca uuids p p' →
  lives_ok (p_world p') (p_threads p').
Proof.
  intros [Hw Ha] Hl Hs.
  destruct Hs as [order s v Hi Hv|order cm t Hi Et|k _ [order now rnd ts1 a rest ts2 w' pre Eq Ex]];
    simpl.
  - destruct (decide (s = SConfigMaps)) as [->|Hs].
    + apply negb_true_iff in Hi. destruct (idle_running _ _ Hl Hi) as [Hp Hr].
      destruct v as [| | |cm]; [done..|]. eapply lives_ok_handled; [done..|].
      left. apply handling_queue; [|done]. apply queued_visits.
    + apply (lives_ok_plain _ _ [_]); [done|]. constructor; [|done].
      apply plain_visits; [|done]. by intros cm ->; destruct s.
  - apply negb_true_iff in Hi. destruct (idle_running _ _ Hl Hi) as [Hp Hr].
    eapply lives_ok_handled; [done..|]. left. apply handling_queue; [|done].
    unfold on_new_config in Et. destruct (checkConfigMapLabels app cm) as [[]| |];
      [|by injection Et as <-|done..].
    injection Et as <-. apply forallb_forall. by intros a (kl & <- & _)%in_map_iff.
  - rewrite Eq in Hl, Ha. apply Forall_app in Ha as [_ [Ha _]%Forall_cons].
    assert (Forall plain_thread (map spawned_thread (w_spawned w'))) as Hsp
      by (apply Forall_fmap, Forall_true; by intros [l [reason|]]).
    rewrite Permutation_app_comm. apply lives_ok_plain; [|done].
    eapply lives_ok_same; [by instantiate (1 := w')|].
    destruct (lives_ok_split _ _ _ _ Hl) as [[Hp Hh]|[Hp Ho]].
    + eapply lives_ok_handled; [by rewrite <-Permutation_middle|done|].
      by eapply handling_exec.
    + apply andb_true_iff in Hp as [Hpa Hpr]. change (forallb plain rest = true) in Hpr.
      destruct (plain_exec _ _ _ _ _ _ _ Hpa Ex) as [Hsame Hpre].
      rewrite <-Permutation_middle. apply (lives_ok_plain _ _ [_]);
        [by eapply lives_ok_same|]. constructor; [|done]. unfold plain_thread.
      destruct pre as [acts|]; [|done]. cbn [from_option]. cbn in Hpre.
      by rewrite forallb_app, Hpre, Hpr.
Qed.

Lemma reachable_lives c p :
  reachable app ca uuids c p → process_ok p ∧ lives_ok (p_world p) (p_threads p).
Proof.
  intros Hr. split; [by eapply reachable_ok|].
  enough (process_ok p ∧ lives_ok (p_world p) (p_threads p)) by tauto. revert Hr.
  apply (reachable_invariant app ca uuids (λ p, process_ok p ∧ lives_ok (p_world p) (p_threads p))).
  - split; [by apply (reachable_ok app ca uuids c), rtc_refl|]. exists [], []. split_and!; [done..|].
    intros l cs Hl. simpl in Hl. by simplify_map_eq.
  - intros p1 p2 [Hok Hl] Hs. split; [by eapply step_ok|by eapply lives_step].
Qed.

(** C6: no store runs unseen: in every state the process can reach, a store that
    is not stopped is registered under its node, or the handler of its ConfigMap
    is about to register it - and a node never has two running stores, so no two
    stores compete for its snapshot. *)
Theorem no_orphan_store c p l cs :
  reachable app ca uuids c p →
  w_heap (p_world p) !! l = Some cs → isStoped cs = false →
  (StoreMap (p_world p) !! ID (cs_Config cs) = Some l ∨
   ∃ t, t ∈ p_threads p ∧ head t = Some (ARegister (ID (cs_Config cs)) l)) ∧
  ∀ l' cs', w_heap (p_world p) !! l' = Some cs' → isStoped cs' = false →
    ID (cs_Config cs') = ID (cs_Config cs) → l' = l.
Proof.
  intros (_ & t & us & E & _ & Ht)%reachable_lives Hl Hrun.
  destruct t as [|t [|]]; [| |done].
  - destruct (Ht _ _ Hl Hrun) as [Hm|]; [|done]. split; [by left|].
    intros l' cs' Hl' Hrun' Hid. destruct (Ht _ _ Hl' Hrun') as [Hm'|]; [|done]. congruence.
  - destruct Ht as (head & queue & -> & _ & Hh & Hr).
    assert (∀ l1 l2 cs1 cs2, w_heap (p_world p) !! l1 = Some cs1 → isStoped cs1 = false →
      StoreMap (p_world p) !! ID (cs_Config cs1) = Some l1 →
      ID (cs_Config cs1) = ID (cs_Config cs2) →
      head ≠ [ARegister (ID (cs_Config cs2)) l2]) as Hex.
    { intros l1 l2 cs1 cs2 Hl1 Hr1 Hm1 Hid ->. simpl in Hh. rewrite Hid in Hm1.
      by rewrite (Hh _ _ Hm1 Hl1) in Hr1. }
    split.
    + destruct (Hr _ _ Hl Hrun) as [|Hhead]; [by left|right].
      eexists. rewrite E. split; [by left|]. by rewrite Hhead.
    + intros l' cs' Hl' Hrun' Hid.
      destruct (Hr _ _ Hl Hrun) as [Hm|Hhead], (Hr _ _ Hl' Hrun') as [Hm'|Hhead'];
        [congruence| | |congruence].
      * by destruct (Hex l l' cs cs' Hl Hrun Hm).
      * by destruct (Hex l' l cs' cs Hl' Hrun' Hm').
Qed.

End lifetimes.

(** ** A run *)

Import Samples.

#[local] Existing Instances codec crypto xds parser runtime_doubling map_order_std.

Lemma no_orphan_store_witness :
  ∃ p l cs, reachable Samples.app Samples.ca Samples.uuids ∅ p ∧
    w_heap (p_world p) !! l = Some cs ∧ isStoped cs = false ∧
    (StoreMap (p_world p) !! ID (cs_Config cs) = Some l ∨
     ∃ t, t ∈ p_threads p ∧ head t = Some (ARegister (ID (cs_Config cs)) l)).
Proof.
  destruct (SystemExamples.run_reaches
    (λ p, (isStoped <$> w_heap (p_world p) !! 0%nat) = Some false) SystemExamples.boot ∅)
    as (p & Hr & Hp); [vm_compute; reflexivity|].
  cbv beta in Hp. destruct (w_heap (p_world p) !! 0%nat) as [cs|] eqn:Hl; [|discriminate Hp].
  assert (isStoped cs = false) as Hrun by (injection Hp; auto).
  exists p, 0%nat, cs. split; [exact Hr|]. split; [exact Hl|]. split; [exact Hrun|].
  exact (proj1 (no_orphan_store _ _ _ _ _ _ _ Hr Hl Hrun)).
Defined.

End Lifetimes.
