(* ===== verification/Progress.v ===== *)
(** * internal: the handling of events ends

    Every action is worth more than all it leaves to do, so a process that gets
    no further event has a bounded number of steps left; and it only stops when
    nothing is left to do, or when it crashes. *)

From stdpp Require Import options.
From S2P Require Import Prelude.
From S2P Require Import GoStd.
From S2P Require Import GoSlice.
From S2P Require Import Envoy.
From S2P Require Import AppConfig.
From S2P Require Import Resources.
From S2P Require Import Config.
From S2P Require Import Api.
From S2P Require Import Certs.
From S2P Require Import Utils.
From S2P Require Import ConfigStore.
From S2P Require Import StoreFacts.
From S2P Require Import ConfigMapsStore.
From S2P Require Import WorldFacts.
From S2P Require Import System.
From S2P Require Import Samples.
From S2P Require Import SystemExamples.
From Stdlib Require Import ZArith.

Module Progress.

Import AppConfig Store StoreFacts ConfigMapsStore WorldFacts System.

(** ** The work an action still stands for *)

(** Enough steps for an action, what it starts and what they start. *)
Fixpoint work (a : Action) : nat :=
  match a with
  | APush _ _ | ARegister _ _ | ADeleteKey _ | AEnd _ => 1
  | ACommit _ _ | ALoadNewSecrets _ | AClear _ _ => 2
  | ACollect _ | ABuild _ => 3
  | ASyncCheck _ | ANewEntry _ _ _ => 4
  | AUnlessStoped _ body => S (sum_list_with work body)
  | AVisit _ VNewPod => 5
  | AVisit _ VSync => 9
  | AVisit _ VRotate => 3
  | AVisit _ (VDelete _) => 4
  end.

Definition thread_work (t : thread) : nat := sum_list_with work t.

Section progress.
Context `{Codec} `{ConfigParser} `{Crypto} `{XdsCache} `{GoRuntime}.
Variable app : Type_.
Variable ca : Certs.CA.
Variable uuids : nat → string.

(** The work of the goroutines a state is about to schedule. *)
Definition spawned_work (w : World) : nat :=
  sum_list_with thread_work (map spawned_thread (w_spawned w)).

(** The work of the goroutines of a process, and of those it is about to schedule. *)
Definition process_work (p : Process) : nat :=
  sum_list_with thread_work (p_threads p) + spawned_work (p_world p).

Lemma spawned_work_spawn l sp w :
  spawned_work (spawn l sp w) =
  (spawned_work w + sum_list_with thread_work (map spawned_thread (map (pair l) sp)))%nat.
Proof. unfold spawned_work. simpl. by rewrite map_app, sum_list_with_app. Qed.

(** ** What the operations of a store start *)

Lemma saveCommit_spawns p cs cs' sp :
  saveCommit p cs = (cs', sp) → sp = [] ∨ sp = [GoPush "new endpoints"].
Proof. unfold saveCommit. case_bool_decide; intros [= <- <-]; [by left|by right]. Qed.

Lemma syncCheck_spawns cs cache cs' sp :
  syncCheck cs cache = Ok (cs', sp) → sp = [] ∨ sp = [GoSaveLastEndpoints].
Proof.
  unfold syncCheck. destruct (lastEndpoints cs); [|intros [= <- <-]; by left].
  destruct (GetSnapshot _ _); [|done]. case_match; intros [= <- <-]; [by right|by left].
Qed.

Lemma New_spawns `{MapOrder} now rnd k m config m' cs sp :
  New app ca now rnd k m config = Ok (m', cs, sp) → sp = [] ∨ sp = [GoPush "new endpoints"].
Proof.
  intros (m1 & ce & ss & _ & _ & _ & _ & _ & E)%New_spec. revert E.
  unfold saveLastEndpoints. destruct (saveCollect _ _ _ _) as [m2 [p|]].
  - destruct (saveCommit _ _) as [cs1 sp1] eqn:Ec. intros [= _ _ <-].
    by eapply saveCommit_spawns.
  - intros [= _ _ <-]. by left.
Qed.

(** ** Every action makes progress *)

(** What is left of an action is worth less than the action. *)
Definition decreases (w w' : World) (a : Action) (pre : option (list Action)) : Prop :=
  (thread_work (default [] pre) + spawned_work w' < work a + spawned_work w)%nat.

Ltac spend := unfold decreases, spawned_work, thread_work; simpl; lia.

Lemma visit_decreases v key l cs w w' acts :
  visit v key l cs w = (w', acts) → decreases w w' (AVisit key v) (Some acts).
Proof.
  destruct v as [| | |cm]; simpl; [intros [= <- <-]; spend..|].
  destruct (fromConfigMap cm cs); intros [= <- <-]; spend.
Qed.

Lemma stopExisting_spawned id w : w_spawned (stopExisting id w) = w_spawned w.
Proof. by destruct (stopExisting_core id w) as [->|(l & cs & _ & _ & ->)]. Qed.

Lemma build_decreases `{MapOrder} now rnd k config w w' l :
  buildEntry app ca now rnd k config w = (w', Ok l) →
  decreases w w' (ABuild config) (Some [ARegister (ID config) l]).
Proof.
  intros (c' & m' & cs & sp & _ & _ & Hn & -> & _)%buildEntry_Ok.
  unfold decreases, allocStore. simpl fst. rewrite spawned_work_spawn.
  apply New_spawns in Hn as [-> | ->]; spend.
Qed.

Lemma push_ends `{!Inj (=) (=) uuids} n cs cache :
  ∃ cs' n' cache', Push uuids n cs cache = Some (cs', n', cache').
Proof.
  assert (uuids n ≠ uuids (S n)) as Hne by (intros E%(inj uuids); lia).
  destruct (nextVersion_ends uuids n (Version cs) Hne) as (v & n' & Hv & _).
  unfold Push. rewrite Hv. simpl. destruct (Utils.GetConfigSnapshot _ _ _ _); [|by eauto..].
  destruct (SetSnapshot _ _ _). eauto.
Qed.

Lemma exec_decreases `{MapOrder} `{!Inj (=) (=) uuids} now rnd k a w w' pre :
  exec app ca uuids now rnd k a w = Ok (w', pre) → decreases w w' a pre.
Proof.
  intros E.
  destruct a as [key v|l body|l|l p|l|l reason|l|key l|key|cm nodeID text|config|id l|s];
    simpl in E; try (destruct (w_heap w !! l) as [cs|]; [|injection E as <- <-; spend]).
  - destruct (_ ≫= _) as [[l cs]|]; [|injection E as <- <-; destruct v; spend].
    destruct (visit v key l cs w) as [w1 acts] eqn:Ev. injection E as <- <-.
    by eapply visit_decreases.
  - injection E as <- <-. destruct (hasStoped cs); spend.
  - destruct (saveCollect _ _ _ _) as [m' [p|]]; injection E as <- <-; spend.
  - destruct (saveCommit p cs) as [cs' sp] eqn:Ec. injection E as <- <-.
    unfold decreases. rewrite spawned_work_spawn.
    apply saveCommit_spawns in Ec as [-> | ->]; spend.
  - ok_step E as [cs' sp] Es. injection E as <- <-.
    unfold decreases. rewrite spawned_work_spawn.
    apply syncCheck_spawns in Es as [-> | ->]; spend.
  - destruct (push_ends (w_draws w) cs (w_cache w)) as (cs' & n' & c' & Ep).
    rewrite Ep in E. injection E as <- <-. spend.
  - destruct (LoadNewSecrets _ _ _ _ _); [| |done]; injection E as <- <-; spend.
  - injection E as <- <-. spend.
  - injection E as <- <-. spend.
  - destruct (Config.ParseConfigYaml _ _); [| |done]; injection E as <- <-; [|spend].
    unfold decreases, spawned_work. rewrite stopExisting_spawned. spend.
  - destruct (buildEntry app ca now rnd k config w) as [w1 r] eqn:Eb.
    destruct r as [l|e|y]; [| |done]; injection E as <- <-; [by eapply build_decreases|].
    apply buildEntry_fail in Eb as ->; [spend|done].
  - injection E as <- <-. spend.
  - injection E as <- <-. spend.
Qed.

(** A goroutine runs, against any state of the cluster. *)
Definition runs (p p' : Process) : Prop := ∃ k, run app ca uuids k p p'.

Lemma run_decreases `{!Inj (=) (=) uuids} p p' :
  runs p p' → (process_work p' < process_work p)%nat.
Proof.
  intros [k [order now rnd ts1 a rest ts2 w' pre Et Ex]].
  apply exec_decreases in Ex. unfold decreases, spawned_work in Ex.
  unfold process_work, spawned_work. rewrite Et. simpl.
  rewrite !sum_list_with_app. simpl. unfold thread_work in *. simpl.
  destruct pre as [acts|]; simpl in *; rewrite ?sum_list_with_app; lia.
Qed.

Lemma nruns_work `{!Inj (=) (=) uuids} n p p' :
  nsteps runs n p p' → (n + process_work p' ≤ process_work p)%nat.
Proof.
  induction 1 as [|n p1 p2 p3 H12 _ IH]; [done|]. apply run_decreases in H12. lia.
Qed.

(** ** Nothing else stops the process *)

(** Errors are handled where they come up: an action ends, or panics. *)
Lemma exec_no_error `{MapOrder} now rnd k a w e : exec app ca uuids now rnd k a w ≠ Err e.
Proof.
  destruct a as [key v|l body|l|l p|l|l reason|l|key l|key|cm nodeID text|config|id l|s];
    simpl; try (destruct (w_heap w !! l) as [cs|]; [|done]); try done.
  - destruct (_ ≫= _) as [[l cs]|]; [|done]. by destruct (visit v key l cs w).
  - by destruct (saveCollect _ _ _ _).
  - by destruct (saveCommit _ _).
  - unfold syncCheck. destruct (lastEndpoints cs); [|done].
    destruct (GetSnapshot _ _); [|done]. by case_match.
  - by destruct (Push _ _ _ _) as [[[] ]|].
  - by destruct (LoadNewSecrets _ _ _ _ _).
  - by destruct (Config.ParseConfigYaml _ _).
  - by destruct (buildEntry _ _ _ _ _ _ _) as [? []].
Qed.

Lemma quiescent_actions p : quiescent p → concat (p_threads p) = [].
Proof. unfold quiescent. induction 1 as [|t ts -> _ IH]; [done|exact IH]. Qed.

Lemma busy_thread (ts : list thread) :
  ¬ Forall (λ t, t = []) ts → ∃ ts1 a rest ts2, ts = ts1 ++ (a :: rest) :: ts2.
Proof.
  induction ts as [|[|a rest] ts IH]; intros Hn; [by destruct Hn| |by exists [], a, rest, ts].
  destruct IH as (ts1 & a & rest & ts2 & ->); [by intros Hf; apply Hn; constructor|].
  by exists ([] :: ts1), a, rest, ts2.
Qed.

(** C12: the handling of events ends: without further events every run of the
    process - whatever its goroutines interleave, and however the cluster changes
    meanwhile - takes at most [process_work] steps, and where it cannot go on
    either nothing is left to do or a goroutine panics. *)
Theorem handling_ends (order : MapOrder) (k : KubeCache) `{!Inj (=) (=) uuids} p :
  (∀ n p', nsteps runs n p p' → (n ≤ process_work p)%nat) ∧
  ((∀ p', ¬ runs p p') → quiescent p ∨ crashes app ca uuids p).
Proof.
  split; [intros n p' Hr%nruns_work; lia|].
  intros Hno. destruct (decide (quiescent p)) as [|Hq]; [by left|]. right.
  apply busy_thread in Hq as (ts1 & a & rest & ts2 & Et).
  destruct (exec app ca uuids 0 0 k a (p_world p)) as [[w' pre]|e|why] eqn:Ex.
  - destruct (Hno (schedule_spawned w' (ts1 ++ from_option (λ acts, acts ++ rest) [] pre :: ts2))). exists k. by eapply run_action.
  - by destruct (exec_no_error _ _ _ _ _ _ Ex).
  - by exists order, 0%Z, 0%nat, k, ts1, a, rest, ts2, why.
Qed.

End progress.

(** ** A run *)

Import Samples.

#[local] Existing Instances codec crypto xds parser runtime_doubling map_order_std.

(** The arrival of a ConfigMap with one entry. *)
Definition arrived : Process :=
  default (initial ∅) (SystemExamples.move (SystemExamples.MConfig SystemExamples.cm_web)
                         (initial ∅)).

Lemma handling_ends_witness :
  map length (p_threads arrived) = [2]%nat ∧
  ∀ n p', nsteps (runs Samples.app Samples.ca Samples.uuids) n arrived p' → (n ≤ 5)%nat.
Proof.
  split; [vm_compute; reflexivity|].
  exact (proj1 (handling_ends Samples.app Samples.ca Samples.uuids map_order_std
                  SystemExamples.k1 arrived)).
Defined.

End Progress.
