(* ===== verification/Serving.v ===== *)
(** * internal: what the proxies are served

    Between its pushes a store may change what it has recorded; but whenever it
    does, a push is on its way: where the cache holds the last snapshot of a store
    and no goroutine is about to push, that snapshot is exactly what the store has
    recorded. *)

From stdpp Require Import options.
From S2P Require Import Prelude.
From S2P Require Import GoStd.
From S2P Require Import GoSlice.
From S2P Require Import Envoy.
From S2P Require Import AppConfig.
From S2P Require Import Resources.
From S2P Require Import Config.
From S2P Require Import Api.
From S2P Require Import Certs.
From S2P Require Import Utils.
From S2P Require Import ConfigStore.
From S2P Require Import Discovery.
From S2P Require Import StoreFacts.
From S2P Require Import StoreTheorems.
From S2P Require Import ConfigMapsStore.
From S2P Require Import WorldFacts.
From S2P Require Import System.
From S2P Require Import SystemTheorems.
From S2P Require Import Samples.
From S2P Require Import SystemExamples.
From Stdlib Require Import ZArith.

Set Default Proof Using "Type*".

Module Serving.

Import AppConfig Store ConfigMapsStore WorldFacts System SystemTheorems.

Section serving.
Context `{Codec} `{ConfigParser} `{Crypto} `{XdsCache} `{GoRuntime}.
Variable app : Type_.
Variable ca : Certs.CA.
Variable uuids : nat → string.
Context `{!XdsCacheLaws} `{!Inj (=) (=) uuids}.
Hypothesis uuids_ne : ∀ i, uuids i ≠ "".

(** ** Snapshots against records *)

(** What a store has recorded, as a snapshot. *)
Definition recorded (cs : ConfigStore) : res Snapshot :=
  NewSnapshot (Version cs)
    (Utils.snapshotResources (cs_Config cs) (default [] (lastEndpoints cs)) (cs_secrets cs)).

(** When the cache holds the last push of a store, it is what the store has
    recorded. *)
Definition current (c : SnapshotCache) (cs : ConfigStore) : Prop :=
  ∀ snap, GetSnapshot c (ID (cs_Config cs)) = Some snap →
    GetVersion snap = Version cs → recorded cs = Ok snap.

(** A goroutine whose next action is a push of the store. *)
Definition about_to_push (l : nat) (t : thread) : Prop :=
  ∃ reason, head t = Some (APush l reason).

Definition pushing (l : nat) (ts : list thread) : Prop := Exists (about_to_push l) ts.

Definition served (w : World) (ts : list thread) : Prop :=
  ∀ l cs, w_heap w !! l = Some cs → current (w_cache w) cs ∨ pushing l ts.

(** ** One action *)

(** What an action on a state [w] does to the store at [l]: a store that was
    current stays so, unless the action was its push, which makes it current; or
    a push is next. *)
Definition follows (w w' : World) (a : Action) (started : list thread) : Prop :=
  ∀ l cs', w_heap w' !! l = Some cs' →
    (∃ cs, w_heap w !! l = Some cs ∧ (∀ reason, a ≠ APush l reason) ∧
       (current (w_cache w) cs → current (w_cache w') cs')) ∨
    current (w_cache w') cs' ∨ pushing l started.

(** The facts a snapshot is made of. *)
Definition facts (cs : ConfigStore) :=
  (cs_Config cs, Version cs, lastEndpoints cs, cs_secrets cs).

Lemma current_facts c cs cs' : facts cs' = facts cs → current c cs → current c cs'.
Proof. unfold facts, current, recorded. by intros [= -> -> -> ->]. Qed.

Lemma current_unversioned (w : World) cs :
  versions_ok uuids w → Version cs = "" → current (w_cache w) cs.
Proof.
  intros Hv Hver snap Hs Hsv.
  destruct (v_cache _ _ Hv _ _ Hs) as (i & c & ep & ss & _ & _ & Hn & _).
  rewrite (version_of_new _ _ _ Hn), Hver in Hsv. by destruct (uuids_ne i).
Qed.

(** A change of one store that is not a push, when the cache stays. *)
Lemma follows_update w w' a ts l cs cs' :
  w_heap w !! l = Some cs → w_heap w' = <[l := cs']> (w_heap w) → w_cache w' = w_cache w →
  (∀ l' reason, a ≠ APush l' reason) →
  facts cs' = facts cs ∨ current (w_cache w) cs' ∨ pushing l ts → follows w w' a ts.
Proof.
  intros Hl Hh Hc Ha Hf l' cs1. rewrite Hh, Hc, lookup_insert. case_decide as Hd.
  - subst l'. intros [= <-]. destruct Hf as [Hf|[Hf|Hf]]; [left|by right; left|by right; right].
    exists cs. split_and!; [done..|by apply current_facts].
  - intros Hl'. left. by exists cs1.
Qed.

(** A change that leaves the stores and at most forgets snapshots. *)
Lemma follows_same w w' a ts :
  w_heap w' = w_heap w →
  (∀ id snap, GetSnapshot (w_cache w') id = Some snap → GetSnapshot (w_cache w) id = Some snap) →
  (∀ l reason, a ≠ APush l reason) → follows w w' a ts.
Proof.
  intros Hh Hc Ha l cs Hl. rewrite Hh in Hl. left. exists cs. split_and!; [done..|].
  intros Hcur snap Hs Hv. by apply Hcur; [apply Hc|].
Qed.

Lemma saveCommit_pushes p cs cs' sp :
  saveCommit p cs = (cs', sp) → cs' = cs ∨ GoPush "new endpoints" ∈ sp.
Proof. unfold saveCommit. case_bool_decide; intros [= <- <-]; [by left|right; by left]. Qed.

(** [Sync] forgets what was saved only when the cache holds another version. *)
Lemma syncCheck_current cs cache cs' sp :
  syncCheck cs cache = Ok (cs', sp) → cs' = cs ∨ current cache cs'.
Proof.
  unfold syncCheck. destruct (lastEndpoints cs); [|intros [= <- _]; by left].
  destruct (GetSnapshot _ _) as [snap|] eqn:Hs; [|done].
  destruct (_ && _) eqn:Hb; intros [= <- _]; [right|by left].
  apply andb_true_iff in Hb as [_ Hb%negb_true_iff%String.eqb_neq].
  intros snap' Hs' Hv. simpl in *. rewrite Hs in Hs'. by injection Hs' as <-.
Qed.

(** A store is current after its push: its snapshot was rejected, or it is the
    one recorded. *)
Lemma push_current w l cs cs' n' c' :
  versions_ok uuids w → w_heap w !! l = Some cs →
  Push uuids (w_draws w) cs (w_cache w) = Some (cs', n', c') →
  current c' cs' ∧
  ∀ l1 cs1, l ≠ l1 → w_heap w !! l1 = Some cs1 →
    current (w_cache w) cs1 → current c' cs1.
Proof.
  intros Hok Hl (v & Hv & -> & Hc')%Push_core.
  destruct (nextVersion_index _ _ _ _ _ _ Hv) as (i & Hi & ->).
  assert (∀ id snap, GetSnapshot (w_cache w) id = Some snap → GetVersion snap ≠ uuids i)
    as Hold.
  { intros id snap Hs Hver.
    destruct (v_cache _ _ Hok _ _ Hs) as (j & c & ep & ss & Hj & _ & Hn & _).
    rewrite (version_of_new _ _ _ Hn) in Hver. apply (inj uuids) in Hver. lia. }
  destruct Hc' as [->|(snap & Hn & ->)].
  - split; [|done]. intros snap Hs Hver. by destruct (Hold _ _ Hs).
  - destruct (SetSnapshot (ID (cs_Config cs)) snap (w_cache w)) as [c1 e] eqn:Es. simpl.
    pose proof (get_set_err _ _ _ _ _ Es) as Hset. split.
    + intros snap' Hs Hver. simpl in *. destruct Hset as [Eq|Eq]; rewrite Eq in Hs.
      * by injection Hs as <-.
      * by destruct (Hold _ _ Hs).
    + intros l1 cs1 Hne1 Hl1 Hcur snap' Hs Hver.
      destruct (decide (ID (cs_Config cs) = ID (cs_Config cs1))) as [Hid|Hid].
      * rewrite <-Hid in Hs. destruct Hset as [Eq|Eq]; rewrite Eq in Hs.
        -- injection Hs as <-. rewrite (version_of_new _ _ _ Hn) in Hver.
           destruct (v_drawn _ _ Hok _ _ Hl1) as [E|(j & Hj & E)]; rewrite E in Hver;
             [by destruct (uuids_ne i)|]. apply (inj uuids) in Hver. lia.
        -- apply Hcur; [by rewrite <-Hid|done].
      * rewrite (get_set_ne _ _ _ _ _ _ Es Hid) in Hs. by apply Hcur.
Qed.

Lemma follows_alloc `{MapOrder} now rnd k config w m' cs sp a ts :
  versions_ok uuids w → (∀ l reason, a ≠ APush l reason) →
  New app ca now rnd k (w_mem w) config = Ok (m', cs, sp) →
  follows w (allocStore m' cs sp w).1 a ts.
Proof.
  intros Hv Ha (_ & Hver & _)%New_frame l cs'. simpl. rewrite lookup_insert.
  case_decide; intros E; [|by left; exists cs'].
  injection E as <-. right. left. by apply current_unversioned.
Qed.

Lemma follows_stop id w a ts :
  (∀ l reason, a ≠ APush l reason) → follows w (stopExisting id w) a ts.
Proof.
  intros Ha. destruct (stopExisting_core id w) as [->|(l & cs & _ & Hl & ->)];
    [by apply follows_same|]. by eapply follows_update; [..|left].
Qed.

Lemma visit_follows v key l cs w w' acts a ts :
  w_heap w !! l = Some cs → (∀ l reason, a ≠ APush l reason) →
  visit v key l cs w = (w', acts) → follows w w' a ts.
Proof.
  intros Hl Ha E. destruct v as [| | |cm]; simpl in E; [by injection E as <- _; apply follows_same..|].
  destruct (fromConfigMap cm cs); injection E as <- _; [|by apply follows_same].
  eapply follows_update; [done..|by left].
Qed.

Lemma spawned_push l reason sp w :
  GoPush reason ∈ sp → pushing l (map spawned_thread (w_spawned (spawn l sp w))).
Proof.
  intros Hin. simpl. rewrite map_app. apply Exists_app. right.
  apply Exists_exists. exists [APush l reason]. split; [|by exists reason].
  apply (list_elem_of_fmap_2 spawned_thread _ (l, GoPush reason)).
  by apply (list_elem_of_fmap_2 (pair l)).
Qed.

(** The goroutines an action leaves: the one it belongs to, and those it starts. *)
Definition started (w' : World) (pre : option (list Action)) : list thread :=
  default [] pre :: map spawned_thread (w_spawned w').

Lemma exec_follows (order : MapOrder) now rnd k a w w' pre :
  versions_ok uuids w →
  exec app ca uuids now rnd k a w = Ok (w', pre) → follows w w' a (started w' pre).
Proof.
  intros Hv E.
  destruct a as [key v|l body|l|l p|l|l reason|l|key l|key|cm nodeID text|config|id l|s];
    simpl in E; try (destruct (w_heap w !! l) as [cs|] eqn:Hl; [|injection E as <- <-]);
    try solve [by injection E as <- <-; apply follows_same | by apply follows_same].
  - destruct (StoreMap w !! key) as [l|]; simpl in E; [|by injection E as <- <-; apply follows_same].
    destruct (w_heap w !! l) as [cs|] eqn:Hl; simpl in E; [|by injection E as <- <-; apply follows_same].
    destruct (visit v key l cs w) as [w1 acts] eqn:Ev. injection E as <- <-.
    by eapply visit_follows.
  - destruct (saveCollect _ _ _ _) as [m' r]. injection E as <- <-. by apply follows_same.
  - destruct (saveCommit p cs) as [cs' sp] eqn:Es. injection E as <- <-.
    eapply follows_update; [done..|]. apply saveCommit_pushes in Es as [->|Hin]; [by left|].
    right; right. right. by eapply spawned_push.
  - ok_step E as [cs' sp] Es. injection E as <- <-.
    eapply follows_update; [done..|]. apply syncCheck_current in Es as [->|Hc];
      [by left|by right; left].
  - intros l1 cs1 Hl1. destruct (Push _ _ _ _) as [[[cs' n'] c']|] eqn:Ep; injection E as <- <-.
    + destruct (push_current _ _ _ _ _ _ Hv Hl Ep) as [Hc Ho]. simpl in *. revert Hl1.
      rewrite lookup_insert. case_decide as Hd; [intros [= <-]; by right; left|].
      intros Hl1. left. exists cs1. split_and!; [done|by intros ? [= ]|by eapply Ho].
    + destruct (decide (l = l1)) as [<-|Hd].
      * right; right. left. by exists reason.
      * left. exists cs1. by split_and!; [|intros ? [= ]|].
  - intros l1 cs1 Hl1. left. exists cs1. split_and!; [done|intros ? [= -> _]; congruence|done].
  - destruct (LoadNewSecrets app ca now rnd cs) as [cs'|e|y] eqn:Es; [| |done];
      injection E as <- <-; [|by apply follows_same].
    eapply follows_update; [done..|]. right; right. left. by eexists.
  - injection E as <- <-. apply follows_same; [done| |done]. simpl. intros id snap.
    destruct (decide (ID (cs_Config cs) = id)) as [<-|Hid];
      [by rewrite get_clear|by rewrite get_clear_ne].
  - destruct (Config.ParseConfigYaml _ _) as [c0|e|y]; [| |done]; injection E as <- <-;
      [|by apply follows_same].
    by apply follows_stop.
  - destruct (buildEntry app ca now rnd k config w) as [w1 r] eqn:Eb.
    destruct r as [l|e|y]; [| |done]; injection E as <- <-;
      [|apply buildEntry_fail in Eb as ->; [by apply follows_same|done]].
    apply buildEntry_Ok in Eb as (c' & m' & cs & sp & _ & _ & Hn & -> & _).
    by eapply follows_alloc.
Qed.

(** ** The process *)

Lemma pushing_mono l ts ts' : ts ⊆ ts' → pushing l ts → pushing l ts'.
Proof.
  unfold pushing. rewrite !Exists_exists. intros Hs (t & Ht & Hp). exists t. auto.
Qed.

Lemma about_to_push_app l acts rest : about_to_push l acts → about_to_push l (acts ++ rest).
Proof. intros (reason & Hh). exists reason. by destruct acts. Qed.

(** The goroutines an action leaves go on pushing when the rest follows. *)
Lemma started_pushing l w' pre rest ts1 ts2 :
  pushing l (started w' pre) →
  pushing l ((ts1 ++ from_option (λ acts, acts ++ rest) [] pre :: ts2) ++
             map spawned_thread (w_spawned w')).
Proof.
  intros [Hp|Hp]%Exists_cons; apply Exists_app; [left|by right].
  apply Exists_app. right. left. destruct pre as [acts|]; simpl in *;
    [by apply about_to_push_app|by destruct Hp].
Qed.

Lemma served_step p p' :
  versions_ok uuids (p_world p) → served (p_world p) (p_threads p) →
  step app ca uuids p p' → served (p_world p') (p_threads p').
Proof.
  intros Hv Hs Hst.
  destruct Hst as [order s v _ _|order cm t _ _|k _ [order now rnd ts1 a rest ts2 w' pre Et Ex]].
  - intros l cs Hl. destruct (Hs l cs Hl) as [|]; [by left|by right; right].
  - intros l cs Hl. destruct (Hs l cs Hl) as [|]; [by left|by right; right].
  - intros l cs' Hl. simpl in *.
    destruct (exec_follows order _ _ _ _ _ _ _ Hv Ex l cs' Hl) as [(cs & Hcs & Ha & Hc)|[Hc|Hp]];
      [|by left|by right; apply started_pushing].
    destruct (Hs l cs Hcs) as [Hcur|Hp]; [left; by apply Hc|right].
    rewrite Et in Hp. unfold pushing in *. rewrite !Exists_app, !Exists_cons in *.
    destruct Hp as [?|[(reason & Hh)|?]]; [by auto|by injection Hh as ->; destruct (Ha reason)|by auto].
Qed.

Lemma reachable_served c p :
  (∀ id, GetSnapshot c id = None) → reachable app ca uuids c p →
  served (p_world p) (p_threads p).
Proof.
  intros Hc Hr.
  assert (versions_ok uuids (p_world p) ∧ served (p_world p) (p_threads p)) as [_ Hs]; [|done].
  revert Hr. apply (reachable_invariant app ca uuids
    (λ p, versions_ok uuids (p_world p) ∧ served (p_world p) (p_threads p))).
  - split; [by apply (reachable_versions app ca uuids c), rtc_refl|].
    intros l cs Hl. simpl in Hl. by simplify_map_eq.
  - intros p1 p2 [Hv1 Hs1] Hst. split; [by eapply step_versions|by eapply served_step].
Qed.

(** The property, in the form the proofs use. *)
Lemma recorded_served c p l cs snap :
  (∀ id, GetSnapshot c id = None) → reachable app ca uuids c p →
  w_heap (p_world p) !! l = Some cs →
  GetSnapshot (w_cache (p_world p)) (ID (cs_Config cs)) = Some snap →
  GetVersion snap = Version cs → ¬ pushing l (p_threads p) → recorded cs = Ok snap.
Proof.
  intros Hc Hr Hl Hs Hv Hno.
  destruct (reachable_served c p Hc Hr l cs Hl) as [Hcur|]; [by apply Hcur|done].
Qed.

(** C11: what is served is what is recorded: in every reachable state, when the
    cache holds a snapshot with the current version of the node's store and no
    goroutine's next action is a push of that store, the snapshot was made of the
    endpoints the store has recorded and the certificate it has issued last. *)
Theorem served_is_recorded c p l cs snap :
  (∀ id, GetSnapshot c id = None) → reachable app ca uuids c p →
  w_heap (p_world p) !! l = Some cs →
  GetSnapshot (w_cache (p_world p)) (ID (cs_Config cs)) = Some snap →
  GetVersion snap = Version cs →
  (∀ t reason, t ∈ p_threads p → head t ≠ Some (APush l reason)) →
  NewSnapshot (Version cs)
    (Utils.snapshotResources (cs_Config cs) (default [] (lastEndpoints cs)) (cs_secrets cs))
  = Ok snap.
Proof.
  intros Hc Hr Hl Hs Hv Hno. eapply recorded_served; [done..|].
  intros (t & Ht & reason & Hh)%Exists_exists. by destruct (Hno t reason).
Qed.

End serving.

(** ** A run *)

Import Samples SystemExamples.

#[local] Existing Instances codec crypto xds parser runtime_doubling map_order_std xds_laws.

Definition push_next (t : thread) : bool :=
  match t with APush _ _ :: _ => true | _ => false end.

Lemma no_push_next l ts :
  existsb push_next ts = false → ∀ t reason, t ∈ ts → head t ≠ Some (APush l reason).
Proof.
  intros Hn t reason Ht Hh.
  assert (existsb push_next ts = true); [|congruence].
  apply existsb_exists. exists t. split; [by apply list_elem_of_In|].
  destruct t as [|[] ?]; (discriminate Hh || done).
Qed.

(** After the first push: the cache serves the endpoint of the service. *)
Lemma served_is_recorded_witness :
  ∃ p cs snap, reachable Samples.app Samples.ca Samples.uuids ∅ p ∧
    lastEndpointsArray cs = Some ["web|unknown|0|10.0.0.1|80|0"] ∧
    GetSnapshot (w_cache (p_world p)) "n" = Some snap ∧
    NewSnapshot (Version cs)
      (Utils.snapshotResources (cs_Config cs) (default [] (lastEndpoints cs)) (cs_secrets cs))
    = Ok snap.
Proof.
  destruct (run_reaches (λ p, bool_decide
      ((ID ∘ cs_Config) <$> (w_heap (p_world p) !! 0%nat) = Some "n" ∧
       (GetVersion <$> GetSnapshot (w_cache (p_world p)) "n")
         = Version <$> (w_heap (p_world p) !! 0%nat) ∧
       lastEndpointsArray <$> (w_heap (p_world p) !! 0%nat)
         = Some (Some ["web|unknown|0|10.0.0.1|80|0"]) ∧
       existsb push_next (p_threads p) = false) = true) (boot ++ [MRun 1 k1]) ∅)
    as (p & Hr & Hp); [vm_compute; reflexivity|].
  apply bool_decide_eq_true in Hp as (Hid & Hver & Hla & Hno).
  destruct (w_heap (p_world p) !! 0%nat) as [cs|] eqn:Hl; [|discriminate Hla].
  destruct (GetSnapshot (w_cache (p_world p)) "n") as [snap|] eqn:Hs; [|discriminate Hver].
  injection Hid as Hid. injection Hver as Hver. injection Hla as Hla.
  exists p, cs, snap. split; [exact Hr|]. split; [exact Hla|]. split; [exact Hs|].
  apply (served_is_recorded _ _ _ uuids_not_empty ∅ p 0%nat cs snap empty_cache Hr Hl).
  - rewrite Hid. exact Hs.
  - exact Hver.
  - exact (no_push_next 0 _ Hno).
Defined.

End Serving.
