(* ===== verification/Convergence.v ===== *)
(** * internal: a round of synchronisation converges

    Whatever happened before - an event that was missed, a save that was overtaken
    by an older one, a push that another store's snapshot replaced - when nothing
    else is going on, one round of the periodic [Sync] against a cluster that does
    not change brings every running store to what it should publish, and the cache
    to what the stores have recorded. *)

From stdpp Require Import options.
From S2P Require Import Prelude.
From S2P Require Import GoStd.
From S2P Require Import GoSlice.
From S2P Require Import Envoy.
From S2P Require Import AppConfig.
From S2P Require Import Resources.
From S2P Require Import Config.
From S2P Require Import Api.
From S2P Require Import Certs.
From S2P Require Import Utils.
From S2P Require Import ConfigStore.
From S2P Require Import Discovery.
From S2P Require Import StoreFacts.
From S2P Require Import StoreTheorems.
From S2P Require Import Listers.
From S2P Require Import ConfigMapsStore.
From S2P Require Import WorldFacts.
From S2P Require Import System.
From S2P Require Import SystemTheorems.
From S2P Require Import Progress.
From S2P Require Import Serving.
From S2P Require Import Samples.
From S2P Require Import SystemExamples.
From Stdlib Require Import ZArith.

Set Default Proof Using "Type*".

Module Convergence.

Import AppConfig Store GoSlice StoreFacts StoreTheorems Listers ConfigMapsStore WorldFacts System
  SystemTheorems Serving.

Section convergence.
Context `{Codec} `{ConfigParser} `{Crypto} `{XdsCache} `{GoRuntime}.
Variable app : Type_.

(** The cluster during the round. *)
Variable k : KubeCache.

(** ** What a store should have *)

(** The sorted fingerprints of what a store should publish now. *)
Definition target (m : Memory) (cs : ConfigStore) : option (list string) :=
  (λ g, GoStrings.Strings (mapFingerprints g)) <$> desired app k m cs.

(** The cache holds the store's last push for its node, if it holds one. *)
Definition in_sync (c : SnapshotCache) (cs : ConfigStore) : Prop :=
  ∀ snap, GetSnapshot c (ID (cs_Config cs)) = Some snap → GetVersion snap = Version cs.

Lemma target_core m cs cs' :
  cs_Config cs' = cs_Config cs → configEndpoints cs' = configEndpoints cs →
  target m cs' = target m cs.
Proof. intros Hc He. unfold target, desired, want. by rewrite Hc, He. Qed.

(** Collecting for one store leaves the configured endpoints of all alone. *)
Lemma collect_reads `{MapOrder} k' w l cs m' r l1 cs1 key s :
  world_ok w → w_heap w !! l = Some cs → saveCollect app k' (w_mem w) cs = (m', r) →
  w_heap w !! l1 = Some cs1 → configEndpoints cs1 !! key = Some s →
  read m' s = read (w_mem w) s.
Proof.
  intros [_ Hh Ha] Hl E Hl1 Hs. destruct (Hh _ _ Hl) as [Hok _], (Hh _ _ Hl1) as [Hok1 _].
  destruct (saveCollect_spec app k' (w_mem w) cs m' r Hok E) as (_ & Hf & _).
  apply Hf; [by eapply Hok1|].
  destruct (decide (l = l1)) as [<-|Hne]; [assert (cs1 = cs) as -> by congruence; exact (apart_all_own _ _ _ _ Hok Hs)|].
  intros key2 s2 Hs2. apply disjoint_apart. by eapply (Ha l l1).
Qed.

Lemma collect_target `{MapOrder} k' w l cs m' r l1 cs1 :
  world_ok w → w_heap w !! l = Some cs → saveCollect app k' (w_mem w) cs = (m', r) →
  w_heap w !! l1 = Some cs1 → target m' cs1 = target (w_mem w) cs1.
Proof.
  intros Hw Hl E Hl1. unfold target, desired, want.
  assert (read m' <$> configEndpoints cs1 = read (w_mem w) <$> configEndpoints cs1) as ->; [|done].
  apply map_fmap_ext. intros key s Hs.
  eapply (collect_reads k' w l cs m' r l1 cs1 key s); eassumption.
Qed.

(** A save that has a target commits it. *)
Lemma collect_commits `{MapOrder} k' m cs m' r fps :
  same_answers k k' → store_ok m cs → saveCollect app k' m cs = (m', r) →
  target m cs = Some fps →
  ∃ p, r = Some p ∧ publishEpArray p = fps.
Proof using All.
  intros Hs Hok E Ht. destruct (saveCollect_spec app k' m cs m' r Hok E) as (_ & _ & Hr).
  unfold target in Ht. rewrite (same_target app k k' m cs Hs) in Ht. unfold desired in Ht.
  destruct (getLocalityLbEndpoints app k' (cs_Config cs)) as [disc| |]; [|done..].
  case_decide; [|done]. injection Ht as <-. destruct Hr as (p & -> & _ & Hp & _). eauto.
Qed.

(** ** The actions of a round *)

Definition registered (w : World) (l : nat) : Prop := ∃ key, StoreMap w !! key = Some l.

(** The events that may come: rounds of [syncAll] and of [rotateCertificates],
    pods and endpoints.  Only a ConfigMap changes which stores there are. *)
Variable events : Visitor → Prop.
Hypothesis no_deletion : ∀ cm, ¬ events (VDelete cm).

(** Those that save: [syncAll], and the handlers of pods and endpoints. *)
Definition saves (v : Visitor) : Prop := v = VSync ∨ v = VNewPod.

(** What [visit] makes of them for a store that runs. *)
Definition save_body (v : Visitor) (l : nat) : list Action :=
  match v with VSync => [ACollect l; ASyncCheck l] | _ => [ACollect l] end.

Inductive sync_action (w : World) : Action → Prop :=
  | sync_visit key v : events v → sync_action w (AVisit key v)
  | sync_rotate l : events VRotate → registered w l → sync_action w (ALoadNewSecrets l)
  | sync_unless v l : registered w l → sync_action w (AUnlessStoped l (save_body v l))
  | sync_collect l : registered w l → sync_action w (ACollect l)
  | sync_check l : registered w l → sync_action w (ASyncCheck l)
  | sync_push l reason : registered w l → sync_action w (APush l reason)
  | sync_commit l p : registered w l →
      (∀ cs fps, w_heap w !! l = Some cs → target (w_mem w) cs = Some fps →
         publishEpArray p = fps) →
      sync_action w (ACommit l p)
  | sync_end s : sync_action w (AEnd s).

(** What is still to be done for the store [l] registered under [key]. *)
Inductive collects (key : string) (l : nat) : Action → Prop :=
  | collects_visit v : saves v → collects key l (AVisit key v)
  | collects_unless v : collects key l (AUnlessStoped l (save_body v l))
  | collects_collect : collects key l (ACollect l)
  | collects_commit p : collects key l (ACommit l p).

Inductive checks (key : string) (l : nat) : Action → Prop :=
  | checks_visit : checks key l (AVisit key VSync)
  | checks_unless : checks key l (AUnlessStoped l (save_body VSync l))
  | checks_check : checks key l (ASyncCheck l)
  | checks_push reason : checks key l (APush l reason).

(** What a running store has when the actions [al] are left: its target, or a save
    to come; its push in the cache, or a check or push to come - or no record, so
    that the save to come pushes. *)
Definition store_round (w : World) (al : list Action) (key : string) (l : nat)
    (cs : ConfigStore) : Prop :=
  ∀ fps, target (w_mem w) cs = Some fps →
    (lastEndpointsArray cs = Some fps ∨ Exists (collects key l) al) ∧
    (in_sync (w_cache w) cs ∨ Exists (checks key l) al ∨ lastEndpointsArray cs = None).

Record round_ok (w : World) (al : list Action) : Prop := {
  r_actions : Forall (sync_action w) al;
  r_cached : ∀ key l, StoreMap w !! key = Some l → is_Some (GetSnapshot (w_cache w) key);
  r_stores : ∀ key l cs, StoreMap w !! key = Some l → w_heap w !! l = Some cs →
    isStoped cs = false → store_round w al key l cs }.

(** The order of what is left does not matter. *)
Lemma store_round_perm w al al' key l cs :
  al ≡ₚ al' → store_round w al key l cs → store_round w al' key l cs.
Proof.
  intros E Hs fps Hf. destruct (Hs fps Hf) as [H1' H2'].
  assert (∀ P : Action → Prop, Exists P al → Exists P al') as Hex by (intros P; by rewrite E).
  split; [destruct H1'|destruct H2' as [|[|]]]; auto.
Qed.

Lemma round_ok_perm w al al' : al ≡ₚ al' → round_ok w al → round_ok w al'.
Proof.
  intros E [Ha Hc Hs]. constructor; [by rewrite <-E|done|].
  intros key l cs Hm Hl Hrun. by eapply store_round_perm, Hs.
Qed.

(** ** One action *)

(** A change that moves no store's target. *)
Definition steady (w w' : World) : Prop :=
  StoreMap w' = StoreMap w ∧
  ∀ l cs', w_heap w' !! l = Some cs' → ∃ cs, w_heap w !! l = Some cs ∧
    target (w_mem w') cs' = target (w_mem w) cs ∧ isStoped cs' = isStoped cs.

Lemma steady_refl w : steady w w.
Proof. split; [done|]. intros l cs ?. by exists cs. Qed.

Lemma sync_action_steady w w' a : steady w w' → sync_action w a → sync_action w' a.
Proof.
  intros [Hm Hs] Ha. destruct Ha as [key v|l|v l Hr|l Hr|l Hr|l reason Hr|l p Hr Hp|s];
    constructor; unfold registered in *; rewrite ?Hm; try done.
  intros cs' fps Hl Ht. destruct (Hs l cs' Hl) as (cs & Hcs & E & _).
  apply (Hp cs); congruence.
Qed.

(** What an action [a] leaves, [new], stands for the store as [a] did. *)
Lemma store_round_next w w' a new al key l cs cs' :
  target (w_mem w') cs' = target (w_mem w) cs →
  (∀ fps, target (w_mem w) cs = Some fps →
     lastEndpointsArray cs = Some fps ∨ collects key l a →
     lastEndpointsArray cs' = Some fps ∨ Exists (collects key l) new) →
  (∀ fps, target (w_mem w) cs = Some fps →
     in_sync (w_cache w) cs ∨ checks key l a ∨ lastEndpointsArray cs = None →
     in_sync (w_cache w') cs' ∨ Exists (checks key l) new ∨ lastEndpointsArray cs' = None) →
  store_round w (a :: al) key l cs → store_round w' (new ++ al) key l cs'.
Proof.
  intros Ht H1' H2' Hs fps Hfps. rewrite Ht in Hfps.
  specialize (H1' fps Hfps). specialize (H2' fps Hfps).
  destruct (Hs fps Hfps) as [Ha Hb]. rewrite Exists_cons in Ha, Hb. rewrite !Exists_app. tauto.
Qed.

(** The store an action is about. *)
Definition concerns (key : string) (l : nat) (a : Action) : Prop :=
  match a with
  | AVisit key' _ => key' = key
  | AUnlessStoped l' _ | ACollect l' | ACommit l' _ | ASyncCheck l' | APush l' _ => l' = l
  | _ => False
  end.

Lemma collects_concerns key l a : collects key l a → concerns key l a.
Proof. by destruct 1. Qed.

Lemma checks_concerns key l a : checks key l a → concerns key l a.
Proof. by destruct 1. Qed.

(** A store the action is not about keeps what it had. *)
Lemma store_round_keep w w' a new al key l cs :
  ¬ concerns key l a → target (w_mem w') cs = target (w_mem w) cs →
  (in_sync (w_cache w) cs → in_sync (w_cache w') cs) →
  store_round w (a :: al) key l cs → store_round w' (new ++ al) key l cs.
Proof.
  intros Hn Ht Hin. apply store_round_next; [done|..].
  - intros fps _ [|Hc%collects_concerns]; [by left|done].
  - intros fps _ [|[Hc%checks_concerns|]]; auto. done.
Qed.

(** The round goes on: the conditions of [round_ok] for what an action leaves. *)
Definition left_by (w' : World) (acts : list Action) : list Action :=
  acts ++ concat (map spawned_thread (w_spawned w')).

Definition goes_on (w' : World) (pre : option (list Action)) (al : list Action) : Prop :=
  ∃ acts, pre = Some acts ∧ round_ok w' (left_by w' acts ++ al).

Lemma goes_on_intro w w' a acts al :
  round_ok w (a :: al) → steady w w' → Forall (sync_action w') (left_by w' acts) →
  (∀ key l, StoreMap w !! key = Some l → is_Some (GetSnapshot (w_cache w') key)) →
  (∀ key l cs cs', StoreMap w !! key = Some l → w_heap w !! l = Some cs →
     w_heap w' !! l = Some cs' → isStoped cs = false →
     store_round w (a :: al) key l cs → store_round w' (left_by w' acts ++ al) key l cs') →
  goes_on w' (Some acts) al.
Proof.
  intros [Ha Hc Hs] Hst Hn Hc' Hr. exists acts. split; [done|].
  apply Forall_cons in Ha as [_ Ha]. pose proof Hst as [Hm Hh].
  constructor; rewrite ?Hm; [|done|].
  - apply Forall_app. split; [done|]. eapply Forall_impl; [done|].
    intros b. by apply sync_action_steady.
  - intros key l cs' Hml Hl Hrun. destruct (Hh l cs' Hl) as (cs & Hcs & _ & Hstop).
    rewrite Hstop in Hrun. by eapply Hr, Hs.
Qed.

(** An action that changes neither the stores nor the cache. *)
Lemma goes_on_same w w' a acts al :
  round_ok w (a :: al) → w_spawned w' = [] →
  StoreMap w' = StoreMap w → w_heap w' = w_heap w → w_cache w' = w_cache w →
  (∀ l cs, w_heap w !! l = Some cs → target (w_mem w') cs = target (w_mem w) cs) →
  Forall (sync_action w') acts →
  (∀ key l cs fps, StoreMap w !! key = Some l → w_heap w !! l = Some cs →
     isStoped cs = false → concerns key l a → target (w_mem w) cs = Some fps →
     (collects key l a → Exists (collects key l) acts) ∧
     (checks key l a → Exists (checks key l) acts)) →
  goes_on w' (Some acts) al.
Proof.
  intros Hr Hsp Hm Hh Hc Ht Hn Ha. assert (left_by w' acts = acts) as El.
  { unfold left_by. rewrite Hsp. apply app_nil_r. }
  apply (goes_on_intro w w' a); rewrite ?El; try done.
  - split; [done|]. intros l cs Hl. rewrite Hh in Hl. exists cs. by split_and!; [|apply (Ht l)|].
  - rewrite Hc. apply Hr.
  - intros key l cs cs' Hml Hl Hl' Hrun. rewrite Hh, Hl in Hl'. injection Hl' as <-.
    apply store_round_next; [by apply (Ht l)|intros fps Hfps; rewrite ?Hc..].
    + intros [|Hca]; [by left|right]. eapply Ha; try done. by apply collects_concerns.
    + intros [|[Hca|]]; auto. right; left. eapply Ha; try done. by apply checks_concerns.
Qed.

(** *** The actions in turn *)

Variable ca : Certs.CA.
Variable uuids : nat → string.
Context `{!XdsCacheLaws} `{!Inj (=) (=) uuids}.
Hypothesis uuids_ne : ∀ i, uuids i ≠ "".
(** Every snapshot can be made and stored. *)
Hypothesis new_ok : ∀ v r, is_ok (NewSnapshot v r) = true.
Hypothesis set_ok : ∀ id s c, (SetSnapshot id s c).2 = None.

(** What holds in every reachable state. *)
Definition sane (w : World) : Prop :=
  world_ok w ∧ versions_ok uuids w ∧ w_spawned w = [].

Lemma visit_goes_on `{MapOrder} k' now rnd key v w w' pre al :
  sane w → events v → round_ok w (AVisit key v :: al) →
  exec app ca uuids now rnd k' (AVisit key v) w = Ok (w', pre) → goes_on w' pre al.
Proof.
  intros (Hw & _ & Hsp) Hv Hr E. simpl in E.
  destruct (StoreMap w !! key) as [l|] eqn:Hm; simpl in E;
    [destruct (w_heap w !! l) as [cs|] eqn:Hl; simpl in E|].
  - assert (registered w l) as Hreg by (by exists key).
    assert (∃ b, visit v key l cs w = (w, [b]) ∧ sync_action w b ∧
      (saves v → b = AUnlessStoped l (save_body v l))) as (b & Ev & Hb & Hs).
    { destruct v as [| | |cm]; [..|by destruct (no_deletion cm)]; eexists; split; try reflexivity.
      - split; [exact (sync_unless w VNewPod l Hreg)|done].
      - split; [exact (sync_unless w VSync l Hreg)|done].
      - split; [by constructor|]. by intros [?|?]. }
    rewrite Ev in E. injection E as <- <-. eapply goes_on_same; [exact Hr|done..| |].
    + by constructor.
    + intros key' l' cs' fps Hm' Hl' _ Hc _. simpl in Hc. simplify_eq.
      split; inversion 1; subst; left; rewrite Hs by (done || by left); constructor.
  - injection E as <- <-. eapply goes_on_same; [exact Hr|done..|].
    intros key' l' cs' fps Hm' Hl' _ Hc _. simpl in Hc. by simplify_eq.
  - injection E as <- <-. eapply goes_on_same; [exact Hr|done..|].
    intros key' l' cs' fps Hm' Hl' _ Hc _. simpl in Hc. by simplify_eq.
Qed.

Lemma unless_goes_on `{MapOrder} k' now rnd v l w w' pre al :
  sane w → registered w l → let a := AUnlessStoped l (save_body v l) in
  round_ok w (a :: al) → exec app ca uuids now rnd k' a w = Ok (w', pre) → goes_on w' pre al.
Proof.
  intros (Hw & _ & Hsp) Hreg a Hr E. simpl in E.
  destruct (w_heap w !! l) as [cs|] eqn:Hl; injection E as <- <-;
    (eapply goes_on_same; [exact Hr|done..| |]).
  - destruct (hasStoped cs); [done|]. destruct v; by repeat constructor.
  - intros key' l' cs' fps Hm' Hl' Hrun Hc _. simpl in Hc. simplify_eq.
    unfold hasStoped. rewrite Hrun. split; [intros _; destruct v; left; constructor|].
    inversion 1 as [|Hb| |]. right; left. constructor.
  - done.
  - intros key' l' cs' fps Hm' Hl' _ Hc _. simpl in Hc. by simplify_eq.
Qed.

Lemma collect_goes_on `{MapOrder} k' now rnd l w w' pre al :
  same_answers k k' → sane w → registered w l → round_ok w (ACollect l :: al) →
  exec app ca uuids now rnd k' (ACollect l) w = Ok (w', pre) → goes_on w' pre al.
Proof.
  intros Hsame (Hw & _ & Hsp) Hreg Hr E. simpl in E.
  destruct (w_heap w !! l) as [cs|] eqn:Hl.
  - destruct (saveCollect app k' (w_mem w) cs) as [m' r] eqn:Ec. injection E as <- <-.
    destruct (heap_ok _ Hw _ _ Hl) as [Hok _].
    eapply goes_on_same; [exact Hr|done..| | |].
    + intros l1 cs1 Hl1. exact (collect_target k' w l cs m' r l1 cs1 Hw Hl Ec Hl1).
    + destruct r as [p|]; [|done]. constructor; [|done]. constructor; [done|].
      simpl. intros cs1 fps Hl1 Ht. rewrite Hl in Hl1. injection Hl1 as <-.
      rewrite (collect_target k' w l cs m' _ l cs Hw Hl Ec Hl) in Ht.
      by destruct (collect_commits _ _ _ _ _ _ Hsame Hok Ec Ht) as (? & [= <-] & ?).
    + intros key' l' cs' fps Hm' Hl' Hrun Hc Ht. simpl in Hc. simplify_eq.
      destruct (collect_commits _ _ _ _ _ _ Hsame Hok Ec Ht) as (p & -> & _).
      split; [intros _; left; constructor|by inversion 1].
  - injection E as <- <-. eapply goes_on_same; [exact Hr|done..|].
    intros key' l' cs' fps Hm' Hl' _ Hc _. simpl in Hc. by simplify_eq.
Qed.

(** What the goroutines of one store's spawns do. *)
Definition spawned_actions (l : nat) (sp : list Spawn) : list Action :=
  concat (map spawned_thread (map (pair l) sp)).

Lemma steady_update w w' l cs cs' :
  w_heap w !! l = Some cs → same_core cs cs' → isStoped cs' = isStoped cs →
  StoreMap w' = StoreMap w → w_mem w' = w_mem w → w_heap w' = <[l := cs']> (w_heap w) →
  steady w w'.
Proof.
  intros Hl [He Hc] Hst Hm Hmem Hh. split; [done|]. intros l1 cs1. rewrite Hh, lookup_insert.
  case_decide as Hd; [|by exists cs1; rewrite Hmem].
  subst l1. intros [= <-]. exists cs. split_and!; [done| |done].
  rewrite Hmem. by apply target_core.
Qed.

(** An action that changes its store, not the cache. *)
Lemma goes_on_update w a l cs cs' sp al :
  sane w → registered w l → round_ok w (a :: al) → w_heap w !! l = Some cs →
  same_core cs cs' → isStoped cs' = isStoped cs →
  (∀ key l', concerns key l' a → l' = l) →
  (∀ key fps, target (w_mem w) cs = Some fps →
     (lastEndpointsArray cs = Some fps ∨ collects key l a →
      lastEndpointsArray cs' = Some fps ∨ Exists (collects key l) (spawned_actions l sp)) ∧
     (in_sync (w_cache w) cs ∨ checks key l a ∨ lastEndpointsArray cs = None →
      in_sync (w_cache w) cs' ∨ Exists (checks key l) (spawned_actions l sp) ∨
      lastEndpointsArray cs' = None)) →
  goes_on (spawn l sp (set_store l cs' w)) (Some []) al.
Proof.
  intros (Hw & _ & Hsp) Hreg Hr Hl Hcore Hst Honly Hs.
  set (w' := spawn l sp (set_store l cs' w)).
  assert (left_by w' [] = spawned_actions l sp) as El by (unfold left_by; simpl; by rewrite Hsp).
  assert (steady w w') as Hsteady by (by eapply steady_update).
  apply (goes_on_intro w w' a); rewrite ?El; [done|done| |apply Hr|].
  - unfold spawned_actions. rewrite map_map. apply Forall_concat, Forall_fmap, Forall_true.
    intros [reason|]; repeat constructor; done.
  - intros key l1 cs1 cs1' Hm Hl1. simpl. rewrite lookup_insert. case_decide as Hd.
    + subst l1. intros [= <-] _. rewrite Hl in Hl1. injection Hl1 as <-.
      destruct Hcore as [He Hc]. apply store_round_next; [by apply target_core|apply Hs..].
    + rewrite Hl1. intros [= <-] _. apply store_round_keep; [|done..].
      intros ->%Honly. done.
Qed.

Lemma commit_goes_on `{MapOrder} k' now rnd l p w w' pre al :
  sane w → sync_action w (ACommit l p) → round_ok w (ACommit l p :: al) →
  exec app ca uuids now rnd k' (ACommit l p) w = Ok (w', pre) → goes_on w' pre al.
Proof.
  intros Hsane Ha Hr E. inversion Ha as [| | | | | |? ? Hreg Hp|]; subst. simpl in E.
  destruct (w_heap w !! l) as [cs|] eqn:Hl.
  - destruct (saveCommit p cs) as [cs' sp] eqn:Ec. injection E as <- <-.
    pose proof (saveCommit_core _ _ _ _ Ec) as (Hcore & Hver & _).
    unfold saveCommit in Ec.
    eapply goes_on_update; [done..| | |]; [by case_bool_decide; injection Ec as <- _|done|].
    intros key fps Ht. pose proof (Hp cs fps eq_refl Ht) as Hfps.
    case_bool_decide as Hb; injection Ec as <- <-.
    + rewrite Hb, Hfps. split; [by left|]. intros [|[Hc|]]; [by left|by inversion Hc|done].
    + split; [intros _; left; simpl; by rewrite Hfps|].
      intros _. right; left. left. constructor.
  - injection E as <- <-. eapply goes_on_same; [exact Hr|apply Hsane|done..|].
    intros key' l' cs' fps Hm' Hl' _ Hc _. simpl in Hc. by simplify_eq.
Qed.

Lemma end_goes_on `{MapOrder} k' now rnd s w w' pre al :
  sane w → round_ok w (AEnd s :: al) →
  exec app ca uuids now rnd k' (AEnd s) w = Ok (w', pre) → goes_on w' pre al.
Proof.
  intros (_ & _ & Hsp) Hr [= <- <-]. by eapply goes_on_same; [exact Hr|..].
Qed.

Lemma check_goes_on `{MapOrder} k' now rnd l w w' pre al :
  sane w → registered w l → round_ok w (ASyncCheck l :: al) →
  exec app ca uuids now rnd k' (ASyncCheck l) w = Ok (w', pre) → goes_on w' pre al.
Proof.
  intros Hsane Hreg Hr E. simpl in E.
  destruct (w_heap w !! l) as [cs|] eqn:Hl.
  - ok_step E as [cs' sp] Es. injection E as <- <-.
    pose proof (syncCheck_core _ _ _ _ Es) as (Hcore & Hver & _).
    pose proof (heap_ok _ (proj1 Hsane) _ _ Hl) as [_ Hlast].
    unfold syncCheck in Es.
    destruct (lastEndpoints cs) as [ep|] eqn:Hep.
    + destruct (GetSnapshot _ _) as [snap|] eqn:Hs; [|done].
      destruct (v_cache _ _ (proj1 (proj2 Hsane)) _ _ Hs) as (i & c & ep' & ss & _ & _ & Hn & _).
      destruct (_ && _) eqn:Hb; injection Es as <- <-; (eapply goes_on_update; [done..|]);
        intros key fps Ht.
      * split; [intros _; right; left; constructor|intros _; by right; right].
      * split; [intros [|Hc]; [by left|by inversion Hc]|intros _; left].
        intros snap' Hs'. rewrite Hs in Hs'. injection Hs' as <-.
        rewrite GoStrings.length_ltb_0 in Hb. rewrite (version_of_new _ _ _ Hn) in *.
        rewrite bool_decide_eq_true_2 in Hb by done.
        by apply negb_false_iff, String.eqb_eq in Hb.
    + injection Es as <- <-. eapply goes_on_update; [done..|].
      assert (lastEndpointsArray cs = None) as Hn.
      { apply eq_None_not_Some. intros Hs. apply Hlast in Hs. rewrite Hep in Hs. by destruct Hs. }
      intros key fps Ht. rewrite Hn. split; [intros [|Hc]; [done|by inversion Hc]|auto].
  - injection E as <- <-. eapply goes_on_same; [exact Hr|apply Hsane|done..|].
    intros key' l' cs' fps Hm' Hl' _ Hc _. simpl in Hc. by simplify_eq.
Qed.

Lemma push_sets n cs cache cs' n' cache' :
  Push uuids n cs cache = Some (cs', n', cache') →
  ∃ v snap, cs' = with_Version v cs ∧ GetVersion snap = v ∧
    GetSnapshot cache' (ID (cs_Config cs)) = Some snap ∧
    ∀ id, ID (cs_Config cs) ≠ id → GetSnapshot cache' id = GetSnapshot cache id.
Proof.
  unfold Push. destruct (nextVersion _ _ _ _) as [[v n1]|]; simpl; [|done].
  unfold Utils.GetConfigSnapshot. pose proof (new_ok v) as Hnew.
  destruct (NewSnapshot v _) as [snap| |] eqn:Es; [|specialize (Hnew (Utils.snapshotResources
    (cs_Config cs) (default [] (lastEndpoints cs)) (cs_secrets cs))); by rewrite Es in Hnew..].
  simpl. destruct (SetSnapshot _ _ _) as [c e] eqn:Ec. intros [= <- <- <-].
  exists v, snap. split; [done|]. split; [by eapply version_of_new|].
  split; [|intros id Hid; by eapply get_set_ne].
  pose proof (set_ok (ID (cs_Config cs)) snap cache) as He. rewrite Ec in He. simpl in He.
  subst e. by eapply get_set.
Qed.

Lemma push_goes_on `{MapOrder} k' now rnd l reason w w' pre al :
  sane w → registered w l → round_ok w (APush l reason :: al) →
  exec app ca uuids now rnd k' (APush l reason) w = Ok (w', pre) → goes_on w' pre al.
Proof.
  intros (Hw & _ & Hsp) [key0 Hkey0] Hr E. simpl in E.
  destruct (map_ok _ Hw _ _ Hkey0) as (cs & Hl & Hid). rewrite Hl in E.
  destruct (Progress.push_ends uuids (w_draws w) cs (w_cache w)) as (cs' & n' & c' & Ep).
  rewrite Ep in E. injection E as <- <-.
  destruct (push_sets _ _ _ _ _ _ Ep) as (v & snap & -> & Hv & Hset & Hne). rewrite Hid in Hset, Hne.
  match goal with |- goes_on ?W _ _ => set (w' := W) end.
  assert (left_by w' [] = []) as El by (unfold left_by; simpl; by rewrite Hsp).
  apply (goes_on_intro w w' (APush l reason)); rewrite ?El; [done| |done|..].
  - by apply (steady_update w w' l cs (with_Version v cs)).
  - intros key l1 Hm. simpl. destruct (decide (key0 = key)) as [<-|Hk]; [by exists snap|].
    rewrite (Hne key Hk). by apply (r_cached _ _ Hr key l1).
  - intros key l1 cs1 cs1' Hm Hl1. simpl. rewrite lookup_insert. case_decide as Hd.
    + subst l1. intros [= <-] _. rewrite Hl in Hl1. injection Hl1 as <-.
      apply (store_round_next w w' (APush l reason) []); [by apply target_core|..];
        intros fps _; [intros [|Hc]; [by left|by inversion Hc]|intros _; left].
      intros snap' Hs'. simpl in Hs'. rewrite Hid, Hset in Hs'. by injection Hs' as <-.
    + rewrite Hl1. intros [= <-] _.
      apply (store_round_keep w w' (APush l reason) []); [done..|].
      intros Hin snap' Hs'. apply Hin. simpl in Hs'. rewrite <-Hs'. symmetry. apply Hne.
      destruct (map_ok _ Hw _ _ Hm) as (cs2 & Hl2 & Hid2). congruence.
Qed.

(** New secrets keep the version; the push they start makes another. *)
Lemma rotate_goes_on `{MapOrder} k' now rnd l w w' pre al :
  sane w → registered w l → round_ok w (ALoadNewSecrets l :: al) →
  exec app ca uuids now rnd k' (ALoadNewSecrets l) w = Ok (w', pre) → goes_on w' pre al.
Proof.
  intros (Hw & _ & Hsp) Hreg Hr E. simpl in E.
  assert (∀ key l' cs fps, StoreMap w !! key = Some l' → w_heap w !! l' = Some cs →
    isStoped cs = false → concerns key l' (ALoadNewSecrets l) → target (w_mem w) cs = Some fps →
    (collects key l' (ALoadNewSecrets l) → Exists (collects key l') []) ∧
    (checks key l' (ALoadNewSecrets l) → Exists (checks key l') [])) as Hnone by done.
  destruct (w_heap w !! l) as [cs|] eqn:Hl;
    [|injection E as <- <-; by eapply goes_on_same; [exact Hr|..]].
  destruct (LoadNewSecrets app ca now rnd cs) as [cs'|e|why] eqn:En; [| |done];
    injection E as <- <-; [|by eapply goes_on_same; [exact Hr|..]].
  assert (same_core cs cs' ∧ isStoped cs' = isStoped cs ∧ Version cs' = Version cs ∧
    lastEndpointsArray cs' = lastEndpointsArray cs) as (Hcore & Hst & Hv & Hlast).
  { unfold LoadNewSecrets in En. ok_step En as ss. by injection En as <-. }
  match goal with |- goes_on ?W _ _ => set (w' := W) end.
  assert (left_by w' [APush l "LoadNewSecrets"] = [APush l "LoadNewSecrets"]) as El
    by (unfold left_by; simpl; by rewrite Hsp).
  apply (goes_on_intro w w' (ALoadNewSecrets l)); rewrite ?El; [done| | |apply Hr|].
  - by apply (steady_update w w' l cs cs').
  - by repeat constructor.
  - intros key l1 cs1 cs1' Hm Hl1. simpl. rewrite lookup_insert. case_decide as Hd.
    + subst l1. intros [= <-] _. rewrite Hl in Hl1. injection Hl1 as <-.
      destruct Hcore as [He Hc].
      apply (store_round_next w w' (ALoadNewSecrets l) [APush l "LoadNewSecrets"]);
        [by apply target_core|..]; intros fps _;
        unfold in_sync; rewrite Hlast, ?Hv, ?Hc; simpl;
        [intros [|Hn]; [by left|by inversion Hn]|intros [|[Hn|]]; [by left|by inversion Hn|by auto]].
    + rewrite Hl1. intros [= <-] _.
      apply (store_round_keep w w' (ALoadNewSecrets l) [APush l "LoadNewSecrets"]);
        [by intros []|done..].
Qed.

(** The conditions of the round survive every action. *)
Lemma exec_goes_on `{MapOrder} k' now rnd a w w' pre al :
  same_answers k k' → sane w → round_ok w (a :: al) →
  exec app ca uuids now rnd k' a w = Ok (w', pre) → goes_on w' pre al.
Proof.
  intros Hsame Hs Hr E. pose proof (r_actions _ _ Hr) as [Ha _]%Forall_cons.
  pose proof Ha as Ha'. destruct Ha'.
  - by eapply visit_goes_on.
  - by eapply rotate_goes_on.
  - by eapply unless_goes_on.
  - by eapply collect_goes_on.
  - by eapply check_goes_on.
  - by eapply push_goes_on.
  - by eapply commit_goes_on.
  - by eapply end_goes_on.
Qed.

(** Where certificates are rotated, making the secrets does not panic. *)
Definition secrets_survive : Prop := events VRotate →
  ∀ now rnd cs why, LoadNewSecrets app ca now rnd cs ≠ Crash why.

(** No action ends the process. *)
Lemma exec_survives `{MapOrder} now rnd k' a w al why :
  secrets_survive → sane w → round_ok w (a :: al) → exec app ca uuids now rnd k' a w ≠ Crash why.
Proof.
  intros Hsur (Hw & _) Hr E. pose proof (r_actions _ _ Hr) as [Ha _]%Forall_cons.
  destruct Ha as [key v Hv|l Hv Hreg|v l Hreg|l Hreg|l [key Hm]|l reason Hreg|l p Hreg _|s]; simpl in E;
    [|destruct (w_heap w !! l) as [cs|] eqn:Hl; [|done]..|done]; try done.
  - destruct (_ ≫= _) as [[l cs]|]; [|done].
    destruct v as [| | |cm]; [done..|by destruct (no_deletion cm)].
  - destruct (LoadNewSecrets _ _ _ _ _) as [| |why'] eqn:En; [done..|].
    by destruct (Hsur Hv now rnd cs why').
  - by destruct (saveCollect _ _ _ _).
  - destruct (map_ok _ Hw _ _ Hm) as (cs' & Hl' & Hid). rewrite Hl in Hl'. injection Hl' as <-.
    destruct (r_cached _ _ Hr _ _ Hm) as [snap Hs]. unfold syncCheck in E. rewrite Hid, Hs in E.
    destruct (lastEndpoints cs); [|done]. by destruct (_ && _).
  - by destruct (Push _ _ _ _) as [[[] ]|].
  - by destruct (saveCommit _ _).
Qed.

(** ** The round *)

(** Nothing waits to be scheduled between two steps. *)
Lemma reachable_spawned c p : reachable app ca uuids c p → w_spawned (p_world p) = [].
Proof.
  apply (reachable_invariant app ca uuids (λ p, w_spawned (p_world p) = [])); [done|].
  intros p1 p2 Hp [order s v _ _|order cm t _ _|k' _ [order now rnd ts1 a rest ts2 w' pre _ _]]; done.
Qed.

Lemma reachable_sane c p :
  (∀ id, GetSnapshot c id = None) → reachable app ca uuids c p → sane (p_world p).
Proof.
  intros Hc Hr. split_and!; [by eapply reachable_ok|by eapply reachable_versions|].
  by eapply reachable_spawned.
Qed.

(** The state in which a source has raised an event: its handler is about to run. *)
Definition raised `{MapOrder} (s : Source) (v : Visitor) (p : Process) : Process :=
  mkProcess (p_world p) ((on_visitor v (p_world p) ++ [AEnd s]) :: p_threads p).

(** The ticker of [syncAll] has fired. *)
Definition ticked `{MapOrder} (p : Process) : Process := raised SSync VSync p.

Lemma quiescent_idle s p : quiescent p → idle s p = true.
Proof.
  intros Hq. unfold idle. apply negb_true_iff, not_true_iff_false.
  intros (t & Ht%list_elem_of_In & Hb)%existsb_exists. unfold quiescent in Hq.
  rewrite Forall_forall in Hq. by rewrite (Hq t Ht) in Hb.
Qed.

Lemma raised_step `{MapOrder} s v p :
  quiescent p → raises s v = true → step app ca uuids p (raised s v p).
Proof. intros Hq Hv. apply step_event; [by apply quiescent_idle|done]. Qed.

Lemma visits_every `{MapOrder} v key l w :
  StoreMap w !! key = Some l → AVisit key v ∈ on_visitor v w.
Proof.
  intros Hm. apply (list_elem_of_fmap_2 (λ kl, AVisit kl.1 v) _ (key, l)).
  rewrite range_perm. by apply elem_of_map_to_list.
Qed.

Lemma raised_actions `{MapOrder} s v w :
  events v → Forall (sync_action w) (on_visitor v w ++ [AEnd s]).
Proof.
  intros Hv. apply Forall_app. split; [|repeat constructor].
  apply Forall_fmap, Forall_true. intros [key l]. by constructor.
Qed.

(** Before a round of [syncAll] a node only needs a snapshot; before an event the
    snapshot is the last push of its store. *)
Lemma raised_round `{MapOrder} s v p :
  quiescent p → events v → saves v →
  (∀ key l, StoreMap (p_world p) !! key = Some l →
     is_Some (GetSnapshot (w_cache (p_world p)) key)) →
  v = VSync ∨ (∀ key l cs, StoreMap (p_world p) !! key = Some l →
     w_heap (p_world p) !! l = Some cs → isStoped cs = false → in_sync (w_cache (p_world p)) cs) →
  round_ok (p_world p) (concat (p_threads (raised s v p))).
Proof.
  intros Hq Hev Hv Hc Hs. simpl. rewrite (Progress.quiescent_actions p Hq), app_nil_r.
  constructor; [by apply raised_actions|done|].
  intros key l cs Hm Hl Hrun fps _. pose proof (visits_every v key l _ Hm) as Hin.
  rewrite !Exists_app, !Exists_exists. split.
  - right; left. eexists. split; [done|by constructor].
  - destruct Hs as [-> |Hs]; [|left; by apply (Hs key l cs)].
    right; left; left. eexists. split; [done|constructor].
Qed.

(** Events may come in the middle of a round. *)
Lemma round_raised `{MapOrder} s v w al :
  events v → round_ok w al → round_ok w ((on_visitor v w ++ [AEnd s]) ++ al).
Proof.
  intros Hv [Ha Hc Hs]. constructor; [|done|].
  - apply Forall_app. split; [by apply raised_actions|done].
  - intros key l cs Hm Hl Hrun fps Hf. destruct (Hs key l cs Hm Hl Hrun fps Hf) as [H1' H2'].
    rewrite !(Exists_app _ (on_visitor v w ++ [AEnd s])).
    split; [destruct H1'|destruct H2' as [|[|]]]; auto.
Qed.

Lemma round_ok_scheduled w al :
  round_ok w al →
  round_ok (mkWorld (w_mem w) (w_heap w) (StoreMap w) (w_cache w) (w_draws w) []) al.
Proof.
  intros [Ha Hc Hs]. constructor; [|done|done]. eapply Forall_impl; [exact Ha|].
  intros a. apply sync_action_steady. apply (steady_refl w).
Qed.

Lemma run_round k' p p' :
  same_answers k k' → sane (p_world p) → round_ok (p_world p) (concat (p_threads p)) →
  run app ca uuids k' p p' → round_ok (p_world p') (concat (p_threads p')).
Proof.
  intros Hsame Hs Hr [order now rnd ts1 a rest ts2 w' pre Et Ex]. rewrite Et in Hr.
  assert (round_ok (p_world p) (a :: (rest ++ concat ts1 ++ concat ts2))) as Hr1.
  { eapply round_ok_perm; [|exact Hr]. rewrite concat_app. simpl. solve_Permutation. }
  destruct (exec_goes_on _ _ _ _ _ _ _ _ Hsame Hs Hr1 Ex) as (acts & -> & Hr2).
  apply round_ok_scheduled. eapply round_ok_perm; [|exact Hr2].
  unfold left_by. simpl. rewrite !concat_app. simpl. solve_Permutation.
Qed.

(** A goroutine of the round can always run. *)
Lemma round_runs `{MapOrder} p :
  secrets_survive → sane (p_world p) → round_ok (p_world p) (concat (p_threads p)) →
  quiescent p ∨ ∃ p', run app ca uuids k p p'.
Proof.
  intros Hsur Hs Hr. destruct (decide (quiescent p)) as [|Hq]; [by left|right].
  apply Progress.busy_thread in Hq as (ts1 & a & rest & ts2 & Et).
  destruct (exec app ca uuids 0 0 k a (p_world p)) as [[w' pre]|e|why] eqn:Ex.
  - eexists. by eapply run_action.
  - by destruct (Progress.exec_no_error _ _ _ _ _ _ _ _ _ Ex).
  - rewrite Et in Hr. destruct (exec_survives 0 0 k a (p_world p)
      (rest ++ concat ts1 ++ concat ts2) why Hsur Hs); [|exact Ex].
    eapply round_ok_perm; [|exact Hr]. rewrite concat_app. simpl. solve_Permutation.
Qed.

(** The states of a round. *)
Lemma round_states `{MapOrder} c p p' :
  (∀ id, GetSnapshot c id = None) → reachable app ca uuids c p →
  round_ok (p_world p) (concat (p_threads p)) → rtc (run app ca uuids k) p p' →
  reachable app ca uuids c p' ∧ round_ok (p_world p') (concat (p_threads p')).
Proof.
  intros Hc Hr Hok Hrun. induction Hrun as [|p p1 p2 H1' _ IH]; [done|]. apply IH.
  - eapply rtc_r; [exact Hr|by eapply step_run].
  - by eapply run_round; [apply same_answers_refl|by eapply reachable_sane| |].
Qed.

(** A round can be completed. *)
Lemma round_completes `{MapOrder} c p :
  secrets_survive → (∀ id, GetSnapshot c id = None) → reachable app ca uuids c p →
  round_ok (p_world p) (concat (p_threads p)) →
  ∃ p', rtc (run app ca uuids k) p p' ∧ quiescent p'.
Proof.
  intros Hsur Hc. induction p as [p IH]
    using (well_founded_induction (well_founded_ltof _ Progress.process_work)).
  intros Hr Hok. destruct (round_runs p Hsur) as [Hq|[p1 H1']]; [by eapply reachable_sane|done| |].
  - by exists p.
  - destruct (IH p1) as (p' & Hp' & Hq').
    + eapply (Progress.run_decreases app ca uuids). by exists k.
    + eapply rtc_r; [exact Hr|by eapply step_run].
    + eapply run_round; [apply same_answers_refl|by eapply reachable_sane|done..].
    + exists p'. split; [by eapply rtc_l|done].
Qed.

(** When a round is over, every store has what it should, and so has the cache. *)
Definition converged (p : Process) : Prop :=
  ∀ key l cs g, StoreMap (p_world p) !! key = Some l → w_heap (p_world p) !! l = Some cs →
    isStoped cs = false → desired app k (w_mem (p_world p)) cs = Some g →
    lastEndpointsArray cs = Some (GoStrings.Strings (mapFingerprints g)) ∧
    ∃ snap, GetSnapshot (w_cache (p_world p)) key = Some snap ∧ recorded cs = Ok snap.

Lemma round_over c p' :
  (∀ id, GetSnapshot c id = None) → reachable app ca uuids c p' →
  round_ok (p_world p') (concat (p_threads p')) → quiescent p' → converged p'.
Proof.
  intros Hc Hr' Hok.
  intros Hq' key l cs g Hm Hl Hst Hg.
  destruct (map_ok _ (proj1 (reachable_sane c p' Hc Hr')) _ _ Hm) as (cs' & Hl' & Hid).
  assert (cs' = cs) as -> by congruence.
  rewrite (Progress.quiescent_actions p' Hq') in Hok.
  destruct (r_stores _ _ Hok key l cs Hm Hl Hst (GoStrings.Strings (mapFingerprints g)))
    as [[Hsaved|Hn%Exists_nil] Hsync]; [unfold target; by rewrite Hg| |done].
  split; [done|]. destruct (r_cached _ _ Hok key l Hm) as [snap Hs]. exists snap.
  split; [done|]. rewrite <-Hid in Hs.
  destruct Hsync as [Hin|[Hn%Exists_nil|Hn]]; [|done|congruence].
  apply (recorded_served app ca uuids uuids_ne c p' l cs snap Hc Hr' Hl Hs); [by apply Hin|].
  intros (t & Ht & reason & Hh)%Exists_exists. unfold quiescent in Hq'.
  rewrite Forall_forall in Hq'. by rewrite (Hq' t Ht) in Hh.
Qed.

End convergence.

Section sync.
Context `{Codec} `{ConfigParser} `{Crypto} `{XdsCache} `{GoRuntime}.
Variable app : Type_.
Variable k : KubeCache.
Variable ca : Certs.CA.
Variable uuids : nat → string.
Context `{!XdsCacheLaws} `{!Inj (=) (=) uuids}.
Hypothesis uuids_ne : ∀ i, uuids i ≠ "".
Hypothesis new_ok : ∀ v r, is_ok (NewSnapshot v r) = true.
Hypothesis set_ok : ∀ id s c, (SetSnapshot id s c).2 = None.

(** C9: a round of synchronisation converges: when nothing else is going on and
    the cache has a snapshot for every registered node, the round that [syncAll]
    starts never panics and can always be completed; and when it is, against a
    cluster that did not change meanwhile, every running store whose endpoints can
    be determined has recorded exactly the fingerprints of the clusters it should
    publish, and its node is served the snapshot of what the store recorded - even
    if an event was missed or an older save had won before. *)
Theorem sync_round_converges (order : MapOrder) c p p' :
  (∀ id, GetSnapshot c id = None) → reachable app ca uuids c p → quiescent p →
  (∀ key l, StoreMap (p_world p) !! key = Some l →
     is_Some (GetSnapshot (w_cache (p_world p)) key)) →
  rtc (run app ca uuids k) (ticked p) p' →
  (∃ p'', rtc (run app ca uuids k) p' p'' ∧ quiescent p'') ∧
  (quiescent p' → ∀ key l cs g,
     StoreMap (p_world p') !! key = Some l → w_heap (p_world p') !! l = Some cs →
     isStoped cs = false → desired app k (w_mem (p_world p')) cs = Some g →
     lastEndpointsArray cs = Some (GoStrings.Strings (mapFingerprints g)) ∧
     ∃ snap, GetSnapshot (w_cache (p_world p')) key = Some snap ∧ recorded cs = Ok snap).
Proof.
  intros Hc Hr Hq Hcached Hrun. set (events v := v = VSync).
  assert (∀ cm, ¬ events (VDelete cm)) as Hnd by done.
  assert (secrets_survive app events ca) as Hss by done.
  assert (reachable app ca uuids c (ticked p)) as Hr0
    by (eapply rtc_r; [exact Hr|by apply raised_step]).
  assert (round_ok app k events (p_world p) (concat (p_threads (ticked p)))) as Hok0
    by (apply raised_round; (done || by left)).
  destruct (round_states app k events Hnd ca uuids uuids_ne new_ok set_ok c _ _ Hc Hr0 Hok0 Hrun)
    as [Hr' Hok].
  split; [by eapply (round_completes app k events Hnd ca uuids uuids_ne new_ok set_ok)|].
  intros Hq'. by apply (round_over app k events Hnd ca uuids uuids_ne new_ok set_ok c).
Qed.

End sync.

(** ** A run *)

Import Samples SystemExamples.

#[local] Existing Instances codec crypto xds parser runtime_doubling map_order_std xds_laws.

(** What the store of a schedule's last state has recorded. *)
Definition recorded_addresses (p : Process) : option (option (list string)) :=
  lastEndpointsArray <$> (w_heap (p_world p) !! 0%nat).

(** The round after [stale_save]: the goroutine of the ticker, then the push. *)
Definition repair : list nat := [0; 0; 0; 0; 0; 0; 7]%nat.

(** The schedule and the round, with everything the theorem asks of them. *)
Definition repaired (p p' : Process) : bool :=
  bool_decide (quiescent p) && bool_decide (quiescent p') &&
  bool_decide (map_Forall (λ key (_ : nat), is_Some (GetSnapshot (w_cache (p_world p)) key))
    (StoreMap (p_world p))) &&
  bool_decide (recorded_addresses p = Some (Some ["web|unknown|0|10.0.0.2|80|0"])) &&
  bool_decide (StoreMap (p_world p') !! "n" = Some 0%nat) &&
  match w_heap (p_world p') !! 0%nat with
  | Some cs => negb (isStoped cs) && bool_decide (target app k3 (w_mem (p_world p')) cs
                                       = Some ["web|unknown|0|10.0.0.3|80|0"])
  | None => false
  end.

Lemma repair_run :
  match moves stale_save (initial ∅) with
  | Some p =>
      match moves (map (λ i, MRun i k3) repair) (ticked p) with
      | Some p' => repaired p p'
      | None => false
      end
  | None => false
  end = true.
Proof. vm_compute. reflexivity. Qed.

Lemma sample_new v r : is_ok (NewSnapshot v r) = true.
Proof. done. Qed.

Lemma sample_set id s c : (SetSnapshot id s c).2 = None.
Proof. done. Qed.

(** The round repairs what [older_save_wins] left behind. *)
Lemma sync_round_converges_witness :
  ∃ p p' cs snap, reachable app ca uuids ∅ p ∧
    recorded_addresses p = Some (Some ["web|unknown|0|10.0.0.2|80|0"]) ∧
    rtc (run app ca uuids k3) (ticked p) p' ∧ w_heap (p_world p') !! 0%nat = Some cs ∧
    lastEndpointsArray cs = Some ["web|unknown|0|10.0.0.3|80|0"] ∧
    GetSnapshot (w_cache (p_world p')) "n" = Some snap ∧ recorded cs = Ok snap.
Proof.
  pose proof repair_run as Hrun.
  destruct (moves stale_save (initial ∅)) as [p|] eqn:Ep; [|discriminate Hrun].
  destruct (moves (map (λ i, MRun i k3) repair) (ticked p)) as [p'|] eqn:Ep'; [|discriminate Hrun].
  unfold repaired in Hrun. rewrite !andb_true_iff, !bool_decide_eq_true in Hrun.
  destruct Hrun as (((((Hq & Hq') & Hc) & Hold) & Hm) & Hs).
  destruct (w_heap (p_world p') !! 0%nat) as [cs|] eqn:Hl; [|discriminate Hs].
  apply andb_true_iff in Hs as [Hst Ht]. apply negb_true_iff in Hst.
  apply bool_decide_eq_true in Ht. unfold target in Ht.
  destruct (desired app k3 (w_mem (p_world p')) cs) as [g|] eqn:Hg; [|discriminate Ht].
  injection Ht as Ht.
  pose proof (moves_reachable _ _ _ Ep) as Hr. pose proof (moves_runs _ _ _ _ Ep') as Hrt.
  destruct (sync_round_converges app k3 ca uuids uuids_not_empty sample_new sample_set
    map_order_std ∅ p p' empty_cache Hr Hq (λ key l Hk, Hc key l Hk) Hrt)
    as [_ Hall].
  destruct (Hall Hq' "n" 0%nat cs g Hm Hl Hst Hg) as (Hsaved & snap & Hsnap & Hrec).
  rewrite Ht in Hsaved. exists p, p', cs, snap. auto 10.
Defined.

End Convergence.
