(* ===== verification/Contents.v ===== *)
(** * ConfigStore: what a save wrote stays there

    Saves append to copies of the configured slices.  Where those have no spare
    capacity the appending copies: a save writes to arrays that it has just made
    and that no other goroutine knows ([collect_private]), so that it does not
    matter what else runs between its reads and its writes, and what was published
    keeps its contents.  With spare capacity, saves of one store that overlap
    write to the same places (configStore.go:494) and nothing orders them. *)

From stdpp Require Import options.
From S2P Require Import Prelude.
From S2P Require Import GoStd.
From S2P Require Import GoSlice.
From S2P Require Import Envoy.
From S2P Require Import AppConfig.
From S2P Require Import Resources.
From S2P Require Import Config.
From S2P Require Import Api.
From S2P Require Import Certs.
From S2P Require Import Utils.
From S2P Require Import ConfigStore.
From S2P Require Import Discovery.
From S2P Require Import StoreFacts.
From S2P Require Import StoreTheorems.
From S2P Require Import Listers.
From S2P Require Import ConfigMapsStore.
From S2P Require Import WorldFacts.
From S2P Require Import System.
From S2P Require Import SystemTheorems.
From S2P Require Import Progress.
From S2P Require Import Serving.
From S2P Require Import Convergence.
From Stdlib Require Import ZArith.

Set Default Proof Using "Type*".

Module Contents.

Import AppConfig Store GoSlice StoreFacts StoreTheorems Listers ConfigMapsStore WorldFacts System
  SystemTheorems Convergence.

(** ** Slices *)

Section slices.
Context `{GoRuntime}.
Implicit Types (m : Memory) (lb : gmap string Slice) (s t : Slice).

(** [append] on a full slice leaves every array that exists. *)
Lemma append_full_arrays m s xs m' s' a c :
  full s → append m s xs = (m', s') → m !! a = Some c → m' !! a = Some c.
Proof.
  unfold full, append. intros Hf. case_match eqn:Hn; intros [= <- <-] Ha.
  - apply Nat.leb_le in Hn. assert (xs = []) as -> by (destruct xs; simpl in Hn; [done|lia]).
    rewrite lookup_alter. case_decide as Hs; [|done]. rewrite Hs, Ha. simpl. f_equal.
    unfold write_at. simpl. rewrite Nat.add_0_r. apply take_drop.
  - rewrite lookup_insert_ne; [done|]. intros Hl. apply (is_fresh (dom m)). rewrite Hl.
    apply elem_of_dom. by exists c.
Qed.

Lemma appendEndpoints_arrays order m lb m' lb' a c :
  NoDup order.*1 → (∀ key, key ∈ order.*1 → full (slot lb key)) →
  appendEndpoints order m lb = (m', lb') → m !! a = Some c → m' !! a = Some c.
Proof.
  revert m lb. induction order as [|[key0 value] order IH]; intros m lb Hnd Hfull; simpl.
  - by intros [= <- <-].
  - simpl in Hnd, Hfull. apply NoDup_cons in Hnd as [Hnin Hnd].
    fold (slot lb key0). destruct (append m (slot lb key0) value) as [m1 s] eqn:E.
    intros Happ Ha. apply (IH m1 (<[key0 := s]> lb)); [done| |done|].
    + intros key Hkey. unfold slot. rewrite lookup_insert_ne by (intros ->; done).
      apply Hfull. by right.
    + eapply append_full_arrays; [|exact E|done]. apply Hfull. by left.
Qed.

End slices.

(** No configured slice of the store has spare capacity. *)
Definition full_store (cs : ConfigStore) : Prop := ∀ cl, full (slot (configEndpoints cs) cl).

(** ** The published lists of the stores *)

Section contents.
Context `{Codec} `{ConfigParser} `{Crypto} `{XdsCache} `{GoRuntime}.
Variable app : Type_.
(** The cluster since the start, and the state at the start. *)
Variable k : KubeCache.
Variable w0 : World.

(** [ep] is what a save of the store publishes, in the order of one listing. *)
Definition kept (w : World) (cs : ConfigStore) (ep : list (ClusterLoadAssignment Slice)) : Prop :=
  ∃ disc g, getLocalityLbEndpoints app k (cs_Config cs) = Ok disc ∧
    same_lists (want (w_mem w) cs disc) g ∧ publishes (w_mem w) ep g ∧
    ∀ cla, cla ∈ ep → slice_ok (w_mem w) (cla_Endpoints cla).

Lemma publishes_same m m' ep g :
  (∀ cla, cla ∈ ep → read m' (cla_Endpoints cla) = read m (cla_Endpoints cla)) →
  publishes m ep g → publishes m' ep g.
Proof.
  unfold publishes. intros Hr <-. apply reflexive_eq. apply map_ext_in.
  intros cla Hin%list_elem_of_In. by rewrite Hr.
Qed.

(** A save of a full store, whatever the listers answer: every array that exists
    stays as it is, and every slice reads the same. *)
Lemma collect_private `{MapOrder} k' m cs m' r :
  full_store cs → saveCollect app k' m cs = (m', r) →
  ∀ a c, m !! a = Some c → m' !! a = Some c.
Proof.
  intros Hf. unfold saveCollect.
  destruct (getLocalityLbEndpoints app k' (cs_Config cs)) as [disc| |]; [|by intros [= <- _]..].
  destruct (appendEndpoints (range_order disc) m (configEndpoints cs)) as [m1 lb1] eqn:Ea.
  intros E a c. assert (m' = m1) as ->
    by (destruct (publishLoop _ _) as [p []] in E; by injection E).
  eapply appendEndpoints_arrays; [apply NoDup_range| |exact Ea]. intros key _. apply Hf.
Qed.

Lemma collect_leaves `{MapOrder} k' m cs m' r t :
  full_store cs → saveCollect app k' m cs = (m', r) → slice_ok m t →
  slice_ok m' t ∧ read m' t = read m t.
Proof.
  intros Hf E [Hlen [Hc|(c & Hc & Hl)]].
  - split; [by split; [|left]|]. unfold read. by rewrite !(proj1 (Nat.le_0_r (s_len t)))
      by (rewrite <-Hc; exact Hlen).
  - pose proof (collect_private k' m cs m' r Hf E _ _ Hc) as Hc'.
    split; [split; [done|right; by exists c]|]. unfold read. by rewrite Hc, Hc'.
Qed.

Lemma collect_want `{MapOrder} k' m cs m' r cs1 disc :
  full_store cs → saveCollect app k' m cs = (m', r) → store_ok m cs1 →
  want m' cs1 disc = want m cs1 disc.
Proof.
  intros Hf E [Hok _]. unfold want.
  assert (read m' <$> configEndpoints cs1 = read m <$> configEndpoints cs1) as ->; [|done].
  apply map_fmap_ext. intros key s Hs. by eapply collect_leaves, (Hok key).
Qed.

(** A save of any store. *)
Lemma kept_collect `{MapOrder} k' w l cs m' r l1 cs1 ep :
  world_ok w → full_store cs → w_heap w !! l = Some cs →
  saveCollect app k' (w_mem w) cs = (m', r) →
  w_heap w !! l1 = Some cs1 → kept w cs1 ep → kept (set_mem m' w) cs1 ep.
Proof.
  intros Hw Hf Hl E Hl1 (disc & g & Hd & Hg & Hp & Hs).
  destruct (heap_ok _ Hw _ _ Hl1) as [Hok1 _]. exists disc, g. simpl.
  rewrite (collect_want k' (w_mem w) cs m' r cs1 disc) by done. split_and!; [done..| |].
  - eapply publishes_same; [|exact Hp]. intros cla Hin. by eapply collect_leaves, Hs.
  - intros cla Hin. by eapply collect_leaves, Hs.
Qed.

(** What a save has collected. *)
Lemma collect_kept `{MapOrder} k' w l cs m' p :
  same_answers k k' → world_ok w → full_store cs → w_heap w !! l = Some cs →
  saveCollect app k' (w_mem w) cs = (m', Some p) → kept (set_mem m' w) cs (publishEp p).
Proof using All.
  intros Hsame Hw Hf Hl E. destruct (heap_ok _ Hw _ _ Hl) as [Hok _].
  destruct (saveCollect_spec app k' _ cs m' _ Hok E) as (_ & _ & Hp).
  destruct (getLocalityLbEndpoints app k' (cs_Config cs)) as [disc'|e|why] eqn:Hd';
    [|by destruct Hp..].
  case_decide; [|done]. destruct Hp as (p' & [= <-] & Hpub & _ & Hsl).
  destruct (same_discovery app k' k (same_answers_sym _ _ Hsame) _ _ Hd') as (disc & Hd & Hds).
  exists disc, (want (w_mem w) cs disc'). simpl.
  rewrite (collect_want k' (w_mem w) cs m' (Some p) cs disc) by done.
  split_and!; [done|by apply same_want, same_lists_sym|done..].
Qed.

Lemma kept_same w w' cs cs' ep :
  w_mem w' = w_mem w → same_core cs cs' → kept w cs ep → kept w' cs' ep.
Proof.
  intros Hm [He Hc] (disc & g & Hd & Hg & Hp & Hs). exists disc, g. unfold want.
  by rewrite Hc, He, Hm.
Qed.

(** ** The contents in a run *)

(** The store has recorded nothing since the start, or has dropped its record, or
    what it recorded is kept. *)
Definition content (w : World) (l : nat) (cs : ConfigStore) : Prop :=
  (∃ cs0, w_heap w0 !! l = Some cs0 ∧ lastEndpointsArray cs = lastEndpointsArray cs0) ∨
  lastEndpointsArray cs = None ∨ ∃ ep, lastEndpoints cs = Some ep ∧ kept w cs ep.

Record content_ok (w : World) (al : list Action) : Prop := {
  c_full : ∀ l cs, w_heap w !! l = Some cs → full_store cs;
  c_stores : ∀ l cs, w_heap w !! l = Some cs → content w l cs;
  c_pending : ∀ l p cs, ACommit l p ∈ al → w_heap w !! l = Some cs → kept w cs (publishEp p) }.

Lemma content_ok_perm w al al' : al ≡ₚ al' → content_ok w al → content_ok w al'.
Proof.
  intros E [Hf Hs Hp]. constructor; [done..|]. intros l p cs Hin. apply Hp. by rewrite E.
Qed.

(** The goroutines a store starts have nothing to commit yet. *)
Lemma spawned_no_commit l p sp : ACommit l p ∉ concat (map spawned_thread sp).
Proof.
  induction sp as [|[l' [reason|]] sp IH]; simpl; [apply not_elem_of_nil|..];
    (intros [|Hin]%elem_of_cons; [done|by apply IH]).
Qed.

(** An action that leaves the memory. *)
Lemma content_next w w' a acts al :
  content_ok w (a :: al) → w_mem w' = w_mem w → (∀ l p, ACommit l p ∉ acts) →
  (∀ l cs', w_heap w' !! l = Some cs' → ∃ cs, w_heap w !! l = Some cs ∧ same_core cs cs' ∧
     (lastEndpoints cs' = lastEndpoints cs ∧ lastEndpointsArray cs' = lastEndpointsArray cs ∨
      lastEndpointsArray cs' = None ∨
      ∃ p, a = ACommit l p ∧ lastEndpoints cs' = Some (publishEp p))) →
  content_ok w' (left_by w' acts ++ al).
Proof.
  intros [Hf Hs Hp] Hm Hn Hh. constructor.
  - intros l cs' Hl. destruct (Hh l cs' Hl) as (cs & Hcs & [He _] & _). unfold full_store.
    rewrite He. by apply (Hf l).
  - intros l cs' Hl. destruct (Hh l cs' Hl) as (cs & Hcs & Hc & [[He Ha]|[Ha|(p & -> & He)]]).
    + unfold content. rewrite He, Ha. destruct (Hs l cs Hcs) as [|[|(ep & Hep & Hk)]]; [by auto..|].
      right; right. exists ep. split; [done|by eapply kept_same].
    + by (right; left).
    + right; right. exists (publishEp p). split; [done|]. eapply kept_same; [done..|].
      apply (Hp l p cs); [by left|done].
  - intros l p cs' Hin Hl. destruct (Hh l cs' Hl) as (cs & Hcs & Hc & _).
    eapply kept_same; [done..|]. apply (Hp l p cs); [|done]. unfold left_by in Hin.
    apply elem_of_app in Hin as [[Hin|Hin]%elem_of_app|Hin]; [by apply Hn in Hin| |by right].
    by apply spawned_no_commit in Hin.
Qed.

(** An action that leaves the stores as well, but for one. *)
Lemma content_update w w' a acts al l cs cs' :
  content_ok w (a :: al) → w_mem w' = w_mem w → (∀ l p, ACommit l p ∉ acts) →
  w_heap w !! l = Some cs → w_heap w' = <[l := cs']> (w_heap w) → same_core cs cs' →
  (lastEndpoints cs' = lastEndpoints cs ∧ lastEndpointsArray cs' = lastEndpointsArray cs ∨
   lastEndpointsArray cs' = None ∨ ∃ p, a = ACommit l p ∧ lastEndpoints cs' = Some (publishEp p)) →
  content_ok w' (left_by w' acts ++ al).
Proof.
  intros Hok Hm Hn Hl Hh Hc Hr. apply (content_next w w' a acts al Hok Hm Hn).
  intros l1 cs1. rewrite Hh, lookup_insert. case_decide as Hd.
  - subst l1. intros [= <-]. by exists cs.
  - intros Hl1. exists cs1. split_and!; [done|by split|by left].
Qed.

Lemma content_same w w' a acts al :
  content_ok w (a :: al) → w_mem w' = w_mem w → (∀ l p, ACommit l p ∉ acts) →
  w_heap w' = w_heap w → content_ok w' (left_by w' acts ++ al).
Proof.
  intros Hok Hm Hn Hh. apply (content_next w w' a acts al Hok Hm Hn).
  intros l cs Hl. rewrite Hh in Hl. exists cs. split_and!; [done|by split|by left].
Qed.

Variable ca : Certs.CA.
Variable uuids : nat → string.

Lemma content_collect `{MapOrder} k' now rnd l w w' acts al :
  same_answers k k' → world_ok w → w_spawned w = [] → content_ok w (ACollect l :: al) →
  exec app ca uuids now rnd k' (ACollect l) w = Ok (w', Some acts) →
  content_ok w' (left_by w' acts ++ al).
Proof.
  intros Hsame Hw Hsp Hok E. simpl in E. destruct (w_heap w !! l) as [cs|] eqn:Hl.
  - destruct (saveCollect app k' (w_mem w) cs) as [m' r] eqn:Ec. injection E as <- <-.
    unfold left_by. simpl. rewrite Hsp. simpl. rewrite app_nil_r.
    destruct Hok as [Hf Hs Hp]. pose proof (Hf l cs Hl) as Hfl. constructor; simpl; [done|..].
    + intros l1 cs1 Hl1. destruct (Hs l1 cs1 Hl1) as [|[|(ep & Hep & Hk)]]; [by left|by (right; left)|].
      right; right. exists ep. split; [done|exact (kept_collect k' w l cs m' r l1 cs1 ep Hw Hfl Hl Ec Hl1 Hk)].
    + intros l1 p1 cs1 [Hin|Hin]%elem_of_app Hl1.
      * destruct r as [p|]; [|by apply elem_of_nil in Hin].
        apply list_elem_of_singleton in Hin as [= -> ->].
        assert (cs1 = cs) as -> by congruence. by eapply collect_kept.
      * apply (kept_collect k' w l cs m' r l1 cs1); [done..|]. apply (Hp l1 p1 cs1); [by right|done].
  - injection E as <- <-. apply (content_same w w (ACollect l) [] al Hok eq_refl); [|done].
    intros l1 p1. apply not_elem_of_nil.
Qed.

Ltac no_commit := intros ? ?; repeat (apply not_elem_of_cons; split; [done|]); apply not_elem_of_nil.
Ltac unchanged H := eapply content_same; [exact H|done|no_commit|done].

Variable events : Visitor → Prop.
Hypothesis no_deletion : ∀ cm, ¬ events (VDelete cm).

Lemma exec_content `{MapOrder} k' now rnd a w w' acts al :
  same_answers k k' → world_ok w → w_spawned w = [] → sync_action app k events w a → content_ok w (a :: al) →
  exec app ca uuids now rnd k' a w = Ok (w', Some acts) → content_ok w' (left_by w' acts ++ al).
Proof.
  intros Hsame Hw Hsp Ha Hok E.
  destruct Ha as [key v Hv|l Hv Hr|v l Hr|l Hr|l Hr|l reason Hr|l p Hr Hp|s];
    [| | |by eapply content_collect| | | |]; simpl in E.
  - destruct (_ ≫= _) as [[l cs]|]; [|injection E as <- <-; unchanged Hok].
    destruct v as [| | |cm]; [..|by destruct (no_deletion cm)]; injection E as <- <-;
      unchanged Hok.
  - destruct (w_heap w !! l) as [cs|] eqn:Hl;
      [|injection E as <- <-; unchanged Hok].
    destruct (LoadNewSecrets app ca now rnd cs) as [cs'|e|why] eqn:En; [| |done];
      injection E as <- <-; [|unchanged Hok].
    unfold LoadNewSecrets in En. ok_step En as ss. injection En as <-.
    eapply content_update; [exact Hok|done|no_commit|done|done|done|by left].
  - destruct (w_heap w !! l) as [cs|]; injection E as <- <-;
      (eapply content_same; [exact Hok|done| |done]); [|no_commit].
    destruct (hasStoped cs); [no_commit|]. destruct v; no_commit.
  - destruct (w_heap w !! l) as [cs|] eqn:Hl;
      [|injection E as <- <-; unchanged Hok].
    ok_step E as [cs' sp] Es. injection E as <- <-.
    pose proof (syncCheck_core _ _ _ _ Es) as (Hc & _).
    eapply content_update; [exact Hok|done|no_commit|done|done|done|].
    unfold syncCheck in Es. destruct (lastEndpoints cs) as [ep|] eqn:He; [|by injection Es as <- _; left].
    destruct (GetSnapshot _ _); [|done]. case_match; injection Es as <- _; [by (right; left)|by left].
  - destruct (w_heap w !! l) as [cs|] eqn:Hl;
      [|injection E as <- <-; unchanged Hok].
    destruct (Push uuids (w_draws w) cs (w_cache w)) as [[[cs' n'] c']|] eqn:Ep;
      injection E as <- <-; [|unchanged Hok].
    apply Push_core in Ep as (v & _ & -> & _).
    eapply content_update; [exact Hok|done|no_commit|done|done|done|by left].
  - destruct (w_heap w !! l) as [cs|] eqn:Hl;
      [|injection E as <- <-; unchanged Hok].
    destruct (saveCommit p cs) as [cs' sp] eqn:Ec. injection E as <- <-.
    pose proof (saveCommit_core _ _ _ _ Ec) as (Hc & _).
    eapply content_update; [exact Hok|done|no_commit|done|done|done|].
    unfold saveCommit in Ec. case_bool_decide; injection Ec as <- _; [by left|].
    right; right. by exists p.
  - injection E as <- <-. unchanged Hok.
Qed.

(** What is scheduled, and what events come. *)
Lemma content_scheduled w al :
  content_ok w al →
  content_ok (mkWorld (w_mem w) (w_heap w) (StoreMap w) (w_cache w) (w_draws w) []) al.
Proof. intros [Hf Hs Hp]. by constructor. Qed.

Lemma visits_no_commit `{MapOrder} l p v s w : ACommit l p ∉ on_visitor v w ++ [AEnd s].
Proof.
  intros [Hin|Hin%list_elem_of_singleton]%elem_of_app; [|done].
  apply list_elem_of_In, in_map_iff in Hin as ([key l'] & Hin & _). done.
Qed.

Lemma content_raised `{MapOrder} s v w al :
  content_ok w al → content_ok w ((on_visitor v w ++ [AEnd s]) ++ al).
Proof.
  intros [Hf Hs Hp]. constructor; [done..|]. intros l p cs [Hin|Hin]%elem_of_app Hl.
  - by apply visits_no_commit in Hin.
  - by apply (Hp l p cs).
Qed.

End contents.
End Contents.
