(* ===== verification/Updates.v ===== *)
(** * internal: updates reach the proxies

    Pods, endpoints, rounds of [syncAll] and rotations of the certificates may
    come at any time and overlap in any way, and the listers may answer in another
    order every time.  After the last change of the cluster has been announced to a
    process at rest, what it comes to rest with again is what the cluster asks
    for.  The stores have no spare capacity in their configured slices, so their
    saves share no array they write to ([collect_private] of Contents). *)

From stdpp Require Import options.
From S2P Require Import Prelude.
From S2P Require Import GoStd.
From S2P Require Import GoSlice.
From S2P Require Import Envoy.
From S2P Require Import AppConfig.
From S2P Require Import Config.
From S2P Require Import Api.
From S2P Require Import Certs.
From S2P Require Import Utils.
From S2P Require Import ConfigStore.
From S2P Require Import StoreFacts.
From S2P Require Import StoreTheorems.
From S2P Require Import Listers.
From S2P Require Import ConfigMapsStore.
From S2P Require Import System.
From S2P Require Import Progress.
From S2P Require Import Serving.
From S2P Require Import Convergence.
From S2P Require Import Contents.
From S2P Require Import Samples.
From S2P Require Import SystemExamples.
From Stdlib Require Import ZArith.

Set Default Proof Using "Type*".

Module Updates.

Import AppConfig Store StoreFacts StoreTheorems Listers ConfigMapsStore System Serving Convergence
  Contents.

Section updates.
Context `{Codec} `{ConfigParser} `{Crypto} `{XdsCache} `{GoRuntime}.
Variable app : Type_.
(** The cluster from the last change on. *)
Variable k : KubeCache.
Variable ca : Certs.CA.
Variable uuids : nat → string.
Context `{!XdsCacheLaws} `{!Inj (=) (=) uuids}.
Hypothesis uuids_ne : ∀ i, uuids i ≠ "".
Hypothesis new_ok : ∀ v r, is_ok (NewSnapshot v r) = true.
Hypothesis set_ok : ∀ id s c, (SetSnapshot id s c).2 = None.

(** Everything but the deletion of a ConfigMap. *)
Definition update (v : Visitor) : Prop := ∀ cm, v ≠ VDelete cm.

(** More events of any source but the ConfigMaps, and steps of any goroutine; the
    cluster is the same, in whatever order the listers give it. *)
Inductive storm (p : Process) : Process → Prop :=
  | storm_event (order : MapOrder) s v :
      idle s p = true → raises s v = true → update v → storm p (raised s v p)
  | storm_run k' p' : same_answers k k' → run app ca uuids k' p p' → storm p p'.

Lemma storm_step p p' : storm p p' → step app ca uuids p p'.
Proof.
  destruct 1 as [order s v Hi Hr _|k' p' _ Hr]; [by apply step_event|by eapply step_run].
Qed.

Lemma no_deletion cm : ¬ update (VDelete cm).
Proof. intros Hu. by apply (Hu cm). Qed.

(** What every state of a storm has, [w0] being the state it started from. *)
Record stormy_ok (w0 : World) (p : Process) : Prop := {
  s_round : round_ok app k update (p_world p) (concat (p_threads p));
  s_content : content_ok app k w0 (p_world p) (concat (p_threads p)) }.

Lemma run_content w0 k' p p' :
  same_answers k k' → sane uuids (p_world p) → stormy_ok w0 p → run app ca uuids k' p p' →
  content_ok app k w0 (p_world p') (concat (p_threads p')).
Proof.
  intros Hsame Hs [Hr Hc] [order now rnd ts1 a rest ts2 w' pre Et Ex]. rewrite Et in Hr, Hc.
  assert (concat (ts1 ++ (a :: rest) :: ts2) ≡ₚ a :: (rest ++ concat ts1 ++ concat ts2)) as Ep
    by (rewrite concat_app; simpl; solve_Permutation).
  assert (round_ok app k update (p_world p) (a :: (rest ++ concat ts1 ++ concat ts2))) as Hr1
    by (eapply round_ok_perm; [exact no_deletion|exact Ep|exact Hr]).
  assert (content_ok app k w0 (p_world p) (a :: (rest ++ concat ts1 ++ concat ts2))) as Hc1
    by (eapply content_ok_perm; [exact Ep|exact Hc]).
  destruct (exec_goes_on app k update no_deletion ca uuids uuids_ne new_ok set_ok
    _ _ _ _ _ _ _ _ Hsame Hs Hr1 Ex) as (acts & -> & _).
  pose proof (r_actions _ _ _ _ _ Hr1) as [Ha _]%Forall_cons. destruct Hs as (Hw & _ & Hsp).
  pose proof (exec_content app k w0 ca uuids update no_deletion _ _ _ _ _ _ _ _ Hsame Hw Hsp Ha Hc1 Ex) as Hc'.
  apply content_scheduled. eapply content_ok_perm; [|exact Hc'].
  unfold left_by. simpl. rewrite !concat_app. simpl. solve_Permutation.
Qed.

Lemma storm_states c w0 p p' :
  (∀ id, GetSnapshot c id = None) → reachable app ca uuids c p → stormy_ok w0 p →
  rtc storm p p' → reachable app ca uuids c p' ∧ stormy_ok w0 p'.
Proof.
  intros Hc Hr Hok Hrun. induction Hrun as [|p p1 p2 H1' _ IH]; [done|]. apply IH.
  - eapply rtc_r; [exact Hr|by apply storm_step].
  - destruct H1' as [order s v _ _ Hu|k' p' Hsame Hrun].
    + destruct Hok as [Hro Hco]. constructor;
        [by apply (round_raised app k update no_deletion)|by apply content_raised].
    + pose proof (reachable_sane app ca uuids uuids_ne new_ok set_ok c p Hc Hr) as Hs.
      constructor; [|by apply (run_content w0 k' p)].
      by apply (run_round app k update no_deletion ca uuids uuids_ne new_ok set_ok k' p p' Hsame Hs), Hrun; apply Hok.
Qed.

(** A node is served the last push of its store. *)
Definition fresh (p : Process) : Prop :=
  ∀ key l cs, StoreMap (p_world p) !! key = Some l → w_heap (p_world p) !! l = Some cs →
    isStoped cs = false → in_sync (w_cache (p_world p)) cs.

(** C8: updates reach the proxies, on these conditions: the process is at rest;
    every registered node has a snapshot; no configured slice has spare capacity;
    and the node of every running store is served the store's last push, unless
    the first event is the ticker of [syncAll], for which any snapshot will do.
    The cluster changes for the last time and a pod or endpoints event (or the
    ticker) comes, and then any number of further events of pods and endpoints,
    tickers and rotations in any interleaving, but no ConfigMap; every listing
    gives the same cluster, in whatever order.  Unless making secrets panics, the
    process can always come to rest, and whenever it has, every running store whose
    endpoints can be determined has recorded the fingerprints of exactly the
    clusters it should publish, and its node is served what the store recorded;
    when the record had to change, that is these clusters themselves, with their
    metadata, each with the same endpoints. *)
Theorem updates_reach_proxies (order : MapOrder) c s v p p' :
  (∀ id, GetSnapshot c id = None) → reachable app ca uuids c p → quiescent p →
  (∀ key l, StoreMap (p_world p) !! key = Some l →
     is_Some (GetSnapshot (w_cache (p_world p)) key)) →
  (∀ l cs, w_heap (p_world p) !! l = Some cs → full_store cs) →
  raises s v = true → v = VSync ∨ v = VNewPod ∧ fresh p →
  rtc storm (raised s v p) p' →
  ((∀ now rnd cs why, LoadNewSecrets app ca now rnd cs ≠ Crash why) →
   ∃ p'', rtc (run app ca uuids k) p' p'' ∧ quiescent p'') ∧
  (quiescent p' → ∀ key l cs g,
     StoreMap (p_world p') !! key = Some l → w_heap (p_world p') !! l = Some cs →
     isStoped cs = false → desired app k (w_mem (p_world p')) cs = Some g →
     lastEndpointsArray cs = Some (GoStrings.Strings (mapFingerprints g)) ∧
     (∃ snap, GetSnapshot (w_cache (p_world p')) key = Some snap ∧ recorded cs = Ok snap) ∧
     ∀ cs0, w_heap (p_world p) !! l = Some cs0 → lastEndpointsArray cs0 ≠ lastEndpointsArray cs →
       ∃ ep g', lastEndpoints cs = Some ep ∧ publishes (w_mem (p_world p')) ep g' ∧
         same_lists g g').
Proof.
  intros Hc Hr Hq Hcached Hfull Hsv Hv Hrun.
  assert (update v) as Hu by (by destruct Hv as [-> |[-> _]]).
  assert (reachable app ca uuids c (raised s v p)) as Hr0
    by (eapply rtc_r; [exact Hr|by apply (raised_step app ca uuids)]).
  assert (round_ok app k update (p_world p) (concat (p_threads (raised s v p)))) as Hok0.
  { apply (raised_round app k update no_deletion); try done.
    - by destruct Hv as [-> |[-> _]]; [left|right].
    - destruct Hv as [-> |[_ Hf]]; [by left|by right]. }
  assert (stormy_ok (p_world p) (raised s v p)) as Hst0.
  { constructor; [done|]. simpl. rewrite (Progress.quiescent_actions p Hq). apply content_raised.
    constructor; [done| |by intros l p1 cs Hin%elem_of_nil]. intros l cs Hl. left. by exists cs. }
  destruct (storm_states c _ _ p' Hc Hr0 Hst0 Hrun) as [Hr' [Hok Hcon]]. split.
  - intros Hsur. apply (round_completes app k update no_deletion ca uuids uuids_ne new_ok set_ok c);
      [by intros _|done..].
  - intros Hq' key l cs g Hm Hl Hst Hg.
    destruct (round_over app k update no_deletion ca uuids uuids_ne new_ok set_ok c p' Hc Hr' Hok Hq'
      key l cs g Hm Hl Hst Hg) as [Ha Hsnap]. split_and!; [done..|].
    intros cs0 Hcs0 Hne.
    destruct (c_stores _ _ _ _ _ Hcon l cs Hl) as [(cs1 & Hcs1 & E)|[E|(ep & Hep & Hk)]];
      [congruence|congruence|].
    destruct Hk as (disc & g' & Hd & Hg' & Hp & _). unfold desired in Hg. rewrite Hd in Hg.
    case_decide; [|done]. injection Hg as <-. by exists ep, g'.
Qed.

End updates.

(** ** A run *)

Import Samples SystemExamples.

#[local] Existing Instances codec crypto xds parser runtime_doubling map_order_std xds_laws.

(** The moves of a storm against the cluster [k]. *)
Definition stormy (k : KubeCache) (mv : Move) : Prop :=
  match mv with MEvent _ v => update v | MRun _ k' => same_answers k k' | MConfig _ => False end.

Lemma moves_storm k ms p p' :
  Forall (stormy k) ms → moves ms p = Some p' → rtc (storm app k ca uuids) p p'.
Proof.
  intros Hms. revert p. induction Hms as [|mv ms Hmv Hms IH]; intros p; cbn [moves].
  - by intros [= ->].
  - destruct (move mv p) as [p1|] eqn:E; [|done]. intros ?%IH. eapply rtc_l; [|done].
    destruct mv as [s v|cm|i k']; simpl in Hmv; [|done|by eapply storm_run, move_run].
    simpl in E. destruct (idle s p) eqn:Ei, (raises s v) eqn:Er; [|done..]. injection E as <-.
    by apply (storm_event _ _ _ _ p map_order_std).
Qed.

(** A configured endpoint and a selector; the pods move, and are then listed in one
    order or the other. *)
Definition cm_pods : ConfigMap :=
  mkConfigMap "cm" "ns" {["app" := "envoy-control-plane"]} None
    (Some {["n" := "n;pods;web@9.9.9.9;"]}).
Definition p1 : KubeCache := kube_pods ["10.0.0.1"].
Definition p2 : KubeCache := kube_pods ["10.0.0.2"; "10.0.0.3"].
Definition p2' : KubeCache := kube_pods ["10.0.0.3"; "10.0.0.2"].

Lemma p2_same : same_answers p2 p2'.
Proof. constructor; [|done..]. intros sel. apply Permutation_swap. Qed.

(** The store is built and pushed at [p1]. *)
Definition boot_pods : list Move :=
  [MConfig cm_pods; MRun 0 p1; MRun 0 p1; MRun 0 p1; MRun 0 p1; MRun 1 p1].

(** The handler of the pod has collected when the endpoints and a rotation come as
    well. *)
Definition moved : list Move :=
  [MRun 0 p2; MRun 0 p2; MRun 0 p2; MEvent SEndpoints VNewPod; MEvent SRotate VRotate;
   MRun 0 p2; MRun 0 p2; MRun 1 p2; MRun 1 p2'; MRun 1 p2'; MRun 1 p2'; MRun 1 p2'; MRun 2 p2;
   MRun 2 p2; MRun 0 p2; MRun 0 p2; MRun 5 p2].

Lemma moved_stormy : Forall (stormy p2) moved.
Proof.
  repeat (constructor; [first [by intros cm|apply p2_same|apply same_answers_refl]|]). constructor.
Qed.

Definition old_fingerprints : list string :=
  ["web|unknown|0|10.0.0.1|80|0"; "web|z|0|9.9.9.9|80|0"].
Definition new_fingerprints : list string :=
  ["web|unknown|0|10.0.0.2|80|0"; "web|unknown|0|10.0.0.3|80|0"; "web|z|0|9.9.9.9|80|0"].

Definition at_rest (p : Process) : bool :=
  bool_decide (quiescent p) &&
  bool_decide (map_Forall (λ key (l : nat), is_Some (GetSnapshot (w_cache (p_world p)) key) ∧
    (λ cs, (ID (cs_Config cs), Some (Version cs))) <$> (w_heap (p_world p) !! l)
      = Some (key, GetVersion <$> GetSnapshot (w_cache (p_world p)) key)) (StoreMap (p_world p))) &&
  bool_decide (map_Forall (λ (_ : nat) cs, map_Forall (λ (_ : string) s, GoSlice.s_len s = GoSlice.s_cap s)
    (configEndpoints cs)) (w_heap (p_world p))) &&
  bool_decide (recorded_addresses p = Some (Some old_fingerprints)).

Definition pods_published (p' : Process) : bool :=
  bool_decide (quiescent p') && bool_decide (StoreMap (p_world p') !! "n" = Some 0%nat) &&
  match w_heap (p_world p') !! 0%nat with
  | Some cs => negb (isStoped cs) && bool_decide (target app p2 (w_mem (p_world p')) cs
                                       = Some new_fingerprints)
  | None => false
  end.

Lemma moved_run :
  match moves boot_pods (initial ∅) with
  | Some p =>
      match moves moved (raised SPods VNewPod p) with
      | Some p' => at_rest p && pods_published p'
      | None => false
      end
  | None => false
  end = true.
Proof. vm_compute. reflexivity. Qed.

Lemma updates_reach_proxies_witness :
  ∃ p p' cs snap, reachable app ca uuids ∅ p ∧
    recorded_addresses p = Some (Some old_fingerprints) ∧
    rtc (storm app p2 ca uuids) (raised SPods VNewPod p) p' ∧
    w_heap (p_world p') !! 0%nat = Some cs ∧
    lastEndpointsArray cs = Some new_fingerprints ∧
    GetSnapshot (w_cache (p_world p')) "n" = Some snap ∧ recorded cs = Ok snap ∧
    ∃ ep g g', desired app p2 (w_mem (p_world p')) cs = Some g ∧
      lastEndpoints cs = Some ep ∧ publishes (w_mem (p_world p')) ep g' ∧ same_lists g g'.
Proof.
  pose proof moved_run as Hrun.
  destruct (moves boot_pods (initial ∅)) as [p|] eqn:Ep; [|discriminate Hrun].
  destruct (moves moved (raised SPods VNewPod p)) as [p'|] eqn:Ep'; [|discriminate Hrun].
  unfold at_rest, pods_published in Hrun. rewrite !andb_true_iff, !bool_decide_eq_true in Hrun.
  destruct Hrun as ((((Hq & Hc) & Hfull) & Hold) & (Hq' & Hm) & Hs).
  destruct (w_heap (p_world p') !! 0%nat) as [cs|] eqn:Hl; [|discriminate Hs].
  apply andb_true_iff in Hs as [Hst Ht]. apply negb_true_iff in Hst.
  apply bool_decide_eq_true in Ht. unfold target in Ht.
  destruct (desired app p2 (w_mem (p_world p')) cs) as [g|] eqn:Hg; [|discriminate Ht].
  injection Ht as Ht. assert (fresh p) as Hf.
  { intros key l cs1 Hkey Hl1 _ snap Hsnap. destruct (Hc key l Hkey) as [_ Hcs].
    rewrite Hl1 in Hcs. apply (inj Some), pair_equal_spec in Hcs as [Hid Hv].
    rewrite Hid in Hsnap. rewrite Hsnap in Hv. by injection Hv. }
  assert (∀ l cs1, w_heap (p_world p) !! l = Some cs1 → full_store cs1) as Hfs.
  { intros l cs1 Hl1 cl. unfold slot. destruct (configEndpoints cs1 !! cl) as [s|] eqn:Es;
      [exact (Hfull l cs1 Hl1 cl s Es)|reflexivity]. }
  pose proof (moves_reachable _ _ _ Ep) as Hr.
  pose proof (moves_storm p2 moved _ _ moved_stormy Ep') as Hstorm.
  destruct (updates_reach_proxies app p2 ca uuids uuids_not_empty sample_new sample_set
    map_order_std ∅ SPods VNewPod p p' empty_cache Hr Hq
    (λ key l Hk, proj1 (Hc key l Hk)) Hfs eq_refl (or_intror (conj eq_refl Hf)) Hstorm) as [_ Hall].
  destruct (Hall Hq' "n" 0%nat cs g Hm Hl Hst Hg) as (Hsaved & (snap & Hsnap & Hrec) & Hcon).
  rewrite Ht in Hsaved. pose proof Hold as Hold0. unfold recorded_addresses in Hold.
  destruct (w_heap (p_world p) !! 0%nat) as [cs0|]; [|discriminate Hold].
  injection Hold as Hold.
  assert (lastEndpointsArray cs0 ≠ lastEndpointsArray cs) as Hne by (rewrite Hold, Hsaved; discriminate).
  destruct (Hcon cs0 eq_refl Hne) as (ep & g' & Hep & Hp & Hgg).
  exists p, p', cs, snap. do 7 (split; [assumption|]). exists ep, g, g'. auto.
Defined.

End Updates.
