(* ===== verification/Handlers.v ===== *)
(** * internal: the handlers as functions

    What internal.go does for one event, as one function on the shared state, and
    the proof that the transition system of System refines it: the goroutine of an
    event that no other goroutine interrupts has exactly this effect, and starts
    the goroutines that the function says it starts. *)

From stdpp Require Import options.
From S2P Require Import Prelude.
From S2P Require Import GoStd.
From S2P Require Import GoSlice.
From S2P Require Import Envoy.
From S2P Require Import AppConfig.
From S2P Require Import Resources.
From S2P Require Import Config.
From S2P Require Import Api.
From S2P Require Import Certs.
From S2P Require Import Utils.
From S2P Require Import ConfigStore.
From S2P Require Import ConfigMapsStore.
From S2P Require Import WorldFacts.
From S2P Require Import System.
From S2P Require Import Progress.
From S2P Require Import Samples.
From S2P Require Import SystemExamples.
From Stdlib Require Import ZArith.

Set Default Proof Using "All".

Module Handlers.

Import AppConfig Store ConfigMapsStore System.

Section handlers.
Context `{Codec} `{ConfigParser} `{Crypto} `{XdsCache} `{GoRuntime}.
Variable app : Type_.
Variable ca : Certs.CA.
Variable uuids : nat → string.
Context `{MapOrder}.
Variable now : Z.
Variable rnd : nat.
Variable k : KubeCache.

(** ** The handlers *)

(** [configstore.StoreMap.Range]: the callback never ends the iteration. *)
Fixpoint ranged (f : nat → ConfigStore → World → res World) (stores : list (string * nat))
    (w : World) : res World :=
  match stores with
  | [] => Ok w
  | (_, l) :: stores' =>
      match w_heap w !! l with
      | Some cs => w' ← f l cs w; ranged f stores' w'
      | None => ranged f stores' w
      end
  end.

Definition Range (f : nat → ConfigStore → World → res World) (w : World) : res World :=
  ranged f (range_order (StoreMap w)) w.

(** What an operation on the store at [l] leaves. *)
Definition updated (l : nat) (r : Memory * ConfigStore * list Spawn) (w : World) : World :=
  let '(m', cs', sp) := r in spawn l sp (set_store l cs' (set_mem m' w)).

(** [api.OnNewPod]; [OnDeletePod] and [OnNewEndpoints] do the same. *)
Definition OnNewPod : World → res World :=
  Range (λ l cs w, Ok (updated l (NewPod app k (w_mem w) cs) w)).

(** [api.OnNewConfig]: an error is logged. *)
Definition OnNewConfig (cm : ConfigMap) (w : World) : res World :=
  match NewConfigMap app ca now rnd k cm w with
  | (w', Ok _) | (w', Err _) => Ok w'
  | (_, Crash why) => Crash why
  end.

(** [api.OnDeleteConfig]. *)
Definition OnDeleteConfig (cm : ConfigMap) (w : World) : res World :=
  Ok (DeleteConfigMap cm w).

(** One round of [syncAll]. *)
Definition syncAll : World → res World :=
  Range (λ l cs w, r ← Sync app k (w_mem w) cs (w_cache w); Ok (updated l r w)).

(** A push that has not ended after [versionFuel] draws. *)
Definition stillDrawing : error := Prelude.New "still drawing".

(** One round of [rotateCertificates]: an error of [LoadNewSecrets] is logged. *)
Definition rotateStore (l : nat) (cs : ConfigStore) (w : World) : res World :=
  match LoadNewSecrets app ca now rnd cs with
  | Ok cs1 =>
      match Push uuids (w_draws w) cs1 (w_cache w) with
      | Some (cs2, n', c') => Ok (set_draws n' (set_cache c' (set_store l cs2 w)))
      | None => Err stillDrawing
      end
  | Err _ => Ok w
  | Crash why => Crash why
  end.

Definition rotateCertificates : World → res World := Range rotateStore.

(** ** Events *)

Inductive Event :=
  | ENewPod | ENewConfig (cm : ConfigMap) | EDeleteConfig (cm : ConfigMap) | ESync | ERotate.

Definition handle (e : Event) : World → res World :=
  match e with
  | ENewPod => OnNewPod
  | ENewConfig cm => OnNewConfig cm
  | EDeleteConfig cm => OnDeleteConfig cm
  | ESync => syncAll
  | ERotate => rotateCertificates
  end.

(** The goroutine System has for it. *)
Definition goroutine (e : Event) (w : World) : res thread :=
  match e with
  | ENewPod => Ok (on_visitor VNewPod w)
  | ENewConfig cm => on_new_config app cm
  | EDeleteConfig cm => Ok (on_visitor (VDelete cm) w)
  | ESync => Ok (on_visitor VSync w)
  | ERotate => Ok (on_visitor VRotate w)
  end.

(** ** One goroutine alone *)

Definition unspawn (w : World) : World :=
  mkWorld (w_mem w) (w_heap w) (StoreMap w) (w_cache w) (w_draws w) [].

(** The process in which one goroutine still has [t] to do: the goroutines that
    were started wait behind the others. *)
Definition alone (w : World) (t : thread) (others : list thread) : Process :=
  mkProcess (unspawn w) (t :: others ++ map spawned_thread (w_spawned w)).

(** A state that differs only in the goroutines started before. *)
Definition add_spawned (sp : list (nat * Spawn)) (w : World) : World :=
  mkWorld (w_mem w) (w_heap w) (StoreMap w) (w_cache w) (w_draws w) (sp ++ w_spawned w).

Lemma add_spawned_unspawn w : add_spawned (w_spawned w) (unspawn w) = w.
Proof. destruct w. unfold add_spawned. simpl. by rewrite app_nil_r. Qed.

Lemma add_spawned_spawn sp l sp' w :
  add_spawned sp (spawn l sp' w) = spawn l sp' (add_spawned sp w).
Proof. unfold add_spawned, spawn. simpl. by rewrite app_assoc. Qed.

Lemma add_spawned_stop sp id w :
  add_spawned sp (stopExisting id w) = stopExisting id (add_spawned sp w).
Proof. unfold stopExisting. simpl. by destruct (_ ≫= _) as [[]|]. Qed.

Lemma add_spawned_build sp config w :
  buildEntry app ca now rnd k config (add_spawned sp w)
  = (add_spawned sp (buildEntry app ca now rnd k config w).1,
     (buildEntry app ca now rnd k config w).2).
Proof.
  unfold buildEntry. destruct (wrap _ _) as [config'| |]; [|done..]. simpl.
  destruct (New _ _ _ _ _ _ _) as [[[m' cs] sp']| |]; [|done..].
  simpl. f_equal. unfold add_spawned, spawn, allocStore. simpl. by rewrite app_assoc.
Qed.

(** No action looks at the goroutines that were started. *)
Definition respawned (sp : list (nat * Spawn)) (r : res (World * option (list Action)))
  : res (World * option (list Action)) :=
  '(w, pre) ← r; Ok (add_spawned sp w, pre).

Lemma exec_spawned sp a w :
  exec app ca uuids now rnd k a (add_spawned sp w)
  = respawned sp (exec app ca uuids now rnd k a w).
Proof.
  unfold respawned.
  destruct a as [key v|l body|l|l p|l|l reason|l|key l|key|cm nodeID text|config|id l|s];
    simpl; try (destruct (w_heap w !! l) as [cs|]; [|done]); try done.
  - destruct (_ ≫= _) as [[l cs]|]; [|done].
    destruct v; simpl; [done..|]. by destruct (fromConfigMap cm cs).
  - by destruct (saveCollect _ _ _ _).
  - destruct (saveCommit _ _). simpl. by rewrite add_spawned_spawn.
  - destruct (syncCheck _ _) as [[cs' sp']| |]; simpl; [|done..]. by rewrite add_spawned_spawn.
  - by destruct (Push _ _ _ _) as [[[]]|].
  - by destruct (LoadNewSecrets _ _ _ _ _).
  - destruct (Config.ParseConfigYaml _ _); [|done..]. simpl. by rewrite <-add_spawned_stop.
  - rewrite add_spawned_build. by destruct (buildEntry _ _ _ _ _ _ w) as [w1 []].
Qed.

Definition reaches : Process → Process → Prop := rtc (run app ca uuids k).

Lemma exec_unspawn a w :
  exec app ca uuids now rnd k a w
  = respawned (w_spawned w) (exec app ca uuids now rnd k a (unspawn w)).
Proof. by rewrite <-exec_spawned, add_spawned_unspawn. Qed.

Lemma run_alone a w w' pre rest others :
  exec app ca uuids now rnd k a w = Ok (w', pre) →
  run app ca uuids k (alone w (a :: rest) others)
    (alone w' (from_option (λ acts, acts ++ rest) [] pre) others).
Proof.
  rewrite exec_unspawn. destruct (exec _ _ _ _ _ _ a (unspawn w)) as [[w1 pre1]| |] eqn:E;
    [|done..]. intros [= <- ->].
  pose proof (run_action app ca uuids k (alone w (a :: rest) others) _ now rnd [] a rest
    (others ++ map spawned_thread (w_spawned w)) w1 pre eq_refl E) as Hrun.
  unfold alone, add_spawned. simpl. rewrite map_app, (app_assoc others). exact Hrun.
Qed.

Lemma crash_alone a w why rest others :
  exec app ca uuids now rnd k a w = Crash why →
  crashes app ca uuids (alone w (a :: rest) others).
Proof.
  rewrite exec_unspawn. destruct (exec _ _ _ _ _ _ a (unspawn w)) as [[w1 pre1]| |] eqn:E;
    [done..|]. intros _. by exists _, now, rnd, k, [], a, rest, (others ++ map spawned_thread
      (w_spawned w)), why0.
Qed.

(** ** What a goroutine does alone *)

(** Doing [t], uninterrupted, has the result [r]. *)
Definition does (t : thread) (w : World) (r : res World) : Prop :=
  ∀ rest others,
    match r with
    | Ok w' => reaches (alone w (t ++ rest) others) (alone w' rest others)
    | Crash _ => ∃ p, reaches (alone w (t ++ rest) others) p ∧ crashes app ca uuids p
    | Err _ => False
    end.

Lemma does_nil w : does [] w (Ok w).
Proof. intros rest others. apply rtc_refl. Qed.

Lemma does_app t1 t2 w r f :
  does t1 w r → (∀ w1, r = Ok w1 → does t2 w1 (f w1)) → does (t1 ++ t2) w (r ≫= f).
Proof.
  intros H1' H2' rest others. rewrite <-app_assoc. specialize (H1' (t2 ++ rest) others).
  destruct r as [w1|e|why]; simpl; [|done..].
  specialize (H2' w1 eq_refl rest others). destruct (f w1) as [w2|e|why]; [|done|].
  - by etrans.
  - destruct H2' as (p & Hp & Hc). exists p. split; [by etrans|done].
Qed.

(** An action, then what it starts. *)
Lemma does_exec a acts t w w1 r :
  exec app ca uuids now rnd k a w = Ok (w1, Some acts) → does (acts ++ t) w1 r →
  does (a :: t) w r.
Proof.
  intros E Hd rest others. specialize (Hd rest others).
  assert (run app ca uuids k (alone w ((a :: t) ++ rest) others)
    (alone w1 ((acts ++ t) ++ rest) others)) as Hrun.
  { rewrite <-app_assoc. exact (run_alone _ _ _ _ (t ++ rest) others E). }
  destruct r as [w2|e|why]; [|done|].
  - by eapply rtc_l.
  - destruct Hd as (p & Hp & Hc). exists p. split; [by eapply rtc_l|done].
Qed.

Lemma does_crash a t w why :
  exec app ca uuids now rnd k a w = Crash why → does (a :: t) w (Crash why).
Proof.
  intros E rest others. exists (alone w ((a :: t) ++ rest) others).
  split; [apply rtc_refl|by eapply crash_alone].
Qed.

(** ** The rounds *)

Lemma set_store_id l cs w : w_heap w !! l = Some cs → set_store l cs w = w.
Proof. intros Hl. destruct w. unfold set_store. simpl in *. by rewrite insert_id. Qed.

Lemma set_store_twice l cs cs' w : set_store l cs' (set_store l cs w) = set_store l cs' w.
Proof. unfold set_store. simpl. by rewrite insert_insert_eq. Qed.

Lemma spawn_nil l w : spawn l [] w = w.
Proof. destruct w. unfold spawn. simpl. by rewrite app_nil_r. Qed.

Lemma lookup_set_store l cs w : w_heap (set_store l cs w) !! l = Some cs.
Proof. simpl. by rewrite lookup_insert_eq. Qed.

(** A save, then what follows it. *)
Lemma does_save l cs t w r :
  w_heap w !! l = Some cs → does t (updated l (saveLastEndpoints app k (w_mem w) cs) w) r →
  does (ACollect l :: t) w r.
Proof.
  intros Hl. unfold saveLastEndpoints. destruct (saveCollect app k (w_mem w) cs) as [m' [p|]] eqn:E.
  - destruct (saveCommit p cs) as [cs' sp] eqn:Ec. intros Hd.
    eapply does_exec; [simpl; rewrite Hl, E; done|].
    eapply does_exec; [simpl; rewrite Hl, Ec; done|]. exact Hd.
  - simpl. rewrite spawn_nil, set_store_id by done. intros Hd.
    eapply does_exec; [simpl; rewrite Hl, E; done|]. exact Hd.
Qed.

Lemma visit_exec key v l cs w w' acts :
  StoreMap w !! key = Some l → w_heap w !! l = Some cs → visit v key l cs w = (w', acts) →
  exec app ca uuids now rnd k (AVisit key v) w = Ok (w', Some acts).
Proof. intros Hm Hl Hv. simpl. rewrite Hm. simpl. rewrite Hl. simpl. by rewrite Hv. Qed.

Lemma does_visit key v l cs w w' acts r :
  StoreMap w !! key = Some l → w_heap w !! l = Some cs → visit v key l cs w = (w', acts) →
  does acts w' r → does [AVisit key v] w r.
Proof.
  intros Hm Hl Hv Hd. eapply does_exec; [by eapply visit_exec|]. by rewrite app_nil_r.
Qed.

(** One store in a round. *)
Definition round (v : Visitor) (f : nat → ConfigStore → World → res World) : Prop :=
  ∀ key l cs w, StoreMap w !! key = Some l → w_heap w !! l = Some cs →
    does [AVisit key v] w (f l cs w) ∧ ∀ w', f l cs w = Ok w' → StoreMap w' = StoreMap w.

Lemma does_unless l body w cs r :
  w_heap w !! l = Some cs → does (if hasStoped cs then [] else body) w r →
  does [AUnlessStoped l body] w r.
Proof.
  intros Hl Hd. eapply does_exec; [simpl; by rewrite Hl|]. by rewrite app_nil_r.
Qed.

Lemma round_NewPod : round VNewPod (λ l cs w, Ok (updated l (NewPod app k (w_mem w) cs) w)).
Proof.
  intros key l cs w Hm Hl. split.
  - eapply does_visit; [done..|]. eapply does_unless; [done|].
    unfold NewPod. destruct (hasStoped cs).
    + simpl. rewrite spawn_nil, set_store_id by done. destruct w. apply does_nil.
    + eapply does_save; [done|]. apply does_nil.
  - intros w' [= <-]. by destruct (NewPod _ _ _ _) as [[]].
Qed.

Lemma syncCheck_no_error cs cache e : syncCheck cs cache ≠ Err e.
Proof.
  unfold syncCheck. destruct (lastEndpoints cs); [|done].
  destruct (GetSnapshot _ _); [|done]. by case_match.
Qed.

Lemma exec_check l cs w cs' sp :
  w_heap w !! l = Some cs → syncCheck cs (w_cache w) = Ok (cs', sp) →
  exec app ca uuids now rnd k (ASyncCheck l) w = Ok (spawn l sp (set_store l cs' w), Some []).
Proof. intros Hl Es. simpl. by rewrite Hl, Es. Qed.

Lemma exec_check_crash l cs w why :
  w_heap w !! l = Some cs → syncCheck cs (w_cache w) = Crash why →
  exec app ca uuids now rnd k (ASyncCheck l) w = Crash why.
Proof. intros Hl Es. simpl. by rewrite Hl, Es. Qed.

Lemma round_Sync :
  round VSync (λ l cs w, r ← Sync app k (w_mem w) cs (w_cache w); Ok (updated l r w)).
Proof.
  intros key l cs w Hm Hl. split.
  - eapply does_visit; [done..|]. eapply does_unless; [done|].
    unfold Sync. destruct (hasStoped cs).
    + simpl. rewrite spawn_nil, set_store_id by done. destruct w. apply does_nil.
    + eapply does_save; [done|].
      destruct (saveLastEndpoints app k (w_mem w) cs) as [[m' cs1] sp1]. cbn [updated].
      set (w1 := spawn l sp1 (set_store l cs1 (set_mem m' w))).
      assert (w_heap w1 !! l = Some cs1) as Hl1 by apply (lookup_set_store l cs1 (set_mem m' w)).
      destruct (syncCheck cs1 (w_cache w)) as [[cs2 sp2]|e|why] eqn:Es;
        [|by destruct (syncCheck_no_error cs1 (w_cache w) e)|].
      * eapply does_exec; [by apply (exec_check l cs1 w1 cs2 sp2)|]. rewrite app_nil_l.
        assert (updated l (m', cs2, sp1 ++ sp2) w = spawn l sp2 (set_store l cs2 w1)) as <-;
          [|apply does_nil].
        unfold w1, updated, spawn, set_store. simpl.
        by rewrite map_app, app_assoc, insert_insert_eq.
      * apply does_crash. by apply (exec_check_crash l cs1).
  - intros w'. destruct (Sync _ _ _ _ _) as [[[]]| |]; [|done..]. by intros [= <-].
Qed.

Lemma round_Rotate `{!Inj (=) (=) uuids} : round VRotate rotateStore.
Proof.
  intros key l cs w Hm Hl. unfold rotateStore.
  destruct (LoadNewSecrets app ca now rnd cs) as [cs1|e|why] eqn:Es.
  - destruct (Progress.push_ends uuids (w_draws w) cs1 (w_cache w)) as (cs2 & n' & c' & Ep). rewrite Ep.
    split; [|by intros w' [= <-]].
    eapply does_visit; [done..|]. eapply does_exec; [simpl; by rewrite Hl, Es|].
    eapply does_exec; [simpl; rewrite lookup_insert_eq; simpl; by rewrite Ep|].
    rewrite set_store_twice. apply does_nil.
  - split; [|by intros w' [= <-]]. eapply does_visit; [done..|].
    eapply does_exec; [simpl; by rewrite Hl, Es|]. apply does_nil.
  - split; [|done]. eapply does_visit; [done..|]. apply does_crash. simpl. by rewrite Hl, Es.
Qed.

(** A key whose store is gone. *)
Lemma does_visit_none key v l w :
  StoreMap w !! key = Some l → w_heap w !! l = None → does [AVisit key v] w (Ok w).
Proof.
  intros Hm Hl. eapply does_exec; [simpl; rewrite Hm; simpl; by rewrite Hl|]. apply does_nil.
Qed.

Lemma does_ranged v f stores w :
  round v f → (∀ kl, kl ∈ stores → StoreMap w !! kl.1 = Some kl.2) →
  does (map (λ kl, AVisit kl.1 v) stores) w (ranged f stores w).
Proof.
  intros Hv. revert w. induction stores as [|[key l] stores IH]; intros w Hm; simpl;
    [apply does_nil|].
  assert (StoreMap w !! key = Some l) as Hkey by (apply (Hm (key, l)); by left).
  assert (∀ kl, kl ∈ stores → StoreMap w !! kl.1 = Some kl.2) as Hm'
    by (intros kl Hkl; apply Hm; by right).
  destruct (w_heap w !! l) as [cs|] eqn:Hl.
  - destruct (Hv key l cs w Hkey Hl) as [Hd Hs].
    apply (does_app [_]); [exact Hd|]. intros w1 E. apply IH.
    intros kl Hkl. rewrite (Hs w1 E). by apply Hm'.
  - apply (does_app [_] _ _ (Ok w) (ranged f stores)); [by apply (does_visit_none key v l)|].
    intros w1 [= <-]. by apply IH.
Qed.

Lemma does_Range v f w :
  round v f → does (on_visitor v w) w (Range f w).
Proof. intros Hv. apply does_ranged; [done|]. intros [key l] Hin. by apply elem_of_range. Qed.

(** ** ConfigMaps *)

Lemma does_deleteVisit cm key l w :
  StoreMap w !! key = Some l → does [AVisit key (VDelete cm)] w (Ok (deleteVisit cm w (key, l))).
Proof.
  intros Hm. unfold deleteVisit. simpl. destruct (w_heap w !! l) as [cs|] eqn:Hl;
    [|by apply (does_visit_none key _ l)].
  destruct (fromConfigMap cm cs) eqn:Hf;
    (eapply does_visit; [done..|simpl; rewrite Hf; reflexivity|]); [|apply does_nil].
  unfold clearStore. rewrite lookup_set_store.
  eapply does_exec; [simpl; by rewrite lookup_insert_eq|].
  eapply does_exec; [done|]. apply does_nil.
Qed.

Lemma deleteVisit_others cm w key l key' :
  key ≠ key' → StoreMap (deleteVisit cm w (key, l)) !! key' = StoreMap w !! key'.
Proof.
  intros Hne. unfold deleteVisit, clearStore. simpl. destruct (w_heap w !! l) as [cs|]; [|done].
  destruct (fromConfigMap cm cs); [|done]. rewrite lookup_insert_eq. simpl.
  by rewrite lookup_delete_ne.
Qed.

Lemma does_deleteVisits cm stores w :
  NoDup stores.*1 → (∀ kl, kl ∈ stores → StoreMap w !! kl.1 = Some kl.2) →
  does (map (λ kl, AVisit kl.1 (VDelete cm)) stores) w (Ok (foldl (deleteVisit cm) w stores)).
Proof.
  revert w. induction stores as [|[key l] stores IH]; intros w Hnd Hm; simpl; [apply does_nil|].
  simpl in Hnd. apply NoDup_cons in Hnd as [Hnin Hnd].
  apply (does_app [_] _ _ (Ok (deleteVisit cm w (key, l)))
    (λ w, Ok (foldl (deleteVisit cm) w stores))).
  - apply does_deleteVisit. apply (Hm (key, l)). by left.
  - intros w1 [= <-]. apply IH; [done|]. intros kl Hkl.
    rewrite deleteVisit_others; [apply Hm; by right|].
    intros ->. apply Hnin. by apply list_elem_of_fmap_2.
Qed.

(** Loading entries: an error drops the others. *)
Definition loads (t : thread) (w : World) (r : World * res unit) : Prop :=
  ∀ rest others,
    match r with
    | (w', Ok _) => reaches (alone w (t ++ rest) others) (alone w' rest others)
    | (w', Err _) => reaches (alone w (t ++ rest) others) (alone w' [] others)
    | (_, Crash _) => ∃ p, reaches (alone w (t ++ rest) others) p ∧ crashes app ca uuids p
    end.

Lemma exec_build config w w' r :
  buildEntry app ca now rnd k config w = (w', r) →
  exec app ca uuids now rnd k (ABuild config) w =
  match r with
  | Ok l => Ok (w', Some [ARegister (ID config) l])
  | Err _ => Ok (w', None)
  | Crash why => Crash why
  end.
Proof. intros E. simpl. rewrite E. by destruct r. Qed.

Lemma loads_newEntry cm nodeID text w :
  loads [ANewEntry cm nodeID text] w (newEntry app ca now rnd k cm nodeID text w).
Proof.
  intros rest others. unfold newEntry.
  destruct (Config.ParseConfigYaml nodeID text) as [config0|e|why] eqn:Ep.
  - set (config := prepareConfig cm nodeID config0).
    assert (reaches (alone w ([ANewEntry cm nodeID text] ++ rest) others)
      (alone (stopExisting (ID config) w) (ABuild config :: rest) others)) as H1'.
    { eapply rtc_once, (run_alone _ _ _ (Some [ABuild config])). simpl. by rewrite Ep. }
    destruct (buildEntry app ca now rnd k config (stopExisting (ID config) w)) as [w1 r] eqn:Eb.
    destruct r as [l|e|why].
    + etrans; [exact H1'|]. eapply rtc_l.
      * exact (run_alone _ _ w1 (Some [ARegister (ID config) l]) rest others (exec_build _ _ _ _ Eb)).
      * eapply rtc_once, (run_alone _ _ _ (Some [])). done.
    + etrans; [exact H1'|]. eapply rtc_once.
      exact (run_alone _ _ w1 None rest others (exec_build _ _ _ _ Eb)).
    + eexists. split; [exact H1'|]. exact (crash_alone _ _ why rest others (exec_build _ _ _ _ Eb)).
  - eapply rtc_once, (run_alone _ _ w None). simpl. by rewrite Ep.
  - eexists. split; [apply rtc_refl|]. apply (crash_alone _ _ why). simpl. by rewrite Ep.
Qed.

Lemma loads_newEntries cm data w :
  loads (map (λ nt, ANewEntry cm nt.1 nt.2) data) w (newEntries app ca now rnd k cm data w).
Proof.
  revert w. induction data as [|[nodeID text] data IH]; intros w rest others; simpl.
  - apply rtc_refl.
  - pose proof (loads_newEntry cm nodeID text w
      (map (λ nt, ANewEntry cm nt.1 nt.2) data ++ rest) others) as H1'.
    destruct (newEntry app ca now rnd k cm nodeID text w) as [w1 [[]|e|why]]; [|exact H1'..].
    specialize (IH w1 rest others). destruct (newEntries _ _ _ _ _ _ _ w1) as [w2 [|e|why]].
    + by etrans.
    + by etrans.
    + destruct IH as (p & Hp & Hc). exists p. split; [by etrans|done].
Qed.

(** ** The refinement *)

(** The source of an event. *)
Definition source (e : Event) : Source :=
  match e with
  | ENewPod => SPods
  | ENewConfig _ | EDeleteConfig _ => SConfigMaps
  | ESync => SSync
  | ERotate => SRotate
  end.

(** C13: the transition system does what the handlers do: the goroutine of an
    event, when no other one runs in between, leaves the state that the handler
    computes as one function - the fold over the stores, [NewConfigMap] or
    [DeleteConfigMap] - with the goroutines it starts waiting behind the others;
    and when the handler panics, the goroutine does. *)
Theorem handlers_refine `{!Inj (=) (=) uuids} e w t others :
  goroutine e w = Ok t →
  match handle e w with
  | Ok w' => rtc (run app ca uuids k) (alone w (t ++ [AEnd (source e)]) others) (alone w' [] others)
  | Crash _ => ∃ p, rtc (run app ca uuids k) (alone w (t ++ [AEnd (source e)]) others) p ∧
                 crashes app ca uuids p
  | Err _ => False
  end.
Proof.
  intros Et.
  assert (∀ w1 s, reaches (alone w1 [AEnd s] others) (alone w1 [] others)) as Hend.
  { intros w1 s. by eapply rtc_once, (run_alone _ _ _ (Some [])). }
  assert (∀ r s, does t w r → match r with
    | Ok w' => reaches (alone w (t ++ [AEnd s]) others) (alone w' [] others)
    | Crash _ => ∃ p, reaches (alone w (t ++ [AEnd s]) others) p ∧ crashes app ca uuids p
    | Err _ => False end) as Hdoes.
  { intros r s Hd. specialize (Hd [AEnd s] others). destruct r; [by etrans|done..]. }
  destruct e as [|cm|cm| |]; cbn [goroutine handle source] in *;
    try (injection Et as <-; apply Hdoes).
  - apply does_Range, round_NewPod.
  - unfold OnNewConfig, NewConfigMap. unfold on_new_config in Et.
    destruct (checkConfigMapLabels app cm) as [[]| |]; [| |done..]; injection Et as <-.
    + pose proof (loads_newEntries cm (range_order (default ∅ (cm_Data cm))) w
        [AEnd SConfigMaps] others) as Hl.
      destruct (newEntries _ _ _ _ _ _ _ w) as [w1 [[]|e|why]];
        [etrans; [exact Hl|apply Hend]|exact Hl..].
    + apply Hend.
  - apply does_deleteVisits; [apply NoDup_range|]. intros [key l] Hin. by apply elem_of_range.
  - apply does_Range, round_Sync.
  - apply does_Range, round_Rotate.
Qed.

End handlers.
(** ** A run *)

Import Samples SystemExamples.

#[local] Existing Instances codec crypto xds parser runtime_doubling map_order_std xds_laws.

Definition empty_world : World := mkWorld ∅ ∅ ∅ ∅ 0 [].

(** The handler loads the ConfigMap and starts a push. *)
Lemma new_config_run :
  match handle app ca uuids 0 5 k1 (ENewConfig cm_web) empty_world with
  | Ok w' => bool_decide (StoreMap w' = {["n" := 0%nat]} ∧
               w_spawned w' = [(0%nat, GoPush "new endpoints")])
  | _ => false
  end = true.
Proof. vm_compute. reflexivity. Qed.

Lemma handlers_refine_witness :
  ∃ t w', goroutine app (ENewConfig cm_web) empty_world = Ok t ∧
    StoreMap w' = {["n" := 0%nat]} ∧
    rtc (run app ca uuids k1) (alone empty_world (t ++ [AEnd SConfigMaps]) []) (alone w' [] []) ∧
    p_threads (alone w' [] []) = [[]; [APush 0 "new endpoints"]].
Proof.
  pose proof new_config_run as Hrun.
  destruct (handle app ca uuids 0 5 k1 (ENewConfig cm_web) empty_world) as [w'|e|why] eqn:Eh;
    [|discriminate Hrun..].
  apply bool_decide_eq_true in Hrun as [Hm Hs].
  destruct (goroutine app (ENewConfig cm_web) empty_world) as [t|e|why] eqn:Et;
    [|vm_compute in Et; discriminate Et..].
  exists t, w'. split; [exact eq_refl|]. split; [exact Hm|]. split.
  - pose proof (handlers_refine app ca uuids 0 5 k1 (ENewConfig cm_web) empty_world t [] Et) as Hr.
    rewrite Eh in Hr. exact Hr.
  - unfold alone. rewrite Hs. reflexivity.
Defined.

End Handlers.
