(* ===== verification/Arrival.v ===== *)
(** * internal: the arrival of a ConfigMap

    A ConfigMap that arrives while nothing else is going on: however the handler
    and the pushes of the stores it builds are interleaved, in the end every new
    store is running and registered under its node, it has published the clusters
    it should publish, its node is served exactly that, and no other node's
    snapshot has changed. *)

From stdpp Require Import options.
From S2P Require Import Prelude.
From S2P Require Import GoStd.
From S2P Require Import GoSlice.
From S2P Require Import Envoy.
From S2P Require Import AppConfig.
From S2P Require Import Resources.
From S2P Require Import Config.
From S2P Require Import Api.
From S2P Require Import Certs.
From S2P Require Import Utils.
From S2P Require Import ConfigStore.
From S2P Require Import Discovery.
From S2P Require Import StoreFacts.
From S2P Require Import StoreTheorems.
From S2P Require Import ConfigMapsStore.
From S2P Require Import WorldFacts.
From S2P Require Import System.
From S2P Require Import SystemTheorems.
From S2P Require Import Serving.
From S2P Require Import Progress.
From S2P Require Import Convergence.
From S2P Require Import ApiTheorems.
From S2P Require Import Samples.
From S2P Require Import SystemExamples.
From Stdlib Require Import ZArith.

Set Default Proof Using "Type*".

Module Arrival.

Import AppConfig Store GoSlice StoreFacts StoreTheorems ConfigMapsStore WorldFacts System
  SystemTheorems Serving.

Section arrival.
Context `{Codec} `{ConfigParser} `{Crypto} `{XdsCache} `{GoRuntime}.
Variable app : Type_.

(** The cluster during the handling, the ConfigMap, and the state it finds. *)
Variable k : KubeCache.
Variable cm : ConfigMap.
Variable w0 : World.

(** ** The stores the handler builds *)

Definition new (l : nat) : Prop := w_heap w0 !! l = None.

(** The configuration of an entry of the ConfigMap, before its resources. *)
Definition entry (config : ConfigType) : Prop :=
  ∃ nodeID text config0, default ∅ (cm_Data cm) !! nodeID = Some text ∧
    Config.ParseConfigYaml nodeID text = Ok config0 ∧
    config = prepareConfig cm nodeID config0.

(** What waits in the handler. *)
Inductive load_action : Action → Prop :=
  | load_entry nodeID text : default ∅ (cm_Data cm) !! nodeID = Some text →
      load_action (ANewEntry cm nodeID text)
  | load_build config : entry config → load_action (ABuild config)
  | load_register id l : new l → load_action (ARegister id l)
  | load_push l reason : new l → load_action (APush l reason)
  | load_end s : load_action (AEnd s).

(** The node an action is going to build a store for. *)
Definition node_of (a : Action) : option string :=
  match a with
  | ANewEntry cm nodeID text =>
      match Config.ParseConfigYaml nodeID text with
      | Ok config0 => Some (ID (prepareConfig cm nodeID config0))
      | _ => None
      end
  | ABuild config => Some (ID config)
  | _ => None
  end.

(** What a new store has published. *)
Definition published_now (m : Memory) (cs : ConfigStore) : Prop :=
  ∀ g, desired app k m cs = Some g →
    lastEndpointsArray cs = Some (GoStrings.Strings (mapFingerprints g)) ∧
    ∃ ep, lastEndpoints cs = Some ep ∧ publishes m ep g ∧
      ∀ cla, cla ∈ ep → slice_ok m (cla_Endpoints cla).

(** The cache holds the store's last push. *)
Definition pushed (c : SnapshotCache) (cs : ConfigStore) : Prop :=
  ∃ snap, GetSnapshot c (ID (cs_Config cs)) = Some snap ∧ GetVersion snap = Version cs.

(** A new store when the actions [al] are left. *)
Record new_store (w : World) (al : list Action) (l : nat) (cs : ConfigStore) : Prop := {
  n_running : isStoped cs = false;
  n_config : ∃ config, entry config ∧ Config.SaveResources app config = Ok (cs_Config cs);
  n_alone : ID (cs_Config cs) ∉ omap node_of al;
  n_registered : StoreMap w !! ID (cs_Config cs) = Some l ∨ ARegister (ID (cs_Config cs)) l ∈ al;
  n_published : published_now (w_mem w) cs;
  n_pushed : lastEndpoints cs = None ∨ (∃ reason, APush l reason ∈ al) ∨ pushed (w_cache w) cs }.

(** No two new stores of a heap are for the same node. *)
Definition distinct (h : gmap nat ConfigStore) : Prop :=
  ∀ l1 l2 cs1 cs2, h !! l1 = Some cs1 → h !! l2 = Some cs2 → new l1 → new l2 →
    ID (cs_Config cs1) = ID (cs_Config cs2) → l1 = l2.

(** The whole state. *)
Record loading (w : World) (al : list Action) : Prop := {
  l_actions : Forall load_action al;
  l_nodes : NoDup (omap node_of al);
  l_heap : ∀ l, is_Some (w_heap w0 !! l) → is_Some (w_heap w !! l);
  l_map : ∀ key l, StoreMap w !! key = Some l → StoreMap w0 !! key = Some l ∨ new l;
  l_new : ∀ l cs, w_heap w !! l = Some cs → new l → new_store w al l cs;
  l_distinct : distinct (w_heap w);
  l_others : ∀ id, (∀ l cs, w_heap w !! l = Some cs → new l → ID (cs_Config cs) ≠ id) →
    GetSnapshot (w_cache w) id = GetSnapshot (w_cache w0) id }.

(** The order of what is left does not matter. *)
Lemma loading_perm w al al' : al ≡ₚ al' → loading w al → loading w al'.
Proof.
  intros E [Ha Hn Hh Hm Hs Hd Ho]. assert (omap node_of al ≡ₚ omap node_of al') as En by (by rewrite E).
  constructor; [by rewrite <-E|by rewrite <-En|done|done| |done..].
  intros l cs Hl Hnew. destruct (Hs l cs Hl Hnew) as [Hr Hc Hal Hreg Hp Hpu].
  constructor; [done|done|by rewrite <-En|by rewrite <-E|done|].
  destruct Hpu as [|[(reason & Hin)|]]; [by left|right; left; exists reason; by rewrite <-E|by auto].
Qed.

(** Actions of the handler may be dropped. *)
Definition idle_action (a : Action) : Prop :=
  match a with APush _ _ | ARegister _ _ => False | _ => True end.

Lemma loading_drop w dropped al : Forall idle_action dropped → loading w (dropped ++ al) → loading w al.
Proof.
  intros Hi [Ha Hn Hh Hm Hs Hd Ho]. rewrite omap_app in Hn. apply NoDup_app in Hn as (_ & _ & Hn).
  apply Forall_app in Ha as [_ Ha]. constructor; try done.
  intros l cs Hl Hnew. destruct (Hs l cs Hl Hnew) as [Hr Hc Hal Hreg Hp Hpu].
  assert (∀ a, a ∈ dropped ++ al → ¬ idle_action a → a ∈ al) as Hin.
  { intros a [Hin|]%elem_of_app Hna; [|done]. rewrite Forall_forall in Hi. by destruct Hna; apply Hi. }
  constructor; try done.
  - rewrite omap_app, not_elem_of_app in Hal. tauto.
  - destruct Hreg as [|Hreg]; [by left|right]. apply Hin; [done|by intros []].
  - destruct Hpu as [|[(reason & Hr')|]]; [by left|right; left|by auto].
    exists reason. apply Hin; [done|by intros []].
Qed.

Lemma loading_done w a al : idle_action a → loading w (a :: al) → loading w al.
Proof. intros Ha. apply (loading_drop w [a]). by repeat constructor. Qed.

(** ** Memory *)

(** What a new store is built in: nothing that was there changes. *)
Definition grows (m m' : Memory) : Prop :=
  ∀ t, slice_ok m t → slice_ok m' t ∧ read m' t = read m t.

Lemma desired_grows m m' cs :
  grows m m' → store_ok m cs → desired app k m' cs = desired app k m cs.
Proof.
  intros Hg [Hok _]. unfold desired, want.
  assert (read m' <$> configEndpoints cs = read m <$> configEndpoints cs) as ->; [|done].
  apply map_fmap_ext. intros key t Ht. by apply Hg, (Hok key).
Qed.

Lemma published_grows m m' cs :
  grows m m' → store_ok m cs → published_now m cs → published_now m' cs.
Proof.
  intros Hg Hok Hp g Hd. rewrite (desired_grows m m' cs Hg Hok) in Hd.
  destruct (Hp g Hd) as (Hla & ep & Hep & Hpub & Hsl). split; [done|]. exists ep.
  split; [done|]. split; [|intros cla Hin; by apply Hg, Hsl].
  unfold publishes in *. rewrite <-Hpub. apply reflexive_eq, map_ext_in.
  intros cla Hin%list_elem_of_In. f_equal. by apply Hg, Hsl.
Qed.

(** A store publishes when it is built, and starts its push. *)
Lemma New_published `{MapOrder} ca now rnd m config m' cs sp :
  New app ca now rnd k m config = Ok (m', cs, sp) →
  published_now m' cs ∧ (lastEndpoints cs = None ∨ sp = [GoPush "new endpoints"]).
Proof.
  intros (m1 & ce & ss & _ & Hok & _ & _ & _ & E)%New_spec.
  destruct (save_desired _ _ _ _ _ _ _ Hok E) as [_ Hd].
  pose proof (save_spec _ _ _ _ _ _ _ Hok E) as Hs. rewrite <-Hd in Hs.
  destruct (desired app k m' cs) as [g|] eqn:Hg.
  - destruct Hs as [(Hla & _)|(_ & -> & ep & -> & Hp & Hsl)]; [done|].
    split; [|by right]. intros g' Hg'. rewrite Hg in Hg'. injection Hg' as <-.
    split; [done|]. by exists ep.
  - destruct Hs as [-> ->]. split; [|by left]. intros g Hg'. by rewrite Hg in Hg'.
Qed.

(** ** One action *)

(** What an action leaves, with the goroutines it starts. *)
Definition left_by (w' : World) (pre : option (list Action)) : list Action :=
  default [] pre ++ concat (map spawned_thread (w_spawned w')).

(** A new store keeps its facts when its own fields, its memory, its registration
    and its snapshot are kept. *)
Lemma new_store_keep w w' al al' l cs :
  new_store w al l cs → published_now (w_mem w') cs →
  (∀ id, id ∈ omap node_of al' → id ∈ omap node_of al) →
  (StoreMap w !! ID (cs_Config cs) = Some l → StoreMap w' !! ID (cs_Config cs) = Some l) →
  (ARegister (ID (cs_Config cs)) l ∈ al →
     StoreMap w' !! ID (cs_Config cs) = Some l ∨ ARegister (ID (cs_Config cs)) l ∈ al') →
  (∀ reason, APush l reason ∈ al → APush l reason ∈ al') →
  GetSnapshot (w_cache w') (ID (cs_Config cs)) = GetSnapshot (w_cache w) (ID (cs_Config cs)) →
  new_store w' al' l cs.
Proof.
  intros [Hr Hc Hal Hreg _ Hpu] Hp Hn Hm Hre Hps Hsn. constructor; [done|done|auto| |done|].
  - destruct Hreg; auto.
  - unfold pushed in *. rewrite Hsn. destruct Hpu as [|[(reason & ?)|]]; eauto.
Qed.

(** An action that changes no new store, no memory and no snapshot. *)
Lemma loading_same w w' a al new' :
  loading w (a :: al) →
  (∀ l, is_Some (w_heap w !! l) → is_Some (w_heap w' !! l)) →
  (∀ l cs, w_heap w' !! l = Some cs → new l → w_heap w !! l = Some cs) →
  w_mem w' = w_mem w → w_cache w' = w_cache w → StoreMap w' = StoreMap w →
  Forall load_action new' → NoDup (omap node_of (new' ++ al)) →
  (∀ id, id ∈ omap node_of new' → node_of a = Some id) →
  (∀ l reason, a ≠ APush l reason) → (∀ id l, a ≠ ARegister id l) →
  loading w' (new' ++ al).
Proof.
  intros [Ha Hn Hh Hm Hs Hd Ho] Hdom Hheap Emem Ec Em Hnew' Hnd Hids Hnp Hnr.
  apply Forall_cons in Ha as [_ Ha]. constructor; rewrite ?Em, ?Ec; auto.
  - by apply Forall_app.
  - intros l cs Hl Hnew. specialize (Hs l cs (Hheap l cs Hl Hnew) Hnew).
    apply (new_store_keep w w' (a :: al)); rewrite ?Emem, ?Em, ?Ec; auto; [apply Hs|..].
    + intros id. rewrite omap_app, elem_of_app. simpl. intros [Hin%Hids|Hin].
      * rewrite Hin. by left.
      * destruct (node_of a); [by right|done].
    + intros [E|Hin]%elem_of_cons; [by destruct (Hnr (ID (cs_Config cs)) l)|right].
      apply elem_of_app. by right.
    + intros reason [E|Hin]%elem_of_cons; [by destruct (Hnp l reason)|].
      apply elem_of_app. by right.
  - intros l1 l2 cs1 cs2 H1' H2' N1 N2. by eapply Hd; [apply Hheap|apply Hheap|..].
  - intros id Hid. apply Ho. intros l cs Hl Hnew.
    destruct (Hdom l) as [cs' Hl']; [by eexists|].
    rewrite (Hheap l cs' Hl' Hnew) in Hl. injection Hl as <-. by apply (Hid l).
Qed.

Variable ca : Certs.CA.
Variable uuids : nat → string.
Context `{!XdsCacheLaws} `{!Inj (=) (=) uuids}.
Hypothesis uuids_ne : ∀ i, uuids i ≠ "".
Hypothesis new_ok : ∀ v r, is_ok (NewSnapshot v r) = true.
Hypothesis set_ok : ∀ id s c, (SetSnapshot id s c).2 = None.

Notation sane := (Convergence.sane uuids).

(** The actions that the spawns of one store stand for. *)
Lemma spawned_idle l sp :
  sp = [] ∨ sp = [GoPush "new endpoints"] →
  omap node_of (concat (map spawned_thread (map (pair l) sp))) = [].
Proof. by intros [-> | ->]. Qed.

Lemma loading_entry w nodeID text config0 al :
  world_ok w → loading w (ANewEntry cm nodeID text :: al) →
  Config.ParseConfigYaml nodeID text = Ok config0 →
  loading (stopExisting (ID (prepareConfig cm nodeID config0)) w)
    ([ABuild (prepareConfig cm nodeID config0)] ++ al).
Proof.
  intros Hw Hl Hp. set (config := prepareConfig cm nodeID config0).
  pose proof (l_actions _ _ Hl) as [Ha _]%Forall_cons. inversion Ha as [? ? Hin| | | |]; subst.
  assert (node_of (ANewEntry cm nodeID text) = Some (ID config)) as Hn by (simpl; by rewrite Hp).
  assert (NoDup (omap node_of ([ABuild config] ++ al))) as Hnd.
  { pose proof (l_nodes _ _ Hl) as Hnd. simpl in Hnd |- *. by rewrite Hp in Hnd. }
  destruct (stopExisting_core (ID config) w) as [E|(l & cs & Hm & Hcs & E)]; rewrite E.
  - apply (loading_same w w (ANewEntry cm nodeID text)); try done.
    + constructor; [|done]. constructor. by exists nodeID, text, config0.
    + intros id. simpl omap. rewrite Hn. by intros ->%list_elem_of_singleton.
  - apply (loading_same w _ (ANewEntry cm nodeID text)); try done.
    + intros l' Hl'. simpl. apply lookup_insert_is_Some'. by right.
    + intros l' cs'. simpl. rewrite lookup_insert. case_decide; [|done].
      subst l'. intros _ Hnew. destruct (map_ok _ Hw _ _ Hm) as (cs1 & Hcs1 & Hid).
      destruct (n_alone _ _ _ _ (l_new _ _ Hl l cs1 Hcs1 Hnew)). rewrite Hid.
      simpl. simpl in Hn. rewrite Hn. by left.
    + constructor; [|done]. constructor. by exists nodeID, text, config0.
    + intros id. simpl omap. rewrite Hn. by intros ->%list_elem_of_singleton.
Qed.

(** A new store for a node of its own. *)
Lemma distinct_insert h l cs :
  distinct h → (∀ l' cs', h !! l' = Some cs' → new l' → ID (cs_Config cs') ≠ ID (cs_Config cs)) →
  distinct (<[l := cs]> h).
Proof.
  intros Hd Hne l1 l2 cs1 cs2.
  destruct (decide (l = l1)) as [<-|], (decide (l = l2)) as [<-|];
    rewrite ?lookup_insert_eq, ?lookup_insert_ne by done; [done| | |by apply Hd].
  - intros [= <-] Hl2 _ N2 E. by destruct (Hne l2 cs2 Hl2 N2).
  - intros Hl1 [= <-] N1 _ E. by destruct (Hne l1 cs1 Hl1 N1).
Qed.

Lemma loading_build `{MapOrder} now rnd config w w' l al :
  sane w → loading w (ABuild config :: al) →
  buildEntry app ca now rnd k config w = (w', Ok l) →
  loading w' (left_by w' (Some [ARegister (ID config) l]) ++ al).
Proof.
  intros (Hw & _ & Hsp) [Ha Hn Hh Hm Hs Hd Ho] Eb.
  apply buildEntry_Ok in Eb as (c' & m' & cs & sp & Hsr & Hid & Enew & -> & ->).
  pose proof (New_frame _ _ _ _ _ _ _ _ _ _ Enew) as (Hcfg & _ & Hrun & _ & _ & Hf).
  destruct (New_published _ _ _ _ _ _ _ _ Enew) as [Hpub Hsps].
  pose proof (Progress.New_spawns _ _ _ _ _ _ _ _ _ _ Enew) as Hspawn.
  apply Forall_cons in Ha as [Hab Ha]. inversion Hab as [|? Hentry| | |]; subst.
  set (l := fresh (dom (w_heap w))).
  assert (w_heap w !! l = None) as Hfresh by (apply not_elem_of_dom, is_fresh).
  assert (new l) as Hnewl.
  { apply eq_None_not_Some. intros Hsome. apply Hh in Hsome as [? E]. congruence. }
  assert (grows (w_mem w) m') as Hg by (intros t Ht; by apply Hf in Ht as (? & ? & _)).
  simpl in Hn. apply NoDup_cons in Hn as [Hnin Hn].
  assert (left_by (allocStore m' cs sp w).1 (Some [ARegister (ID config) l])
    = ARegister (ID config) l :: concat (map spawned_thread (map (pair l) sp))) as El.
  { unfold left_by. simpl. by rewrite Hsp. }
  simpl snd. fold l. rewrite El. constructor; simpl.
  - constructor; [by constructor|]. apply Forall_app. split; [|done].
    destruct Hspawn as [-> | ->]; repeat constructor; done.
  - by rewrite omap_app, spawned_idle.
  - intros l' Hl'. apply lookup_insert_is_Some'. right. by apply Hh.
  - done.
  - intros l' cs'. rewrite lookup_insert. case_decide as Hd'.
    + subst l'. intros [= <-] _. constructor; simpl; [done| | | |done|].
      * exists config. by split.
      * by rewrite Hid, omap_app, spawned_idle.
      * right. rewrite Hid. by left.
      * destruct Hsps as [|Hs1]; [by left|right; left]. exists "new endpoints".
        rewrite Hs1. right. by left.
    + intros Hl' Hnew. apply (new_store_keep w _ (ABuild config :: al)); simpl; auto.
      * eapply published_grows; [done|by apply (heap_ok _ Hw l')|].
        exact (n_published _ _ _ _ (Hs l' cs' Hl' Hnew)).
      * intros id. rewrite omap_app, spawned_idle by done. by right.
      * intros [E|Hin]%elem_of_cons; [done|]. right. right. apply elem_of_app. by right.
      * intros reason [E|Hin]%elem_of_cons; [done|]. right. apply elem_of_app. by right.
  - apply distinct_insert; [done|]. intros l' cs' Hl' Hnew E.
    destruct (n_alone _ _ _ _ (Hs l' cs' Hl' Hnew)). rewrite E, Hid. by left.
  - intros id Hid'. apply Ho. intros l' cs' Hl' Hnew. apply (Hid' l' cs'); [|done].
    fold l. rewrite lookup_insert_ne; [done|]. intros <-. congruence.
Qed.

Lemma loading_register w id l al :
  action_ok w (ARegister id l) → loading w (ARegister id l :: al) →
  loading (registerStore id l w) al.
Proof.
  intros (cs & Hl & Hid) [Ha Hn Hh Hm Hs Hd Ho].
  apply Forall_cons in Ha as [Hal Ha]. inversion Hal as [| |? ? Hnew| |]; subst.
  constructor; simpl; try done.
  - intros key l'. rewrite lookup_insert. case_decide; [intros [= <-]; by right|apply Hm].
  - intros l' cs' Hl' Hnew'. specialize (Hs l' cs' Hl' Hnew').
    apply (new_store_keep w _ (ARegister (ID (cs_Config cs)) l :: al)); simpl; try done; [apply Hs|..].
    + intros Hr. destruct (decide (ID (cs_Config cs) = ID (cs_Config cs'))) as [E|E].
      * rewrite <-E, (Hd l l' cs cs') by done. by rewrite lookup_insert_eq.
      * by rewrite lookup_insert_ne.
    + intros [[= <- ->]|Hin]%elem_of_cons; [left; by rewrite lookup_insert_eq|by right].
    + intros reason [|]%elem_of_cons; done.
Qed.

(** A push that is done is no longer needed once it is in the cache. *)
Lemma loading_push w l reason al cs cs' n' c' :
  world_ok w → loading w (APush l reason :: al) → w_heap w !! l = Some cs →
  Push uuids (w_draws w) cs (w_cache w) = Some (cs', n', c') →
  loading (set_draws n' (set_cache c' (set_store l cs' w))) al.
Proof.
  intros Hw [Ha Hn Hh Hm Hs Hd Ho] Hl Ep.
  apply Forall_cons in Ha as [Hal Ha]. inversion Hal as [| | |? ? Hnew|]; subst.
  destruct (Convergence.push_sets uuids uuids_ne new_ok set_ok _ _ _ _ _ _ Ep)
    as (v & snap & -> & Hv & Hset & Hne).
  pose proof (Hs l cs Hl Hnew) as Hsl. constructor; simpl; try done.
  - intros l' Hl'. apply lookup_insert_is_Some'. right. by apply Hh.
  - intros l' cs'. rewrite lookup_insert. case_decide as Hd'.
    + subst l'. intros [= <-] _. destruct Hsl as [Hr Hc Hal' Hreg Hp _].
      constructor; simpl; try done.
      * destruct Hreg as [|[|]%elem_of_cons]; [by left|done|by right].
      * right; right. by exists snap.
    + intros Hl' Hnew'. specialize (Hs l' cs' Hl' Hnew').
      apply (new_store_keep w _ (APush l reason :: al)); simpl; try done; [apply Hs|..].
      * intros [|]%elem_of_cons; [done|by right].
      * intros r [[= ->]|]%elem_of_cons; done.
      * apply Hne. intros E. apply Hd'. by apply (Hd l l' cs cs').
  - intros l1 l2 cs1 cs2. rewrite !lookup_insert.
    destruct (decide (l = l1)) as [<-|], (decide (l = l2)) as [<-|]; [done|..].
    + intros [= <-] Hl2 N1 N2 E. by apply (Hd l l2 cs cs2).
    + intros Hl1 [= <-] N1 N2 E. by apply (Hd l1 l cs1 cs).
    + by apply Hd.
  - intros id Hid. assert (ID (cs_Config cs) ≠ id) as Hcs.
    { apply (Hid l (with_Version v cs)); [by rewrite lookup_insert_eq|done]. }
    rewrite (Hne id Hcs). apply Ho. intros l' cs' Hl' Hnew'.
    destruct (decide (l = l')) as [<-|]; [by simplify_eq|].
    apply (Hid l' cs'); [by rewrite lookup_insert_ne|done].
Qed.

(** A push without a store has nothing to do. *)
Lemma loading_push_none w l reason al :
  loading w (APush l reason :: al) → w_heap w !! l = None → loading w al.
Proof.
  intros [Ha Hn Hh Hm Hs Hd Ho] Hl. apply Forall_cons in Ha as [_ Ha]. constructor; try done.
  intros l' cs' Hl' Hnew'. pose proof (Hs l' cs' Hl' Hnew') as Hs'.
  apply (new_store_keep w w (APush l reason :: al)); try done; [apply Hs'|..].
  - intros [|]%elem_of_cons; [done|by right].
  - intros r [[= -> _]|]%elem_of_cons; [congruence|done].
Qed.

Lemma exec_entry `{MapOrder} now rnd nodeID text w :
  exec app ca uuids now rnd k (ANewEntry cm nodeID text) w =
  match Config.ParseConfigYaml nodeID text with
  | Ok config0 => Ok (stopExisting (ID (prepareConfig cm nodeID config0)) w,
                      Some [ABuild (prepareConfig cm nodeID config0)])
  | Err _ => Ok (w, None)
  | Crash why => Crash why
  end.
Proof. reflexivity. Qed.

Lemma loading_exec `{MapOrder} now rnd a w w' pre al :
  sane w → action_ok w a → loading w (a :: al) →
  exec app ca uuids now rnd k a w = Ok (w', pre) → loading w' (left_by w' pre ++ al).
Proof.
  intros Hsane Hok Hl E. pose proof Hsane as (Hw & _ & Hsp).
  pose proof (l_actions _ _ Hl) as [Ha _]%Forall_cons.
  assert (∀ w1, w_spawned w1 = [] → left_by w1 (Some []) = [] ∧ left_by w1 None = []) as Hnil.
  { intros w1 E1. unfold left_by. by rewrite E1. }
  destruct Ha as [nodeID text Hin|config He|id l Hnew|l reason Hnew|s].
  - rewrite exec_entry in E.
    destruct (Config.ParseConfigYaml nodeID text) as [config0|e|why] eqn:Ep; [| |done].
    + pose proof (loading_entry w nodeID text config0 al Hw Hl Ep) as Hl'.
      assert (left_by (stopExisting (ID (prepareConfig cm nodeID config0)) w)
        (Some [ABuild (prepareConfig cm nodeID config0)])
        = [ABuild (prepareConfig cm nodeID config0)]) as El.
      { unfold left_by. by rewrite Progress.stopExisting_spawned, Hsp. }
      rewrite <-El in Hl'. by injection E as <- <-.
    + injection E as <- <-.
      rewrite (proj2 (Hnil w Hsp)). by eapply loading_done; [|exact Hl].
  - simpl in E. destruct (buildEntry app ca now rnd k config w) as [w1 r] eqn:Eb.
    destruct r as [l|e|why]; [| |done]; injection E as <- <-; [by eapply loading_build|].
    apply buildEntry_fail in Eb as ->; [|done].
    rewrite (proj2 (Hnil w Hsp)). by eapply loading_done; [|exact Hl].
  - injection E as <- <-. rewrite (proj1 (Hnil (registerStore id l w) Hsp)).
    by apply loading_register.
  - simpl in E. destruct (w_heap w !! l) as [cs|] eqn:Hcs.
    + destruct (Progress.push_ends uuids (w_draws w) cs (w_cache w)) as (cs' & n' & c' & Ep).
      rewrite Ep in E. injection E as <- <-.
      match goal with |- loading ?W _ => rewrite (proj1 (Hnil W Hsp)) end.
      by eapply loading_push.
    + injection E as <- <-. rewrite (proj1 (Hnil w Hsp)). by eapply loading_push_none.
  - injection E as <- <-. rewrite (proj1 (Hnil w Hsp)).
    by eapply loading_done; [|exact Hl].
Qed.

(** ** The process *)

Lemma loading_scheduled w al :
  loading w al →
  loading (mkWorld (w_mem w) (w_heap w) (StoreMap w) (w_cache w) (w_draws w) []) al.
Proof.
  intros [Ha Hn Hh Hm Hs Hd Ho]. constructor; try done.
  intros l cs Hl Hnew. destruct (Hs l cs Hl Hnew). by constructor.
Qed.

(** Only the first action of a goroutine is a push or a registration. *)
Definition shape (t : thread) : Prop := Forall idle_action (tail t).

Record handling (p : Process) : Prop := {
  h_loading : loading (p_world p) (concat (p_threads p));
  h_shape : Forall shape (p_threads p) }.

(** What a goroutine goes on with has its shape. *)
Lemma exec_shape `{MapOrder} now rnd a w w' pre rest :
  load_action a → exec app ca uuids now rnd k a w = Ok (w', pre) → Forall idle_action rest →
  shape (from_option (λ acts, acts ++ rest) [] pre).
Proof.
  intros Ha E Hr. assert (shape rest) as Hrest by (unfold shape; destruct Hr; [constructor|done]).
  destruct Ha as [nodeID text Hin|config He|id l Hnew|l reason Hnew|s]; simpl in E.
  - destruct (Config.ParseConfigYaml _ _); [| |done]; injection E as <- <-; [exact Hr|constructor].
  - destruct (buildEntry _ _ _ _ _ _ _) as [w1 []]; [| |done]; injection E as <- <-;
      [exact Hr|constructor].
  - by injection E as <- <-.
  - destruct (w_heap w !! l) as [cs|]; [|by injection E as <- <-].
    destruct (Push _ _ _ _) as [[[]]|]; injection E as <- <-; [done|exact Hr].
  - by injection E as <- <-.
Qed.

Lemma run_handling c p p' :
  (∀ id, GetSnapshot c id = None) → reachable app ca uuids c p → handling p →
  run app ca uuids k p p' → handling p'.
Proof.
  intros Hc Hr [Hl Hsh] [order now rnd ts1 a rest ts2 w' pre Et Ex]. rewrite Et in Hl, Hsh.
  pose proof (Convergence.reachable_sane app ca uuids uuids_ne new_ok set_ok c p Hc Hr) as Hsane.
  pose proof (proj2 (reachable_ok app ca uuids c p Hr)) as Hok. rewrite Et in Hok.
  apply Forall_app in Hok as [_ [[Hok _]%Forall_cons _]%Forall_cons].
  apply Forall_app in Hsh as [Hsh1 [Hsha Hsh2]%Forall_cons].
  assert (loading (p_world p) (a :: (rest ++ concat ts1 ++ concat ts2))) as Hl1.
  { eapply loading_perm; [|exact Hl]. rewrite concat_app. simpl. solve_Permutation. }
  pose proof (l_actions _ _ Hl1) as [Ha _]%Forall_cons.
  pose proof (loading_exec now rnd a _ w' pre _ Hsane Hok Hl1 Ex) as Hl2.
  constructor; simpl.
  - apply loading_scheduled. rewrite !concat_app. simpl.
    destruct pre as [acts|]; unfold left_by in Hl2; simpl in Hl2 |- *.
    + eapply loading_perm; [|exact Hl2]. solve_Permutation.
    + apply (loading_drop _ rest); [exact Hsha|].
      eapply loading_perm; [|exact Hl2]. solve_Permutation.
  - rewrite !Forall_app, Forall_cons. split_and!; [done|by eapply exec_shape|done|].
    apply Forall_fmap, Forall_true. intros [l [reason|]]; constructor.
Qed.

(** ** Every entry *)

(** What an entry needs to become a store: it parses, its resources decode, and a
    certificate can be made for it. *)
Definition loadable (nodeID text : string) : Prop :=
  ∃ config0 config', Config.ParseConfigYaml nodeID text = Ok config0 ∧
    Config.SaveResources app (prepareConfig cm nodeID config0) = Ok config' ∧
    ∀ now rnd, is_ok (Utils.NewSecrets app ca now rnd (Name config') (Validation config')) = true.

(** A new store has the configuration. *)
Definition built (w : World) (config : ConfigType) : Prop :=
  ∃ l cs, w_heap w !! l = Some cs ∧ new l ∧ Config.SaveResources app config = Ok (cs_Config cs).

(** An entry waits, is about to be built, or has its store. *)
Definition accounted (w : World) (al : list Action) (nodeID text : string) : Prop :=
  ANewEntry cm nodeID text ∈ al ∨
  ∃ config0, Config.ParseConfigYaml nodeID text = Ok config0 ∧
    (ABuild (prepareConfig cm nodeID config0) ∈ al ∨ built w (prepareConfig cm nodeID config0)).

Lemma accounted_mono w w' al al' nodeID text :
  heap_le w w' → (∀ a, a ∈ al → a ∈ al') → accounted w al nodeID text → accounted w' al' nodeID text.
Proof.
  intros Hle Hal [Hin|(config0 & Hp & [Hin|(l & cs & Hl & Hn & Hs)])]; [by left; auto|right..].
  - exists config0. auto.
  - exists config0. split; [done|]. right. destruct (Hle l cs Hl) as (cs' & Hl' & E).
    exists l, cs'. by rewrite E.
Qed.

(** Building fails only for want of resources or of a certificate. *)
Lemma buildEntry_loadable `{MapOrder} now rnd config config' w w' e :
  Config.SaveResources app config = Ok config' →
  (∀ now rnd, is_ok (Utils.NewSecrets app ca now rnd (Name config') (Validation config')) = true) →
  buildEntry app ca now rnd k config w ≠ (w', Err e).
Proof.
  unfold buildEntry. intros -> Hss. simpl. unfold New.
  specialize (Hss now rnd).
  assert (∀ m1 ce, (cs1 ← wrap "error in LoadNewSecrets" (LoadNewSecrets app ca now rnd
      (mkConfigStore "" config' ce None None [] false));
      Ok (saveLastEndpoints app k m1 cs1)) ≠ Err e) as Hl.
  { intros m1 ce. unfold LoadNewSecrets. simpl.
    by destruct (Utils.NewSecrets _ _ _ _ _ _). }
  destruct (getConfigEndpoints (w_mem w) config') as [[m1 ce]|e1|why]; simpl; [| |done].
  - specialize (Hl m1 ce). unfold LoadNewSecrets in *. simpl in *.
    destruct (Utils.NewSecrets _ _ _ _ _ _); [simpl|done..].
    by destruct (saveLastEndpoints _ _ _ _) as [[]].
  - specialize (Hl (w_mem w) ∅). unfold LoadNewSecrets in *. simpl in *.
    destruct (Utils.NewSecrets _ _ _ _ _ _); [simpl|done..].
    by destruct (saveLastEndpoints _ _ _ _) as [[]].
Qed.

(** What is built is new. *)
Lemma build_built `{MapOrder} now rnd config w w' l :
  (∀ l, is_Some (w_heap w0 !! l) → is_Some (w_heap w !! l)) →
  buildEntry app ca now rnd k config w = (w', Ok l) → built w' config.
Proof.
  intros Hold Eb. apply buildEntry_Ok in Eb as (c1 & m' & cs & sp & Hs & _ & Hn & -> & ->).
  apply New_frame in Hn as (Hcfg & _).
  exists (allocStore m' cs sp w).2, cs. split_and!; [apply alloc_lookup| |by rewrite Hcfg].
  apply eq_None_not_Some. intros [cs' Hcs']%Hold.
  apply (elem_of_dom_2 (D := gset nat)) in Hcs'. by apply is_fresh in Hcs'.
Qed.

(** With loadable entries nothing is dropped, and every entry stays accounted
    for. *)
Lemma accounted_exec `{MapOrder} now rnd a w w' pre al :
  world_ok w → (∀ l, is_Some (w_heap w0 !! l) → is_Some (w_heap w !! l)) →
  (∀ n t, default ∅ (cm_Data cm) !! n = Some t → loadable n t) →
  heap_le w w' → load_action a → exec app ca uuids now rnd k a w = Ok (w', pre) →
  is_Some pre ∧
  ∀ n t, accounted w (a :: al) n t → accounted w' (default [] pre ++ al) n t.
Proof.
  intros Hw Hnew Hload Hle Ha E.
  assert (∀ pre', (∀ n t, a ≠ ANewEntry cm n t) → (∀ c, a ≠ ABuild c) →
    ∀ n t, accounted w (a :: al) n t → accounted w' (pre' ++ al) n t) as Hother.
  { intros pre' H1' H2' n t [[E1|Hin]%elem_of_cons|(c0 & Hp & [[E1|Hin]%elem_of_cons|Hb])];
      try (by destruct (H1' n t)); try (by destruct (H2' (prepareConfig cm n c0)));
      (apply (accounted_mono w w' al); [done|set_solver|]); [by left|right..]; eauto. }
  destruct Ha as [nodeID text Hin|config He|id l Hnl|l reason Hnl|s].
  - destruct (Hload _ _ Hin) as (config0 & config' & Hp & Hs & _).
    rewrite exec_entry, Hp in E. injection E as <- <-. split; [by eexists|].
    intros n t [[[= -> ->]|Hn]%elem_of_cons|Hr].
    + right. exists config0. split; [done|]. left. by left.
    + apply (accounted_mono w _ al); [done|set_solver|by left].
    + apply (accounted_mono w _ al); [done|set_solver|right].
      destruct Hr as (c & Hc & [[|]%elem_of_cons|]); [done|eauto..].
  - destruct He as (nodeID & text & config0 & Hin & Hp & ->).
    destruct (Hload _ _ Hin) as (config1 & config' & Hp1 & Hs & Hss).
    rewrite Hp in Hp1. injection Hp1 as <-.
    simpl in E. destruct (buildEntry app ca now rnd k _ w) as [w1 r] eqn:Eb.
    destruct r as [l|e|why]; [|by destruct (buildEntry_loadable _ _ _ _ _ _ _ Hs Hss Eb)|done].
    injection E as <- <-. split; [by eexists|].
    pose proof (build_built now rnd _ w w1 l Hnew Eb) as Hb.
    intros n t [[|Hn']%elem_of_cons|(c & Hc & [[Eq|Hn']%elem_of_cons|Hr])]; [done|..].
    + apply (accounted_mono w _ al); [done|set_solver|by left].
    + right. exists c. split; [done|]. right.
      assert (prepareConfig cm n c = prepareConfig cm nodeID config0) as -> by congruence. exact Hb.
    + apply (accounted_mono w _ al); [done|set_solver|right; eauto].
    + apply (accounted_mono w _ al); [done|set_solver|right; eauto].
  - injection E as <- <-. split; [by eexists|]. by apply (Hother []).
  - split; [|by apply Hother]. simpl in E.
    destruct (w_heap w !! l) as [cs|]; [|by injection E as <- <-; eexists].
    destruct (Push _ _ _ _) as [[[]]|]; injection E as <- <-; by eexists.
  - injection E as <- <-. split; [by eexists|]. by apply (Hother []).
Qed.

Definition all_accounted (p : Process) : Prop :=
  ∀ n t, default ∅ (cm_Data cm) !! n = Some t →
    accounted (p_world p) (concat (p_threads p)) n t.

Lemma run_accounted c p p' :
  (∀ id, GetSnapshot c id = None) → reachable app ca uuids c p → handling p →
  (∀ n t, default ∅ (cm_Data cm) !! n = Some t → loadable n t) →
  run app ca uuids k p p' → all_accounted p → all_accounted p'.
Proof.
  intros Hc Hr [Hl Hsh] Hload [order now rnd ts1 a rest ts2 w' pre Et Ex] Hacc n t Hn.
  pose proof (Hacc n t Hn) as Hn'. rewrite Et in Hl, Hn'.
  pose proof (Convergence.reachable_sane app ca uuids uuids_ne new_ok set_ok c p Hc Hr) as (Hw & _).
  pose proof (proj2 (reachable_ok app ca uuids c p Hr)) as Hok. rewrite Et in Hok.
  apply Forall_app in Hok as [_ [[Hok _]%Forall_cons _]%Forall_cons].
  destruct (exec_ok app ca uuids _ _ _ _ _ _ _ _ Hw Hok Ex) as (_ & Hle & _).
  pose proof (l_actions _ _ Hl) as Hal. rewrite Forall_concat in Hal.
  apply Forall_app in Hal as [_ [[Ha _]%Forall_cons _]%Forall_cons].
  destruct (accounted_exec now rnd a (p_world p) w' pre (rest ++ concat ts1 ++ concat ts2)
    Hw (l_heap _ _ Hl) Hload Hle Ha Ex) as [[acts ->] Hkeep].
  assert (heap_le w' (p_world (schedule_spawned w' (ts1 ++ (acts ++ rest) :: ts2)))) as Hsame
    by (intros l cs Hl'; by exists cs).
  eapply (accounted_mono w' _ _ _ _ _ Hsame); [|apply Hkeep; eapply accounted_mono; [done| |exact Hn']].
  - simpl. intros b. rewrite !concat_app. simpl. rewrite !elem_of_app. tauto.
  - intros b. rewrite concat_app. simpl. rewrite elem_of_cons, !elem_of_app, elem_of_cons, elem_of_app. tauto.
Qed.

(** The states of the handling. *)
Lemma handling_states `{MapOrder} c p p' :
  (∀ id, GetSnapshot c id = None) → reachable app ca uuids c p → handling p →
  rtc (run app ca uuids k) p p' → reachable app ca uuids c p' ∧ handling p'.
Proof.
  intros Hc Hr Hh Hrun. induction Hrun as [|p p1 p2 H1' _ IH]; [done|]. apply IH.
  - eapply rtc_r; [exact Hr|by eapply step_run].
  - by eapply run_handling.
Qed.

Lemma states_accounted `{MapOrder} c p p' :
  (∀ id, GetSnapshot c id = None) → reachable app ca uuids c p → handling p →
  (∀ n t, default ∅ (cm_Data cm) !! n = Some t → loadable n t) → all_accounted p →
  rtc (run app ca uuids k) p p' → all_accounted p'.
Proof.
  intros Hc Hr Hh Hload Ha Hrun. induction Hrun as [|p p1 p2 H1' _ IH]; [done|]. apply IH.
  - eapply rtc_r; [exact Hr|by eapply step_run].
  - by eapply run_handling.
  - by eapply run_accounted.
Qed.

End arrival.

(** The ConfigMap has arrived: its handler is about to run. *)
Definition arrived `{XdsCache} (p : Process) (t : thread) : Process :=
  mkProcess (p_world p) ((t ++ [AEnd SConfigMaps]) :: p_threads p).

(** No two entries are for the same node. *)
Definition distinct_nodes `{ConfigParser} (cm : ConfigMap) : Prop :=
  ∀ n1 n2 t1 t2 c1 c2,
    default ∅ (cm_Data cm) !! n1 = Some t1 → default ∅ (cm_Data cm) !! n2 = Some t2 →
    Config.ParseConfigYaml n1 t1 = Ok c1 → Config.ParseConfigYaml n2 t2 = Ok c2 →
    ID (prepareConfig cm n1 c1) = ID (prepareConfig cm n2 c2) → n1 = n2.

(** ** The property *)

Lemma omap_map {A B C} (f : B → option C) (g : A → B) (l : list A) :
  omap f (map g l) = omap (λ x, f (g x)) l.
Proof. induction l as [|x l IH]; simpl; [done|]. destruct (f (g x)); [by f_equal|done]. Qed.

(** What a partial function picks from a list without repetitions, when no two
    elements give the same. *)
Lemma NoDup_omap {A B C} (key : A → C) (f : A → option B) (l : list A) :
  NoDup (map key l) →
  (∀ x y b, x ∈ l → y ∈ l → f x = Some b → f y = Some b → key x = key y) → NoDup (omap f l).
Proof.
  induction l as [|x l IH]; simpl; [constructor|]. intros [Hnin Hnd]%NoDup_cons Hinj.
  assert (NoDup (omap f l)) as Hl by (apply IH; [done|]; intros; eapply Hinj; eauto; by right).
  destruct (f x) as [b|] eqn:Hx; [|done]. constructor; [|done].
  intros (y & Hy & Hfy)%list_elem_of_omap. apply Hnin.
  rewrite (Hinj x y b) by (done || by left || by right).
  by apply list_elem_of_fmap_2.
Qed.

Section arrival_theorem.
Context `{Codec} `{ConfigParser} `{Crypto} `{XdsCache} `{GoRuntime}.
Variable app : Type_.
Variable k : KubeCache.
Variable cm : ConfigMap.
Variable ca : Certs.CA.
Variable uuids : nat → string.
Context `{!XdsCacheLaws} `{!Inj (=) (=) uuids}.
Hypothesis uuids_ne : ∀ i, uuids i ≠ "".
Hypothesis new_ok : ∀ v r, is_ok (NewSnapshot v r) = true.
Hypothesis set_ok : ∀ id s c, (SetSnapshot id s c).2 = None.

Lemma arrived_step (order : MapOrder) p t :
  quiescent p → on_new_config app cm = Ok t → step app ca uuids p (arrived p t).
Proof.
  intros Hq Ht. eapply step_new_config; [|exact Ht]. unfold idle.
  apply negb_true_iff, not_true_iff_false.
  intros (t' & Ht'%list_elem_of_In & Hb)%existsb_exists. unfold quiescent in Hq.
  rewrite Forall_forall in Hq. by rewrite (Hq t' Ht') in Hb.
Qed.

Lemma arrived_handling (order : MapOrder) p t :
  quiescent p → on_new_config app cm = Ok t → distinct_nodes cm →
  handling app k cm (p_world p) (arrived p t).
Proof.
  intros Hq Ht Hdis. unfold on_new_config in Ht.
  assert (Forall (λ t, t = []) (p_threads p)) as Hq' by exact Hq.
  set (data := default ∅ (cm_Data cm)) in *.
  assert (∃ l, t = map (λ nt, ANewEntry cm nt.1 nt.2) l ∧ NoDup l.*1 ∧
    ∀ nt, nt ∈ l → data !! nt.1 = Some nt.2) as (l & -> & Hnd & Hin).
  { destruct (checkConfigMapLabels app cm) as [[]| |]; [| |done..]; injection Ht as <-.
    - exists (range_order data). split_and!; [done|apply NoDup_range|].
      intros [n x] Hnt. by apply elem_of_range.
    - exists []. split_and!; [done|constructor|by intros ? ?%elem_of_nil]. }
  constructor.
  - simpl. rewrite (Progress.quiescent_actions p Hq), app_nil_r. constructor; try done.
    + apply Forall_app. split; [|repeat constructor].
      apply Forall_fmap, Forall_forall. intros [n x] Hnt. constructor. by apply (Hin (n, x)).
    + rewrite omap_app. simpl. rewrite app_nil_r.
      rewrite omap_map. apply (NoDup_omap fst); [exact Hnd|].
      intros [n1 x1] [n2 x2] id H1' H2'. simpl.
      destruct (Config.ParseConfigYaml n1 x1) as [c1| |] eqn:E1; [|done..].
      destruct (Config.ParseConfigYaml n2 x2) as [c2| |] eqn:E2; [|done..].
      intros [= <-] [= E]. eapply Hdis; [exact (Hin _ H1')|exact (Hin _ H2')|done..].
    + by left.
    + intros l' cs Hl' Hnew. unfold new in Hnew. congruence.
    + intros l1 l2 cs1 cs2 Hl1 _ Hn1. unfold new in Hn1. congruence.
  - simpl. constructor; [|by eapply Forall_impl; [exact Hq'|]; intros ? ->; constructor].
    unfold shape. destruct l as [|nt l]; simpl; [constructor|].
    apply Forall_app. split; [|repeat constructor]. by apply Forall_fmap, Forall_true.
Qed.

(** Every entry waits when the handler of a selected ConfigMap starts. *)
Lemma arrived_accounted (order : MapOrder) p t :
  checkConfigMapLabels app cm = Ok true → on_new_config app cm = Ok t →
  all_accounted app cm (p_world p) (arrived p t).
Proof.
  unfold on_new_config. intros -> [= <-] n x Hn. left. simpl. rewrite elem_of_app. left.
  apply elem_of_app. left. apply list_elem_of_fmap. exists (n, x). split; [done|].
  by apply elem_of_range.
Qed.

(** C10: a ConfigMap that arrives gets its nodes served.  It arrives while nothing
    else is going on, its entries are for different nodes and the cluster does not
    change; then whatever the interleaving, when everything that was started has
    ended: if the ConfigMap is selected and all its entries can be loaded, every
    entry has a new store with its configuration; every new store comes from one
    of the entries, is running and registered under its node, and, when its
    endpoints can be determined, the cache serves its node exactly the desired
    clusters and its certificate; and the snapshot of every node that has not got
    a new store is the one it had. *)
Theorem config_arrives (order : MapOrder) c p t p' :
  (∀ id, GetSnapshot c id = None) → reachable app ca uuids c p → quiescent p →
  on_new_config app cm = Ok t → distinct_nodes cm →
  rtc (run app ca uuids k) (arrived p t) p' → quiescent p' →
  (checkConfigMapLabels app cm = Ok true →
   (∀ nodeID text, default ∅ (cm_Data cm) !! nodeID = Some text → loadable app cm ca nodeID text) →
   ∀ nodeID text, default ∅ (cm_Data cm) !! nodeID = Some text →
     ∃ config0 l cs, Config.ParseConfigYaml nodeID text = Ok config0 ∧
       w_heap (p_world p') !! l = Some cs ∧ w_heap (p_world p) !! l = None ∧
       Config.SaveResources app (prepareConfig cm nodeID config0) = Ok (cs_Config cs)) ∧
  (∀ l cs, w_heap (p_world p') !! l = Some cs → w_heap (p_world p) !! l = None →
     isStoped cs = false ∧ StoreMap (p_world p') !! ID (cs_Config cs) = Some l ∧
     (∃ nodeID text config0, default ∅ (cm_Data cm) !! nodeID = Some text ∧
        Config.ParseConfigYaml nodeID text = Ok config0 ∧
        Config.SaveResources app (prepareConfig cm nodeID config0) = Ok (cs_Config cs)) ∧
     ∀ g, desired app k (w_mem (p_world p')) cs = Some g →
       ∃ ep snap, publishes (w_mem (p_world p')) ep g ∧
         GetSnapshot (w_cache (p_world p')) (ID (cs_Config cs)) = Some snap ∧
         NewSnapshot (Version cs) (Utils.snapshotResources (cs_Config cs) ep (cs_secrets cs))
           = Ok snap) ∧
  (∀ key, StoreMap (p_world p') !! key = StoreMap (p_world p) !! key →
     GetSnapshot (w_cache (p_world p')) key = GetSnapshot (w_cache (p_world p)) key).
Proof.
  intros Hc Hr Hq Ht Hdis Hrun Hq'.
  assert (reachable app ca uuids c (arrived p t)) as Hr0
    by (eapply rtc_r; [exact Hr|by apply (arrived_step order)]).
  pose proof (arrived_handling order p t Hq Ht Hdis) as Hh0.
  destruct (handling_states app k cm (p_world p) ca uuids uuids_ne new_ok set_ok c _ p'
    Hc Hr0 Hh0 Hrun) as [Hr' [Hl _]].
  rewrite (Progress.quiescent_actions p' Hq') in Hl.
  assert (∀ l cs, w_heap (p_world p') !! l = Some cs → new (p_world p) l →
    StoreMap (p_world p') !! ID (cs_Config cs) = Some l) as Hreg.
  { intros l cs Hcs Hnew. destruct (l_new _ _ _ _ _ _ Hl l cs Hcs Hnew) as [_ _ _ [|Hin] _ _];
      [done|by apply elem_of_nil in Hin]. }
  split_and!.
  - intros Hsel Hload nodeID text Hn.
    pose proof (states_accounted app k cm (p_world p) ca uuids uuids_ne new_ok set_ok c _ p'
      Hc Hr0 Hh0 Hload (arrived_accounted order p t Hsel Ht) Hrun nodeID text Hn) as Hacc.
    unfold accounted in Hacc. rewrite (Progress.quiescent_actions p' Hq') in Hacc.
    destruct Hacc as [[]%elem_of_nil|(config0 & Hp & [[]%elem_of_nil|(l & cs & Hl' & Hn' & Hs)])].
    by exists config0, l, cs.
  - intros l cs Hcs Hnew. destruct (l_new _ _ _ _ _ _ Hl l cs Hcs Hnew)
      as [Hst (config & (nodeID & text & config0 & Hin & Hp & ->) & Hsr) _ _ Hpub Hpu].
    split_and!; [done|by apply Hreg|by eauto 10|]. intros g Hg.
    destruct (Hpub g Hg) as (_ & ep & Hep & Hpubs & _).
    destruct Hpu as [Hn|[(reason & Hin')|(snap & Hs & Hv)]];
      [congruence|by apply elem_of_nil in Hin'|].
    exists ep, snap. split_and!; [done..|].
    assert (¬ pushing l (p_threads p')) as Hnp.
    { intros (t' & Ht' & reason & Hh)%Exists_exists. unfold quiescent in Hq'.
      rewrite Forall_forall in Hq'. by rewrite (Hq' t' Ht') in Hh. }
    pose proof (recorded_served app ca uuids uuids_ne c p' l cs snap Hc Hr' Hcs Hs Hv Hnp) as Hrec.
    unfold recorded in Hrec. by rewrite Hep in Hrec.
  - intros key Hkey. apply (l_others _ _ _ _ _ _ Hl). intros l cs Hcs Hnew <-.
    rewrite (Hreg l cs Hcs Hnew) in Hkey. symmetry in Hkey.
    destruct (map_ok _ (proj1 (reachable_ok app ca uuids c p Hr)) _ _ Hkey) as (cs' & Hcs' & _).
    unfold new in Hnew. congruence.
Qed.

End arrival_theorem.

(** ** A run *)

Import Samples SystemExamples.

#[local] Existing Instances codec crypto xds parser runtime_doubling map_order_std xds_laws.

(** Two entries. *)
Definition cm_two : ConfigMap :=
  mkConfigMap "cm" "ns" {["app" := "envoy-control-plane"]} None
    (Some (<["n" := "n;web;;"]> {["m" := "m;web;;"]})).

(** The handler, and in between the pushes of the stores. *)
Definition two_loads : list nat := [0; 0; 0; 0; 0; 1; 0; 0; 2]%nat.

(** What every store is checked for in the end. *)
Definition serves (p' : Process) (cs : ConfigStore) : Prop :=
  Convergence.target app k1 (w_mem (p_world p')) cs = Some ["web|unknown|0|10.0.0.1|80|0"].

#[local] Instance serves_dec p' cs : Decision (serves p' cs).
Proof. unfold serves. apply _. Defined.

Lemma two_run :
  match on_new_config app cm_two with
  | Ok t => match moves (map (λ i, MRun i k1) two_loads) (arrived (initial ∅) t) with
            | Some p' => bool_decide (quiescent p') &&
                bool_decide (map_Forall (λ _, serves p') (w_heap (p_world p')))
            | None => false
            end
  | _ => false
  end = true.
Proof. vm_compute. reflexivity. Qed.

Lemma cm_two_entries n t :
  default ∅ (cm_Data cm_two) !! n = Some t → n = "n" ∧ t = "n;web;;" ∨ n = "m" ∧ t = "m;web;;".
Proof.
  simpl. rewrite lookup_insert. case_decide as Hn; [intros [= <-]; by left|].
  intros [<- <-]%lookup_singleton_Some. by right.
Qed.

Lemma cm_two_distinct : distinct_nodes cm_two.
Proof.
  intros n1 n2 t1 t2 c1 c2 [[-> ->]|[-> ->]]%cm_two_entries [[-> ->]|[-> ->]]%cm_two_entries H1 H2;
    [done|..|done]; vm_compute in H1, H2; injection H1 as <-; injection H2 as <-; vm_compute; done.
Qed.

Lemma cm_two_loadable n t :
  default ∅ (cm_Data cm_two) !! n = Some t → loadable app cm_two ca n t.
Proof.
  intros [[-> ->]|[-> ->]]%cm_two_entries; (eexists _, _; split; [reflexivity|]; split; [reflexivity|]);
    intros now rnd; unfold Utils.NewSecrets;
    destruct (@ApiTheorems.issuing_succeeds crypto (λ _, eq_refl) created_parses (λ _, eq_refl)) as [_ Hi];
    match goal with |- context [Certs.NewCertificate ?ca [?name] ?d ?now ?rnd] =>
      destruct (Hi ca name [] d now rnd) as (x1 & x2 & x3 & x4 & ->) end; reflexivity.
Qed.

(** Every entry has its store, which is registered and served. *)
Lemma config_arrives_witness :
  ∃ t p', on_new_config app cm_two = Ok t ∧
    rtc (run app ca uuids k1) (arrived (initial ∅) t) p' ∧
    ∀ n, n ∈ ["n"; "m"] → ∃ l cs snap ep g,
      w_heap (p_world p') !! l = Some cs ∧ isStoped cs = false ∧
      StoreMap (p_world p') !! ID (cs_Config cs) = Some l ∧
      desired app k1 (w_mem (p_world p')) cs = Some g ∧ publishes (w_mem (p_world p')) ep g ∧
      GetSnapshot (w_cache (p_world p')) (ID (cs_Config cs)) = Some snap ∧
      NewSnapshot (Version cs) (Utils.snapshotResources (cs_Config cs) ep (cs_secrets cs)) = Ok snap.
Proof.
  pose proof two_run as Hrun.
  destruct (on_new_config app cm_two) as [t|e|why] eqn:Et; [|discriminate Hrun..].
  destruct (moves (map (λ i, MRun i k1) two_loads) (arrived (initial ∅) t)) as [p'|] eqn:Ep;
    [|discriminate Hrun].
  apply andb_true_iff in Hrun as [Hq Hs].
  apply bool_decide_eq_true in Hq. apply bool_decide_eq_true in Hs.
  pose proof (moves_runs _ _ _ _ Ep) as Hrt.
  destruct (config_arrives app k1 cm_two ca uuids uuids_not_empty Convergence.sample_new
    Convergence.sample_set map_order_std ∅ (initial ∅) t p' empty_cache (rtc_refl _ _)
    (Forall_nil_2 _) Et cm_two_distinct Hrt Hq) as (Hev & Hall & _).
  exists t, p'. split; [reflexivity|]. split; [exact Hrt|].
  intros n Hn.
  assert (∃ text, default ∅ (cm_Data cm_two) !! n = Some text) as [text Hin].
  { repeat (apply elem_of_cons in Hn as [->|Hn]; [eexists; reflexivity|]). by apply elem_of_nil in Hn. }
  destruct (Hev eq_refl cm_two_loadable n text Hin) as (config0 & l & cs & _ & Hl & Hnew & _).
  destruct (Hall l cs Hl Hnew) as (Hst & Hm & _ & Hserved).
  assert (∃ g, desired app k1 (w_mem (p_world p')) cs = Some g) as [g Hg].
  { pose proof (Hs l cs Hl) as Hg. unfold serves, Convergence.target in Hg.
    destruct (desired app k1 (w_mem (p_world p')) cs) as [g|]; [by exists g|discriminate Hg]. }
  destruct (Hserved g Hg) as (ep & snap & Hp & Hsnap & Hn').
  exists l, cs, snap, ep, g. split_and!; assumption.
Defined.

End Arrival.
