(* ===== verification/CliTheorems.v ===== *)
(** * cmd/cli: theorems

    Waiting ends exactly when the control plane becomes ready; an Envoy is shut
    down only after it was drained; the zone the command prints is the one the
    control plane finds for the pod that asks; whom the client trusts. *)

From stdpp Require Import options.
From S2P Require Import Prelude.
From S2P Require Import GoStd.
From S2P Require Import GoUrl.
From S2P Require Import GoSlice.
From S2P Require Import Envoy.
From S2P Require Import AppConfig.
From S2P Require Import Resources.
From S2P Require Import Config.
From S2P Require Import Api.
From S2P Require Import Certs.
From S2P Require Import Utils.
From S2P Require Import ConfigStore.
From S2P Require Import ConfigMapsStore.
From S2P Require Import Web.
From S2P Require Import ApiTheorems.
From S2P Require Import Gencerts.
From S2P Require Import TrustTheorems.
From S2P Require Import WebServer.
From S2P Require Import Cli.
From Stdlib Require Import ZArith.

Module CliTheorems.

Import AppConfig Cli.

Section command.
Context `{CryptoTls}.
Variable ReadFile : string → res string.
Variable url_error : string → option error.
Variable Do : list Event → ClientConfig → HttpRequest → Reply.

(** ** Waiting *)

Definition ready_request (f : Flags) : HttpRequest := mkHttpRequest "GET" (ready_url f) "" "".

(** One round of the loop that did not end it. *)
Definition round (f : Flags) (cfg : ClientConfig) : list Event :=
  [ESend cfg (ready_request f); ESleep (1 * Second)].

Definition rounds (f : Flags) (cfg : ClientConfig) (n : nat) : list Event :=
  concat (replicate n (round f cfg)).

(** The reply to the request after [n] rounds. *)
Definition attempt (f : Flags) (cfg : ClientConfig) (t : list Event) (n : nat) : Reply :=
  Do (t ++ rounds f cfg n) cfg (ready_request f).

Definition ready (r : Reply) : bool :=
  match r with RResp code _ => (code =? 200)%N | RErr _ => false end.

Definition responded (r : Reply) : bool := match r with RResp _ _ => true | RErr _ => false end.

Lemma rounds_S f cfg n : rounds f cfg (S n) = round f cfg ++ rounds f cfg n.
Proof. done. Qed.

Lemma close_bodies_spec n t :
  close_bodies n t = Returns _ () (t ++ replicate n ECloseBody).
Proof.
  revert t. induction n as [|n IH]; intros t; simpl; [by rewrite app_nil_r|].
  unfold mbind, M_bind, emit. by rewrite IH, <-app_assoc.
Qed.

Lemma attempt_S f cfg t n : attempt f cfg (t ++ round f cfg) n = attempt f cfg t (S n).
Proof. unfold attempt. by rewrite <-app_assoc, <-rounds_S. Qed.

(** How many of the attempts [from], .., [from + n - 1] got a response. *)
Definition responses (f : Flags) (cfg : ClientConfig) (t : list Event) (from n : nat) : nat :=
  length (List.filter (λ i, responded (attempt f cfg t i)) (seq from n)).

Lemma responses_shift f cfg t n :
  responses f cfg (t ++ round f cfg) 0 n = responses f cfg t 1 n.
Proof.
  unfold responses. rewrite <-seq_shift. induction (seq 0 n) as [|i l IH]; [done|].
  cbn [map List.filter]. rewrite attempt_S. destruct (responded _); simpl; congruence.
Qed.

Lemma responses_S f cfg t n :
  responses f cfg t 0 (S n)
    = ((if responded (attempt f cfg t 0) then 1 else 0) + responses f cfg t 1 n)%nat.
Proof. unfold responses. cbn [seq List.filter]. by destruct (responded _). Qed.

Lemma attempt_0 f cfg t : attempt f cfg t 0 = Do t cfg (ready_request f).
Proof. unfold attempt. simpl. by rewrite app_nil_r. Qed.

(** One round that does not end the loop. *)
Lemma waitForAPI_round f cfg t fuel opened :
  url_error (ready_url f) = None → ready (attempt f cfg t 0) = false →
  waitForAPI url_error Do (S fuel) f cfg opened t
    = waitForAPI url_error Do fuel f cfg
        (if responded (attempt f cfg t 0) then S opened else opened) (t ++ round f cfg).
Proof.
  intros Hu. rewrite attempt_0. simpl. rewrite Hu.
  unfold mbind, M_bind, cli_Do, emit. change (mkHttpRequest _ _ _ _) with (ready_request f).
  destruct (Do t cfg (ready_request f)) as [e|code b]; simpl; [|intros ->];
    by rewrite <-app_assoc.
Qed.

(** The loop, by the first attempt that is answered with the status OK. *)
Lemma waitForAPI_ready f cfg n t fuel opened :
  url_error (ready_url f) = None →
  (∀ i, (i < n)%nat → ready (attempt f cfg t i) = false) → ready (attempt f cfg t n) = true →
  (n < fuel)%nat →
  waitForAPI url_error Do fuel f cfg opened t
    = Returns _ () (t ++ rounds f cfg n ++ [ESend cfg (ready_request f)] ++
        replicate (opened + responses f cfg t 0 (S n)) ECloseBody).
Proof.
  intros Hu. revert t fuel opened. induction n as [|n IH]; intros t fuel opened Hf Hr Hn;
    (destruct fuel as [|fuel]; [lia|]); rewrite responses_S.
  - rewrite attempt_0 in *. simpl. rewrite Hu.
    unfold mbind, M_bind, cli_Do. change (mkHttpRequest _ _ _ _) with (ready_request f).
    destruct (Do t cfg (ready_request f)) as [|code b]; [done|]. simpl in *. rewrite Hr.
    setoid_rewrite (close_bodies_spec (S opened)). rewrite Nat.add_1_r.
    by rewrite <-app_assoc.
  - rewrite waitForAPI_round by (done || apply Hf; lia).
    rewrite IH; [|intros i Hi; rewrite attempt_S; apply Hf; lia|by rewrite attempt_S|lia].
    rewrite responses_shift, rounds_S, <-!app_assoc.
    destruct (responded _); [|done].
    by rewrite (Nat.add_assoc opened 1), (Nat.add_comm opened 1).
Qed.

Lemma waitForAPI_never f cfg t fuel opened :
  url_error (ready_url f) = None →
  (∀ i, (i < fuel)%nat → ready (attempt f cfg t i) = false) →
  waitForAPI url_error Do fuel f cfg opened t = Loops _ (t ++ rounds f cfg fuel).
Proof.
  intros Hu. revert t opened. induction fuel as [|fuel IH]; intros t opened Hf.
  - simpl. by rewrite app_nil_r.
  - rewrite waitForAPI_round by (done || apply Hf; lia).
    rewrite IH by (intros i Hi; rewrite attempt_S; apply Hf; lia).
    by rewrite rounds_S, app_assoc.
Qed.

(** The first number below a bound that satisfies a test, if there is one. *)
Lemma first_below (p : nat → bool) n :
  (∃ m, (m < n)%nat ∧ p m = true ∧ ∀ i, (i < m)%nat → p i = false) ∨
  (∀ i, (i < n)%nat → p i = false).
Proof.
  induction n as [|n [(m & ? & ? & ?)|IH]]; [by right; lia|left; exists m; split_and!; done || lia|].
  destruct (p n) eqn:E.
  - left. exists n. by split_and!; [lia|..].
  - right. intros i Hi. destruct (decide (i = n)) as [->|]; [done|]. apply IH. lia.
Qed.

(** C26: with an address that parses, the command waits exactly until the control
    plane is ready: the loop ends if and only if some attempt is answered with the
    status OK, whatever the other answers and failures are; it ends with the first
    such attempt, has slept one second after each of the others, and closes the
    body of every response it got - none of them before the loop ends. *)
Theorem waitForAPI_terminates f cfg t :
  url_error (ready_url f) = None →
  ((∃ fuel t', waitForAPI url_error Do fuel f cfg 0 t = Returns _ () t') ↔
   ∃ n, ready (attempt f cfg t n) = true) ∧
  (∀ n fuel, ready (attempt f cfg t n) = true →
   (∀ i, (i < n)%nat → ready (attempt f cfg t i) = false) → (n < fuel)%nat →
   waitForAPI url_error Do fuel f cfg 0 t
     = Returns _ () (t ++ rounds f cfg n ++ [ESend cfg (ready_request f)] ++
         replicate (responses f cfg t 0 (S n)) ECloseBody)) ∧
  (∀ fuel, (∀ i, (i < fuel)%nat → ready (attempt f cfg t i) = false) →
   waitForAPI url_error Do fuel f cfg 0 t = Loops _ (t ++ rounds f cfg fuel)).
Proof.
  intros Hu. split_and!.
  - split.
    + intros (fuel & t' & E).
      destruct (first_below (λ i, ready (attempt f cfg t i)) fuel) as [(m & _ & Hm & _)|Hn];
        [by exists m|]. by rewrite waitForAPI_never in E.
    + intros [n Hn].
      destruct (first_below (λ i, ready (attempt f cfg t i)) (S n)) as [(m & _ & Hm & Hf)|Hf].
      * exists (S m). eexists. eapply waitForAPI_ready; [done..|lia].
      * rewrite Hf in Hn by lia. done.
  - intros n fuel Hn Hf Hl. by apply waitForAPI_ready.
  - intros fuel Hf. by apply waitForAPI_never.
Qed.

(** ** Draining *)

Definition trace_of {A} (r : Exit A) : list Event :=
  match r with
  | Returns _ _ t | Fatal _ _ t | Panics _ _ t | Loops _ t => t
  end.

Definition admin_request (f : Flags) (path : string) : HttpRequest :=
  mkHttpRequest "POST" (admin_url f path) "" "".

(** Envoy answered, with any status. *)
Definition answered (f : Flags) (cfg : ClientConfig) (t : list Event) (path : string) : Prop :=
  ∃ code body, Do t cfg (admin_request f path) = RResp code (inl body).

Definition admin_exchange (f : Flags) (cfg : ClientConfig) (path : string) : list Event :=
  [ESend cfg (admin_request f path); ECloseBody].

Lemma requestEnvoyAdmin_spec f cfg path t :
  (requestEnvoyAdmin url_error Do f cfg path t = Returns _ () (t ++ admin_exchange f cfg path) ∧
   answered f cfg t path) ∨
  (∃ e tl, requestEnvoyAdmin url_error Do f cfg path t = Fatal _ e (t ++ tl) ∧
     (tl = [] ∨ tl = [ESend cfg (admin_request f path)])).
Proof.
  unfold requestEnvoyAdmin, new_request, exchange, answered, mbind, M_bind, cli_Do.
  destruct (url_error _) as [e|]; [right; exists e, []; rewrite app_nil_r; auto|].
  simpl. change (mkHttpRequest _ _ _ _) with (admin_request f path).
  destruct (Do t cfg (admin_request f path)) as [e|code [b|e]]; [by eauto 8| |by eauto 8].
  left. unfold emit. simpl. rewrite <-app_assoc. eauto.
Qed.

(** What a drain does when nothing fails. *)
Definition drained (f : Flags) (cfg : ClientConfig) : list Event :=
  admin_exchange f cfg "/drain_listeners?graceful" ++
  admin_exchange f cfg "/healthcheck/fail" ++ [ESleep (timeout f)].

Lemma drain_spec f cfg t :
  (∃ e tl, drain url_error Do f cfg t = Fatal _ e (t ++ tl) ∧
     tl `prefix_of` drained f cfg ++ [ESend cfg (admin_request f "/quitquitquit")] ∧
     (length (drained f cfg) ≤ length tl →
      answered f cfg t "/drain_listeners?graceful" ∧
      answered f cfg (t ++ admin_exchange f cfg "/drain_listeners?graceful")
        "/healthcheck/fail")%nat) ∨
  (drain url_error Do f cfg t
     = Returns _ () (t ++ drained f cfg ++ admin_exchange f cfg "/quitquitquit") ∧
   answered f cfg t "/drain_listeners?graceful" ∧
   answered f cfg (t ++ admin_exchange f cfg "/drain_listeners?graceful") "/healthcheck/fail").
Proof.
  unfold drain. unfold mbind, M_bind.
  destruct (requestEnvoyAdmin_spec f cfg "/drain_listeners?graceful" t)
    as [[-> H1]|(e & tl & -> & Ht)].
  2:{ left. exists e, tl. split; [done|]. unfold drained, admin_exchange.
      destruct Ht as [->| ->]; simpl; split; try lia; [by apply prefix_nil|].
      by apply prefix_cons, prefix_nil. }
  destruct (requestEnvoyAdmin_spec f cfg "/healthcheck/fail"
    (t ++ admin_exchange f cfg "/drain_listeners?graceful")) as [[-> H2]|(e & tl & -> & Ht)].
  2:{ left. rewrite <-app_assoc. do 2 eexists. split; [done|]. unfold drained, admin_exchange.
      destruct Ht as [->| ->]; simpl; split; try lia; repeat apply prefix_cons; apply prefix_nil. }
  unfold emit.
  match goal with |- context [requestEnvoyAdmin _ _ _ _ "/quitquitquit" ?t'] =>
    destruct (requestEnvoyAdmin_spec f cfg "/quitquitquit" t') as [[-> _]|(e & tl & -> & Ht)]
  end.
  - right. unfold drained. by rewrite <-!app_assoc.
  - left. rewrite <-!app_assoc. do 2 eexists. split; [done|]. unfold drained, admin_exchange.
    destruct Ht as [->| ->]; simpl; (split; [|done]); repeat apply prefix_cons; apply prefix_nil.
Qed.

(** Preparing the client sends nothing. *)
Lemma new_client_trace f t : trace_of (new_client ReadFile f t) = t.
Proof.
  unfold new_client, mbind, M_bind.
  destruct (tlsInsecure f), (0 <? String.length (tlsCA f))%nat,
    (0 <? String.length (tlsClientCrt f))%nat; simpl;
    destruct (LoadX509KeyPair ReadFile (tlsClientCrt f) (tlsClientKey f)), (ReadFile (tlsCA f)); done.
Qed.

Lemma new_client_Returns f t cfg t' : new_client ReadFile f t = Returns _ cfg t' → t' = t.
Proof. intros E. pose proof (new_client_trace f t) as Ht. by rewrite E in Ht. Qed.

Lemma quit_not_drained f cfg : ESend cfg (admin_request f "/quitquitquit") ∉ drained f cfg.
Proof.
  unfold drained, admin_exchange, admin_request, admin_url. intros Hin.
  repeat (apply elem_of_cons in Hin as [[=E]|Hin]); [..|by apply elem_of_nil in Hin];
    by apply (inj _) in E.
Qed.

(** C28: an Envoy is shut down only after it was drained: the effects of the
    command are a beginning of one fixed sequence - drain the listeners, fail the
    health check, sleep for the whole timeout, shut down - so the shutdown is
    asked for only when Envoy has answered both requests and the timeout is over;
    the command succeeds exactly when the sequence is complete, and otherwise
    ends with an error. *)
Theorem drain_correct fuel f cfg :
  envoyLogLevel f = "" → drainEnvoy f = true → new_client ReadFile f [] = Returns _ cfg [] →
  let r := main ReadFile url_error Do fuel f [] in
  let complete := drained f cfg ++ admin_exchange f cfg "/quitquitquit" in
  trace_of r `prefix_of` complete ∧
  (ESend cfg (admin_request f "/quitquitquit") ∈ trace_of r →
   answered f cfg [] "/drain_listeners?graceful" ∧
   answered f cfg (admin_exchange f cfg "/drain_listeners?graceful") "/healthcheck/fail") ∧
  (r = Returns _ () complete ∨ ∃ e, r = Fatal _ e (trace_of r)).
Proof.
  intros Hl Hd Hc r complete.
  assert (r = drain url_error Do f cfg []) as ->.
  { unfold r, main. unfold mbind at 1, M_bind at 1. by rewrite Hc, Hl, Hd. }
  destruct (drain_spec f cfg []) as [(e & tl & -> & Hp & Ha)|(-> & Ha)]; simpl trace_of;
    rewrite ?app_nil_l in *; simpl app.
  - split_and!; [|intros Hin|right; by exists e].
    + etrans; [done|]. apply prefix_app, prefix_cons, prefix_nil.
    + apply Ha. destruct Hp as [k Hp]. destruct (decide (length (drained f cfg) ≤ length tl)%nat)
        as [|Hlt]; [done|]. exfalso. apply (quit_not_drained f cfg).
      assert (tl = take (length tl) (drained f cfg)) as E.
      { rewrite <-(take_app_le _ [ESend cfg (admin_request f "/quitquitquit")]) by lia.
        by rewrite Hp, take_app_length. }
      rewrite E in Hin. by apply elem_of_take in Hin as (i & ? & _); eapply list_elem_of_lookup_2.
  - split_and!; [done|by intros|by left].
Qed.

(** ** Asking for the zone *)

(** The request a server reads from a form post. *)
Definition form_request (path body : string) : Web.Request :=
  let '(values, err) := GoUrl.ParseForm body "" in
  Web.mkRequest "POST" path None err (omap head values).

(** The control plane gets the form posts of the client and answers them;
    redirects, which the client would follow, are left open. *)
Definition reaches (f : Flags) (cfg : ClientConfig) (answer : Web.Request → Web.Response) : Prop :=
  ∀ t body, let r := answer (form_request (action f) body) in
    Web.Location r = "" →
    Do t cfg (mkHttpRequest "POST" (requestURL f) GoUrl.FormContentType body)
      = RResp (Web.status r) (inl (Web.body r)).

Lemma ParseForm_form f :
  (N.of_nat (String.length (GoUrl.Encode (form f))) ≤ GoUrl.maxFormSize)%N →
  GoUrl.ParseForm (GoUrl.Encode (form f)) "" = (form f, None).
Proof.
  intros Hl. unfold GoUrl.ParseForm. rewrite (proj2 (N.ltb_ge _ _)) by done.
  rewrite GoUrl.ParseQuery_Encode.
  - simpl. by rewrite (right_id_L ∅ _).
  - intros k. unfold form. rewrite !lookup_insert. by repeat case_decide.
Qed.

(** What the server reads of the form the command sends. *)
Lemma form_request_form f path :
  (N.of_nat (String.length (GoUrl.Encode (form f))) ≤ GoUrl.maxFormSize)%N →
  form_request path (GoUrl.Encode (form f))
    = Web.mkRequest "POST" path None None (<["namespace" := namespace f]> {["pod" := pod f]}).
Proof.
  intros Hl. unfold form_request. rewrite ParseForm_form by done.
  by vm_compute.
Qed.

End command.

Section zone.
Context `{CryptoTls} `{Codec} `{XdsCache}.
Variable ReadFile : string → res string.
Variable url_error : string → option error.
Variable Do : list Event → ClientConfig → HttpRequest → Reply.
Variable app : Type_.
Variable ca : Certs.CA.
Variable Marshal : Web.Payload → res string.
Variable ParseDuration : string → Z + error.
Variable getPod : string → string → res Pod.
Variable getNode : string → res Node.
Variable version : Web.APIVersion.
Variable external : Web.Handler → Web.Request → Web.Response.

Lemma serve_zone `{MapOrder} now rnd w r :
  Web.r_Method r = "POST" → Web.r_Path r = "/api/zone" →
  Web.serve app ca Marshal ParseDuration getPod getNode version external now rnd w false r
    = Web.serveZone app getPod getNode r.
Proof.
  intros Hm Hp. unfold Web.serve, Web.auth. rewrite Hp. simpl.
  unfold Web.ServeHTTP.
  assert (Web.dispatch (Web.GetHandler false) r = Web.DHandler Web.handlerZone) as ->; [|done].
  unfold Web.dispatch. by rewrite Hm, Hp.
Qed.

(** C27: the zone the command prints is the zone the control plane finds for the
    pod that asks: with the action /api/zone, a namespace and a pod, whatever
    bytes they consist of, the form survives the way to the server, so that once
    the server is ready - or without waiting - the command prints exactly
    [GetZoneByPodName] of its namespace and pod and succeeds. *)
Theorem zone_roundtrip `{MapOrder} fuel f cfg t now rnd w :
  let serve :=
    Web.serve app ca Marshal ParseDuration getPod getNode version external now rnd w false in
  envoyLogLevel f = "" → drainEnvoy f = false → action f = "/api/zone" →
  namespace f ≠ "" → pod f ≠ "" →
  (N.of_nat (String.length (GoUrl.Encode (form f))) ≤ GoUrl.maxFormSize)%N →
  new_client ReadFile f [] = Returns _ cfg [] →
  (if wait f then waitForAPI url_error Do fuel f cfg 0 [] = Returns _ () t else t = []) →
  url_error (requestURL f) = None → reaches Do f cfg serve →
  main ReadFile url_error Do fuel f []
    = Returns _ () (t ++ [ESend cfg (mkHttpRequest "POST" (requestURL f) GoUrl.FormContentType
                             (GoUrl.Encode (form f)));
        ECloseBody; EStdout (Api.GetZoneByPodName app getPod getNode (namespace f) (pod f))]).
Proof.
  intros serve Hl Hd Ha Hn Hp Hs Hc Hw Hu Hr.
  assert (main ReadFile url_error Do fuel f [] = ask url_error Do f cfg t) as ->.
  { unfold main. unfold mbind at 1, M_bind at 1. rewrite Hc, Hl, Hd. simpl.
    rewrite !GoStrings.length_eqb_0, !bool_decide_eq_false_2 by done.
    unfold mbind, M_bind. destruct (wait f); [by rewrite Hw|by subst]. }
  set (body := GoUrl.Encode (form f)) in *.
  assert (serve (form_request (action f) body)
    = Web.reply 200 "" (Api.GetZoneByPodName app getPod getNode (namespace f) (pod f))) as Hz.
  { unfold serve. rewrite Ha. unfold body. rewrite form_request_form by done.
    rewrite serve_zone by done. unfold Web.serveZone, Web.FormGet. simpl.
    rewrite lookup_insert_eq, lookup_insert_ne, lookup_singleton_eq by done. done. }
  specialize (Hr t body). cbv zeta in Hr. rewrite Hz in Hr. specialize (Hr eq_refl).
  unfold ask, new_request. rewrite Hu. unfold exchange, mbind, M_bind, mret, M_ret, cli_Do, emit.
  fold body. rewrite Hr. simpl. by rewrite <-!app_assoc.
Qed.

End zone.

(** ** Whom the client trusts *)

Section trust.
Context `{CryptoTls}.

(** Whether the handshake with a server [host] that presents [served] succeeds at
    [t], as far as the client decides it. *)
Definition trusts (cfg : ClientConfig) (host : string) (served : Certificate) (t : Z) : Prop :=
  InsecureSkipVerify cfg = true ∨
  (host ∈ DNSNames (cert_Template served) ∧
   ∃ root, root ∈ RootCAs cfg ∧ Certs.verifies root served t).

(** The settings of a client that verifies. *)
Lemma new_client_RootCAs ReadFile f t cfg :
  tlsInsecure f = false → new_client ReadFile f t = Returns _ cfg t →
  InsecureSkipVerify cfg = false ∧
  RootCAs cfg = if (0 <? String.length (tlsCA f))%nat
                then match ReadFile (tlsCA f) with Ok pem => AppendCertsFromPEM pem | _ => [] end
                else [].
Proof.
  intros Hi. unfold new_client, mbind, M_bind, mret, M_ret. rewrite Hi.
  destruct (0 <? String.length (tlsCA f))%nat, (0 <? String.length (tlsClientCrt f))%nat; simpl;
    destruct (LoadX509KeyPair ReadFile (tlsClientCrt f) (tlsClientKey f)), (ReadFile (tlsCA f));
    intros E; by simplify_eq/=.
Qed.

(** The TLS server starts with the certificate it generates. *)
Lemma StartTLS_Ok `{!CryptoLaws} `{!CryptoTlsLaws} app ca now rnd c pem k kpem :
  Certs.NewCertificate ca [AppName] Certs.CertValidityYear now rnd = Ok (c, pem, k, kpem) →
  ∃ srv, WebServer.StartTLS app ca now rnd = Ok srv ∧
    WebServer.TLSCertificate srv = Some (c, k).
Proof.
  unfold WebServer.StartTLS. intros E. rewrite E.
  pose proof E as (b & kb & -> & Hb & -> & Hk)%ApiTheorems.GenServerCert_pem.
  apply Certs.GenServerCert_Ok in E as (_ & _ & _ & Hp & _). simpl.
  rewrite (x509_key_pair b c kb k) by done. by eexists.
Qed.

Lemma StartTLS_served `{!CryptoLaws} `{!CryptoTlsLaws} app ca now rnd srv :
  WebServer.StartTLS app ca now rnd = Ok srv →
  ∃ served k, WebServer.TLSCertificate srv = Some (served, k) ∧
    cert_SignedBy served = Public (Certs.caKey ca) ∧
    cert_Issuer served = Subject (cert_Template (Certs.caCert ca)) ∧
    cert_Template served
      = x509_encoded (Certs.serverTemplate now AppName [AppName] Certs.CertValidityYear).
Proof.
  intros Hs.
  destruct (Certs.NewCertificate ca [AppName] Certs.CertValidityYear now rnd)
    as [[[[c pem] k] kpem]|e|why] eqn:E;
    [|unfold WebServer.StartTLS in Hs; by rewrite E in Hs..].
  destruct (StartTLS_Ok app _ _ _ _ _ _ _ E) as (srv' & Hs' & Hk).
  rewrite Hs in Hs'. injection Hs' as <-.
  apply Certs.GenServerCert_Ok in E as (name & [= <-] & Ht & Hpub & Hsb & Hi). eauto 10.
Qed.

(** C31: the command trusts the control plane through the CA file: with the CA of
    the server in that file, and the server addressed by the application's name,
    as by default, the handshake with the certificate [StartTLS] made succeeds
    for the year it is valid, while the CA is, both to the second; without a CA file nothing is
    trusted but everything when verification is turned off - the system's
    authorities are never used. *)
Theorem client_trust `{!CryptoLaws} `{!CryptoTlsLaws} app ReadFile now rnd ca app' t1 r1 srv
    readFile f cfg :
  SSLCrt app = "" → Certs.Init app ReadFile now rnd = Ok ca →
  WebServer.StartTLS app' ca t1 r1 = Ok srv →
  new_client readFile f [] = Returns _ cfg [] →
  ∃ served k, WebServer.TLSCertificate srv = Some (served, k) ∧
    (tlsInsecure f = false → tlsCA f ≠ "" → readFile (tlsCA f) = Ok (Certs.caCertBytes ca) →
     RootCAs cfg = [Certs.caCert ca] ∧
     (server f = AppName → ∀ t,
       (now ≤ t ≤ whole_seconds (now + Certs.CertValidityMax) ∧
        t1 ≤ t ≤ whole_seconds (t1 + Certs.CertValidityYear))%Z →
       trusts cfg (server f) served t)) ∧
    (tlsInsecure f = false → tlsCA f = "" → ∀ host c t, ¬ trusts cfg host c t) ∧
    (tlsInsecure f = true → ∀ host c t, trusts cfg host c t).
Proof.
  intros Hcrt Hca Hs Hc.
  destruct (StartTLS_served _ _ _ _ _ Hs) as (served & k & Hk & Hsb & Hib & Ht).
  exists served, k. split_and!; [done|..].
  - intros Hi Hne Hf. destruct (new_client_RootCAs _ _ _ _ Hi Hc) as [_ Hr].
    rewrite Hf, GoStrings.length_ltb_0, bool_decide_eq_true_2 in Hr by done.
    destruct (Gencerts.Init_generated _ _ _ _ _ (or_introl Hcrt) Hca) as (k' & kb & Hg & _).
    destruct (TrustTheorems.GenCARoot_pem _ _ _ _ _ _ Hg) as (b & Hb & Hp).
    rewrite Hb, (append_certs b (Certs.caCert ca)) in Hr by done. split; [done|].
    intros Hn t Hw. right. rewrite Ht, Hn. split; [by left|].
    exists (Certs.caCert ca). rewrite Hr. split; [by left|].
    eapply TrustTheorems.verifies_generated; [done|exact Hca|lia|done|done|by rewrite Ht|].
    unfold Certs.in_window. rewrite Ht. simpl.
    pose proof (Certs.whole_seconds_le (t1 - 10 * Second)). unfold Second, Millisecond in *. lia.
  - intros Hi He host c t [Hf|(_ & root & Hroot & _)];
      destruct (new_client_RootCAs _ _ _ _ Hi Hc) as [Hv Hr]; [congruence|].
    rewrite He in Hr. rewrite Hr in Hroot. by apply elem_of_nil in Hroot.
  - intros Hi host c t. left. revert Hc. unfold new_client, mbind, M_bind, mret, M_ret. rewrite Hi. simpl.
    by intros [= <-].
Qed.

End trust.
End CliTheorems.
