(* ===== verification/CliExamples.v ===== *)
(** * cmd/cli: examples

    The theorems of CliTheorems at concrete flags and answers. *)

From stdpp Require Import options.
From S2P Require Import Prelude.
From S2P Require Import GoStd.
From S2P Require Import GoUrl.
From S2P Require Import GoSlice.
From S2P Require Import Envoy.
From S2P Require Import AppConfig.
From S2P Require Import Resources.
From S2P Require Import Config.
From S2P Require Import Api.
From S2P Require Import Certs.
From S2P Require Import Utils.
From S2P Require Import ConfigStore.
From S2P Require Import ConfigMapsStore.
From S2P Require Import Web.
From S2P Require Import Samples.
From S2P Require Import Gencerts.
From S2P Require Import WebServer.
From S2P Require Import Cli.
From S2P Require Import ApiTheorems.
From S2P Require Import ApiExamples.
From S2P Require Import CliTheorems.
From Stdlib Require Import ZArith.

Module CliExamples.

Import Samples AppConfig Cli CliTheorems.

#[local] Existing Instances codec crypto crypto_laws crypto_tls crypto_tls_laws xds map_order_std.

(** A pod whose name needs escaping. *)
Definition env (name : string) : string := if String.eqb name "HOSTNAME" then "web&1=?" else "default".

Definition flags : Flags :=
  let d := defaults env in
  mkFlags (action d) (namespace d) (pod d) (server d) (port d) (wait d) (envoyLogLevel d)
    (drainEnvoy d) (timeout d) (envoyAdminPort d) true "" "" "".

Definition drain_flags : Flags :=
  let d := flags in
  mkFlags (action d) (namespace d) (pod d) (server d) (port d) (wait d) (envoyLogLevel d)
    true (timeout d) (envoyAdminPort d) true "" "" "".

Definition client : ClientConfig := mkClientConfig [] [] true.

Definition no_files (_ : string) : res string := Err (New "open").
Definition no_error (_ : string) : option error := None.

(** The control plane refuses connections first, then is not ready, then is. *)
Definition third_time (t : list Event) (_ : ClientConfig) (_ : HttpRequest) : Reply :=
  match length t with
  | 0%nat => RErr (New "connection refused")
  | 2%nat => RResp 503 (inl "")
  | _ => RResp 200 (inl "ready")
  end.

Lemma waitForAPI_terminates_witness :
  waitForAPI no_error third_time 3 flags client 0 []
    = Returns _ () [ESend client (ready_request flags); ESleep Second;
        ESend client (ready_request flags); ESleep Second;
        ESend client (ready_request flags); ECloseBody; ECloseBody].
Proof.
  pose proof (proj1 (proj2 (waitForAPI_terminates no_error third_time flags client [] eq_refl))
    2%nat 3%nat) as Hw.
  etrans; [apply Hw|reflexivity].
  - reflexivity.
  - intros [|[|i]] Hi; [reflexivity..|lia].
  - lia.
Defined.

Definition answers (_ : list Event) (_ : ClientConfig) (_ : HttpRequest) : Reply :=
  RResp 200 (inl "OK").

Lemma drain_correct_witness :
  trace_of (main no_files no_error answers 0 drain_flags []) `prefix_of`
    (drained drain_flags client ++ admin_exchange drain_flags client "/quitquitquit").
Proof.
  apply (drain_correct no_files no_error answers 0 drain_flags client); reflexivity.
Defined.

(** The whole sequence. *)
Example drain_all :
  main no_files no_error answers 0 drain_flags []
    = Returns _ () (drained drain_flags client ++ admin_exchange drain_flags client "/quitquitquit").
Proof. reflexivity. Qed.

(** A cluster where the pod runs on a node of the zone eu-1. *)
Definition get_pod (namespace pod : string) : res Pod :=
  if String.eqb pod "web&1=?" then Ok (mkPod pod namespace None None "node-1" "" "Running" [])
  else Err (New "not found").
Definition get_node (_ : string) : res Node :=
  Ok (mkNode "node-1" {["topology.kubernetes.io/zone" := "eu-1"]}).

Definition no_json (_ : Web.Payload) : res string := Err (New "json").
Definition no_duration (_ : string) : Z + error := inr (New "duration").
Definition nothing_else (_ : Web.Handler) (_ : Web.Request) : Web.Response :=
  Web.reply 200 "" "".
Definition empty_world : World := mkWorld ∅ ∅ ∅ ∅ 0 [].

Definition served (r : Web.Request) : Web.Response :=
  Web.serve app ca no_json no_duration get_pod get_node
    (Web.mkAPIVersion "" "" 0 0 "" "") nothing_else 0 0 empty_world false r.

(** The control plane answers the form posts; every other request gets 200. *)
Definition network (_ : list Event) (_ : ClientConfig) (q : HttpRequest) : Reply :=
  if String.eqb (q_ContentType q) GoUrl.FormContentType
  then let r := served (form_request "/api/zone" (q_Body q)) in
       RResp (Web.status r) (inl (Web.body r))
  else RResp 200 (inl "ready").

Lemma zone_roundtrip_witness :
  main no_files no_error network 1 flags []
    = Returns _ () [ESend client (ready_request flags); ECloseBody;
        ESend client (mkHttpRequest "POST" "https://envoy-control-plane:18081/api/zone"
          "application/x-www-form-urlencoded" "namespace=default&pod=web%261%3D%3F");
        ECloseBody; EStdout "eu-1"].
Proof.
  pose proof (zone_roundtrip no_files no_error network app ca no_json no_duration get_pod get_node
    (Web.mkAPIVersion "" "" 0 0 "" "") nothing_else 1 flags client
    [ESend client (ready_request flags); ECloseBody] 0%Z 0%nat empty_world
    eq_refl eq_refl eq_refl) as Hz.
  etrans; [apply Hz|reflexivity].
  - discriminate.
  - discriminate.
  - vm_compute. discriminate.
  - reflexivity.
  - reflexivity.
  - reflexivity.
  - intros t body. reflexivity.
Defined.

(** A server with the sample library, and a client that has its CA. *)
Definition verifying_flags : Flags :=
  let d := flags in
  mkFlags (action d) (namespace d) (pod d) (server d) (port d) (wait d) (envoyLogLevel d)
    (drainEnvoy d) (timeout d) (envoyAdminPort d) false "/certs/CA.crt" "" "".

Lemma StartTLS_starts ca0 : ∃ srv, WebServer.StartTLS app ca0 5 9 = Ok srv.
Proof.
  destruct (proj2 ApiExamples.sample_issues ca0 AppName [] Certs.CertValidityYear 5%Z 9%nat)
    as (c & pem & k & kpem & E).
  destruct (StartTLS_Ok app _ _ _ _ _ _ _ E) as (srv & Hs & _). by exists srv.
Qed.

Lemma client_trust_witness :
  ∃ ca0 srv cfg served k,
    Certs.Init app (λ _, None) 0 7 = Ok ca0 ∧
    WebServer.StartTLS app ca0 5 9 = Ok srv ∧
    WebServer.TLSCertificate srv = Some (served, k) ∧ RootCAs cfg = [Certs.caCert ca0] ∧
    trusts cfg AppName served 6.
Proof.
  destruct (proj1 ApiExamples.sample_issues 0%Z 7%nat) as (root & pem & key & kpem & Er).
  assert (Certs.Init app (λ _, None) 0 7 = Ok (Certs.mkCA root pem key)) as Hi
    by exact (Gencerts.Init_default app (λ _, None) 0 7 root pem key kpem eq_refl Er).
  destruct (StartTLS_starts (Certs.mkCA root pem key)) as [srv Hs].
  pose proof (client_trust app (λ _, None) 0 7 (Certs.mkCA root pem key) app 5 9 srv
    (λ _, Ok pem) verifying_flags
    (mkClientConfig [] (AppendCertsFromPEM pem) false) eq_refl Hi Hs eq_refl) as Hm.
  destruct Hm as (served & k & Hk & Ht & _).
  destruct (Ht eq_refl ltac:(discriminate) eq_refl) as [Hr Hw].
  exists (Certs.mkCA root pem key), srv, (mkClientConfig [] (AppendCertsFromPEM pem) false),
    served, k.
  split; [exact Hi|]. split; [exact Hs|]. split; [exact Hk|]. split; [exact Hr|].
  apply (Hw eq_refl 6%Z).
  repeat split; vm_compute; discriminate.
Defined.

End CliExamples.
