(* ===== verification/Startup.v ===== *)
(** * internal.Init and the front of cmd/main

    What happens before the process starts its goroutines: the flags that only
    print or validate, and the initialisation, in which every error but one ends
    the process. *)

From stdpp Require Import options.
From S2P Require Import Prelude.
From S2P Require Import GoStd.
From S2P Require Import Envoy.
From S2P Require Import AppConfig.
From S2P Require Import Resources.
From S2P Require Import Config.
From S2P Require Import Api.
From S2P Require Import Certs.
From Stdlib Require Import ZArith.

Module Startup.

Import AppConfig.

Section startup.
Context `{Codec} `{ConfigParser} `{Crypto}.

(** Files, environment and clock. *)
Variable ReadFile : string → option string.
Variable Exists : string → bool.
Variable yaml_Unmarshal : string → Type_ → res Type_.
Variable now : Z.
Variable rnd : nat.
Variable gitVersion : string.

(** logrus and its Sentry hook: [AddHook] asks the hook for its levels, also
    when [NewHook] failed and the hook is nil. *)
Context {LogLevel_ Hook : Type} `{EqDecision LogLevel_}.
Variable DebugLevel : LogLevel_.
Variable ParseLevel : string → res LogLevel_.
Variable NewHook : string → string → res Hook.
Variable AddHook : option Hook → res unit.

(** client-go. *)
Context {RestConfig Clientset : Type}.
Variable BuildConfigFromFlags : string → res RestConfig.
Variable InClusterConfig : res RestConfig.
Variable NewForConfig : RestConfig → res Clientset.

(** The package variables after the initialisation. *)
Record Started := mkStarted {
  s_config : Type_;
  s_level : LogLevel_;
  s_pretty : bool;
  s_reportCaller : bool;
  s_hook : option Hook;
  s_client : Api.client RestConfig Clientset;
  s_ca : Certs.CA }.

(** [api.Init]; starting the factory, which has no informer yet, does nothing. *)
Definition api_Init (config : Type_) : res (Api.client RestConfig Clientset) :=
  wrap "error creating newClient"
    (Api.newClient BuildConfigFromFlags InClusterConfig NewForConfig config).

(** [internal.Init], from the settings of the flags. *)
Definition Init (flags : Type_) : res Started :=
  config ← fatal (Load ReadFile yaml_Unmarshal flags);
  logLevel ← fatal (ParseLevel (LogLevel config));
  let reportCaller := bool_decide (logLevel = DebugLevel) || LogReportCaller config in
  fatal (CheckConfig Exists config);;
  let hook := match NewHook (SentryDSN config) gitVersion with Ok h => Some h | _ => None end in
  AddHook hook;;
  client ← fatal (api_Init config);
  ca ← fatal (Certs.Init config ReadFile now rnd);
  Ok (mkStarted config logLevel (LogPretty config) reportCaller hook client ca).

(** The front of [main]: [Some] exit code, or the process goes on. *)
Definition front (app : Type_) (version : bool) (validate : string) : res (option Z) :=
  if version then Ok (Some 0%Z)
  else if negb (String.eqb validate "") then
    fatal (Config.ValidateConfig app ReadFile validate);;
    Ok (Some 0%Z)
  else Ok None.

(** ** Proofs *)

(** What a process that starts can rely on. *)
Lemma Init_Ok flags st :
  Init flags = Ok st →
  Load ReadFile yaml_Unmarshal flags = Ok (s_config st) ∧
  CheckConfig Exists (s_config st) = Ok () ∧
  Certs.Init (s_config st) ReadFile now rnd = Ok (s_ca st) ∧
  Api.newClient BuildConfigFromFlags InClusterConfig NewForConfig (s_config st)
    = Ok (s_client st).
Proof.
  unfold Init, api_Init. intros E. ok_step E as config Hc. ok_step E as level Hl.
  ok_step E as [] Hk. ok_step E as [] Ha. ok_step E as client Hcl. ok_step E as ca Hca.
  injection E as <-. apply fatal_Ok in Hc, Hk, Hcl, Hca. apply wrap_Ok in Hcl. done.
Qed.

End startup.
End Startup.
