(* ===== verification/Lifecycle.v ===== *)
(** * cmd/main: the life of the process

    main.go, [internal.Start], [RunKubeInformers] and the [Start] functions of
    pkg/web and pkg/controlplane, as goroutines with program counters.  A step
    runs one instruction of one goroutine, or is something that happens outside:
    a signal, the cache of an informer in sync.  An instruction that may fail, or
    whose outcome the outside decides, takes a choice; one that waits is blocked
    until what it waits for is there.  What goroutines do in between - events,
    requests, rounds of the periodic jobs - is the subject of System and Web and
    leaves this state as it is. *)

From stdpp Require Import options.
From stdpp Require Import functions.
From S2P Require Import Prelude.
From S2P Require Import AppConfig.
From Stdlib Require Import ZArith.

Module Lifecycle.

Import AppConfig.

Definition defaultLeaseDuration : Z := 15 * Second.
Definition defaultRenewDeadline : Z := 10 * Second.
Definition defaultRetryPeriod : Z := 2 * Second.
Definition informersSyncTime : Z := 5 * Second.

(** The two contexts: the one of [main], and the one leader election gives to
    [OnStartedLeading], which is done with the first. *)
Inductive Ctx := CMain | CLead.
Inductive Informer := INodes | IPods | IConfigMaps | IEndpoints.
Inductive Server := SHttp | STls | SGrpc.

(** The goroutines, each started at most once. *)
Inductive Name :=
  | TMain | TSignal            (* main *)
  | TElect | TStart            (* RunOrDie; OnStartedLeading *)
  | TInformer (i : Informer)   (* informer.Run *)
  | TStopCh                    (* RunKubeInformers: close(c.stopCh) *)
  | TRotate | TSync            (* schedule *)
  | TServe (s : Server)        (* web.Start, web.StartTLS, controlplane.Start *)
  | TShutdown (s : Server).    (* their goroutines that wait for ctx.Done() *)

#[global] Instance Ctx_eq_dec : EqDecision Ctx.
Proof. solve_decision. Defined.
#[global] Instance Informer_eq_dec : EqDecision Informer.
Proof. solve_decision. Defined.
#[global] Instance Server_eq_dec : EqDecision Server.
Proof. solve_decision. Defined.
#[global] Instance Name_eq_dec : EqDecision Name.
Proof. solve_decision. Defined.

Inductive Instr :=
  | IRegisterExitHandler
  | IGo (n : Name)
  | IInit                      (* internal.Init *)
  | ISetMaster (v : Z)         (* metrics.LeaderElectionIsMaster.Set *)
  | ICheckFlags                (* RunLeaderElection: the namespace and the pod *)
  | IWaitDone (c : Ctx)
  | ISleep (d : Z)
  | IExit (code : Z)
  | ISelect                    (* the interrupt, or ctx.Done() *)
  | IReceive                   (* the second interrupt *)
  | ICampaign | IRenew         (* leaderelection.RunOrDie *)
  | ICallbacks                 (* api.OnNewPod = ..., and the others *)
  | IListers                   (* podLister = ..., and the others *)
  | IAddEventHandlers
  | ISetWatchErrorHandlers
  | IWaitSync (i : Informer)
  | ICloseStopCh
  | IRunInformer (i : Informer)
  | IJob (c : Ctx)             (* for ctx.Err() == nil { ... } *)
  | IGrpcInit                  (* controlplane.Init *)
  | INewCertificate            (* web.StartTLS *)
  | IListen (s : Server)
  | IServe (s : Server)
  | IShutdown (s : Server).

#[global] Instance Instr_eq_dec : EqDecision Instr.
Proof. solve_decision. Defined.

Section process.
Variable app : Type_.

(** The context of [start]. *)
Definition ctx_start : Ctx := if LeaderElection app then CLead else CMain.

(** api/informers.go. *)
Definition RunKubeInformers : list Instr := [
  IListers; IAddEventHandlers; ISetWatchErrorHandlers;
  IGo (TInformer INodes); ISleep informersSyncTime;
  IGo (TInformer IPods); IGo (TInformer IConfigMaps); IGo (TInformer IEndpoints);
  IWaitSync IPods; IWaitSync INodes; IWaitSync IConfigMaps; IWaitSync IEndpoints;
  IGo TStopCh].

(** internal.go. *)
Definition schedule : list Instr := [IGo TRotate; IGo TSync].
Definition internal_Start : list Instr := ICallbacks :: RunKubeInformers ++ schedule.

(** main.go. *)
Definition start : list Instr :=
  internal_Start ++ [IGrpcInit; IGo (TServe SGrpc); IGo (TServe STls)].

Definition RunLeaderElection : list Instr := [ICheckFlags; IGo TElect].

(** From [signal.Notify] on. *)
Definition main : list Instr :=
  [IRegisterExitHandler; IGo TSignal; IInit; ISetMaster 0; IGo (TServe SHttp)]
  ++ (if LeaderElection app then RunLeaderElection else start)
  ++ [IWaitDone CMain; ISleep (GracePeriod app); IExit 0].

(** [OnStartedLeading]. *)
Definition OnStartedLeading : list Instr := ISetMaster 1 :: start.

Definition web_Start : list Instr := [IGo (TShutdown SHttp); IListen SHttp; IServe SHttp].
Definition web_StartTLS : list Instr :=
  [INewCertificate; IGo (TShutdown STls); IListen STls; IServe STls].
Definition controlplane_Start : list Instr :=
  [IListen SGrpc; IGo (TShutdown SGrpc); IServe SGrpc].

(** The code of each goroutine. *)
Definition code (n : Name) : list Instr :=
  match n with
  | TMain => main
  | TSignal => [ISelect; IReceive; IExit 1]
  | TElect => [ICampaign; IRenew]
  | TStart => OnStartedLeading
  | TInformer i => [IRunInformer i]
  | TStopCh => [IWaitDone ctx_start; ICloseStopCh]
  | TRotate | TSync => [IJob ctx_start]
  | TServe SHttp => web_Start
  | TServe STls => web_StartTLS
  | TServe SGrpc => controlplane_Start
  | TShutdown SHttp => [IWaitDone CMain; IShutdown SHttp]
  | TShutdown s => [IWaitDone ctx_start; IShutdown s]
  end.

(** The exit handler, which [log.Fatal] runs: cancel, sleep, exit. *)
Inductive Stage := FCancel | FSleep | FExit.

(** [log.Fatal] does not return: the goroutine stays at its instruction. *)
Inductive Status :=
  | NotStarted
  | Running (pc : nat)
  | Failing (pc : nat) (st : Stage).

Record State := mkState {
  threads : Name → Status;
  exit : option Z;
  ctx_done : bool;            (* cancel() was called *)
  lead_done : bool;           (* the lease was lost *)
  leading : bool;             (* the lease was acquired *)
  pending : bool;             (* signalChanInterrupt, of capacity one *)
  handler : bool;
  master : Z;
  callbacks : bool;
  listers : bool;
  eventHandlers : bool;
  synced : Informer → bool;
  stopCh : bool;              (* closed *)
  grpc : bool;                (* grpcServer is there *)
  listening : Server → bool;
  closed : Server → bool }.

Definition initial : State :=
  mkState (λ n, if decide (n = TMain) then Running 0 else NotStarted) None false false false
    false false 0 false false false (λ _, false) false false (λ _, false) (λ _, false).

(** ** Setters *)

Definition set_thread (n : Name) (t : Status) (s : State) : State :=
  mkState (<[n := t]> (threads s)) (exit s) (ctx_done s) (lead_done s) (leading s) (pending s)
    (handler s) (master s) (callbacks s) (listers s) (eventHandlers s) (synced s) (stopCh s)
    (grpc s) (listening s) (closed s).
Definition set_exit (c : Z) (s : State) : State :=
  mkState (threads s) (Some c) (ctx_done s) (lead_done s) (leading s) (pending s)
    (handler s) (master s) (callbacks s) (listers s) (eventHandlers s) (synced s) (stopCh s)
    (grpc s) (listening s) (closed s).
Definition cancel (s : State) : State :=
  mkState (threads s) (exit s) true (lead_done s) (leading s) (pending s)
    (handler s) (master s) (callbacks s) (listers s) (eventHandlers s) (synced s) (stopCh s)
    (grpc s) (listening s) (closed s).
Definition lose (s : State) : State :=
  mkState (threads s) (exit s) (ctx_done s) true (leading s) (pending s)
    (handler s) (master s) (callbacks s) (listers s) (eventHandlers s) (synced s) (stopCh s)
    (grpc s) (listening s) (closed s).
Definition acquire (s : State) : State :=
  mkState (threads s) (exit s) (ctx_done s) (lead_done s) true (pending s)
    (handler s) (master s) (callbacks s) (listers s) (eventHandlers s) (synced s) (stopCh s)
    (grpc s) (listening s) (closed s).
Definition set_pending (b : bool) (s : State) : State :=
  mkState (threads s) (exit s) (ctx_done s) (lead_done s) (leading s) b
    (handler s) (master s) (callbacks s) (listers s) (eventHandlers s) (synced s) (stopCh s)
    (grpc s) (listening s) (closed s).
Definition set_synced (i : Informer) (s : State) : State :=
  mkState (threads s) (exit s) (ctx_done s) (lead_done s) (leading s) (pending s)
    (handler s) (master s) (callbacks s) (listers s) (eventHandlers s) (<[i := true]> (synced s))
    (stopCh s) (grpc s) (listening s) (closed s).

(** The assignments of package variables. *)
Definition assign (i : Instr) (s : State) : State :=
  let a (h : bool) (m : Z) (c l e st g : bool) (li cl : Server → bool) :=
    mkState (threads s) (exit s) (ctx_done s) (lead_done s) (leading s) (pending s) h m c l e
      (synced s) st g li cl in
  let h := handler s in let m := master s in let c := callbacks s in let l := listers s in
  let e := eventHandlers s in let st := stopCh s in let g := grpc s in
  let li := listening s in let cl := closed s in
  match i with
  | IRegisterExitHandler => a true m c l e st g li cl
  | ISetMaster v => a h v c l e st g li cl
  | ICallbacks => a h m true l e st g li cl
  | IListers => a h m c true e st g li cl
  | IAddEventHandlers => a h m c l true st g li cl
  | ICloseStopCh => a h m c l e true g li cl
  | IGrpcInit => a h m c l e st true li cl
  | IListen srv => a h m c l e st g (<[srv := true]> li) cl
  | IShutdown srv => a h m c l e st g li (<[srv := true]> cl)
  | _ => s
  end.

Definition done (c : Ctx) (s : State) : bool :=
  match c with CMain => ctx_done s | CLead => ctx_done s || lead_done s end.

Definition started (n : Name) (s : State) : bool :=
  match threads s n with NotStarted => false | _ => true end.

(** ** Instructions *)

(** What an instruction waits for is not there; the lease, the end of a server,
    a watch error and the last stream of [GracefulStop] come from outside.
    [Shutdown] of net/http ends [ListenAndServe] before it waits for requests. *)
Definition blocked (i : Instr) (s : State) : bool :=
  match i with
  | IWaitDone c | IJob c => negb (done c s)
  | ISelect => negb (pending s || ctx_done s)
  | IReceive => negb (pending s)
  | ICampaign | IRenew => negb (ctx_done s)
  | IWaitSync j => negb (synced s j)
  | IRunInformer _ => negb (stopCh s)
  | IServe srv => negb (closed s srv)
  | IShutdown SGrpc => true
  | _ => false
  end.

Inductive Outcome :=
  | Next (s : State)            (* the next instruction *)
  | Spawn (n : Name) (s : State) (* the next one, and a new goroutine *)
  | Fatal (s : State)           (* log.Fatal *)
  | Exits (code : Z)            (* os.Exit, the end of main, or a second close *)
  | Waits.

(** The lease of [GetLeaseLock]. *)
Record LeaseLock := mkLeaseLock { lk_Name : string; lk_Namespace : string; lk_Identity : string }.
Definition GetLeaseLock (podNamespace podName : string) : LeaseLock :=
  mkLeaseLock AppName podNamespace podName.

Definition namespace_given : bool :=
  negb (String.eqb (Namespace app) "") && negb (String.eqb (PodName app) "").

(** [ok] is the choice of the outside: whether a call succeeds, which case of a
    [select] that can proceed is taken, whether the lease is acquired or lost. *)
Definition exec (ok : bool) (i : Instr) (s : State) : Outcome :=
  let when (b : bool) (o : Outcome) := if b then o else Waits in
  match i with
  | IGo n => Spawn n s
  | IInit | INewCertificate | IGrpcInit => if ok then Next (assign i s) else Fatal s
  | ICheckFlags => if namespace_given then Next s else Fatal s
  | IExit c => Exits c
  | IWaitDone c => when (done c s) (Next s)
  | IJob c =>
      (* what a round of the job asserts of its stores *)
      if ok then when (done c s) (Next s) else Fatal s
  | ISelect => if ok then when (pending s) (Next (cancel (set_pending false s)))
               else when (ctx_done s) (Next s)
  | IReceive => when (pending s) (Next (set_pending false s))
  | ICampaign => if ok then Spawn TStart (acquire s) else when (ctx_done s) (Fatal s)
  | IRenew => if ok then Fatal (lose s) else when (ctx_done s) (Fatal (lose s))
  | ISetWatchErrorHandlers =>
      (* an informer that runs refuses the handler *)
      if existsb (λ j, started (TInformer j) s) [INodes; IPods; IConfigMaps; IEndpoints]
      then Fatal s else Next s
  | IWaitSync j => when (synced s j) (Next s)
  | ICloseStopCh => if stopCh s then Exits 2 else Next (assign i s)
  | IRunInformer _ => if ok then when (stopCh s) (Next s) else Fatal s
  | IListen srv =>
      (* a server that was shut down does not listen *)
      if ok && negb (closed s srv) then Next (assign i s) else Fatal s
  | IServe SGrpc => if ok then when (closed s SGrpc) (Next s) else Fatal s
  | IServe srv =>
      (* ListenAndServe returns ErrServerClosed, which is not nil *)
      if ok then when (closed s srv) (Fatal s) else Fatal s
  | IShutdown SGrpc =>
      (* GracefulStop waits for the streams of the proxies *)
      when ok (Next (assign i s))
  | _ => Next (assign i s)
  end.

Definition apply (n : Name) (pc : nat) (o : Outcome) : option State :=
  match o with
  | Next s => Some (set_thread n (Running (S pc)) s)
  | Spawn m s => Some (set_thread m (Running 0) (set_thread n (Running (S pc)) s))
  | Fatal s => Some (if handler s then set_thread n (Failing pc FCancel) s else set_exit 1 s)
  | Exits c => None
  | Waits => None
  end.

(** One instruction of a goroutine, or of the exit handler. *)
Definition run (ok : bool) (n : Name) (s : State) : option State :=
  match threads s n with
  | NotStarted => None
  | Running pc =>
      match code n !! pc with
      | None => None
      | Some i => match exec ok i s with
                  | Exits c => Some (set_exit c s)
                  | o => apply n pc o
                  end
      end
  | Failing pc FCancel => Some (set_thread n (Failing pc FSleep) (cancel s))
  | Failing pc FSleep => Some (set_thread n (Failing pc FExit) s)
  | Failing _ FExit => Some (set_exit 1 s)
  end.

(** Where a panic can come from: the initialisation dereferences what a file may
    not contain (certs.go:111, 123: no PEM block), and so do the other calls of
    the certificates; the informers and the jobs run the handlers and the rounds
    of System, whose [outcome] may be a crash, in their own goroutine or in one
    they started, which may outlive them; grpc runs the callbacks and recovers
    nothing.  net/http recovers the panics of its handlers. *)
Definition may_panic (n : Name) (s : State) : bool :=
  match n with
  | TInformer _ | TRotate | TSync | TServe SGrpc => started n s
  | _ => match threads s n with
         | Running pc => match code n !! pc with
                         | Some (IInit | IGrpcInit | INewCertificate) => true
                         | _ => false
                         end
         | _ => false
         end
  end.

(** A panic that nobody recovers ends the process: no exit handler runs, and the
    exit code is 2. *)
Inductive panics (s : State) : State → Prop :=
  | panic n : exit s = None → may_panic n s = true → panics s (set_exit 2 s).

(** The steps of a process that has not ended. *)
Inductive step (s : State) : State → Prop :=
  | step_run ok n s' : exit s = None → run ok n s = Some s' → step s s'
  | step_signal : exit s = None → pending s = false → step s (set_pending true s)
  | step_synced i :
      exit s = None → synced s i = false → started (TInformer i) s = true →
      step s (set_synced i s)
  | step_panic s' : panics s s' → step s s'.

Definition reachable (s : State) : Prop := rtc step initial s.

(** A goroutine can go on by itself. *)
Definition enabled (n : Name) (s : State) : bool :=
  match threads s n with
  | NotStarted => false
  | Running pc => match code n !! pc with Some i => negb (blocked i s) | None => false end
  | Failing _ _ => true
  end.

End process.
End Lifecycle.
