(* ===== verification/LifecycleTheorems.v ===== *)
(** * cmd/main: theorems

    What has run before what; nothing of a controller before the lease; every run
    that is cancelled ends; the exit codes. *)

From stdpp Require Import options.
From stdpp Require Import functions.
From S2P Require Import Prelude.
From S2P Require Import AppConfig.
From S2P Require Import Lifecycle.
From Stdlib Require Import ZArith.

Module LifecycleTheorems.

Import AppConfig Lifecycle.

(** The code of the goroutines, written out. *)
Ltac unfold_code :=
  unfold Lifecycle.code, Lifecycle.main, RunLeaderElection, OnStartedLeading, web_Start,
    web_StartTLS, controlplane_Start, start, internal_Start, RunKubeInformers, schedule in *.

(** Goes through the instructions of a goroutine. *)
Ltac by_index k Hk :=
  repeat (first [discriminate Hk
                |destruct k as [|k]; simpl in Hk; [by simplify_eq/=|]]).

Section process.
Variable app : Type_.

Notation code := (code app).
Notation step := (step app).
Notation reachable := (reachable app).

(** ** What has been executed *)

(** The instructions of a goroutine before its program counter. *)
Definition reached (s : State) (n : Name) : nat :=
  match threads s n with NotStarted => 0 | Running pc | Failing pc _ => pc end.

(** The goroutines of this mode. *)
Definition live (n : Name) : bool :=
  LeaderElection app || negb (bool_decide (n ∈ [TElect; TStart])).

(** What an instruction leaves behind; [False] for those that are never passed. *)
Definition holds (i : Instr) (s : State) : Prop :=
  match i with
  | IRegisterExitHandler => handler s = true
  | IGo m => started m s = true
  | ICheckFlags => namespace_given app = true
  | IWaitDone c | IJob c => done c s = true
  | IExit _ | IRenew => False
  | ISelect => ctx_done s = true
  | ICampaign => leading s = true ∧ started TStart s = true
  | ICallbacks => callbacks s = true
  | IListers => listers s = true
  | IAddEventHandlers => eventHandlers s = true
  | IWaitSync j => synced s j = true
  | ICloseStopCh | IRunInformer _ => stopCh s = true
  | IGrpcInit => grpc s = true
  | IListen srv => listening s srv = true
  | IServe SGrpc => closed s SGrpc = true
  | IServe _ => False
  | IShutdown srv => closed s srv = true
  | ISetMaster _ | IInit | ISleep _ | IReceive | ISetWatchErrorHandlers | INewCertificate => True
  end.

(** A later state: nothing is taken back. *)
Record later (s s' : State) : Prop := {
  l_started : ∀ n, started n s = true → started n s' = true;
  l_reached : ∀ n, (reached s n ≤ reached s' n)%nat;
  l_ctx : ctx_done s = true → ctx_done s' = true;
  l_lead : lead_done s = true → lead_done s' = true;
  l_leading : leading s = true → leading s' = true;
  l_handler : handler s = true → handler s' = true;
  l_callbacks : callbacks s = true → callbacks s' = true;
  l_listers : listers s = true → listers s' = true;
  l_events : eventHandlers s = true → eventHandlers s' = true;
  l_synced : ∀ j, synced s j = true → synced s' j = true;
  l_stopCh : stopCh s = true → stopCh s' = true;
  l_grpc : grpc s = true → grpc s' = true;
  l_listening : ∀ v, listening s v = true → listening s' v = true;
  l_closed : ∀ v, closed s v = true → closed s' v = true }.

Lemma holds_later i s s' : later s s' → holds i s → holds i s'.
Proof.
  intros []. destruct i; simpl; try done; auto.
  - destruct c; simpl; rewrite ?orb_true_iff; naive_solver.
  - naive_solver.
  - destruct c; simpl; rewrite ?orb_true_iff; naive_solver.
  - destruct s0; auto.
Qed.

(** The goroutine an instruction starts. *)
Definition spawn_of (i : Instr) : option Name :=
  match i with IGo m => Some m | ICampaign => Some TStart | _ => None end.

(** Where [start] runs, and from which instruction on. *)
Definition starter : Name := if LeaderElection app then TStart else TMain.
Definition offset : nat := if LeaderElection app then 1 else 5.

(** The instruction that starts a goroutine. *)
Definition parent (m : Name) : Name * nat :=
  match m with
  | TMain => (TMain, 0%nat)
  | TSignal => (TMain, 1%nat)
  | TServe SHttp => (TMain, 4%nat)
  | TElect => (TMain, 6%nat)
  | TStart => (TElect, 0%nat)
  | TInformer INodes => (starter, (offset + 4)%nat)
  | TInformer IPods => (starter, (offset + 6)%nat)
  | TInformer IConfigMaps => (starter, (offset + 7)%nat)
  | TInformer IEndpoints => (starter, (offset + 8)%nat)
  | TStopCh => (starter, (offset + 13)%nat)
  | TRotate => (starter, (offset + 14)%nat)
  | TSync => (starter, (offset + 15)%nat)
  | TServe SGrpc => (starter, (offset + 17)%nat)
  | TServe STls => (starter, (offset + 18)%nat)
  | TShutdown SHttp => (TServe SHttp, 0%nat)
  | TShutdown SGrpc => (TServe SGrpc, 1%nat)
  | TShutdown STls => (TServe STls, 1%nat)
  end.

(** Every goroutine is started in one place. *)
Lemma parent_unique n k i m :
  live n = true → code n !! k = Some i → spawn_of i = Some m → parent m = (n, k).
Proof.
  unfold live, parent, starter, offset. unfold_code. intros Hl Hk Hm.
  destruct (LeaderElection app), n as [| | | |j| | | |[]|[]]; try done; simpl in Hk;
    by_index k Hk.
Qed.

Lemma spawn_live n k i m :
  live n = true → code n !! k = Some i → spawn_of i = Some m → live m = true.
Proof.
  unfold live. unfold_code. intros Hl Hk Hm.
  destruct (LeaderElection app), n as [| | | |j| | | |[]|[]]; try done; simpl in Hk;
    by_index k Hk.
Qed.

(** ** Steps go forward *)

Lemma later_refl s : later s s.
Proof. by constructor. Qed.

Lemma later_trans s1 s2 s3 : later s1 s2 → later s2 s3 → later s1 s3.
Proof. intros [] []. constructor; auto. intros n. etrans; eauto. Qed.

Definition position (t : Status) : nat :=
  match t with NotStarted => 0 | Running pc | Failing pc _ => pc end.

(** A goroutine that is started, or goes on. *)
Lemma later_set_thread n t s :
  t ≠ NotStarted → (reached s n ≤ position t)%nat → later s (set_thread n t s).
Proof.
  intros Ht Hle. constructor; try done.
  - intros m. unfold started. simpl. unfold insert, fn_insert. case_decide; [destruct t; naive_solver|done].
  - intros m. unfold reached at 2. simpl. unfold insert, fn_insert. case_decide as E; [|done].
    subst. exact Hle.
Qed.

Lemma threads_set n t s m :
  threads (set_thread n t s) m = if decide (n = m) then t else threads s m.
Proof. done. Qed.

(** A state that differs in fields that only become true. *)
Ltac later_fields :=
  constructor; try done; intros; simpl in *; unfold insert, fn_insert in *;
  repeat case_decide; done.

Lemma exec_Next ok i s s1 :
  exec app ok i s = Next s1 →
  later s s1 ∧ threads s1 = threads s ∧ exit s1 = exit s ∧ holds i s1 ∧ spawn_of i = None.
Proof.
  unfold exec. intros E.
  destruct i; simpl in E; repeat case_match; simplify_eq/=; split_and!; try done;
    try apply later_refl; try apply fn_lookup_insert; later_fields.
Qed.

Lemma exec_Spawn ok i s m s1 :
  exec app ok i s = Spawn m s1 →
  later s s1 ∧ threads s1 = threads s ∧ exit s1 = exit s ∧ spawn_of i = Some m ∧
  (i = ICampaign → leading s1 = true).
Proof.
  unfold exec. intros E.
  destruct i; simpl in E; repeat case_match; simplify_eq/=; split_and!; try done;
    try apply later_refl; later_fields.
Qed.

Lemma exec_Fatal ok i s s1 :
  exec app ok i s = Fatal s1 → later s s1 ∧ threads s1 = threads s ∧ exit s1 = exit s.
Proof.
  unfold exec. intros E.
  destruct i; simpl in E; repeat case_match; simplify_eq/=; split_and!; try done;
    try apply later_refl; later_fields.
Qed.

(** The stop channel is closed in one place. *)
Lemma exec_stopCh ok i s s1 :
  (exec app ok i s = Next s1 ∨ (∃ m, exec app ok i s = Spawn m s1) ∨ exec app ok i s = Fatal s1) →
  stopCh s1 = true → stopCh s = true ∨ (i = ICloseStopCh ∧ exec app ok i s = Next s1).
Proof.
  unfold exec. intros E Hs.
  destruct i; simpl in E; repeat case_match; simplify_eq/=; naive_solver.
Qed.

(** The signals and synchronisations that can still come. *)
Definition extra (s : State) : nat :=
  (if pending s then 0 else 1)
  + length (List.filter (λ j, negb (synced s j)) [INodes; IPods; IConfigMaps; IEndpoints]).

Lemma exec_extra ok i s s1 :
  (exec app ok i s = Next s1 ∨ (∃ m, exec app ok i s = Spawn m s1) ∨ exec app ok i s = Fatal s1) →
  (extra s1 ≤ S (extra s))%nat.
Proof.
  assert (extra (set_pending false s) ≤ S (extra s))%nat as Hp
    by (unfold extra; simpl; destruct (pending s); lia).
  unfold exec. intros E.
  destruct i; simpl in E; repeat case_match; destruct E as [E|[[m E]|E]]; simplify_eq/=;
    try exact Hp; unfold extra; simpl; lia.
Qed.

(** The ways a goroutine goes on. *)
Inductive moves (n : Name) (s : State) : State → Prop :=
  | m_next pc i s1 :
      threads s n = Running pc → code n !! pc = Some i →
      later s s1 → threads s1 = threads s → exit s1 = exit s →
      (stopCh s1 = true → stopCh s = true ∨ i = ICloseStopCh) →
      holds i s1 → spawn_of i = None → (extra s1 ≤ S (extra s))%nat →
      moves n s (set_thread n (Running (S pc)) s1)
  | m_spawn pc i m s1 :
      threads s n = Running pc → code n !! pc = Some i →
      later s s1 → threads s1 = threads s → exit s1 = exit s →
      (stopCh s1 = true → stopCh s = true) →
      spawn_of i = Some m → (i = ICampaign → leading s1 = true) →
      (extra s1 ≤ S (extra s))%nat →
      moves n s (set_thread m (Running 0) (set_thread n (Running (S pc)) s1))
  | m_fatal pc i s1 :
      threads s n = Running pc → code n !! pc = Some i →
      later s s1 → threads s1 = threads s → exit s1 = exit s →
      (stopCh s1 = true → stopCh s = true) → handler s1 = true →
      (extra s1 ≤ S (extra s))%nat →
      moves n s (set_thread n (Failing pc FCancel) s1)
  | m_die ok pc i s1 :
      threads s n = Running pc → code n !! pc = Some i →
      exec app ok i s = Fatal s1 → handler s1 = false →
      moves n s (set_exit 1 s1)
  | m_exit pc i c ok :
      threads s n = Running pc → code n !! pc = Some i → exec app ok i s = Exits c →
      moves n s (set_exit c s)
  | m_cancel pc :
      threads s n = Failing pc FCancel → moves n s (set_thread n (Failing pc FSleep) (cancel s))
  | m_sleep pc :
      threads s n = Failing pc FSleep → moves n s (set_thread n (Failing pc FExit) s)
  | m_end pc : threads s n = Failing pc FExit → moves n s (set_exit 1 s).

Lemma run_moves ok n s s' : run app ok n s = Some s' → moves n s s'.
Proof.
  unfold run. destruct (threads s n) as [|pc|pc []] eqn:Et; [done| | | |].
  - destruct (code n !! pc) as [i|] eqn:Ei; [|done].
    pose proof (exec_stopCh ok i s) as Hc. pose proof (exec_extra ok i s) as Hx.
    destruct (exec app ok i s) as [s1|m s1|s1|c|] eqn:Ex; simpl; intros [= <-].
    + pose proof Ex as (? & ? & ? & ? & ?)%exec_Next. eapply m_next; naive_solver.
    + pose proof Ex as (? & ? & ? & ? & ?)%exec_Spawn. eapply m_spawn; naive_solver.
    + pose proof Ex as (? & ? & ?)%exec_Fatal.
      destruct (handler s1) eqn:?; [eapply m_fatal; naive_solver|by eapply m_die].
    + by eapply m_exit.
  - intros [= <-]. by eapply m_cancel.
  - intros [= <-]. by eapply m_sleep.
  - intros [= <-]. by eapply m_end.
Qed.

(** ** The invariant *)

Record inv (s : State) : Prop := {
  i_main : started TMain s = true;
  i_holds : ∀ n k i, (k < reached s n)%nat → code n !! k = Some i → holds i s;
  i_parent : ∀ m, m ≠ TMain → started m s = true →
    ((parent m).2 < reached s (parent m).1)%nat;
  i_live : ∀ n, started n s = true → live n = true;
  i_handler : ∀ n, n ≠ TMain → started n s = true → handler s = true;
  i_failing : ∀ n pc st, threads s n = Failing pc st →
    (pc < length (code n))%nat ∧ (st ≠ FCancel → ctx_done s = true);
  i_stopCh : stopCh s = true → (2 ≤ reached s TStopCh)%nat;
  i_exit : ∀ c, exit s = Some c → (c = 0 ∨ c = 1)%Z ∧ ctx_done s = true ∨ c = 2%Z }.

Lemma reached_thread s n : reached s n = position (threads s n).
Proof. done. Qed.

Lemma started_running n pc s : threads s n = Running pc → started n s = true.
Proof. unfold started. by intros ->. Qed.

(** A goroutine is not started twice. *)
Lemma spawn_fresh s n pc i m :
  inv s → threads s n = Running pc → code n !! pc = Some i → spawn_of i = Some m →
  started m s = false.
Proof.
  intros Hi Et Ei Em. apply not_true_iff_false. intros Hm.
  assert (live n = true) as Hl by (eapply i_live; [done|by eapply started_running]).
  pose proof (parent_unique n pc i m Hl Ei Em) as Hp.
  assert (m ≠ TMain) as Hne.
  { intros ->. simpl in Hp. injection Hp as <- <-. simpl in Ei. by simplify_eq/=. }
  pose proof (i_parent s Hi m Hne Hm) as Hlt. rewrite Hp in Hlt. simpl in Hlt.
  rewrite reached_thread, Et in Hlt. simpl in Hlt. lia.
Qed.

Lemma moves_later n s s' : inv s → moves n s s' → later s s'.
Proof.
  intros Hi. destruct 1 as [pc i s1 Et _ Hl Hs|pc i m s1 Et Ei Hl Hs _ _ Hm|pc i s1 Et _ Hl Hs|
    ok pc i s1 _ _ Ex| |pc Et|pc Et|]; try (by constructor).
  - eapply later_trans; [done|]. apply later_set_thread; [done|].
    rewrite reached_thread, Hs, Et. simpl. lia.
  - eapply later_trans; [done|].
    pose proof (spawn_fresh _ _ _ _ _ Hi Et Ei Hm) as Hf.
    assert (n ≠ m) as Hne.
    { intros <-. apply started_running in Et. congruence. }
    eapply later_trans; [apply (later_set_thread n (Running (S pc)))|apply later_set_thread];
      rewrite ?reached_thread, ?threads_set, ?Hs, ?Et; simpl; try done; [lia|].
    rewrite decide_False by done. unfold started in Hf. by destruct (threads s m).
  - eapply later_trans; [done|]. apply later_set_thread; [done|].
    rewrite reached_thread, Hs, Et. simpl. lia.
  - apply exec_Fatal in Ex as (Hl & _). by destruct Hl; constructor.
  - eapply later_trans; [|apply later_set_thread]; [by constructor|done|].
    rewrite reached_thread. simpl. by rewrite Et.
  - apply later_set_thread; [done|]. rewrite reached_thread. by rewrite Et.
Qed.

(** A move executes at most one instruction, and leaves what it holds. *)
Lemma moves_reached n s s' n' k :
  inv s → moves n s s' → (k < reached s' n')%nat →
  (k < reached s n')%nat ∨
  (n' = n ∧ threads s n = Running k ∧ ∃ i, code n !! k = Some i ∧ holds i s' ∧
   ∀ m, spawn_of i = Some m → started m s' = true).
Proof.
  intros Hi Hm Hk. pose proof (moves_later _ _ _ Hi Hm) as Hl.
  revert Hk. unfold reached at 1.
  destruct Hm as [pc i s1 Et Ei Hl1 Hs _ _ Hh Hsp|pc i m s1 Et Ei Hl1 Hs _ _ Hm Hlead|
    pc i s1 Et _ _ Hs|ok pc i s1 Et _ Ex|pc i c ok Et|pc Et|pc Et|];
    rewrite ?threads_set; simpl; try (by intros ?; left).
  - case_decide as E; [subst n'|rewrite Hs; by intros ?; left].
    intros Hk. destruct (decide (k = pc)) as [->|]; [|left; rewrite reached_thread, Et; simpl; lia].
    right. split_and!; [done..|]. exists i. split_and!; [done| |by rewrite Hsp].
    eapply holds_later; [|exact Hh]. apply later_set_thread; [done|].
    rewrite reached_thread, Hs, Et. simpl. lia.
  - case_decide as E; [subst n'; simpl; lia|]. unfold insert, fn_insert.
    case_decide as E'; [subst n'|rewrite Hs; by intros ?; left].
    intros Hk. destruct (decide (k = pc)) as [->|]; [|left; rewrite reached_thread, Et; simpl; lia].
    right. split_and!; [done..|]. exists i. split; [done|].
    set (s' := set_thread m (Running 0) _).
    assert (started m s' = true) as Hst.
    { unfold started, s'. rewrite threads_set. by rewrite decide_True. }
    split; [|intros m' Em'; by rewrite Hm in Em'; injection Em' as <-].
    destruct i; try done; injection Hm as <-; simpl; [done|]. by rewrite Hlead.
  - case_decide as E; [subst n'|rewrite Hs; by intros ?; left]. simpl. intros ?. left.
    by rewrite reached_thread, Et.
  - apply exec_Fatal in Ex as (_ & -> & _). by intros ?; left.
  - case_decide as E; [subst n'|by intros ?; left]. simpl. intros ?. left.
    by rewrite reached_thread, Et.
  - case_decide as E; [subst n'|by intros ?; left]. simpl. intros ?. left.
    by rewrite reached_thread, Et.
Qed.

(** A goroutine that is new after a move was started by its parent. *)
Lemma moves_started n s s' m :
  inv s → moves n s s' → started m s' = true →
  started m s = true ∨
  (∃ pc i, threads s n = Running pc ∧ code n !! pc = Some i ∧ spawn_of i = Some m ∧
     reached s' n = S pc).
Proof.
  intros Hi Hm. unfold started at 1 2.
  destruct Hm as [pc i s1 Et Ei Hl1 Hs _ _ Hh Hsp|pc i m' s1 Et Ei Hl1 Hs _ _ Hm Hlead|
    pc i s1 Et _ _ Hs|ok pc i s1 Et _ Ex|pc i c ok Et|pc Et|pc Et|];
    rewrite ?threads_set; simpl; try (by intros ?; left).
  - case_decide as E; [subst m; rewrite Et; by left|rewrite Hs; by intros ?; left].
  - case_decide as E.
    + subst m'. intros _. right. exists pc, i. split_and!; [done..|].
      rewrite reached_thread, threads_set. rewrite decide_False; [|intros <-].
      * by rewrite threads_set, decide_True.
      * pose proof (spawn_fresh _ _ _ _ _ Hi Et Ei Hm) as Hf.
        apply started_running in Et. congruence.
    + unfold insert, fn_insert. case_decide as E'; [subst m; rewrite Et; by left|].
      rewrite Hs. by left.
  - case_decide as E; [subst m; rewrite Et; by left|rewrite Hs; by intros ?; left].
  - apply exec_Fatal in Ex as (_ & -> & _). by intros ?; left.
  - case_decide as E; [subst m; rewrite Et; by left|by intros ?; left].
  - case_decide as E; [subst m; rewrite Et; by left|by intros ?; left].
Qed.

(** Where the process ends, it was cancelled before. *)
Lemma exit_after n pc i c ok s :
  inv s → threads s n = Running pc → code n !! pc = Some i → exec app ok i s = Exits c →
  (c = 0 ∨ c = 1)%Z ∧ ctx_done s = true.
Proof.
  intros Hi Et Ei Ex. pose proof (i_live s Hi n (started_running _ _ _ Et)) as Hl.
  assert ((∃ c, i = IExit c) ∨ i = ICloseStopCh ∧ stopCh s = true) as [[c' ->]|[-> Hst]].
  { destruct i; simpl in Ex; repeat case_match; simplify_eq/=; eauto. }
  - simpl in Ex. injection Ex as <-.
    assert ((c' = 0 ∨ c' = 1)%Z ∧ ∃ k j, (k < pc)%nat ∧ code n !! k = Some j ∧
      (j = IWaitDone CMain ∨ j = ISelect)) as (Hc & k & j & Hk & Ej & Hj).
    { revert Ei Hl. clear. unfold live. unfold_code. intros Hk Hl.
      destruct (LeaderElection app), n as [| | | |j| | | |[]|[]]; try done; simpl in Hk;
        repeat (first [discriminate Hk|destruct pc as [|pc]; simpl in Hk;
          [simplify_eq/=; try done; (split; [tauto|]);
           first [by exists 7%nat, (IWaitDone CMain); split_and!; [lia|..|tauto]
                 |by exists 24%nat, (IWaitDone CMain); split_and!; [lia|..|tauto]
                 |by exists 0%nat, ISelect; split_and!; [lia|..|tauto]]|]]). }
    split; [done|].
    assert (holds j s) as Hh by (eapply i_holds; [done| |done]; by rewrite reached_thread, Et).
    by destruct Hj as [-> | ->].
  - exfalso. assert (n = TStopCh ∧ pc = 1%nat) as [-> ->].
    { revert Ei Hl. clear. unfold live. unfold_code. intros Hk Hl.
      destruct (LeaderElection app), n as [| | | |j| | | |[]|[]]; try done; simpl in Hk;
        by_index pc Hk. }
    pose proof (i_stopCh s Hi Hst) as H2. rewrite reached_thread, Et in H2. simpl in H2. lia.
Qed.

(** The main goroutine registers the exit handler first; nothing else comes
    before. *)
Lemma main_first n pc i m :
  live n = true → code n !! pc = Some i → spawn_of i = Some m → n = TMain → (0 < pc)%nat.
Proof.
  intros Hl Ei Em ->. destruct pc; [|lia]. simpl in Ei. by simplify_eq/=.
Qed.

Lemma runs_handler s n pc :
  inv s → threads s n = Running pc → (n = TMain → (0 < pc)%nat) → handler s = true.
Proof.
  intros Hi Et Hm. destruct (decide (n = TMain)) as [->|Hne].
  - apply (i_holds s Hi TMain 0%nat IRegisterExitHandler); [|done].
    rewrite reached_thread, Et. by apply Hm.
  - eapply i_handler; [done..|by eapply started_running].
Qed.

(** An exit without the handler could only come from its registration. *)
Lemma never_dies n ok pc i s s1 :
  inv s → threads s n = Running pc → code n !! pc = Some i →
  exec app ok i s = Fatal s1 → handler s1 = true.
Proof.
  intros Hi Et Ei Ex. apply exec_Fatal in Ex as Hf. destruct Hf as (Hl & _).
  apply (l_handler _ _ Hl), (runs_handler s n pc Hi Et). intros ->.
  destruct pc; [|lia]. simpl in Ei. by simplify_eq/=.
Qed.

Lemma exec_stop_code n pc : live n = true → code n !! pc = Some ICloseStopCh → n = TStopCh ∧ pc = 1%nat.
Proof.
  unfold live. unfold_code. intros Hl Hk.
  destruct (LeaderElection app), n as [| | | |j| | | |[]|[]]; try done; simpl in Hk;
    by_index pc Hk.
Qed.

(** What a move does to the failing goroutines, the stop channel and the exit. *)
Lemma moves_failing n s s' n' pc st :
  inv s → moves n s s' → threads s' n' = Failing pc st →
  (pc < length (code n'))%nat ∧ (st ≠ FCancel → ctx_done s' = true).
Proof.
  intros Hi Hm. pose proof (moves_later _ _ _ Hi Hm) as Hl.
  assert (threads s n' = Failing pc st →
    (pc < length (code n'))%nat ∧ (st ≠ FCancel → ctx_done s' = true)) as Hold.
  { intros E. destruct (i_failing s Hi _ _ _ E) as [? Hc]. split; [done|].
    intros Hst. by apply (l_ctx _ _ Hl), Hc. }
  destruct Hm as [pc0 i s1 Et Ei _ Hs|pc0 i m s1 Et Ei _ Hs|pc0 i s1 Et Ei _ Hs|
    ok pc0 i s1 Et Ei Ex|pc0 i c ok|pc0 Et|pc0 Et|]; rewrite ?threads_set; simpl; try done.
  - case_decide; [done|by rewrite Hs].
  - case_decide; [done|]. unfold insert, fn_insert. case_decide; [done|by rewrite Hs].
  - case_decide as E; [|by rewrite Hs]. subst n'. intros [= <- <-].
    split; [by eapply lookup_lt_Some|done].
  - apply exec_Fatal in Ex as (_ & -> & _). done.
  - case_decide as E; [|done]. subst n'. intros [= <- <-].
    split; [|done]. apply (i_failing s Hi _ _ _ Et).
  - case_decide as E; [|done]. subst n'. intros [= <- <-].
    destruct (i_failing s Hi _ _ _ Et) as [? Hc]. split; [done|]. by intros _; apply Hc.
Qed.

Lemma moves_stopCh n s s' :
  inv s → moves n s s' → stopCh s' = true → (2 ≤ reached s' TStopCh)%nat.
Proof.
  intros Hi Hm. pose proof (moves_later _ _ _ Hi Hm) as Hl.
  assert (stopCh s = true → (2 ≤ reached s' TStopCh)%nat) as Hold.
  { intros E. etrans; [by apply i_stopCh|apply (l_reached _ _ Hl)]. }
  destruct Hm as [pc i s1 Et Ei _ Hs _ Hst|pc i m s1 Et Ei _ Hs _ Hst Hm|pc i s1 Et Ei _ Hs _ Hst|
    ok pc i s1 Et Ei Ex Hh| | | |]; simpl; try done.
  - intros [?| ->]%Hst; [by apply Hold|].
    apply exec_stop_code in Ei as [-> ->];
      [|eapply i_live; [done|by eapply started_running]].
    by rewrite reached_thread, threads_set, decide_True.
  - by intros ?%Hst; apply Hold.
  - by intros ?%Hst; apply Hold.
  - pose proof (never_dies _ _ _ _ _ _ Hi Et Ei Ex). congruence.
Qed.

Lemma moves_exit n s s' c :
  inv s → exit s = None → moves n s s' → exit s' = Some c →
  (c = 0 ∨ c = 1)%Z ∧ ctx_done s' = true.
Proof.
  intros Hi He Hm. pose proof (moves_later _ _ _ Hi Hm) as Hl.
  destruct Hm as [pc i s1 Et Ei _ Hs Hx|pc i m s1 Et Ei _ Hs Hx|pc i s1 Et Ei _ Hs Hx|
    ok pc i s1 Et Ei Ex Hh|pc i c' ok Et Ei Ex|pc Et|pc Et|pc Et]; simpl; try congruence.
  - pose proof (never_dies _ _ _ _ _ _ Hi Et Ei Ex). congruence.
  - intros [= <-]. by eapply exit_after.
  - intros [= <-]. split; [by right|]. by apply (i_failing s Hi _ _ _ Et).
Qed.

Lemma moves_inv n s s' : inv s → exit s = None → moves n s s' → inv s'.
Proof.
  intros Hi He Hm. pose proof (moves_later _ _ _ Hi Hm) as Hl. constructor.
  - by apply (l_started _ _ Hl), i_main.
  - intros n' k i Hk Ei.
    destruct (moves_reached _ _ _ _ _ Hi Hm Hk) as [Hk'|(-> & _ & j & Ej & Hh & _)].
    + by eapply holds_later, i_holds.
    + congruence.
  - intros m Hne Hst. destruct (moves_started _ _ _ _ Hi Hm Hst) as [Hst'|(pc & i & Et & Ei & Em & Hr)].
    + eapply Nat.lt_le_trans; [by apply i_parent|apply (l_reached _ _ Hl)].
    + rewrite (parent_unique n pc i m) by
        (done || (eapply i_live; [done|by eapply started_running])).
      simpl. rewrite Hr. lia.
  - intros m Hst. destruct (moves_started _ _ _ _ Hi Hm Hst) as [Hst'|(pc & i & Et & Ei & Em & _)];
      [by eapply i_live|].
    eapply spawn_live; [|done..]. eapply i_live; [done|by eapply started_running].
  - intros m Hne Hst. apply (l_handler _ _ Hl).
    destruct (moves_started _ _ _ _ Hi Hm Hst) as [Hst'|(pc & i & Et & Ei & Em & _)];
      [by eapply i_handler|].
    eapply runs_handler; [done..|]. eapply main_first; [|done..].
    eapply i_live; [done|by eapply started_running].
  - intros n' pc st. by eapply moves_failing.
  - by eapply moves_stopCh.
  - intros c Hx. left. by eapply moves_exit.
Qed.

Lemma later_pending b s : later s (set_pending b s).
Proof. by constructor. Qed.

Lemma later_synced i s : later s (set_synced i s).
Proof.
  constructor; try done. intros j. simpl. unfold insert, fn_insert. by case_decide.
Qed.

(** A change outside the goroutines. *)
Lemma outside_inv s s' :
  inv s → later s s' → threads s' = threads s → exit s' = exit s → stopCh s' = stopCh s → inv s'.
Proof.
  intros Hi Hl Ht Hx Hc.
  assert (∀ n, started n s' = started n s) as Hs by (intros n; unfold started; by rewrite Ht).
  assert (∀ n, reached s' n = reached s n) as Hr by (intros n; unfold reached; by rewrite Ht).
  constructor.
  - rewrite Hs. by apply i_main.
  - intros n k i. rewrite Hr. intros Hk Ei. by eapply holds_later, i_holds.
  - intros m. rewrite Hs, Hr. by apply i_parent.
  - intros n. rewrite Hs. by apply i_live.
  - intros n Hne. rewrite Hs. intros Hst. apply (l_handler _ _ Hl). by eapply i_handler.
  - intros n pc st. rewrite Ht. intros E. destruct (i_failing s Hi _ _ _ E) as [? Hd].
    split; [done|]. intros Hst. by apply (l_ctx _ _ Hl), Hd.
  - rewrite Hc, Hr. by apply i_stopCh.
  - intros c. rewrite Hx. intros E. destruct (i_exit s Hi c E) as [[? Hd]| ->]; [left|by right].
    split; [done|]. by apply (l_ctx _ _ Hl).
Qed.

Lemma panics_inv s s' : inv s → panics app s s' → inv s'.
Proof.
  intros [] [n He Hp]. constructor; try done. intros c [= <-]. by right.
Qed.

Lemma step_inv s s' : inv s → step s s' → inv s'.
Proof.
  intros Hi [ok n s1 He Hr|He Hp|i He Hy Hs|s1 Hp]; [| | |by eapply panics_inv].
  - eapply moves_inv; [done..|by eapply run_moves].
  - eapply outside_inv; [done|apply later_pending|done..].
  - eapply outside_inv; [done|apply later_synced|done..].
Qed.

Lemma inv_initial : inv initial.
Proof.
  constructor; try done.
  - intros n k i. unfold reached. simpl. case_decide; simpl; lia.
  - intros m Hne. unfold started. simpl. by rewrite decide_False.
  - intros n. unfold started. simpl. case_decide; [subst n|done]. intros _. unfold live.
    apply orb_true_iff. by right.
  - intros n Hne. unfold started. simpl. by rewrite decide_False.
  - intros n pc st. simpl. by case_decide.
Qed.

Lemma reachable_inv s : reachable s → inv s.
Proof.
  unfold Lifecycle.reachable. revert s. apply rtc_ind_r; [apply inv_initial|].
  intros s1 s2 _ Hst Hi. by eapply step_inv.
Qed.

(** ** Order *)

(** A goroutine of [start] runs only after the instructions of [start] before its
    own. *)
Lemma before m k i s :
  inv s → started m s = true → m ≠ TMain → (k < (parent m).2)%nat →
  code (parent m).1 !! k = Some i → holds i s.
Proof.
  intros Hi Hst Hne Hk Ei. eapply i_holds; [done| |done].
  pose proof (i_parent s Hi m Hne Hst). lia.
Qed.

Lemma start_code k i : start !! k = Some i → code starter !! (offset + k)%nat = Some i.
Proof.
  intros E. unfold starter, offset, Lifecycle.code, Lifecycle.main, OnStartedLeading. destruct (LeaderElection app); [done|].
  rewrite lookup_app_r by (cbn [length]; lia). cbn [length].
  replace (5 + k - 5)%nat with k by lia. by apply lookup_app_l_Some.
Qed.

(** C15: nothing acts on events before it can: the informers of pods, ConfigMaps
    and endpoints run only when the callbacks and the listers are assigned and
    the event handlers registered, so that no event is dropped by the test for a
    nil callback and no lister is nil; the periodic jobs and the servers of the
    proxies start only when every cache is in sync, and the gRPC server serves
    only what [controlplane.Init] made. *)
Theorem start_order s :
  reachable s →
  (∀ i, i ≠ INodes → started (TInformer i) s = true →
   callbacks s = true ∧ listers s = true ∧ eventHandlers s = true ∧
   started (TInformer INodes) s = true) ∧
  (∀ n, n ∈ [TRotate; TSync; TServe SGrpc; TServe STls] → started n s = true →
   callbacks s = true ∧ listers s = true ∧ (∀ j, synced s j = true)) ∧
  (started (TServe SGrpc) s = true → grpc s = true).
Proof.
  intros Hi%reachable_inv.
  assert (∀ m k i, m ≠ TMain → started m s = true → (parent m).1 = starter →
    start !! k = Some i → (offset + k < (parent m).2)%nat → holds i s) as Hb.
  { intros m k i Hne Hst Hp Ei Hk. eapply before; [done..|]. rewrite Hp. by apply start_code. }
  split_and!.
  - intros i Hne Hst.
    assert (∀ k j, (k < 6)%nat → start !! k = Some j → holds j s) as Hk.
    { intros k j Hk Ej. eapply (Hb (TInformer i)); [done..| | |]; destruct i; simpl; done || lia. }
    split_and!; [apply (Hk 0%nat ICallbacks)|apply (Hk 1%nat IListers)
                |apply (Hk 2%nat IAddEventHandlers)|apply (Hk 4%nat (IGo (TInformer INodes)))];
      done || lia.
  - intros n Hn Hst.
    assert (∀ k j, (k < 14)%nat → start !! k = Some j → holds j s) as Hk.
    { intros k j Hk Ej.
      repeat (apply elem_of_cons in Hn as [->|Hn]; [eapply Hb; [|done|..|exact Ej|]; simpl; done || lia|]).
      by apply elem_of_nil in Hn. }
    split_and!; [apply (Hk 0%nat ICallbacks)|apply (Hk 1%nat IListers)|]; [done || lia..|].
    intros []; [apply (Hk 10%nat (IWaitSync INodes))|apply (Hk 9%nat (IWaitSync IPods))
               |apply (Hk 11%nat (IWaitSync IConfigMaps))|apply (Hk 12%nat (IWaitSync IEndpoints))];
      done || lia.
  - intros Hst. apply (Hb (TServe SGrpc) 16%nat IGrpcInit); simpl; done || lia.
Qed.

(** ** The lease *)

(** Only these instructions let a server listen or set the gauge. *)
Lemma exec_effects ok i s s1 :
  (exec app ok i s = Next s1 ∨ (∃ m, exec app ok i s = Spawn m s1) ∨ exec app ok i s = Fatal s1) →
  (∀ v, listening s1 v = true → listening s v = true ∨ i = IListen v) ∧
  (master s1 = master s ∨ i = ISetMaster (master s1)).
Proof.
  unfold exec. intros E.
  destruct i; simpl in E; repeat case_match; destruct E as [E|[[m E]|E]]; simplify_eq/=;
    (split; [intros ?; simpl; unfold insert, fn_insert; try case_decide; subst; tauto|auto]).
Qed.

Lemma run_effects ok n s s' :
  run app ok n s = Some s' →
  (∀ v, listening s' v = true → listening s v = true ∨
     ∃ pc, threads s n = Running pc ∧ code n !! pc = Some (IListen v)) ∧
  (master s' = master s ∨
     ∃ pc, threads s n = Running pc ∧ code n !! pc = Some (ISetMaster (master s'))).
Proof.
  unfold run. destruct (threads s n) as [|pc|pc []] eqn:Et; [done| | | |];
    [|intros [= <-]; simpl; tauto..].
  destruct (code n !! pc) as [i|] eqn:Ei; [|done].
  pose proof (exec_effects ok i s) as Hx.
  destruct (exec app ok i s) as [s1|m s1|s1|c|] eqn:Ex; simpl; intros [= <-];
    try (destruct (Hx s1) as [Hl Hm]; [by eauto|]); try (destruct (handler s1)); simpl;
    (split; [intros v Hv; try (apply Hl in Hv as [?| ->]); eauto|try (destruct Hm as [?|E]);
      try (rewrite E in Ei); eauto]).
Qed.

Lemma listen_code n pc v : code n !! pc = Some (IListen v) → n = TServe v.
Proof.
  unfold_code. intros Hk.
  destruct (LeaderElection app), n as [| | | |j| | | |[]|[]]; simpl in Hk; by_index pc Hk.
Qed.

Lemma master_code n pc x :
  code n !! pc = Some (ISetMaster x) → x = 0%Z ∨ n = TStart.
Proof.
  unfold_code. intros Hk.
  destruct (LeaderElection app), n as [| | | |j| | | |[]|[]]; simpl in Hk;
    repeat (first [discriminate Hk|destruct pc as [|pc]; simpl in Hk; [simplify_eq/=; tauto|]]).
Qed.

Lemma reachable_effects s :
  reachable s →
  (∀ v, listening s v = true → started (TServe v) s = true) ∧
  (master s ≠ 0%Z → started TStart s = true).
Proof.
  intros Hr. assert (inv s ∧ (∀ v, listening s v = true → started (TServe v) s = true) ∧
    (master s ≠ 0%Z → started TStart s = true)) as [_ H]; [|exact H].
  revert s Hr. unfold Lifecycle.reachable. apply rtc_ind_r.
  - split_and!; [apply inv_initial|done..].
  - intros s s' _ Hst (Hi & Hl & Hm). split; [by eapply step_inv|].
    destruct Hst as [ok n s' He Hr|He Hp|i He Hy Hs|s' [n He Hp]]; [|by split..].
    pose proof (run_effects _ _ _ _ Hr) as [Hl' Hm'].
    pose proof (moves_later _ _ _ Hi (run_moves _ _ _ _ Hr)) as Hla. split.
    + intros v Hv. apply (l_started _ _ Hla).
      destruct (Hl' v Hv) as [?|(pc & Et & Ei)]; [auto|].
      apply listen_code in Ei as <-. by eapply started_running.
    + intros Hne. apply (l_started _ _ Hla).
      destruct Hm' as [E|(pc & Et & Ei)]; [rewrite E in Hne; auto|].
      apply master_code in Ei as [?| ->]; [done|]. by eapply started_running.
Qed.

(** With leader election, [start] runs under the lease. *)
Lemma start_leads s : inv s → LeaderElection app = true → started TStart s = true → leading s = true.
Proof.
  intros Hi Hle Hst. pose proof (i_parent s Hi TStart ltac:(done) Hst) as Hp. simpl in Hp.
  by apply (i_holds s Hi TElect 0%nat ICampaign Hp eq_refl).
Qed.

Lemma starter_started s m :
  inv s → started m s = true → m ≠ TMain → (parent m).1 = TStart → started TStart s = true.
Proof.
  intros Hi Hst Hne Hp. pose proof (i_parent s Hi m Hne Hst) as Hlt. rewrite Hp in Hlt.
  unfold started. unfold reached in Hlt. destruct (threads s TStart); done || lia.
Qed.

(** C16: with leader election, only the holder of the lease acts: before the lease
    is acquired no informer runs and no periodic job, the servers for proxies and
    pods do not listen - only the one of the metrics does - and the gauge does
    not claim to be the master. *)
Theorem lease_gate s :
  LeaderElection app = true → reachable s → leading s = false →
  (∀ i, started (TInformer i) s = false) ∧
  started TRotate s = false ∧ started TSync s = false ∧
  listening s SGrpc = false ∧ listening s STls = false ∧ master s = 0%Z.
Proof.
  intros Hle Hr Hno. pose proof (reachable_inv s Hr) as Hi.
  destruct (reachable_effects s Hr) as [Hl Hm].
  assert (started TStart s = false) as Hst.
  { apply not_true_iff_false. intros Hst. pose proof (start_leads s Hi Hle Hst). congruence. }
  assert (∀ m, m ≠ TMain → (parent m).1 = starter → started m s = false) as Hf.
  { intros m Hne Hp. apply not_true_iff_false. intros Hmm. unfold starter in Hp. rewrite Hle in Hp.
    pose proof (starter_started s m Hi Hmm Hne Hp). congruence. }
  split_and!; try (by apply Hf); [by intros []; apply Hf| | |].
  - apply not_true_iff_false. intros E%Hl. by rewrite Hf in E.
  - apply not_true_iff_false. intros E%Hl. by rewrite Hf in E.
  - destruct (decide (master s = 0%Z)) as [|Hne]; [done|]. apply Hm in Hne. congruence.
Qed.

(** Where the process ended by a panic, the panic was the last step. *)
Lemma exit_two s s' :
  inv s → rtc step s s' → exit s' = Some 2%Z →
  exit s = Some 2%Z ∨ ∃ s0, rtc step s s0 ∧ panics app s0 s'.
Proof.
  intros Hi Hr. revert Hi. induction Hr as [s|s s1 s' Hst Hr IH]; intros Hi Hx; [by left|].
  destruct IH as [H1|(s0 & H0 & Hp)]; [by eapply step_inv|done| |].
  2:{ right. exists s0. split; [by eapply rtc_l|done]. }
  destruct Hst as [ok n s1 He Hrun|He Hp|i He Hy Hs|s1 Hp].
  - apply run_moves in Hrun. destruct (moves_exit _ _ _ _ Hi He Hrun H1) as [[? | ?] _]; done.
  - simpl in H1. congruence.
  - simpl in H1. congruence.
  - inversion Hr as [|? s2 ? H2]; subst.
    { right. exists s. split; [apply rtc_refl|done]. }
    exfalso. clear -Hp H2. destruct Hp. destruct H2 as [| | |? []]; done.
Qed.

(** ** Termination *)

Definition names : list Name :=
  [TMain; TSignal; TElect; TStart; TInformer INodes; TInformer IPods; TInformer IConfigMaps;
   TInformer IEndpoints; TStopCh; TRotate; TSync; TServe SHttp; TServe STls; TServe SGrpc;
   TShutdown SHttp; TShutdown STls; TShutdown SGrpc].

Lemma names_all n : n ∈ names.
Proof. destruct n as [| | | |[]| | | |[]|[]]; apply (bool_decide_unpack _); by vm_compute. Qed.

Lemma names_NoDup : NoDup names.
Proof. apply (bool_decide_unpack _). by vm_compute. Qed.

(** What a goroutine can still do. *)
Definition weight (n : Name) (t : Status) : nat :=
  match t with
  | NotStarted => 5 * length (code n)
  | Running pc => 5 * (length (code n) - pc)
  | Failing _ FCancel => 3
  | Failing _ FSleep => 2
  | Failing _ FExit => 1
  end.

Definition weights (t : Name → Status) (l : list Name) : nat :=
  sum_list_with (λ n, weight n (t n)) l.

(** A bound on the steps that are left. *)
Definition steps_left (s : State) : nat :=
  (if exit s is None then 1 else 0) + weights (threads s) names + extra s.

Lemma weights_insert_notin t n x l : n ∉ l → weights (<[n := x]> t) l = weights t l.
Proof.
  induction l as [|m l IH]; intros Hn; [done|]. apply not_elem_of_cons in Hn as [Hne Hn].
  unfold weights in *. simpl. rewrite IH, fn_lookup_insert_ne by done. done.
Qed.

Lemma weights_insert t n x :
  (weights (<[n := x]> t) names + weight n (t n) = weights t names + weight n x)%nat.
Proof.
  destruct (list_elem_of_split _ _ (names_all n)) as (l1 & l2 & E).
  pose proof names_NoDup as Hnd. rewrite E in Hnd |- *.
  apply NoDup_app in Hnd as (_ & H1 & [H2 _]%NoDup_cons).
  assert (n ∉ l1) as H1' by (intros Hin; apply (H1 _ Hin); by left).
  unfold weights. rewrite !sum_list_with_app. simpl. rewrite fn_lookup_insert.
  pose proof (weights_insert_notin t n x l1 H1'). pose proof (weights_insert_notin t n x l2 H2).
  unfold weights in *. lia.
Qed.

Lemma moves_steps n s s' :
  inv s → exit s = None → moves n s s' → (steps_left s' < steps_left s)%nat.
Proof.
  intros Hi He Hm. unfold steps_left. rewrite He.
  destruct Hm as [pc i s1 Et Ei _ Hs Hx _ _ _ He1|pc i m s1 Et Ei Hl Hs Hx _ Hm _ He1|
    pc i s1 Et Ei _ Hs Hx _ _ He1|ok pc i s1 Et Ei Ex Hh|pc i c ok Et Ei Ex|pc Et|pc Et|pc Et];
    simpl; try rewrite Hx, Hs, He;
    try (apply lookup_lt_Some in Ei as Hlt);
    try (change (extra (set_thread _ _ s1)) with (extra s1));
    try (pose proof (weights_insert (threads s) n (Running (S pc))) as Hw;
         rewrite Et in Hw; simpl in Hw).
  - lia.
  - change (extra (set_thread m _ _)) with (extra s1).
    pose proof (spawn_fresh _ _ _ _ _ Hi Et Ei Hm) as Hf.
    assert (n ≠ m) as Hne by (intros <-; apply started_running in Et; congruence).
    pose proof (weights_insert (<[n := Running (S pc)]> (threads s)) m (Running 0)) as Hw2.
    rewrite fn_lookup_insert_ne in Hw2 by done. unfold started in Hf.
    destruct (threads s m); [|done..]. simpl in Hw2. lia.
  - pose proof (weights_insert (threads s) n (Failing pc FCancel)) as Hw2.
    rewrite Et in Hw2. simpl in Hw2. lia.
  - pose proof (never_dies _ _ _ _ _ _ Hi Et Ei Ex). congruence.
  - change (extra (set_exit c s)) with (extra s). lia.
  - pose proof (weights_insert (threads s) n (Failing pc FSleep)) as Hw2.
    rewrite Et in Hw2. simpl in Hw2. rewrite He.
    change (extra (set_thread _ _ _)) with (extra s). lia.
  - pose proof (weights_insert (threads s) n (Failing pc FExit)) as Hw2.
    rewrite Et in Hw2. simpl in Hw2. rewrite He.
    change (extra (set_thread _ _ _)) with (extra s). lia.
  - change (extra (set_exit 1 s)) with (extra s). lia.
Qed.

Lemma step_steps s s' : inv s → step s s' → (steps_left s' < steps_left s)%nat.
Proof.
  intros Hi [ok n s1 He Hr|He Hp|i He Hy Hs|s1 [n He Hp]].
  - eapply moves_steps; [done..|by eapply run_moves].
  - unfold steps_left, extra. simpl. rewrite He, Hp. lia.
  - unfold steps_left, extra. simpl. rewrite He. unfold insert, fn_insert.
    revert Hy. destruct i; simpl; intros ->; simpl;
      repeat match goal with |- context [synced s ?j] => destruct (synced s j) end; simpl; lia.
  - unfold steps_left. change (extra (set_exit 2 s)) with (extra s). simpl. rewrite He. lia.
Qed.

(** ** Progress *)

(** What is not blocked can go on, with some choice. *)
Lemma unblocked_exec i s : blocked i s = false → ∃ ok, exec app ok i s ≠ Waits.
Proof.
  intros Hb.
  exists (match i with ISelect => pending s | ICampaign | IRenew => false | _ => true end).
  destruct i; simpl in *; repeat case_match; try done;
    repeat match goal with
    | H : negb _ = false |- _ => apply negb_false_iff in H
    | H : _ || _ = true |- _ => apply orb_true_iff in H
    end; naive_solver.
Qed.

Lemma enabled_run n s : enabled app n s = true → ∃ ok s', run app ok n s = Some s'.
Proof.
  unfold enabled, run. destruct (threads s n) as [|pc|pc []]; [done| | |by exists true; eexists..].
  - destruct (code n !! pc) as [i|]; [|done]. intros Hb%negb_true_iff.
    destruct (unblocked_exec i s Hb) as [ok Hok]. exists ok.
    destruct (exec app ok i s); simpl; eauto; done.
  - by exists true; eexists.
Qed.

(** The metrics server ends the process when it was shut down: one of its two
    goroutines can go on. *)
Lemma http_enabled s :
  inv s → ctx_done s = true → started (TServe SHttp) s = true →
  ∃ n, enabled app n s = true.
Proof.
  intros Hi Hd Hst. unfold started in Hst.
  destruct (threads s (TServe SHttp)) as [|pc|pc st] eqn:Et; [done| |].
  2:{ exists (TServe SHttp). unfold enabled. by rewrite Et. }
  assert (∀ k i, (k < pc)%nat → code (TServe SHttp) !! k = Some i → holds i s) as Hh.
  { intros k i Hk. apply i_holds; [done|]. by rewrite reached_thread, Et. }
  destruct pc as [|[|[|pc]]].
  - exists (TServe SHttp). unfold enabled. by rewrite Et.
  - exists (TServe SHttp). unfold enabled. by rewrite Et.
  - destruct (closed s SHttp) eqn:Hc.
    { exists (TServe SHttp). unfold enabled. rewrite Et. simpl. by rewrite Hc. }
    pose proof (Hh 0%nat (IGo (TShutdown SHttp)) ltac:(lia) eq_refl) as Hs. simpl in Hs.
    exists (TShutdown SHttp). unfold enabled. unfold started in Hs.
    destruct (threads s (TShutdown SHttp)) as [|pc'|] eqn:Et'; [done| |done].
    destruct pc' as [|[|pc']]; simpl; [by rewrite Hd|done|].
    assert (holds (IShutdown SHttp) s) as Hx.
    { apply (i_holds s Hi (TShutdown SHttp) 1%nat); [|done].
      rewrite reached_thread, Et'. simpl. lia. }
    simpl in Hx. congruence.
  - destruct (Hh 2%nat (IServe SHttp)); [lia|done].
Qed.

(** A cancelled process that has not ended can go on by itself. *)
Lemma cancelled_progress s :
  inv s → exit s = None → ctx_done s = true → ∃ n, enabled app n s = true.
Proof.
  intros Hi He Hd. pose proof (i_main s Hi) as Hm. unfold started in Hm.
  destruct (threads s TMain) as [|pc|pc st] eqn:Et; [done| |].
  2:{ exists TMain. unfold enabled. by rewrite Et. }
  assert (∀ k i, (k < pc)%nat → code TMain !! k = Some i → holds i s) as Hh.
  { intros k i Hk. apply i_holds; [done|]. by rewrite reached_thread, Et. }
  destruct (code TMain !! pc) as [i|] eqn:Ei.
  - destruct (blocked i s) eqn:Hb.
    + apply (http_enabled s Hi Hd), (Hh 4%nat (IGo (TServe SHttp))); [|done].
      destruct pc as [|[|[|[|[|pc]]]]]; [..|lia]; simpl in Ei; by simplify_eq/=.
    + exists TMain. unfold enabled. by rewrite Et, Ei, Hb.
  - exfalso. apply lookup_ge_None in Ei.
    apply (Hh (length (code TMain) - 1)%nat (IExit 0)).
    + unfold Lifecycle.code, Lifecycle.main in *. rewrite !length_app in *. simpl in *. lia.
    + unfold_code. by destruct (LeaderElection app).
Qed.

Lemma step_later s s' : inv s → step s s' → later s s'.
Proof.
  intros Hi [ok n s1 He Hr|He Hp|i He Hy Hs|s1 [n He Hp]].
  - by eapply moves_later, run_moves.
  - apply later_pending.
  - apply later_synced.
  - by constructor.
Qed.

Lemma steps_inv s s' : inv s → rtc step s s' → inv s' ∧ later s s'.
Proof.
  intros Hi Hr. revert Hi. induction Hr as [s|s s1 s2 Hst _ IH]; intros Hi;
    [split; [done|apply later_refl]|].
  destruct IH as [? Hl]; [by eapply step_inv|]. split; [done|].
  eapply later_trans; [by eapply step_later|done].
Qed.

Lemma steps_bounded k s s' : inv s → nsteps step k s s' → (k ≤ steps_left s)%nat.
Proof.
  revert s. induction k as [|k IH]; intros s Hi Hs; [lia|].
  inversion Hs as [|? ? s1 ? H1 H2]; subst.
  pose proof (step_steps _ _ Hi H1). apply IH in H2; [lia|by eapply step_inv].
Qed.

(** C14: an interrupt ends the process: from every state in which the context is
    cancelled - also while [start] still waits for a cache that never comes, or
    a goroutine has failed - every run ends after a bounded number of steps.  It
    ends with an exit: with code 0 or 1, or, when the last step is a panic of
    what runs in the goroutines, with code 2; and never waits for anybody: as
    long as the process has not exited some goroutine can go on without any help
    from outside, also when [GracefulStop] waits for its streams for ever. *)
Theorem shutdown_terminates s :
  reachable s → ctx_done s = true →
  (∀ k s', nsteps step k s s' → (k ≤ steps_left s)%nat) ∧
  (∀ s', rtc step s s' → (∀ s'', ¬ step s' s'') → exit s = None →
   exit s' = Some 0%Z ∨ exit s' = Some 1%Z ∨
   exit s' = Some 2%Z ∧ ∃ s0, rtc step s s0 ∧ panics app s0 s') ∧
  (exit s = None → ∃ n ok s', enabled app n s = true ∧ run app ok n s = Some s').
Proof.
  intros Hi%reachable_inv Hd. split_and!.
  - intros k s'. by apply steps_bounded.
  - intros s' Hr Hno He0. destruct (steps_inv _ _ Hi Hr) as [Hi' Hl].
    destruct (exit s') as [c|] eqn:He.
    + destruct (i_exit s' Hi' c He) as [[[-> | ->] _]| ->]; [by auto..|].
      destruct (exit_two s s' Hi Hr He) as [?|?]; [congruence|auto].
    + exfalso. destruct (cancelled_progress s' Hi' He) as [n Hn]; [by apply (l_ctx _ _ Hl)|].
      destruct (enabled_run n s' Hn) as (ok & s'' & Hs). by eapply Hno, step_run.
  - intros He. destruct (cancelled_progress s Hi He Hd) as [n Hn].
    destruct (enabled_run n s Hn) as (ok & s' & Hs). eauto.
Qed.

End process.
End LifecycleTheorems.
