(* ===== verification/LifecycleExamples.v ===== *)
(** * cmd/main: runs

    Schedules of Lifecycle that can be evaluated: a start, an interrupt, the ways
    the process ends, and the theorems of LifecycleTheorems on them. *)

From stdpp Require Import options.
From stdpp Require Import functions.
From S2P Require Import Prelude.
From S2P Require Import AppConfig.
From S2P Require Import Lifecycle.
From S2P Require Import LifecycleTheorems.
From Stdlib Require Import ZArith.

Module LifecycleExamples.

Import AppConfig Lifecycle LifecycleTheorems.

(** A schedule: signals, synchronisations and instructions. *)
Inductive Tick := Sig | Syn (i : Informer) | Do (ok : bool) (n : Name).

Definition tick (app : Type_) (t : Tick) (s : State) : option State :=
  if exit s is Some _ then None else
  match t with
  | Sig => if pending s then None else Some (set_pending true s)
  | Syn i => if negb (synced s i) && started (TInformer i) s then Some (set_synced i s) else None
  | Do ok n => run app ok n s
  end.

Fixpoint ticks (app : Type_) (l : list Tick) (s : State) : option State :=
  match l with
  | [] => Some s
  | t :: l' => tick app t s ≫= ticks app l'
  end.

Lemma tick_step app t s s' : tick app t s = Some s' → step app s s'.
Proof.
  unfold tick. destruct (exit s) eqn:He; [done|]. destruct t as [|i|ok n].
  - destruct (pending s) eqn:Hp; [done|]. intros [= <-]. by apply step_signal.
  - destruct (synced s i) eqn:Hy, (started (TInformer i) s) eqn:Hs; simpl; try done.
    intros [= <-]. by apply step_synced.
  - by apply step_run.
Qed.

Lemma ticks_steps app l s s' : ticks app l s = Some s' → rtc (step app) s s'.
Proof.
  revert s. induction l as [|t l IH]; intros s; simpl; [by intros [= <-]|].
  destruct (tick app t s) as [s1|] eqn:E; [|done]. intros Hl.
  eapply rtc_l; [by eapply tick_step|by apply IH].
Qed.

Definition goes (n : Name) (k : nat) : list Tick := replicate k (Do true n).

(** A start without a failure, until everything listens. *)
Definition boot (elect : bool) : list Tick :=
  let st := if elect then TStart else TMain in
  goes TMain (if elect then 7 else 5)
  ++ (if elect then goes TElect 1 ++ goes TStart 1 else [])
  ++ goes st 9 ++ map Syn [INodes; IPods; IConfigMaps; IEndpoints] ++ goes st 10
  ++ goes (TServe SHttp) 2 ++ goes (TServe STls) 3 ++ goes (TServe SGrpc) 2.

(** An interrupt, and the goroutine that receives it. *)
Definition interrupt : list Tick := [Sig; Do true TSignal].

(** The end of [main]. *)
Definition main_returns : list Tick := goes TMain 3.

(** The metrics server is shut down: [log.Fatal], the exit handler. *)
Definition http_fatal : list Tick := goes (TShutdown SHttp) 2 ++ goes (TServe SHttp) 4.

(** *** What a run depends on *)

(** Settings with the given mode. *)
Definition settings (elect : bool) : Type_ :=
  let a := AppConfig.config (λ _, "ecp") "v1" in
  mkType (GracePeriod a) (LogLevel a) (LogPretty a) (LogAccess a) (LogPath a)
    (LogReportCaller a) (ConfigFile a) (ConfigMapLabels a) (ConfigMapNames a)
    (KubeConfigFile a) (WatchNamespaced a) elect (PodName a) (Namespace a) (GrpcAddress a)
    (WebHTTPAddress a) (WebHTTPSAddress a) (NodeZoneLabel a) (ConfigDrainPeriod a)
    (EndpointCheckPeriod a) (SentryDSN a) (SSLName a) (SSLCrt a) (SSLKey a)
    (SSLDoNotUseValidation a) (SSLRotationPeriod a) (WebAdminUser a) (WebAdminPassword a).

(** How long a goroutine sleeps does not matter. *)
Definition erase (i : Instr) : Instr := match i with ISleep _ => ISleep 0 | _ => i end.

Definition same_mode (app app' : Type_) : Prop :=
  LeaderElection app = LeaderElection app' ∧
  (LeaderElection app = true → namespace_given app = namespace_given app').

Lemma run_same app app' ok n s :
  same_mode app app' → run app ok n s = run app' ok n s.
Proof.
  intros [Hle Hg]. unfold run. destruct (threads s n) as [|pc|]; try done.
  assert (erase <$> code app n = erase <$> code app' n) as Hc.
  { unfold_code. unfold ctx_start. rewrite Hle.
    by destruct (LeaderElection app'), n as [| | | |j| | | |[]|[]]. }
  apply (f_equal (.!! pc)) in Hc. rewrite !list_lookup_fmap in Hc.
  destruct (code app n !! pc) as [i|] eqn:Ei, (code app' n !! pc) as [i'|]; simplify_eq/=; [|done].
  assert (exec app ok i s = exec app' ok i' s) as ->; [|done].
  destruct (decide (i = ICheckFlags)) as [->|Hne].
  - destruct i'; simplify_eq/=. rewrite Hg; [done|].
    unfold_code. destruct (LeaderElection app); [done|]. exfalso.
    destruct n as [| | | |j| | | |[]|[]]; simpl in Ei; by_index pc Ei.
  - by destruct i, i'; simplify_eq/=.
Qed.

Lemma ticks_same app app' l s : same_mode app app' → ticks app l s = ticks app' l s.
Proof.
  intros Hm. revert s. induction l as [|t l IH]; intros s; simpl; [done|].
  assert (tick app t s = tick app' t s) as ->.
  { unfold tick. destruct t; [done..|]. by rewrite (run_same app app'). }
  destruct (tick app' t s); simpl; [apply IH|done].
Qed.

(** What is observed of the end of a schedule. *)
Definition observe {A} (o : State → A) (elect : bool) (l : list Tick) : option A :=
  o <$> ticks (settings elect) l initial.

Lemma observed {A} (o : State → A) elect l x :
  observe o elect l = Some x → ∃ s, ticks (settings elect) l initial = Some s ∧ o s = x.
Proof. unfold observe. destruct (ticks _ _ _) as [s|]; [|done]. intros [= <-]. by exists s. Qed.

Lemma ticks_app app l1 l2 s :
  ticks app (l1 ++ l2) s = ticks app l1 s ≫= ticks app l2.
Proof.
  revert s. induction l1 as [|t l1 IH]; intros s; [done|]. simpl.
  destruct (tick app t s); simpl; [apply IH|done].
Qed.

(** Everything runs and listens. *)
Definition up (s : State) : bool :=
  forallb (λ i, started (TInformer i) s) [INodes; IPods; IConfigMaps; IEndpoints]
  && forallb (listening s) [SHttp; STls; SGrpc] && bool_decide (exit s = None).

Definition view (s : State) := (up s, leading s, ctx_done s, exit s).

Lemma observe_boot elect :
  observe view elect (boot elect) = Some (true, elect, false, None) ∧
  observe view elect (boot elect ++ interrupt) = Some (true, elect, true, None) ∧
  observe exit elect ((boot elect ++ interrupt) ++ main_returns) = Some (Some 0%Z) ∧
  observe exit elect ((boot elect ++ interrupt) ++ http_fatal) = Some (Some 1%Z).
Proof. destruct elect; vm_compute; split_and!; reflexivity. Qed.

(** The exit code of an interrupted process is a race: in both modes, a
    process that started without any failure can, after one interrupt and
    without any failure of a call, end with 0 - [main] returns after the grace
    period - or with 1 - [ListenAndServe] reports that its server was shut down,
    which the code takes for a fatal error. *)
Theorem interrupt_exit_code app :
  (LeaderElection app = true → namespace_given app = true) →
  ∃ s s',
    rtc (step app) initial s ∧ up s = true ∧ leading s = LeaderElection app ∧
    ctx_done s = false ∧
    ticks app interrupt s = Some s' ∧ exit s' = None ∧ ctx_done s' = true ∧
    (∃ s0, ticks app main_returns s' = Some s0 ∧ exit s0 = Some 0%Z) ∧
    (∃ s1, ticks app http_fatal s' = Some s1 ∧ exit s1 = Some 1%Z).
Proof.
  intros Hg. set (elect := LeaderElection app).
  assert (same_mode app (settings elect)) as Hm.
  { split; [done|]. intros E. by rewrite Hg. }
  destruct (observe_boot elect) as (H1 & H2 & H3 & H4).
  apply observed in H1 as (s & E1 & [= Hu1 Hl1 Hd1 Hx1]).
  apply observed in H2 as (s' & E2 & [= Hu2 Hl2 Hd2 Hx2]).
  apply observed in H3 as (s0 & E3 & Hx3). apply observed in H4 as (s1 & E4 & Hx4).
  rewrite ticks_app, E2 in E3, E4. rewrite ticks_app, E1 in E2.
  cbn [mbind option_bind] in E2, E3, E4.
  rewrite <-(ticks_same app) in E1, E2, E3, E4 by done.
  exists s, s'. split_and!; try done; [by eapply ticks_steps|by exists s0|by exists s1].
Qed.

(** ** Witnesses *)

Lemma reached_by elect l s :
  ticks (settings elect) l initial = Some s → reachable (settings elect) s.
Proof. apply ticks_steps. Qed.

Lemma interrupt_exit_code_witness :
  ∃ s1, reachable (settings true) s1 ∧ exit s1 = Some 1%Z.
Proof.
  destruct (interrupt_exit_code (settings true) (λ _, eq_refl))
    as (s & s' & Hs & _ & _ & _ & Hi & _ & _ & _ & s1 & E1 & Hx).
  exists s1. split; [|exact Hx].
  unfold reachable. etrans; [exact Hs|]. etrans; [eapply ticks_steps, Hi|eapply ticks_steps, E1].
Defined.

Lemma start_order_witness :
  ∃ s, reachable (settings true) s ∧ started (TInformer IPods) s = true ∧ callbacks s = true.
Proof.
  destruct (observed (started (TInformer IPods)) true (boot true) true) as (s & E & Hs);
    [vm_compute; reflexivity|].
  exists s. split; [by eapply reached_by|]. split; [exact Hs|].
  apply (proj1 (start_order (settings true) s (reached_by _ _ _ E)) IPods ltac:(discriminate) Hs).
Defined.

Lemma lease_gate_witness :
  ∃ s, reachable (settings true) s ∧ listening s SHttp = true ∧ listening s STls = false.
Proof.
  destruct (observed (λ s, (listening s SHttp, leading s)) true (goes TMain 7 ++ goes (TServe SHttp) 2)
    (true, false)) as (s & E & Hs); [vm_compute; reflexivity|].
  apply pair_equal_spec in Hs as [Hh Hl].
  exists s. split; [by eapply reached_by|]. split; [exact Hh|].
  apply (lease_gate (settings true) s eq_refl (reached_by _ _ _ E) Hl).
Defined.

(** An interrupt while the cache of the pods never comes. *)
Lemma shutdown_terminates_witness :
  ∃ s, reachable (settings false) s ∧ exit s = None ∧ synced s IPods = false ∧
    ∃ n ok s', enabled (settings false) n s = true ∧ run (settings false) ok n s = Some s'.
Proof.
  destruct (observed (λ s, (ctx_done s, exit s, synced s IPods)) false
    (goes TMain 14 ++ interrupt) (true, None, false)) as (s & E & Hs); [vm_compute; reflexivity|].
  apply pair_equal_spec in Hs as [[Hd Hx]%pair_equal_spec Hy].
  exists s. split; [by eapply reached_by|]. split; [exact Hx|]. split; [exact Hy|].
  apply (shutdown_terminates (settings false) s (reached_by _ _ _ E) Hd). exact Hx.
Defined.

(** A file without a PEM block: the exit handler is registered, and nothing is
    cancelled. *)
Lemma init_panics :
  ∃ s, reachable (settings false) s ∧ exit s = Some 2%Z ∧ ctx_done s = false ∧ handler s = true.
Proof.
  destruct (observed (λ s, (exit s, ctx_done s, handler s, may_panic (settings false) TMain s)) false
    (goes TMain 2) (None, false, true, true)) as (s & E & Hs); [vm_compute; reflexivity|].
  injection Hs as Hx Hd Hh Hp. exists (set_exit 2 s). split_and!; try done.
  eapply rtc_r; [by eapply reached_by|]. apply step_panic. by apply (panic (settings false) s TMain).
Qed.

End LifecycleExamples.
